(* ===== verification/_CoqProject ===== *)
-Q . S2P
Prelude.v
Sha256.v
StoreTypes.v
Retention.v
MemoryStore.v
GroupLog.v
GroupInv.v
Submission.v
Interleaving.v
StoreProps.v
FetchProps.v
Scenario.v
LinkBox.v
LinkBoxInv.v
LinkBoxProps.v
Sweep.v
Reassembly.v
ReassemblyProps.v
Connections.v
ConnectionProps.v
Prog.v
Message.v
Api.v
ApiRecord.v
ApiSubmit.v
ApiFetch.v
ApiRendezvous.v
SubmitChecks.v
ApiSubmitProps.v
Server.v
ServerProps.v
ApiFetchProps.v
ApiScenario.v
Subscriptions.v
RendezvousPush.v
Registry.v
SubscriptionsProps.v
RendezvousPushProps.v
RegistryProps.v
RendezvousClaims.v
RegistryScenario.v
SubscribeRace.v
Dispatch.v
DispatchProps.v
DispatchScenario.v
Receive.v
ReceiveProps.v
Resource.v
Settings.v
SettingsProps.v
Sql.v
OneKey.v
PgxBoxes.v
PgxBoxesProps.v
PgxUnlocked.v
PgxSweep.v
PgxProps.v
PgxRecord.v
PgxGroups.v
PgxStore.v
PgxStored.v
PgxReads.v
PgxFetch.v
PgxWrites.v
PgxCreate.v
PgxGates.v
PgxAnswers.v
PgxCommit.v
PgxSubmit.v
PgxTransact.v
PgxGroupProps.v
Endpoint.v
EndpointProps.v
Migrations.v
MigrationsProps.v
Deployment.v
Wiring.v
WiringProps.v
SweepJob.v
PeerClose.v
