(* ===== verification/Prelude.v ===== *)
(** * Verification of the URmessage message server

    The message server keeps the records of end-to-end encrypted groups and hands them out in
    order.  It does not read a record's body; it decides which records are accepted, in which order
    they stand, which keys authenticate whom, and how long things are kept.  This library models
    those decisions, one file per component, and proves what they promise.  It is written against
    the Go sources under [src/]; a definition carries the name of the function or type it
    translates where Rocq allows it.

    ** The program and the files

    A frame arrives from the platform's [connect] transport or at the server's own WebSocket endpoint
    ([endpoint/endpoint.go]).  [peer] assembles fragments into a request
    ([peer/frame.go]), resolves the connection it came on and checks its nonce
    ([peer/connection.go], [peer/hello.go], [peer/checks.go]), and dispatches to a handler of [api]
    on a worker ([peer/peer.go]), which calls a [store].  What a handler accepts it publishes to the
    registry of subscriptions ([api/subscribe.go], [api/rendezvous_push.go]), whose delivery
    goroutine hands pushes back to the peer.  A job of [sweep] reclaims expired rendezvous state
    from the store.  [cmd/message-server] reads the deployment and the configuration, starts all this,
    answers whether it is ready and stops it; its database is brought to head beforehand
    ([store/migrations.go]).

    - [Prelude]: Go values (nil-able slices, machine integers with their wrap-around, instants as
      nanoseconds, answers that may be errors), the development's tactics and hint databases, and
      the lemmas on integers and lists the components share.
    - [Sha256]: SHA-256 of the Go library, executable; the store compares and keeps such hashes.
    - [StoreTypes]: the data of [store/store.go] and the record checks and projections of
      [store/memory.go] ([Record] is [Rec.t]; [validateRecord], [openingOf],
      [wellFormedEpochAttachment], ...).
    - [Retention]: [Limits.apply], [pruneAfter] and [limitsOf] ([cmd/message-server/config.go]),
      with their theorems.
    - [MemoryStore]: the in-memory store ([store/memory.go]): [memoryGroup.t] is one group with all
      its tables, [Submit] is [submit_probe] (before the row lock) and [submit_finish] (under it),
      and [CreateGroup], [CloseGroup], [GroupStateOf], [EpochKeysOf] and [Fetch] are the other
      methods.  Refusals are values of [Reason]; a caller's errors are values of [Error].
    - [GroupLog]: the abstract specification.  A group is a log of records; [replay] computes from
      it everything a group must know ([view]), and [admissible] says which record may come next.
    - [GroupInv], [Submission], [Interleaving]: the invariant that a group's tables are the replay
      of its log, the exact outcome of a submission under the lock, and the transition system in
      which any number of submissions sit between their probe and the lock ([inflight], [step],
      [reachable]).  [Interleaving.config_ok] holds in every reachable configuration.
    - [StoreProps], [FetchProps]: the store's theorems; [Scenario]: a concrete run that opens a
      group, fans keys out, writes, loses and wins commits and closes, with a witness per theorem.
    - [LinkBox], [LinkBoxInv], [LinkBoxProps]: the link boxes of [store/memory.go], two tables of
      rows kept in step, with their theorems and witnesses.
    - [Sweep]: [sweep/sweep.go].  [LinkBoxSweeper] is the interface of the store a pass is written
      against and [LawfulSweeper] its promises; the memory store is an instance.
    - [Reassembly], [ReassemblyProps]: [peer/frame.go]; the specification is one step on a map of
      buffers ([spec_accept]), with no counts and no expiry list.
    - [Connections], [ConnectionProps]: the connection table, Hello and checks 1 and 2, with the
      connection objects in an explicit store because the code shares them by pointer.

    - [Prog], [Message]: programs over named operations, their runs and the rules that compose them;
      the requests, answers and the protobuf and record-layer functions the handlers call ([Library],
      a class, with its documented laws in [LibraryLaws]).
    - [Api], [ApiRecord], [ApiSubmit], [ApiFetch], [ApiRendezvous]: the handlers of [api] as programs,
      one definition per check: [Submit] and [CreateGroup] ([api/submit.go], [api/epochkeys.go]),
      [Fetch] ([api/fetch.go]), [Subscribe] and [Unsubscribe] ([api/subscribe.go]), the five
      rendezvous arms ([api/rendezvous.go]), and the state they run over ([api/api.go]).
    - [SubmitChecks], [ApiSubmitProps], [ApiFetchProps]: the handlers' theorems, over any store.
      [Server], [ServerProps]: any number of handlers interleaved over [MemoryStore], and the
      refinement that carries the store's theorems to them.  [ApiScenario]: the witnesses.
    - [Subscriptions], [RendezvousPush], [Registry]: the two halves of the registry, and the
      transition system of its callers, its signal channel and its delivery goroutine.
      [SubscriptionsProps], [RendezvousPushProps], [RegistryProps], [RendezvousClaims]: the theorems;
      [RegistryScenario]: the witnesses; [SubscribeRace]: the run in which a subscriber misses a
      commit.
    - [Dispatch], [DispatchProps], [DispatchScenario]: one job of [peer/peer.go] from the request's
      octets to the frames sent, a padded answer and its semaphores included.
    - [Receive], [ReceiveProps]: the receive loop, its two queues and their workers, and pushes.
      [PeerClose]: the peer's goroutines, the wait group and semaphores they share, and [Close], as a
      transition system; [SweepJob]: the same of the sweep's goroutine and its once guards.
    - [Endpoint]: the endpoint's fields and what each critical section does to them, one definition a
      section; [EndpointProps]: its goroutines, one per connection and per [Close], as a transition
      system, its invariant [tidy], the theorems and witnesses.
    - [Resource], [Settings], [SettingsProps]: the reader of resource files
      ([cmd/message-server/resource.go]) and the configuration ([cmd/message-server/config.go]).
    - [Deployment]: what a process is deployed with ([deployment.go]), what is printed of it, the
      service addresses ([transport.go]), and its theorem.
    - [Wiring], [WiringProps]: [buildServer] as a program whose calls may fail, the preconditions and
      answers of [/readyz], what a failed bind may say, what is advertised, the order of [Close]
      ([server.go], [endpoint.go], [health.go]); the error classes ([store/errorclass.go]).

    - [Sql]: sessions of a database as [store/pgx.go] uses them: transactions, row locks, calls that
      fail with or without their effect, other sessions between two calls; and a logic of every run.
    - [PgxBoxes]: the link boxes over PostgreSQL: the tables of [store/migrations.go] (013, 014), a
      function for each SQL statement, and each method as a program of statements.
      [PgxBoxesProps] (the arms that lock their box), [PgxUnlocked] (registration and the count)
      and [PgxSweep] relate them to [LinkBox]; [PgxProps]: the theorems about runs, and witnesses.
    - [OneKey]: where every statement works on the rows of one key, what a program makes of them
      ([post]) is what every run of its transaction makes of them ([spec_transaction]).
    - [PgxRecord], [PgxGroups], [PgxStore]: the groups over PostgreSQL: the key ring and its wraps, a
      record into its columns and back; the tables (001 to 012) with their constraints and a function
      for each SQL statement; each method as a program of statements.
      [PgxStored]: what it is for rows to hold a group ([stored], [represents], [sane]).
      [PgxReads], [PgxFetch], [PgxCreate]: the reads, the closing and the founding, related to
      [MemoryStore]; [PgxWrites], [PgxGates], [PgxAnswers], [PgxCommit], [PgxSubmit], [PgxTransact]:
      a submission, from the rows of one insert to the whole method; [PgxGroupProps]: the theorems
      about runs, and witnesses.
    - [Migrations]: [Migrate] and [MigrationsAtHead] as programs of statements on a connection, and many
      connections on one database, with failing calls, lost connections and the advisory lock.
      [MigrationsProps]: the positions a database takes ([at_]), a logic of programs that share it
      ([holds_over]), the theorems and witnesses.

    ** What the theorems show

    - The log (C1-C9, C36).  However submissions interleave: a batch is written whole or not at
      all; a retry is answered from the claims and writes nothing, for as long as the store lives;
      a group's tables are the replay of its log; ids have no gap; one commit wins an epoch and the
      loser is handed it; a record is accepted exactly when the specification admits it; ordinary
      records wait for the fan-out; keys are held exactly as long as they are needed; a closed group
      cannot be told from an unknown one.
    - Reading (C10).  Following the cursor reads everything once and stops.  ([FetchProps.fetch_exact]: a
      page is exactly the records asked for.)
    - The groups over PostgreSQL (C13, C14).  A submission does at two moments what the two phases of
      the in-memory store do; the other methods do at one moment what the in-memory ones do; or
      nothing.  So the theorems on the log are theorems on the tables.
    - Migrations (C15, C35).  However many runners and readers share a database and whatever fails, it
      is at some first migrations of the list, each run once; answers about it are true; a runner by
      itself is the reference walk.
    - The handlers (C11, C12, C16-C20).  In every reachable state of the interleaved server each
      record of a log was verified under the key of its epoch; every run of the handlers is a run of
      the store; the store is never asked anything ill formed; a page is served only to a request
      that was authenticated for it, and carries what was submitted; the checks come before the
      reads; and refusals cannot be told apart.
    - Pushes (C21-C24).  What is owed is pushed once calls stop; the two maps and the counts of the
      registry agree; a rendezvous subscription stands as long as a collect holds it; and the window
      in which a subscriber misses a commit.  ([RegistryProps.pushes_under_ceiling]: a push stays under
      its reader's ceiling.)
    - The peer (C25-C27).  Every job returns and answers its own request; the receive path, its
      queues and workers refine a specification of one decision per frame; a push goes to the
      connection of its client's last Hello.  ([PeerClose.close_ends_everything] and
      [SweepJob.close_waits]: closing ends every goroutine in a bounded number of steps.)
    - The endpoint (C28, C29, C40).  A frame for a connection of the endpoint is never the platform's;
      closing drains; and the cap on connections does not bind requests that upgrade together.
      ([EndpointProps.connections_accounted]: the counters add up.)
    - The process (C31-C33).  A deployment that loads holds what its files and variables say, and prints
      no value; a start is all or nothing; ready means able to serve.
    - The configuration (C30).  What is loaded is what was given, within bounds, or the error says
      what was wrong.  ([SettingsProps.printed_configuration_reloads]: printed, it loads as itself.)
    - The link boxes over PostgreSQL (C34).  The arms do at one moment what the in-memory arms do, or
      nothing.  ([PgxProps.pgx_register]: a registration counts under the cap in tables that were
      committed; [PgxProps.pgx_sweep]: a sweep is bounded and no arm can observe it.)
    - Framing (C37, C38).  The reassembler refines its specification and assembles what the sender's
      side cut, with anything interleaved.  ([ReassemblyProps.reassembly_bounded]: its bounds.)
    - Connections (C39).  Only the nonce of the last Hello authenticates.
    - Beside these, as lemmas: the clamp of retention is exact ([Retention.apply_exact]); sweeps of link
      boxes no arm can observe and a pass that ends ([LinkBoxProps.sweep_invisible], [Sweep.pass_ends]);
      at most two deposits in a box's life ([LinkBoxProps.deposit_at_most_twice]).

    ** Choices

    A clock reading is an argument, one per reading of the code, and a context is the error it
    would report, if any.  Maps keyed by octets are [gmap]s; a Go map ranged over is read through a
    function that does not depend on the order, or the theorem is proved for every order.  Integers
    are [Z] with the reduction of their width written at each operation that can overflow; ids and
    epochs wrap at 2^64, and the theorems whose conclusion needs it assume fewer than 2^64 records.
    Four recursions run on fuel: [Sha256.blocks] with the padded message's number of
    blocks; [Reassembly.expireLoop] with one turn more than the list has nodes,
    proved to end within it ([expire_exact]); [Sweep.passLoop] is bounded in the code by
    [maxBatches] and runs with exactly that; [Settings.digitsOf] with the 19 digits an int64 has at
    most.  Code that is not in [src/] is a parameter: the record layer and the protobuf runtime
    ([Message.Library] with [Message.LibraryLaws]), the envelope and its marshaller
    ([Dispatch.Wire], [Receive.Unwire]), the random source of [Open], and the sweeper's store behind
    its interface, AES-GCM and the database's timestamps ([PgxRecord.Vault], [PgxRecord.Timestamps]),
    the effect of DDL ([Migrations.Ddl]), certificates and frames ([Endpoint.FrameWire]).  Where many
    goroutines run, a theorem on their end bounds the steps they can take by themselves by a measure
    ([EndpointProps.work], [PeerClose.work], [SweepJob.work]) and says what is left when none can.
    A handler is a program over its collaborators, so that it can be interleaved call by call.

    The two stores differ where the columns do.  A page or a winning commit out of PostgreSQL carries
    the prune time of its row and the epoch keys as they are kept by then ([PgxFetch.reissued]), where
    the in-memory store hands out the record it was given; instants are whole microseconds; and the
    theorems on it are for records within the columns' ranges ([PgxCommit.submittable]; past them the
    insert fails, [PgxGroupProps.wide_index_fails]) and for batches that do not pin one recovery handle
    to two keys ([PgxGates.consistent]: the gates over PostgreSQL read the pins once, so such a batch is
    refused later than in memory, and may be refused for another of its records).

    ** What is not modelled

    - The making of the pool and the readiness checks of the clock and the time zone ([store/pgx.go]),
      which are the driver's calls; what a migration's DDL does to a schema.  The database's own
      behaviour is the documented one of its statements: a statement sees what is committed and its
      own transaction, a locked row is changed by nobody else, a constraint that fails fails its
      statement, a session that ends gives up its advisory lock.
    - TLS, HTTP and the WebSocket library under the endpoint, the platform's client and its parser of
      credentials ([Deployment.Credentials]), and the health listener's own goroutine.
    - The counters of the peer that only report, signals, flags and printing ([main.go]).
    - The tools ([cmd/messagectl], [harness]) and the contract suites of [store], which are tests.
    - Prose the program prints about itself ([NotBuilt]), logging and metrics.

    Goroutines and locks appear as the critical sections they delimit. *)

From stdpp Require Export base tactics gmap list fin_maps strings.
From stdpp Require Import sorting.
From Stdlib Require Export ZArith Lia.

#[global] Open Scope Z_scope.

(** ** Go data *)

(** A Go [[]byte]: [None] is the nil slice, [Some l] a slice holding the octets [l].
    The distinction is kept because the code tests some fields against [nil]. *)
Abbreviation slice := (option (list Z)).

(** The string [string(b)] that Go maps are keyed by: the octets, with nil read as "". *)
Definition octets (b : slice) : list Z := default [] b.

(** [len(b)]. *)
Definition len (b : slice) : Z := Z.of_nat (length (octets b)).

(** [bytes.Equal]: the octets agree; a nil slice equals an empty one. *)
Definition bytes_Equal (a b : slice) : bool := bool_decide (octets a = octets b).

(** [bytes.Clone]: the same value at a fresh address. Values are immutable here, so it is the
    identity; it keeps nil nil, as Go's does. *)
Definition bytes_Clone (b : slice) : slice := b.

(** ** Machine integers *)

Definition two32 : Z := 2 ^ 32.
Definition two63 : Z := 2 ^ 63.
Definition two64 : Z := 2 ^ 64.

(** Reduction of a mathematical integer to an unsigned width, and to int64. *)
Definition u8 (z : Z) : Z := z mod 256.
Definition u32 (z : Z) : Z := z mod two32.
Definition u64 (z : Z) : Z := z mod two64.
Definition i64 (z : Z) : Z := (z + two63) mod two64 - two63.
Definition i32 (z : Z) : Z := (z + 2 ^ 31) mod two32 - 2 ^ 31.

(** ** Time *)

(** An instant ([time.Time], UTC) is the nanoseconds since Go's zero Time, January 1 of year 1; a
    [time.Duration] is an int64 of nanoseconds. *)
Abbreviation time := Z.
Definition zero_time : time := 0.
Definition Microsecond : Z := 1000.
Definition Millisecond : Z := 1000 * Microsecond.
Definition Second : Z := 1000 * Millisecond.

(** [t.Before(u)] *)
Definition Before (t u : time) : bool := t <? u.

(** Seconds from Go's zero Time to the Unix epoch, and [t.UnixMilli()]. *)
Definition unixToInternal : Z := 62135596800.
Definition UnixMilli (t : time) : Z := i64 ((t - unixToInternal * Second) / Millisecond).

(** [t.Truncate(time.Microsecond)]: down to a multiple, counted from the zero Time. *)
Definition truncate_micro (t : time) : time := t - t mod Microsecond.

(** ** Answers that may be an error *)

(** A Go [(T, error)] pair of which exactly one half is set. *)
Inductive res (E A : Type) : Type :=
  | Ok (a : A)
  | Err (e : E).
Arguments Ok {E A} a.
Arguments Err {E A} e.

Definition res_bind {E A B} (m : res E A) (k : A → res E B) : res E B :=
  match m with Ok a => k a | Err e => Err e end.

(** The Go idiom [if err := f(); err != nil { return err }] over checks that answer an optional
    error: the first error wins. *)
Definition first_error {E} (a b : option E) : option E :=
  match a with Some e => Some e | None => b end.

Declare Scope go_scope.
Delimit Scope go_scope with go.
Notation "a ;;? b" := (first_error a b)
  (at level 60, right associativity) : go_scope.
(** ** Automation shared by the components *)

(** Clears the boolean tests of the translated code into propositions. *)
Ltac reflect_bools :=
  repeat match goal with
  | H : context [bool_decide _] |- _ => rewrite bool_decide_eq_true in H || rewrite bool_decide_eq_false in H
  | H : (_ && _)%bool = true |- _ => apply andb_prop in H as [? ?]
  | H : (_ || _)%bool = false |- _ => apply orb_false_elim in H as [? ?]
  | H : negb _ = true |- _ => apply negb_true_iff in H
  | H : negb _ = false |- _ => apply negb_false_iff in H
  | H : (_ =? _) = true |- _ => apply Z.eqb_eq in H
  | H : (_ =? _) = false |- _ => apply Z.eqb_neq in H
  | H : (_ <? _) = true |- _ => apply Z.ltb_lt in H
  | H : (_ <? _) = false |- _ => apply Z.ltb_ge in H
  | H : (_ <=? _) = true |- _ => apply Z.leb_le in H
  | H : (_ <=? _) = false |- _ => apply Z.leb_gt in H
  end.

(** Case analysis on every [match] and [if] of a hypothesis or of the goal. *)
Ltac cases_in H :=
  repeat (match type of H with
          | context [match ?x with _ => _ end] => destruct x eqn:?
          end; try discriminate H; simplify_eq/=).
Ltac cases := repeat (case_match; simplify_eq/=; try done).

Create HintDb server.
Create Rewrite HintDb server_rw.

(** ** Machine-integer and error lemmas *)

Lemma u64_small z : 0 <= z < two64 → u64 z = z.
Proof. apply Z.mod_small. Qed.
Lemma u64_range z : 0 <= u64 z < two64.
Proof. apply Z.mod_pos_bound. reflexivity. Qed.
Lemma u64_add_l a b : u64 (u64 a + b) = u64 (a + b).
Proof. apply Z.add_mod_idemp_l. done. Qed.
Lemma u64_succ_ne z : 0 <= z < two64 → u64 (z + 1) ≠ z.
Proof.
  intros Hz. unfold u64. destruct (decide (z + 1 = two64)) as [E|].
  - rewrite E, Z_mod_same_full. unfold two64 in *. lia.
  - rewrite Z.mod_small; lia.
Qed.
Lemma i64_small z : - two63 <= z < two63 → i64 z = z.
Proof. unfold i64, two63, two64. intros. rewrite Z.mod_small by lia. lia. Qed.
Lemma i64_large z : two63 <= z < two64 → i64 z < 0.
Proof.
  unfold i64, two63, two64. intros. rewrite <- (Z_mod_plus_full _ (-1)), Z.mod_small by lia. lia.
Qed.
Lemma i64_add_l a b : i64 (i64 a + b) = i64 (a + b).
Proof.
  unfold i64. replace ((a + two63) mod two64 - two63 + b + two63) with ((a + two63) mod two64 + b) by lia.
  rewrite Z.add_mod_idemp_l by done. do 2 f_equal. lia.
Qed.
Lemma i32_small z : 0 <= z < 2 ^ 31 → i32 z = z.
Proof. unfold i32, two32. intros. rewrite Z.mod_small; lia. Qed.
Lemma u32_small z : 0 <= z < two32 → u32 z = z.
Proof. apply Z.mod_small. Qed.
#[export] Hint Rewrite u64_add_l i64_add_l : server_rw.

Lemma first_error_None {E} (a b : option E) : first_error a b = None ↔ a = None ∧ b = None.
Proof. destruct a; simpl; split; [discriminate|by intros []|done|by intros []]. Qed.

(** ** List lemmas *)

Lemma filter_all {A} (P : A → Prop) `{!∀ x, Decision (P x)} (l : list A) :
  Forall P l → filter P l = l.
Proof. induction 1; [done|]. rewrite filter_cons_True by done. by f_equal. Qed.

Lemma filter_none {A} (P : A → Prop) `{!∀ x, Decision (P x)} (l : list A) :
  Forall (λ x, ¬ P x) l → filter P l = [].
Proof. induction 1; [done|]. by rewrite filter_cons_False. Qed.

Lemma Forall_filter {A} (Q P : A → Prop) `{!∀ x, Decision (P x)} (l : list A) :
  Forall Q l → Forall Q (filter P l).
Proof. rewrite !Forall_forall. intros HQ x Hx. apply list_elem_of_filter in Hx as [_ Hx]. auto. Qed.

Lemma filter_sorted {A B} (R : B → B → Prop) (f : A → B) (P : A → Prop)
    `{!∀ x, Decision (P x)} (l : list A) :
  StronglySorted R (f <$> l) → StronglySorted R (f <$> filter P l).
Proof.
  induction l as [|x l IH]; [done|]. rewrite fmap_cons, StronglySorted_cons, filter_cons.
  intros [Hx Hs]. case_decide; [|auto]. rewrite fmap_cons, StronglySorted_cons. split; [|auto].
  rewrite Forall_fmap in Hx |- *. by apply Forall_filter.
Qed.

Lemma filter_nodup {A B} (f : A → B) (P : A → Prop) `{!∀ x, Decision (P x)} (l : list A) :
  NoDup (f <$> l) → NoDup (f <$> filter P l).
Proof.
  induction l as [|x l IH]; [done|]. rewrite fmap_cons, NoDup_cons, filter_cons.
  intros [Hx Hs]. case_decide; [|auto]. rewrite fmap_cons, NoDup_cons. split; [|auto].
  intros Hin. apply Hx. apply list_elem_of_fmap in Hin as (y & -> & Hy).
  apply list_elem_of_filter in Hy as [_ Hy]. by apply list_elem_of_fmap_2.
Qed.

(** With a key that occurs once, filtering on it and filtering on the whole entry agree, and the
    list is the entry and the rest. *)
Lemma fmap_NoDup_inj {A B} (f : A → B) (l : list A) x y :
  NoDup (f <$> l) → x ∈ l → y ∈ l → f x = f y → x = y.
Proof.
  intros Hd [i Hi]%list_elem_of_lookup_1 [j Hj]%list_elem_of_lookup_1 E.
  assert (i = j) as <-; [|congruence].
  eapply (NoDup_lookup (f <$> l)); [done| |]; rewrite list_lookup_fmap.
  - by rewrite Hi.
  - rewrite Hj. simpl. by rewrite E.
Qed.

Lemma filter_key_Permutation {A B} `{!EqDecision B} (f : A → B) (l : list A) x :
  NoDup (f <$> l) → x ∈ l → l ≡ₚ x :: filter (λ y, f y ≠ f x) l.
Proof.
  induction l as [|y l IH]; intros Hd Hx; [by apply elem_of_nil in Hx|].
  rewrite fmap_cons, NoDup_cons in Hd. destruct Hd as [Hy Hd]. rewrite filter_cons.
  apply list_elem_of_In in Hx as [->|Hx]; [|apply list_elem_of_In in Hx].
  - rewrite decide_False by tauto. f_equiv. rewrite filter_all; [done|].
    apply Forall_forall. intros z Hz E. apply Hy. rewrite <- E. by apply list_elem_of_fmap_2.
  - rewrite decide_True.
    + rewrite (IH Hd Hx) at 1. apply Permutation_swap.
    + intros E. apply Hy. rewrite E. by apply list_elem_of_fmap_2.
Qed.

Lemma filter_ext_in {A} (P Q : A → Prop) `{!∀ x, Decision (P x)} `{!∀ x, Decision (Q x)}
    (l : list A) : (∀ x, x ∈ l → P x ↔ Q x) → filter P l = filter Q l.
Proof.
  induction l as [|x l IH]; intros HPQ; [done|]. rewrite !filter_cons, IH by (intros; apply HPQ; by right).
  pose proof (HPQ x (list_elem_of_here _ _)). repeat case_decide; tauto.
Qed.

Lemma length_filter_split {A} (P Q : A → Prop) `{!∀ x, Decision (P x)} `{!∀ x, Decision (Q x)}
    (l : list A) :
  (∀ x, Q x ↔ ¬ P x) → (length (filter P l) + length (filter Q l))%nat = length l.
Proof.
  intros HPQ. induction l as [|x l IH]; [done|]. rewrite !filter_cons. pose proof (HPQ x).
  destruct (decide (P x)), (decide (Q x)); try tauto; simpl; lia.
Qed.

Lemma length_omap_le {A B} (f : A → option B) (l : list A) : (length (omap f l) <= length l)%nat.
Proof. induction l as [|x l IH]; [done|]. cbn. destruct (f x); cbn; lia. Qed.

(** Two lists in the order of different keys with the same members are one. *)
Lemma sorted_unique {A} (f : A → Z) (l l' : list A) :
  StronglySorted Z.lt (f <$> l) →
  StronglySorted Z.lt (f <$> l') →
  (∀ x, x ∈ l ↔ x ∈ l') → l = l'.
Proof.
  revert l'. induction l as [|a l IH]; intros [|b l'] Hs Hs' He; [done| | |].
  - exfalso. apply (not_elem_of_nil b), He. by left.
  - exfalso. apply (not_elem_of_nil a), He. by left.
  - cbn in *. apply StronglySorted_cons in Hs as [Ha Hs]. apply StronglySorted_cons in Hs' as [Hb Hs'].
    rewrite Forall_fmap in Ha, Hb. rewrite Forall_forall in Ha, Hb. cbn in Ha, Hb.
    assert (a = b) as ->.
    { assert (a ∈ b :: l') as [|Hab]%elem_of_cons by (apply He; by left); [done|].
      assert (b ∈ a :: l) as [|Hba]%elem_of_cons by (apply He; by left); [done|].
      specialize (Ha _ Hba). specialize (Hb _ Hab). lia. }
    f_equal. apply IH; [done..|]. intros row. specialize (He row). rewrite !elem_of_cons in He.
    split; intros Hr.
    + destruct (proj1 He (or_intror Hr)) as [->|]; [|done]. specialize (Ha _ Hr). lia.
    + destruct (proj2 He (or_intror Hr)) as [->|]; [|done]. specialize (Hb _ Hr). lia.
Qed.

Lemma sorted_strict {A} (f : A → Z) (l : list A) :
  StronglySorted (λ a b, f a <= f b) l → NoDup (f <$> l) → StronglySorted Z.lt (f <$> l).
Proof.
  intros Hs. induction Hs as [|a l _ IH Hle]; intros Hn; [constructor|]. rewrite fmap_cons in *.
  apply NoDup_cons in Hn as [Hni Hn]. constructor; [by apply IH|]. apply Forall_fmap, Forall_forall. intros x Hx.
  eapply Forall_forall in Hle; [|exact Hx]. cbn in *. assert (f x ≠ f a); [|lia].
  intros E. apply Hni. rewrite <- E. by apply list_elem_of_fmap_2.
Qed.

(** A run of steps each of which takes from a measure is no longer than the measure. *)
Lemma nsteps_measure {A} (R : relation A) (measure : A → nat) :
  (∀ x y, R x y → (measure y < measure x)%nat) → ∀ n x y, nsteps R n x y → (n + measure y <= measure x)%nat.
Proof. intros HR n x y. induction 1 as [x|n x y z Hs _ IH]; [lia|]. apply HR in Hs. lia. Qed.
