(* ===== verification/Sha256.v ===== *)
(** * SHA-256, as Go's standard library computes it

    [crypto/sha256] is what the store hashes a record's head with (the stream claim of
    [store/memory.go]) and what it hashes a link box's deposit with ([store/store.go]).  The
    function is written out here, FIPS 180-4 over octets held as [Z], so that every definition
    that uses it stays executable.  No theorem unfolds it: nothing proved below depends on a
    property of the hash beyond its being a function. *)

From S2P Require Import Prelude.

Module Sha256.

Definition w32 (z : Z) : Z := z mod 2 ^ 32.
Definition rotr (n x : Z) : Z := Z.lor (Z.shiftr x n) (w32 (Z.shiftl x (32 - n))).
Definition ch (x y z : Z) : Z := Z.lxor (Z.land x y) (Z.land (2 ^ 32 - 1 - x) z).
Definition maj (x y z : Z) : Z := Z.lxor (Z.lxor (Z.land x y) (Z.land x z)) (Z.land y z).
Definition bsig0 (x : Z) : Z := Z.lxor (Z.lxor (rotr 2 x) (rotr 13 x)) (rotr 22 x).
Definition bsig1 (x : Z) : Z := Z.lxor (Z.lxor (rotr 6 x) (rotr 11 x)) (rotr 25 x).
Definition ssig0 (x : Z) : Z := Z.lxor (Z.lxor (rotr 7 x) (rotr 18 x)) (Z.shiftr x 3).
Definition ssig1 (x : Z) : Z := Z.lxor (Z.lxor (rotr 17 x) (rotr 19 x)) (Z.shiftr x 10).

Definition round_constants : list Z :=
  [1116352408; 1899447441; 3049323471; 3921009573; 961987163; 1508970993; 2453635748; 2870763221;
   3624381080; 310598401; 607225278; 1426881987; 1925078388; 2162078206; 2614888103; 3248222580;
   3835390401; 4022224774; 264347078; 604807628; 770255983; 1249150122; 1555081692; 1996064986;
   2554220882; 2821834349; 2952996808; 3210313671; 3336571891; 3584528711; 113926993; 338241895;
   666307205; 773529912; 1294757372; 1396182291; 1695183700; 1986661051; 2177026350; 2456956037;
   2730485921; 2820302411; 3259730800; 3345764771; 3516065817; 3600352804; 4094571909; 275423344;
   430227734; 506948616; 659060556; 883997877; 958139571; 1322822218; 1537002063; 1747873779;
   1955562222; 2024104815; 2227730452; 2361852424; 2428436474; 2756734187; 3204031479; 3329325298].

Definition initial_state : list Z :=
  [1779033703; 3144134277; 1013904242; 2773480762; 1359893119; 2600822924; 528734635; 1541459225].

(** Big-endian octets of a word, and words of octets. *)
Fixpoint be_octets (n : nat) (z : Z) : list Z :=
  match n with
  | O => []
  | S n' => be_octets n' (z / 256) ++ [z mod 256]
  end.

Fixpoint be_words (l : list Z) : list Z :=
  match l with
  | a :: b :: c :: d :: rest => (((a * 256 + b) * 256 + c) * 256 + d) :: be_words rest
  | _ => []
  end.

(** The message padded to a multiple of 64 octets. *)
Definition padded (msg : list Z) : list Z :=
  let n := Z.of_nat (length msg) in
  msg ++ [128] ++ replicate (Z.to_nat ((55 - n) mod 64)) 0 ++ be_octets 8 (8 * n).

(** The schedule, built backwards: the head of the list is the newest word. *)
Fixpoint extend (n : nat) (w : list Z) : list Z :=
  match n with
  | O => w
  | S n' =>
      extend n' (w32 (ssig1 (nth 1 w 0) + nth 6 w 0 + ssig0 (nth 14 w 0) + nth 15 w 0) :: w)
  end.

Definition compress_step (st : list Z) (kw : Z * Z) : list Z :=
  match st with
  | [a; b; c; d; e; f; g; h] =>
      let t1 := w32 (h + bsig1 e + ch e f g + kw.1 + kw.2) in
      let t2 := w32 (bsig0 a + maj a b c) in
      [w32 (t1 + t2); a; b; c; w32 (d + t1); e; f; g]
  | _ => st
  end.

Definition compress (st block : list Z) : list Z :=
  let schedule := rev (extend 48 (rev (be_words block))) in
  zip_with (λ x y, w32 (x + y)) st
    (foldl compress_step st (zip round_constants schedule)).

Fixpoint blocks (fuel : nat) (st l : list Z) : list Z :=
  match fuel with
  | O => st
  | S fuel' => blocks fuel' (compress st (take 64 l)) (drop 64 l)
  end.

(** [sha256.Sum256]. The padded message is exactly [length / 64] blocks, which is the fuel. *)
Definition Sum256 (msg : list Z) : list Z :=
  let p := padded msg in
  concat (be_octets 4 <$> blocks (length p / 64)%nat initial_state p).

(** FIPS 180-4's published digests of the empty message and of "abc". *)
Example Sum256_empty :
  Sum256 [] =
  [227; 176; 196; 66; 152; 252; 28; 20; 154; 251; 244; 200; 153; 111; 185; 36;
   39; 174; 65; 228; 100; 155; 147; 76; 164; 149; 153; 27; 120; 82; 184; 85].
Proof. vm_compute. reflexivity. Qed.

Example Sum256_abc :
  Sum256 [97; 98; 99] =
  [186; 120; 22; 191; 143; 1; 207; 234; 65; 65; 64; 222; 93; 174; 34; 35;
   176; 3; 97; 163; 150; 23; 122; 156; 180; 16; 255; 97; 242; 0; 21; 173].
Proof. vm_compute. reflexivity. Qed.

End Sha256.

#[global] Opaque Sha256.Sum256.
