(* ===== verification/StoreTypes.v ===== *)
(** * The store's vocabulary ([store/store.go], and the row helpers of [store/memory.go])

    The exact-length shapes of the identifiers, the retention-class bytes, the record and its
    parsed attachment, the errors and the reason codes, and the pure functions both store
    implementations share: which kinds open an epoch ([openingOf]), what a well-formed opening
    is, and the validation every record passes before anything is read. *)

From S2P Require Import Prelude Sha256.

(** ** Constants *)

Definition GroupIdBytes : Z := 32.
Definition SenderHandleBytes : Z := 16.
Definition BodyHashBytes : Z := 32.
Definition HeadHashBytes : Z := 32.
Definition RecoveryHandleBytes : Z := 16.
Definition WrapTargetHandleBytes : Z := 16.
Definition BlobIdBytes : Z := 32.
Definition GroupContextHashBytes : Z := 32.
Definition VerifyPubBytes : Z := 32.
Definition EpochKeyBytes : Z := 32.

Definition firstRecordId : Z := 1.

Definition ClassPermanent : Z := 0x00.
Definition ClassDurable : Z := 0x01.
Definition ClassMedia : Z := 0x02.
Definition ClassEphBase : Z := 0x10.
Definition ClassEphMax : Z := 0x15.
Definition EphWindowMax : Z := two63 - 1.

Definition ephBucketSeconds : list Z := [0; 3600; 28800; 86400; 604800; 2419200].

Definition SnapshotLeafIndex : Z := 0xFFFFFFFF.
Definition DurableUnset : Z := 0.
Definition DurableIndefinite : Z := 0xFFFFFFFF.

(** ** Errors and reasons *)

(** The sentinels of [store.go], with the one error a caller's context brings. *)
Inductive Error : Type :=
  | ErrContext
  | ErrGroupUnavailable
  | ErrEpochKeyUnknown
  | ErrTransientRecord
  | ErrIdentifierShape
  | ErrRetentionClass
  | ErrSizeBucket
  | ErrEphWindowClass
  | ErrEphWindowRange
  | ErrInlineOrBlob
  | ErrCommitBatch
  | ErrEmptyBatch
  | ErrLinkBoxShape
  | ErrLinkBoxTtl
  | ErrLinkBoxUnknown
  | ErrLinkBoxLiveCap.

(** The codes of [protocol.Reason] that this module's code answers. The zero value, which a
    freshly allocated result holds, is [REASON_OK]. *)
Inductive Reason : Type :=
  | REASON_OK
  | REASON_REJECTED
  | REASON_INTERNAL
  | REASON_OVERSIZE
  | REASON_UNSUPPORTED_VERSION
  | REASON_COMMIT_LOST
  | REASON_EPOCH_STALE
  | REASON_EPOCH_INCOMPLETE
  | REASON_STREAM_INDEX_REUSED
  | REASON_STREAM_INDEX_REGRESSED
  | REASON_RETENTION_CLAMPED
  | REASON_CARD_RETIRED
  | REASON_CARD_RATE_LIMITED.

#[global] Instance Error_eq_dec : EqDecision Error.
Proof. solve_decision. Defined.
#[global] Instance Reason_eq_dec : EqDecision Reason.
Proof. solve_decision. Defined.

(** ** The attachment *)

Inductive AttachmentKind : Type :=
  | AttachmentNone
  | AttachmentEpoch
  | AttachmentWrap
  | AttachmentRecovery
  | AttachmentEpochComplete
  | AttachmentEpochDigest.

#[global] Instance AttachmentKind_eq_dec : EqDecision AttachmentKind.
Proof. solve_decision. Defined.

Module EpochAttachment.
Record t := mk {
  Epoch : Z;
  WriteKey : slice;
  ReadKey : slice;
  AlgId : Z;
  MediaTtlSeconds : Z;
  DurableTtlSeconds : Z;
  GroupContextHash : slice;
  ExpectedWrapCount : Z }.
End EpochAttachment.

Module EpochDigestAttachment.
Record t := mk {
  Epoch : Z;
  AlgId : Z;
  MediaTtlSeconds : Z;
  DurableTtlSeconds : Z;
  GroupContextHash : slice;
  ExpectedWrapCount : Z;
  EpochKeysDigest : slice }.
End EpochDigestAttachment.

Module WrapTag.
Record t := mk { TargetHandle : slice; LeafIndex : Z }.
End WrapTag.

Module RecoveryTag.
Record t := mk { Handle : slice; VerifyPub : slice; AlgId : Z }.
End RecoveryTag.

Module EpochCompleteTag.
Record t := mk { Epoch : Z; WrapCount : Z }.
End EpochCompleteTag.

Module EpochKeyDelivery.
Record t := mk { WriteKey : slice; ReadKey : slice }.
End EpochKeyDelivery.

(** The parsed [server_attachment]. The pointers may disagree with [Kind]: the type does not
    forbid it, the code checks it. *)
Module Attachment.
Record t := mk {
  Kind : AttachmentKind;
  Epoch : option EpochAttachment.t;
  Wrap : option WrapTag.t;
  Recovery : option RecoveryTag.t;
  EpochComplete : option EpochCompleteTag.t;
  EpochDigest : option EpochDigestAttachment.t }.
End Attachment.

(** ** The record *)

Module Rec.
Record t := mk {
  SenderHandle : slice;
  Epoch : Z;
  StreamIndex : Z;
  IsCommit : bool;
  RetentionClass : Z;
  EphWindow : Z;
  SizeBucket : Z;
  ExpireAtMs : Z;
  BodyHash : slice;
  CtHead : slice;
  CtBody : slice;
  BlobId : slice;
  ServerAttachment : slice;
  Attachment : option Attachment.t;
  RecordId : Z;
  PruneAfter : option time }.

(** The two fields the server assigns, and the one a heads-only read drops. *)
Definition set_RecordId (id : Z) (r : t) : t :=
  mk (SenderHandle r) (Epoch r) (StreamIndex r) (IsCommit r) (RetentionClass r) (EphWindow r)
     (SizeBucket r) (ExpireAtMs r) (BodyHash r) (CtHead r) (CtBody r) (BlobId r)
     (ServerAttachment r) (Attachment r) id (PruneAfter r).
Definition set_PruneAfter (p : option time) (r : t) : t :=
  mk (SenderHandle r) (Epoch r) (StreamIndex r) (IsCommit r) (RetentionClass r) (EphWindow r)
     (SizeBucket r) (ExpireAtMs r) (BodyHash r) (CtHead r) (CtBody r) (BlobId r)
     (ServerAttachment r) (Attachment r) (RecordId r) p.
Definition set_CtBody (b : slice) (r : t) : t :=
  mk (SenderHandle r) (Epoch r) (StreamIndex r) (IsCommit r) (RetentionClass r) (EphWindow r)
     (SizeBucket r) (ExpireAtMs r) (BodyHash r) (CtHead r) b (BlobId r)
     (ServerAttachment r) (Attachment r) (RecordId r) (PruneAfter r).
End Rec.

(** [cloneAttachment] and [cloneRecord] copy every slice and every pointed-to struct. With
    immutable values the copy is the value itself, field by field. *)
Definition cloneAttachment (attachment : option Attachment.t) : option Attachment.t :=
  match attachment with
  | None => None
  | Some a =>
      Some (Attachment.mk (Attachment.Kind a) (Attachment.Epoch a) (Attachment.Wrap a)
              (Attachment.Recovery a) (Attachment.EpochComplete a) (Attachment.EpochDigest a))
  end.

Definition cloneRecord (r : Rec.t) : Rec.t :=
  Rec.mk (bytes_Clone (Rec.SenderHandle r)) (Rec.Epoch r) (Rec.StreamIndex r) (Rec.IsCommit r)
    (Rec.RetentionClass r) (Rec.EphWindow r) (Rec.SizeBucket r) (Rec.ExpireAtMs r)
    (bytes_Clone (Rec.BodyHash r)) (bytes_Clone (Rec.CtHead r)) (bytes_Clone (Rec.CtBody r))
    (bytes_Clone (Rec.BlobId r)) (bytes_Clone (Rec.ServerAttachment r))
    (cloneAttachment (Rec.Attachment r)) (Rec.RecordId r) (Rec.PruneAfter r).

(** ** The retention limits and what was applied *)

Module Limits.
Record t := mk {
  MediaTtlMaxSeconds : Z;
  MediaTtlDefaultSeconds : Z;
  DurableTtlMaxSeconds : Z;
  DurableTtlDefaultSeconds : Z;
  DurableRetentionMinSeconds : Z }.
End Limits.

Module RetentionApplied.
Record t := mk {
  MediaTtlSeconds : Z;
  DurableTtlSeconds : Z;
  MediaClampedDown : bool;
  DurableFlooredUp : bool;
  DurableClampedDown : bool;
  DurableDefaulted : bool;
  RequestedMediaTtlSeconds : Z;
  RequestedDurableTtlSeconds : Z }.
End RetentionApplied.

(** ** The epoch a commit opens *)

Module epochOpening.
Record t := mk {
  Epoch : Z;
  AlgId : Z;
  MediaTtlSeconds : Z;
  DurableTtlSeconds : Z;
  GroupContextHash : slice;
  ExpectedWrapCount : Z;
  WriteKey : slice;
  ReadKey : slice }.
End epochOpening.

Definition openingOf (record : Rec.t) (keys : option EpochKeyDelivery.t) : option epochOpening.t :=
  match Rec.Attachment record with
  | None => None
  | Some att =>
      match Attachment.Kind att with
      | AttachmentEpoch =>
          match Attachment.Epoch att with
          | None => None
          | Some a =>
              match keys with
              | Some _ => None
              | None =>
                  Some (epochOpening.mk (EpochAttachment.Epoch a) (EpochAttachment.AlgId a)
                          (EpochAttachment.MediaTtlSeconds a) (EpochAttachment.DurableTtlSeconds a)
                          (EpochAttachment.GroupContextHash a) (EpochAttachment.ExpectedWrapCount a)
                          (EpochAttachment.WriteKey a) (EpochAttachment.ReadKey a))
              end
          end
      | AttachmentEpochDigest =>
          match Attachment.EpochDigest att with
          | None => None
          | Some a =>
              match keys with
              | None => None
              | Some k =>
                  Some (epochOpening.mk (EpochDigestAttachment.Epoch a)
                          (EpochDigestAttachment.AlgId a) (EpochDigestAttachment.MediaTtlSeconds a)
                          (EpochDigestAttachment.DurableTtlSeconds a)
                          (EpochDigestAttachment.GroupContextHash a)
                          (EpochDigestAttachment.ExpectedWrapCount a)
                          (EpochKeyDelivery.WriteKey k) (EpochKeyDelivery.ReadKey k))
              end
          end
      | _ => None
      end
  end.

Definition attachmentKindOf (record : Rec.t) : AttachmentKind :=
  match Rec.Attachment record with
  | None => AttachmentNone
  | Some a => Attachment.Kind a
  end.

Definition recoveryTagOf (record : Rec.t) : option RecoveryTag.t :=
  if decide (attachmentKindOf record = AttachmentRecovery)
  then Rec.Attachment record ≫= Attachment.Recovery
  else None.

Definition epochCompleteTagOf (record : Rec.t) : option EpochCompleteTag.t :=
  if decide (attachmentKindOf record = AttachmentEpochComplete)
  then Rec.Attachment record ≫= Attachment.EpochComplete
  else None.

Definition exemptFromEpochComplete (record : Rec.t) : bool :=
  match attachmentKindOf record with
  | AttachmentWrap | AttachmentEpochComplete => true
  | _ => false
  end.

Definition isEpochAttachmentKind (kind : AttachmentKind) : bool :=
  match kind with
  | AttachmentEpoch | AttachmentEpochDigest => true
  | _ => false
  end.

(** The five clauses of the commit attachment's well-formedness. *)
Definition wellFormedEpochAttachment (record : Rec.t) (opens : Z)
    (keys : option EpochKeyDelivery.t) : bool :=
  match openingOf record keys with
  | None => false
  | Some o =>
      if negb (epochOpening.Epoch o =? opens) then false
      else if negb (len (epochOpening.WriteKey o) =? EpochKeyBytes) then false
      else if negb (len (epochOpening.ReadKey o) =? EpochKeyBytes) then false
      else if epochOpening.ExpectedWrapCount o =? 0 then false
      else if bool_decide (epochOpening.GroupContextHash o ≠ None) &&
              negb (len (epochOpening.GroupContextHash o) =? GroupContextHashBytes) then false
      else true
  end.

(** ** Hashes, sizes and shapes *)

(** [H(ct_head)], which the stream claim keeps. *)
Definition headHash (head : slice) : slice := Some (Sha256.Sum256 (octets head)).

Definition recordBytes (record : Rec.t) : Z :=
  i64 (len (Rec.CtHead record) + len (Rec.CtBody record)).

Definition checkLength (value : slice) (want : Z) : option Error :=
  if negb (len value =? want) then Some ErrIdentifierShape else None.

Definition ephWindowClassAllows (retentionClass : Z) : bool :=
  (ClassEphBase <? retentionClass) && (retentionClass <=? ClassEphMax).

(** The attachment half of [validateRecord]. *)
Definition validateAttachment (record : Rec.t) : option Error :=
  match attachmentKindOf record with
  | AttachmentWrap =>
      match Rec.Attachment record ≫= Attachment.Wrap with
      | None => Some ErrIdentifierShape
      | Some w => checkLength (WrapTag.TargetHandle w) WrapTargetHandleBytes
      end
  | AttachmentRecovery =>
      match Rec.Attachment record ≫= Attachment.Recovery with
      | None => Some ErrIdentifierShape
      | Some t =>
          first_error (checkLength (RecoveryTag.Handle t) RecoveryHandleBytes)
                      (checkLength (RecoveryTag.VerifyPub t) VerifyPubBytes)
      end
  | AttachmentEpochComplete =>
      match Rec.Attachment record ≫= Attachment.EpochComplete with
      | None => Some ErrIdentifierShape
      | Some _ => None
      end
  | AttachmentEpoch =>
      match Rec.Attachment record ≫= Attachment.Epoch with
      | None => Some ErrIdentifierShape
      | Some _ => None
      end
  | _ => None
  end.

(** [validateRecord]: the checks in the order the code makes them, the first error answered. *)
Definition validateRecord (record : Rec.t) : option Error :=
  first_error (checkLength (Rec.SenderHandle record) SenderHandleBytes)
  (first_error (checkLength (Rec.BodyHash record) BodyHashBytes)
  (first_error (if len (Rec.CtHead record) =? 0 then Some ErrIdentifierShape else None)
  (first_error (if 5 <? Rec.SizeBucket record then Some ErrSizeBucket else None)
  (first_error
     (if Rec.RetentionClass record <=? ClassMedia then None
      else if (ClassEphBase <=? Rec.RetentionClass record) &&
              (Rec.RetentionClass record <=? ClassEphMax) then None
      else Some ErrRetentionClass)
  (first_error (if Rec.RetentionClass record =? ClassEphBase then Some ErrTransientRecord else None)
  (first_error (if EphWindowMax <? Rec.EphWindow record then Some ErrEphWindowRange else None)
  (first_error
     (if negb (Rec.EphWindow record =? 0) && negb (ephWindowClassAllows (Rec.RetentionClass record))
      then Some ErrEphWindowClass else None)
  (first_error
     (if bool_decide (Rec.CtBody record ≠ None) && bool_decide (Rec.BlobId record ≠ None)
      then Some ErrInlineOrBlob else None)
  (first_error
     (if bool_decide (Rec.BlobId record ≠ None)
      then checkLength (Rec.BlobId record) BlobIdBytes else None)
     (validateAttachment record)))))))))).

(** ** Answers *)

Module SubmitResult.
Record t := mk {
  reason : Reason;
  RecordId : Z;
  CurrentEpoch : Z;
  WinningCommit : option Rec.t;
  Applied : option RetentionApplied.t }.
Definition zero : t := mk REASON_OK 0 0 None None.
Definition set_reason (x : Reason) (r : t) : t :=
  mk x (RecordId r) (CurrentEpoch r) (WinningCommit r) (Applied r).
Definition set_RecordId (x : Z) (r : t) : t :=
  mk (reason r) x (CurrentEpoch r) (WinningCommit r) (Applied r).
Definition set_CurrentEpoch (x : Z) (r : t) : t :=
  mk (reason r) (RecordId r) x (WinningCommit r) (Applied r).
Definition set_WinningCommit (x : option Rec.t) (r : t) : t :=
  mk (reason r) (RecordId r) (CurrentEpoch r) x (Applied r).
Definition set_Applied (x : option RetentionApplied.t) (r : t) : t :=
  mk (reason r) (RecordId r) (CurrentEpoch r) (WinningCommit r) x.
End SubmitResult.

(** The two answers a record that landed is given. *)
Definition accepted (reason : Reason) : bool :=
  match reason with
  | REASON_OK | REASON_RETENTION_CLAMPED => true
  | _ => false
  end.

Definition clamped (a : RetentionApplied.t) : bool :=
  RetentionApplied.MediaClampedDown a || RetentionApplied.DurableFlooredUp a ||
  RetentionApplied.DurableClampedDown a.

Definition acceptanceReason (applied : option RetentionApplied.t) : Reason :=
  match applied with
  | Some a => if clamped a then REASON_RETENTION_CLAMPED else REASON_OK
  | None => REASON_OK
  end.

(** ** Facts *)

Lemma cloneRecord_id r : cloneRecord r = r.
Proof. destruct r as [?????????????[[]|]??]; done. Qed.

Lemma accepted_acceptanceReason a : accepted (acceptanceReason a) = true.
Proof. destruct a as [a|]; simpl; [destruct (clamped a)|]; done. Qed.

Lemma bytes_Equal_spec a b : bytes_Equal a b = true ↔ octets a = octets b.
Proof. apply bool_decide_eq_true. Qed.

Lemma bytes_Equal_refl a : bytes_Equal a a = true.
Proof. by apply bytes_Equal_spec. Qed.

#[export] Hint Resolve accepted_acceptanceReason bytes_Equal_refl : server.
#[export] Hint Rewrite cloneRecord_id : server_rw.

(** A record that passes validation has a retention class the ephemeral ladder can index. *)
Lemma validateRecord_class r :
  validateRecord r = None →
  Rec.RetentionClass r <= ClassMedia ∨
  ClassEphBase < Rec.RetentionClass r <= ClassEphMax.
Proof.
  unfold validateRecord. rewrite !first_error_None.
  intros (_ & _ & _ & _ & Hc & Ht & _).
  repeat case_match; simplify_eq; reflect_bools; lia.
Qed.

(** A validated recovery attachment carries its tag. *)
Lemma validateRecord_attachment r : validateRecord r = None → validateAttachment r = None.
Proof. unfold validateRecord. rewrite !first_error_None. tauto. Qed.

Lemma wellFormed_opening r opens keys :
  wellFormedEpochAttachment r opens keys = true →
  ∃ o, openingOf r keys = Some o ∧ epochOpening.Epoch o = opens ∧
       len (epochOpening.WriteKey o) = EpochKeyBytes ∧
       len (epochOpening.ReadKey o) = EpochKeyBytes ∧
       epochOpening.ExpectedWrapCount o ≠ 0.
Proof.
  unfold wellFormedEpochAttachment. intros H. cases_in H. eexists; split; [done|].
  reflect_bools; naive_solver.
Qed.

Lemma wellFormed_kind r opens keys :
  wellFormedEpochAttachment r opens keys = true →
  isEpochAttachmentKind (attachmentKindOf r) = true.
Proof.
  unfold wellFormedEpochAttachment, openingOf, attachmentKindOf. intros H.
  destruct (Rec.Attachment r) as [a|]; [|done]. by destruct (Attachment.Kind a).
Qed.
