(* ===== verification/Retention.v ===== *)
(** * Retention arithmetic ([Limits.apply] of [store/store.go], [pruneAfter] of [store/memory.go])

    What a commit asks for, what the server's limits make of it, and when a stored record may be
    pruned.  The theorems: the clamp is announced exactly when the stored policy is not the one
    asked for; the effective policy respects the advertised bounds; a prune time is computed
    without overflow and without an out-of-range index for every record the store admits. *)

From S2P Require Import Prelude StoreTypes.

(** ** Definitions *)

Definition DefaultLimits : Limits.t :=
  Limits.mk 2592000 2592000 0 31536000 0.

(** [limitsOf] of [cmd/message-server/config.go]: the two int64 settings converted to the uint32
    limits they overwrite. *)
Definition limitsOf (durableTtlDefaultSeconds durableTtlMaxSeconds : Z) : Limits.t :=
  Limits.mk (Limits.MediaTtlMaxSeconds DefaultLimits) (Limits.MediaTtlDefaultSeconds DefaultLimits)
    (u32 durableTtlMaxSeconds) (u32 durableTtlDefaultSeconds)
    (Limits.DurableRetentionMinSeconds DefaultLimits).

(** The media half of [Limits.apply]: the effective TTL and whether it was clamped down. *)
Definition applyMedia (self : Limits.t) (requested : Z) : Z * bool :=
  let media := if requested =? 0 then Limits.MediaTtlDefaultSeconds self else requested in
  let requestedMedia := media in
  let media :=
    if negb (Limits.MediaTtlMaxSeconds self =? 0) && (Limits.MediaTtlMaxSeconds self <? media)
    then Limits.MediaTtlMaxSeconds self else media in
  (media, media <? requestedMedia).

(** The durable half: the effective TTL ([None] is indefinite) and the three flags
    defaulted, floored up, clamped down. *)
Definition applyDurable (self : Limits.t) (requested : Z) : option Z * (bool * bool * bool) :=
  if requested =? DurableUnset then
    let durable :=
      if (Limits.DurableTtlDefaultSeconds self =? 0) && (Limits.DurableTtlMaxSeconds self =? 0)
      then None
      else if Limits.DurableTtlDefaultSeconds self =? 0
      then Some (Limits.DurableTtlMaxSeconds self)
      else if Limits.DurableTtlMaxSeconds self =? 0
      then Some (Limits.DurableTtlDefaultSeconds self)
      else Some (Z.min (Limits.DurableTtlDefaultSeconds self) (Limits.DurableTtlMaxSeconds self)) in
    (durable, (true, false, false))
  else if requested =? DurableIndefinite then
    if Limits.DurableTtlMaxSeconds self =? 0 then (None, (false, false, false))
    else (Some (Limits.DurableTtlMaxSeconds self), (false, false, true))
  else
    let floored := requested <? Limits.DurableRetentionMinSeconds self in
    let value := if floored then Limits.DurableRetentionMinSeconds self else requested in
    let capped :=
      negb (Limits.DurableTtlMaxSeconds self =? 0) && (Limits.DurableTtlMaxSeconds self <? value) in
    let value := if capped then Limits.DurableTtlMaxSeconds self else value in
    (Some value, (false, floored, capped)).

(** [Limits.apply]. *)
Definition apply (self : Limits.t) (opening : epochOpening.t) :
    Z * option Z * RetentionApplied.t :=
  let '(media, mediaClamped) := applyMedia self (epochOpening.MediaTtlSeconds opening) in
  let '(durable, (defaulted, floored, capped)) :=
    applyDurable self (epochOpening.DurableTtlSeconds opening) in
  (media, durable,
   RetentionApplied.mk media (default DurableIndefinite durable)
     mediaClamped floored capped defaulted
     (epochOpening.MediaTtlSeconds opening) (epochOpening.DurableTtlSeconds opening)).

(** [now.Add(time.Duration(seconds) * time.Second)], the product taken in int64. *)
Definition after_seconds (now : time) (seconds : Z) : time := now + i64 (seconds * Second).

(** [pruneAfter]. The outer [None] is the runtime panic of [ephBucketSeconds[bucket]] out of
    range; the inner option is the [*time.Time] answered, nil for a row that is never pruned. *)
Definition pruneAfter (now : time) (class mediaTtl : Z) (durableTtl : option Z) :
    option (option time) :=
  if class =? ClassPermanent then Some None
  else if class =? ClassDurable then
    match durableTtl with
    | None => Some None
    | Some ttl => Some (Some (after_seconds now ttl))
    end
  else if class =? ClassMedia then Some (Some (after_seconds now mediaTtl))
  else
    let bucket := u8 (class - ClassEphBase) in
    match ephBucketSeconds !! Z.to_nat bucket with
    | None => None
    | Some seconds => Some (Some (after_seconds now seconds))
    end.

(** ** Specification *)

(** The policy a commit asks for, honoured as asked: the media TTL it named (or the server's
    default when it named none), and the text TTL it named, when it named one. *)
Definition honoured (self : Limits.t) (o : epochOpening.t) (media : Z) (durable : option Z) : Prop :=
  media = (if epochOpening.MediaTtlSeconds o =? 0 then Limits.MediaTtlDefaultSeconds self
           else epochOpening.MediaTtlSeconds o) ∧
  (epochOpening.DurableTtlSeconds o = DurableUnset ∨
   (epochOpening.DurableTtlSeconds o = DurableIndefinite ∧ durable = None) ∨
   (epochOpening.DurableTtlSeconds o ≠ DurableIndefinite ∧
    durable = Some (epochOpening.DurableTtlSeconds o))).

(** Limits an operator can mean: a floor that is not above the cap. *)
Definition coherent (self : Limits.t) : Prop :=
  Limits.DurableTtlMaxSeconds self = 0 ∨
  Limits.DurableRetentionMinSeconds self <= Limits.DurableTtlMaxSeconds self.

(** ** Lemmas *)

Lemma after_seconds_exact now s : 0 <= s < two32 → after_seconds now s = now + s * Second.
Proof.
  intros. unfold after_seconds. rewrite i64_small; [done|].
  unfold two63, two32, Second, Millisecond, Microsecond in *. lia.
Qed.

Lemma applyMedia_spec self q media c :
  applyMedia self q = (media, c) →
  (c = false ↔ media = if q =? 0 then Limits.MediaTtlDefaultSeconds self else q) ∧
  (Limits.MediaTtlMaxSeconds self ≠ 0 → media <= Limits.MediaTtlMaxSeconds self).
Proof.
  unfold applyMedia. intros [= <- <-].
  destruct (Limits.MediaTtlMaxSeconds self =? 0) eqn:E0; simpl; reflect_bools;
    repeat case_match; reflect_bools; rewrite ?Z.ltb_ge; lia.
Qed.

Lemma applyDurable_cap self q d fl :
  applyDurable self q = (d, fl) → Limits.DurableTtlMaxSeconds self ≠ 0 →
  ∃ v, d = Some v ∧ v <= Limits.DurableTtlMaxSeconds self.
Proof.
  unfold applyDurable. intros H Hm. rewrite (proj2 (Z.eqb_neq _ _) Hm), andb_false_r in H.
  destruct (q =? _); [|destruct (q =? _)]; [| |destruct (q <? _)]; simplify_eq/=;
    try destruct (_ <? _) eqn:?; try destruct (_ =? 0) eqn:?; simpl; reflect_bools; eauto with lia.
Qed.

Lemma applyDurable_notice self q d df fl cl :
  coherent self → applyDurable self q = (d, (df, fl, cl)) →
  (fl = false ∧ cl = false ↔
   q = DurableUnset ∨ (q = DurableIndefinite ∧ d = None) ∨
   (q ≠ DurableIndefinite ∧ d = Some q)).
Proof.
  unfold applyDurable, coherent, DurableUnset, DurableIndefinite. intros Hco H.
  destruct (q =? 0) eqn:E0; [simplify_eq; reflect_bools; tauto|].
  destruct (q =? 0xFFFFFFFF) eqn:E1; reflect_bools.
  { destruct (Limits.DurableTtlMaxSeconds self =? 0); simplify_eq; intuition congruence. }
  simplify_eq. destruct (q <? Limits.DurableRetentionMinSeconds self) eqn:E3,
    (Limits.DurableTtlMaxSeconds self =? 0) eqn:E4; simpl;
    try destruct (Limits.DurableTtlMaxSeconds self <? _) eqn:E5; reflect_bools;
    (split; [intros [? ?]|intros [?|[[? ?]|[? Hv]]]]; try injection Hv as Hv);
    first [ discriminate | lia | tauto | right; right; split; [done|f_equal; lia] | split; [done|lia] | idtac ].
Qed.

Lemma applyDurable_nonzero self q d fl :
  0 <= q → applyDurable self q = (d, fl) → default DurableIndefinite d ≠ 0.
Proof.
  unfold applyDurable, DurableUnset, DurableIndefinite. intros Hq H.
  cases_in H; simplify_eq; simpl in *; reflect_bools; try lia;
    repeat (case_match; reflect_bools; simpl in *; try lia); simpl; lia.
Qed.

(** ** Properties *)

(** THE CLAMP IS ANNOUNCED EXACTLY WHEN IT HAPPENED.  Under coherent limits (a floor not above
    the cap) the answer to an accepted commit is plain [REASON_OK] if and only if the policy stored
    for the group is the one the commit asked for; in every other case the answer is
    [REASON_RETENTION_CLAMPED], which is an acceptance all the same. *)
Lemma apply_notice_exact self o media durable applied :
  coherent self → apply self o = (media, durable, applied) →
  (acceptanceReason (Some applied) = REASON_OK ↔ honoured self o media durable) ∧
  accepted (acceptanceReason (Some applied)) = true.
Proof.
  intros Hco H. split; [|auto with server]. unfold apply in H.
  destruct (applyMedia _ _) as [m c] eqn:Hm, (applyDurable _ _) as [d [[df fl] cl]] eqn:Hd.
  simplify_eq. apply applyMedia_spec in Hm as [Hm _]. apply applyDurable_notice in Hd; [|done].
  unfold honoured. rewrite <- Hm, <- Hd. unfold acceptanceReason, clamped. simpl.
  destruct c, fl, cl; simpl; intuition congruence.
Qed.

(** THE EFFECTIVE POLICY IS WITHIN THE ADVERTISED LIMITS, whatever the commit asks for and
    whatever the limits: a media cap bounds the media TTL; a durable cap bounds the text TTL and
    leaves no group indefinite; the applied text TTL is never the unset sentinel 0; and the policy
    the group requested is reported back unchanged. *)
Lemma apply_within_limits self o media durable applied :
  0 <= epochOpening.DurableTtlSeconds o →
  apply self o = (media, durable, applied) →
  (Limits.MediaTtlMaxSeconds self ≠ 0 → media <= Limits.MediaTtlMaxSeconds self) ∧
  (Limits.DurableTtlMaxSeconds self ≠ 0 →
     ∃ v, durable = Some v ∧ v <= Limits.DurableTtlMaxSeconds self) ∧
  RetentionApplied.MediaTtlSeconds applied = media ∧
  RetentionApplied.DurableTtlSeconds applied = default DurableIndefinite durable ∧
  RetentionApplied.DurableTtlSeconds applied ≠ DurableUnset ∧
  RetentionApplied.RequestedMediaTtlSeconds applied = epochOpening.MediaTtlSeconds o ∧
  RetentionApplied.RequestedDurableTtlSeconds applied = epochOpening.DurableTtlSeconds o.
Proof.
  intros Hq H. unfold apply in H.
  destruct (applyMedia _ _) as [m c] eqn:Hm, (applyDurable _ _) as [d [[df fl] cl]] eqn:Hd.
  simplify_eq. simpl. apply applyMedia_spec in Hm as [_ Hm].
  repeat split; eauto using applyDurable_cap, applyDurable_nonzero.
Qed.

(** THE POLICY A COMMIT GETS IS THE NEAREST THE LIMITS ALLOW, AND IT IS TOLD.  Under coherent
    limits (a floor not above the cap) the answer to an accepted commit is plain [REASON_OK] if and
    only if the policy stored for the group is the one asked for, and [REASON_RETENTION_CLAMPED],
    which is an acceptance, otherwise; a media cap bounds the media lifetime, a durable cap bounds
    the text lifetime and leaves no group indefinite; and the answer reports what is stored, beside
    the request as it was made. *)
Lemma apply_exact self o media durable applied :
  coherent self → 0 <= epochOpening.DurableTtlSeconds o →
  apply self o = (media, durable, applied) →
  (acceptanceReason (Some applied) = REASON_OK ↔ honoured self o media durable) ∧
  accepted (acceptanceReason (Some applied)) = true ∧
  (Limits.MediaTtlMaxSeconds self ≠ 0 → media <= Limits.MediaTtlMaxSeconds self) ∧
  (Limits.DurableTtlMaxSeconds self ≠ 0 →
     ∃ v, durable = Some v ∧ v <= Limits.DurableTtlMaxSeconds self) ∧
  RetentionApplied.MediaTtlSeconds applied = media ∧
  RetentionApplied.DurableTtlSeconds applied = default DurableIndefinite durable ∧
  RetentionApplied.DurableTtlSeconds applied ≠ DurableUnset ∧
  RetentionApplied.RequestedMediaTtlSeconds applied = epochOpening.MediaTtlSeconds o ∧
  RetentionApplied.RequestedDurableTtlSeconds applied = epochOpening.DurableTtlSeconds o.
Proof.
  intros Hco Hq H. destruct (apply_notice_exact self o media durable applied Hco H) as [H1 H2].
  split; [exact H1|]. split; [exact H2|]. by apply (apply_within_limits self o).
Qed.

Lemma apply_exact_witness :
  acceptanceReason (Some (apply DefaultLimits
     (epochOpening.mk 1 1 7776000 86400 None 1 None None)).2) = REASON_RETENTION_CLAMPED ∧
  ¬ honoured DefaultLimits (epochOpening.mk 1 1 7776000 86400 None 1 None None) 2592000 (Some 86400).
Proof.
  split; [reflexivity|].
  intros Hh. destruct (apply_exact DefaultLimits
    (epochOpening.mk 1 1 7776000 86400 None 1 None None) 2592000 (Some 86400)
    (apply DefaultLimits (epochOpening.mk 1 1 7776000 86400 None 1 None None)).2) as [Hiff _].
  - left. reflexivity.
  - discriminate.
  - reflexivity.
  - apply Hiff in Hh. discriminate Hh.
Defined.

(** THE PRUNE TIME IS EXACT.  For every record the store admits and every uint32 policy, the
    prune time is computed with no out-of-range index and no int64 overflow: never for PERMANENT
    and for DURABLE under an indefinite policy, the policy's TTL after [now] for DURABLE and MEDIA,
    the bucket's lifetime for EPH(1..5); and it is never before the write. *)
Lemma pruneAfter_exact now r media durable :
  validateRecord r = None → 0 <= Rec.RetentionClass r →
  0 <= media < two32 → (∀ d, durable = Some d → 0 <= d < two32) →
  ∃ p, pruneAfter now (Rec.RetentionClass r) media durable = Some p ∧
    (p = None ↔ Rec.RetentionClass r = ClassPermanent ∨
                (Rec.RetentionClass r = ClassDurable ∧ durable = None)) ∧
    (∀ t, p = Some t → now <= t ∧
       ((Rec.RetentionClass r = ClassDurable ∧ ∃ d, durable = Some d ∧ t = now + d * Second) ∨
        (Rec.RetentionClass r = ClassMedia ∧ t = now + media * Second) ∨
        (ClassEphBase < Rec.RetentionClass r <= ClassEphMax ∧
         ∃ s, ephBucketSeconds !! Z.to_nat (Rec.RetentionClass r - ClassEphBase) = Some s ∧
              0 < s ∧ t = now + s * Second))).
Proof.
  intros Hv H0 Hm Hd. apply validateRecord_class in Hv.
  unfold pruneAfter. remember (Rec.RetentionClass r) as c eqn:Hc. clear Hc r.
  unfold ClassPermanent, ClassDurable, ClassMedia, ClassEphBase, ClassEphMax in *.
  assert (0 < Second) as HS by reflexivity.
  destruct Hv as [Hv|Hv].
  - assert (c = 0 ∨ c = 1 ∨ c = 2) as [-> | [-> | -> ] ] by lia; simpl.
    + eexists; split; [done|]. split; [tauto|discriminate].
    + destruct durable as [d|]; eexists; (split; [done|]); (split; [intuition congruence|]);
        [|discriminate].
      intros t [= <-]. rewrite after_seconds_exact by auto.
      specialize (Hd d eq_refl). split; [nia|]. left. eauto.
    + eexists; split; [done|]. split; [split; [done|lia]|].
      intros t [= <-]. rewrite after_seconds_exact by done. split; [nia|]. right. left. done.
  - assert (c = 17 ∨ c = 18 ∨ c = 19 ∨ c = 20 ∨ c = 21) as Hcs by lia.
    destruct Hcs as [-> | [-> | [-> | [-> | -> ] ] ] ]; simpl;
      (eexists; split; [done|]; split; [split; [done|lia]|]; intros t [= <-];
       rewrite after_seconds_exact by (unfold two32; lia); split; [lia|]; right; right;
       split; [lia|]; eexists; split; [reflexivity|lia]).
Qed.

Lemma pruneAfter_exact_witness :
  ∃ p, pruneAfter 1000 17 2592000 (Some 31536000) = Some p ∧
       (p = None ↔ 17 = ClassPermanent ∨ (17 = ClassDurable ∧ Some 31536000 = None)).
Proof.
  destruct (pruneAfter_exact 1000
    (Rec.mk (Some (replicate 16 1)) 1 7 false 17 0 0 0 (Some (replicate 32 2)) (Some [3]) (Some [4])
       None None None 0 None) 2592000 (Some 31536000)) as (p & Hp & Hn & _).
  - reflexivity.
  - simpl. lia.
  - unfold two32. lia.
  - intros d [= <-]. unfold two32. lia.
  - exists p. split; [exact Hp|exact Hn].
Defined.

(** A CONFIGURED CAP CAN VANISH.  The settings [durable_ttl_default_seconds] and
    [durable_ttl_max_seconds] are read as non-negative int64 and converted to uint32 without a range
    check, so a configured cap of exactly 2^32 seconds stores 0, which every later step reads as
    "no maximum" (a group that asks for indefinite text is then kept forever), and one of
    2^32 + 3600 seconds stores one hour. *)
Lemma limitsOf_wraps :
  ∃ big hour : Z,
    0 < big < two63 ∧ 0 < hour < two63 ∧
    Limits.DurableTtlMaxSeconds (limitsOf 31536000 big) = 0 ∧
    (∀ o, epochOpening.DurableTtlSeconds o = DurableIndefinite →
          (apply (limitsOf 31536000 big) o).1.2 = None) ∧
    Limits.DurableTtlMaxSeconds (limitsOf 31536000 hour) = 3600.
Proof.
  exists (2 ^ 32), (2 ^ 32 + 3600). unfold two63. split; [lia|]. split; [lia|].
  split; [done|]. split; [|done]. intros o Ho. unfold apply. rewrite Ho.
  destruct (applyMedia _ _). done.
Qed.
