(* ===== verification/MemoryStore.v ===== *)
(** * The in-memory store ([store/memory.go])

    One group's rows, the read paths ([GroupState], [EpochKeys], [Fetch]), [CreateGroup],
    [CloseGroup] and the submit transaction, statement by statement.

    The two locks of a group decide where a submission can be interleaved with another: the
    idempotency probe runs before the row lock, everything after it runs under it.  [Submit] is
    therefore written as two phases, [submit_probe] and [submit_finish], and composed of them; the
    interleavings of the phases are the step relation of [Interleaving.v].

    A clock reading is the argument [now]; a context that has already ended is the argument
    [ctx = Some e]. *)

From S2P Require Import Prelude Sha256 StoreTypes Retention.

(** ** Rows *)

Module recordRow.
Record t := mk {
  record : Rec.t;
  pruneAfter : option time;
  pruned : bool;
  createTime : time;
  policy : Z }.
End recordRow.

(** [claimKey]: the sender handle's octets and the stream index. *)
Abbreviation claimKey := (list Z * Z)%type.

Module claimRow.
Record t := mk { recordId : Z; bodyHash : slice; headHash : slice; createTime : time }.
End claimRow.

Module commitRow.
Record t := mk { epoch : Z; recordId : Z; record : Rec.t }.
End commitRow.

Module senderRow.
Record t := mk { lastStreamIndex : Z; recordCount : Z; byteCount : Z; lastTime : time }.
Definition zero : t := mk 0 0 0 zero_time.
End senderRow.

Module epochRow.
Record t := mk {
  epoch : Z;
  writeKey : slice;
  readKey : slice;
  readKeyInstall : time;
  algId : Z;
  expectedWrapCount : Z;
  openedByRecord : Z;
  acceptTime : time;
  retireTime : time }.
Definition set_writeKey (k : slice) (r : t) : t :=
  mk (epoch r) k (readKey r) (readKeyInstall r) (algId r) (expectedWrapCount r)
     (openedByRecord r) (acceptTime r) (retireTime r).
Definition set_retireTime (x : time) (r : t) : t :=
  mk (epoch r) (writeKey r) (readKey r) (readKeyInstall r) (algId r) (expectedWrapCount r)
     (openedByRecord r) (acceptTime r) x.
End epochRow.

Module recoveryRow.
Record t := mk { verifyPub : slice; algId : Z; firstSeen : time }.
End recoveryRow.

(** One row of [message_group] and every row that hangs off it. *)
Module memoryGroup.
Record t := mk {
  groupId : slice;
  createTime : time;
  currentEpoch : Z;
  nextRecordId : Z;
  mediaTtlSeconds : Z;
  durableTtlSeconds : option Z;
  policyVersion : Z;
  epochComplete : bool;
  groupContextHash : slice;
  closed : bool;
  closeTime : time;
  records : list recordRow.t;
  claims : gmap (list Z * Z) claimRow.t;
  commits : gmap Z commitRow.t;
  senders : gmap (list Z) senderRow.t;
  epochs : gmap Z epochRow.t;
  recovery : gmap (list Z) recoveryRow.t }.

Definition set_nextRecordId (x : Z) (g : t) : t :=
  mk (groupId g) (createTime g) (currentEpoch g) x (mediaTtlSeconds g) (durableTtlSeconds g)
     (policyVersion g) (epochComplete g) (groupContextHash g) (closed g) (closeTime g)
     (records g) (claims g) (commits g) (senders g) (epochs g) (recovery g).
Definition set_epochComplete (x : bool) (g : t) : t :=
  mk (groupId g) (createTime g) (currentEpoch g) (nextRecordId g) (mediaTtlSeconds g)
     (durableTtlSeconds g) (policyVersion g) x (groupContextHash g) (closed g) (closeTime g)
     (records g) (claims g) (commits g) (senders g) (epochs g) (recovery g).
Definition set_closed (x : bool) (at_time : time) (g : t) : t :=
  mk (groupId g) (createTime g) (currentEpoch g) (nextRecordId g) (mediaTtlSeconds g)
     (durableTtlSeconds g) (policyVersion g) (epochComplete g) (groupContextHash g) x at_time
     (records g) (claims g) (commits g) (senders g) (epochs g) (recovery g).
Definition set_records (x : list recordRow.t) (g : t) : t :=
  mk (groupId g) (createTime g) (currentEpoch g) (nextRecordId g) (mediaTtlSeconds g)
     (durableTtlSeconds g) (policyVersion g) (epochComplete g) (groupContextHash g) (closed g)
     (closeTime g) x (claims g) (commits g) (senders g) (epochs g) (recovery g).
Definition set_claims (x : gmap (list Z * Z) claimRow.t) (g : t) : t :=
  mk (groupId g) (createTime g) (currentEpoch g) (nextRecordId g) (mediaTtlSeconds g)
     (durableTtlSeconds g) (policyVersion g) (epochComplete g) (groupContextHash g) (closed g)
     (closeTime g) (records g) x (commits g) (senders g) (epochs g) (recovery g).
Definition set_senders (x : gmap (list Z) senderRow.t) (g : t) : t :=
  mk (groupId g) (createTime g) (currentEpoch g) (nextRecordId g) (mediaTtlSeconds g)
     (durableTtlSeconds g) (policyVersion g) (epochComplete g) (groupContextHash g) (closed g)
     (closeTime g) (records g) (claims g) (commits g) x (epochs g) (recovery g).
Definition set_recovery (x : gmap (list Z) recoveryRow.t) (g : t) : t :=
  mk (groupId g) (createTime g) (currentEpoch g) (nextRecordId g) (mediaTtlSeconds g)
     (durableTtlSeconds g) (policyVersion g) (epochComplete g) (groupContextHash g) (closed g)
     (closeTime g) (records g) (claims g) (commits g) (senders g) (epochs g) x.
End memoryGroup.

(** The fields of [GroupState], read under the group's data lock. *)
Module GroupState.
Record t := mk {
  CurrentEpoch : Z;
  NextRecordId : Z;
  MediaTtlSeconds : Z;
  DurableTtlSeconds : option Z;
  PolicyVersion : Z;
  EpochComplete : bool;
  GroupContextHash : slice }.
End GroupState.

Module EpochKeys.
Record t := mk {
  Epoch : Z;
  WriteKey : slice;
  ReadKey : slice;
  ReadKeyInstall : time;
  AlgId : Z;
  OpenedByRecord : Z;
  AcceptTime : time;
  RetireTime : time }.
End EpochKeys.

Module CreateGroupRequest.
Record t := mk {
  GroupId : slice;
  InitialCommit : option Rec.t;
  BootstrapWriteKey : slice;
  EpochKeys : option EpochKeyDelivery.t }.
End CreateGroupRequest.

Module CreateGroupResult.
Record t := mk {
  reason : Reason;
  CurrentEpoch : Z;
  RecordId : Z;
  Applied : option RetentionApplied.t }.
End CreateGroupResult.

Module SubmitRequest.
Record t := mk {
  GroupId : slice;
  Records : list Rec.t;
  EpochKeys : option EpochKeyDelivery.t }.
End SubmitRequest.

Module FetchRequest.
Record t := mk {
  GroupId : slice;
  SinceRecordId : Z;
  Limit : Z;
  HeadsOnly : bool;
  ClassMask : Z;
  ReadEpoch : Z }.
End FetchRequest.

Module FetchResult.
Record t := mk {
  Records : list Rec.t;
  NextRecordId : Z;
  HighWaterRecordId : Z;
  Complete : bool }.
End FetchResult.

(** ** The batch ([probeOutcome], [pending]) *)

Inductive probeOutcome : Type := probeAbsent | probeIdentical | probeDiffers.

#[global] Instance probeOutcome_eq_dec : EqDecision probeOutcome.
Proof. solve_decision. Defined.

Module pending.
Record t := mk {
  record : Rec.t;
  result : SubmitResult.t;
  probe : probeOutcome;
  settled : bool }.
Definition set_result (x : SubmitResult.t) (p : t) : t := mk (record p) x (probe p) (settled p).
End pending.

(** ** Records on the way out *)

Definition state (self : memoryGroup.t) : GroupState.t :=
  GroupState.mk (memoryGroup.currentEpoch self) (memoryGroup.nextRecordId self)
    (memoryGroup.mediaTtlSeconds self) (memoryGroup.durableTtlSeconds self)
    (memoryGroup.policyVersion self) (memoryGroup.epochComplete self)
    (bytes_Clone (memoryGroup.groupContextHash self)).

Definition read (self : recordRow.t) (headsOnly : bool) : Rec.t :=
  let record := cloneRecord (recordRow.record self) in
  let record := if headsOnly then Rec.set_CtBody None record else record in
  match recordRow.pruneAfter self with
  | Some p => Rec.set_PruneAfter (Some p) record
  | None => record
  end.

Definition classIncluded (mask class : Z) : bool :=
  if mask =? 0 then true
  else negb (Z.land mask (u32 (Z.shiftl 1 class)) =? 0).

Definition claimKeyOf (record : Rec.t) : claimKey :=
  (octets (Rec.SenderHandle record), Rec.StreamIndex record).

(** ** The answers a batch is given *)

Definition resultsOf (batch : list pending.t) : list SubmitResult.t :=
  (λ current,
     if accepted (SubmitResult.reason (pending.result current))
     then pending.result current
     else SubmitResult.set_RecordId 0 (pending.result current)) <$> batch.

(** Step (1)'s refusal: the whole result is replaced, so nothing but the code is said. *)
Definition refuseUnavailable (batch : list pending.t) : list SubmitResult.t :=
  resultsOf
    ((λ current,
        if decide (pending.probe current = probeIdentical) then current
        else pending.set_result (SubmitResult.set_reason REASON_REJECTED SubmitResult.zero) current)
     <$> batch).

(** [fillCurrentEpoch]: the epoch on every result that has none, and the winning commit on every
    rejected commit; nothing at all for a group that is closed. *)
Definition fillOne (g : memoryGroup.t) (current : pending.t) : pending.t :=
  let r := pending.result current in
  let r := if SubmitResult.CurrentEpoch r =? 0
           then SubmitResult.set_CurrentEpoch (memoryGroup.currentEpoch g) r else r in
  let r :=
    if negb (Rec.IsCommit (pending.record current)) || accepted (SubmitResult.reason r) then r
    else match memoryGroup.commits g !! Rec.Epoch (pending.record current) with
         | Some winner =>
             SubmitResult.set_WinningCommit (Some (cloneRecord (commitRow.record winner))) r
         | None => r
         end in
  pending.set_result r current.

Definition fillCurrentEpoch (group : option memoryGroup.t) (batch : list pending.t) :
    list pending.t :=
  match group with
  | None => batch
  | Some g => if memoryGroup.closed g then batch else fillOne g <$> batch
  end.

(** [refuseBatch]: the specific reason on the offender, the non-specific one on the others, and
    what step (0) already answered kept.  The offender is named by its place in the batch, where
    the code compares pointers. *)
Definition refuseBatch (group : option memoryGroup.t) (batch : list pending.t) (offender : nat)
    (reason : Reason) : list SubmitResult.t :=
  resultsOf (fillCurrentEpoch group
    (imap (λ i current,
       if decide (pending.probe current = probeIdentical) then current
       else pending.set_result
              (SubmitResult.set_reason (if decide (i = offender) then reason else REASON_REJECTED)
                 (pending.result current)) current) batch)).

(** ** Step (0), the idempotency probe *)

Definition probeOne (g : memoryGroup.t) (current : pending.t) : pending.t :=
  let record := pending.record current in
  match memoryGroup.claims g !! claimKeyOf record with
  | None => current
  | Some claim =>
      if bytes_Equal (claimRow.bodyHash claim) (Rec.BodyHash record) &&
         bytes_Equal (claimRow.headHash claim) (headHash (Rec.CtHead record))
      then pending.mk record
             (SubmitResult.set_RecordId (claimRow.recordId claim)
                (SubmitResult.set_reason REASON_OK (pending.result current)))
             probeIdentical (pending.settled current)
      else pending.mk record (pending.result current) probeDiffers (pending.settled current)
  end.

Definition probe (group : option memoryGroup.t) (batch : list pending.t) : list pending.t :=
  match group with
  | None => batch
  | Some g => probeOne g <$> batch
  end.

(** ** Steps (2), (2b), (3) and (6c), the gates *)

Definition gate (g : memoryGroup.t) (st : GroupState.t) (record : Rec.t)
    (keys : option EpochKeyDelivery.t) (highWater : gmap (list Z) Z) (pinned : gmap (list Z) slice) :
    Reason :=
  (* (2) the commit that already won this epoch comes before the epoch comparison *)
  if Rec.IsCommit record && bool_decide (is_Some (memoryGroup.commits g !! Rec.Epoch record))
  then REASON_COMMIT_LOST
  else if negb (Rec.Epoch record =? GroupState.CurrentEpoch st) then REASON_EPOCH_STALE
  else if negb (GroupState.EpochComplete st) && negb (exemptFromEpochComplete record)
  then REASON_EPOCH_INCOMPLETE
  (* (2b) the attachment *)
  else if negb (Bool.eqb (Rec.IsCommit record) (isEpochAttachmentKind (attachmentKindOf record)))
  then REASON_REJECTED
  else if Rec.IsCommit record &&
          negb (wellFormedEpochAttachment record (u64 (GroupState.CurrentEpoch st + 1)) keys)
  then REASON_REJECTED
  (* (3) the sender's index, the batch's own high water first *)
  else
    let last :=
      match highWater !! octets (Rec.SenderHandle record) with
      | Some l => Some l
      | None => senderRow.lastStreamIndex <$>
                  (memoryGroup.senders g !! octets (Rec.SenderHandle record))
      end in
    if match last with Some l => Rec.StreamIndex record <=? l | None => false end
    then REASON_STREAM_INDEX_REGRESSED
    (* (6c) the recovery pin, the batch's own first sight first *)
    else
      match recoveryTagOf record with
      | None => REASON_OK
      | Some tag =>
          let known :=
            match pinned !! octets (RecoveryTag.Handle tag) with
            | Some k => Some k
            | None => recoveryRow.verifyPub <$>
                        (memoryGroup.recovery g !! octets (RecoveryTag.Handle tag))
            end in
          match known with
          | Some k => if bytes_Equal k (RecoveryTag.VerifyPub tag) then REASON_OK
                      else REASON_REJECTED
          | None => REASON_OK
          end
      end.

(** The batch's own recovery pins: a handle's first sight is kept. *)
Definition pinBatch (record : Rec.t) (pinned : gmap (list Z) slice) : gmap (list Z) slice :=
  match recoveryTagOf record with
  | None => pinned
  | Some tag =>
      match pinned !! octets (RecoveryTag.Handle tag) with
      | Some _ => pinned
      | None => <[octets (RecoveryTag.Handle tag) := RecoveryTag.VerifyPub tag]> pinned
      end
  end.

(** The gate loop of [Submit]: the first refusal, with the place of its record. *)
Fixpoint gates (g : memoryGroup.t) (st : GroupState.t) (keys : option EpochKeyDelivery.t)
    (index : nat) (batch : list pending.t) (highWater : gmap (list Z) Z)
    (pinned : gmap (list Z) slice) : option (nat * Reason) :=
  match batch with
  | [] => None
  | current :: rest =>
      if pending.settled current then gates g st keys (S index) rest highWater pinned
      else
        let record := pending.record current in
        let refusal := gate g st record keys highWater pinned in
        if decide (refusal = REASON_OK) then
          gates g st keys (S index) rest
            (<[octets (Rec.SenderHandle record) := Rec.StreamIndex record]> highWater)
            (pinBatch record pinned)
        else Some (index, refusal)
  end.

(** ** Steps (4) to (7), the writes of [commit] *)

(** (6) and (5b): a won commit opens the next epoch, retires the superseded key, discards the
    older ones, installs the policy, and claims its own epoch. *)
Definition openEpoch (now : time) (st : GroupState.t) (opening : epochOpening.t)
    (media : Z) (durable : option Z) (record : Rec.t) (g : memoryGroup.t) : memoryGroup.t :=
  let next := u64 (GroupState.CurrentEpoch st + 1) in
  let opened :=
    epochRow.mk next (bytes_Clone (epochOpening.WriteKey opening))
      (bytes_Clone (epochOpening.ReadKey opening)) now (epochOpening.AlgId opening)
      (epochOpening.ExpectedWrapCount opening) (Rec.RecordId record) now zero_time in
  let epochs := <[next := opened]> (memoryGroup.epochs g) in
  let epochs :=
    alter (λ superseded,
             if bool_decide (epochRow.writeKey superseded ≠ None)
             then epochRow.set_retireTime now superseded else superseded)
          (GroupState.CurrentEpoch st) epochs in
  let epochs :=
    map_imap (λ epoch row,
                Some (if (epoch <? GroupState.CurrentEpoch st) &&
                         bool_decide (epochRow.writeKey row ≠ None)
                      then epochRow.set_writeKey None row else row)) epochs in
  memoryGroup.mk (memoryGroup.groupId g) (memoryGroup.createTime g) next
    (memoryGroup.nextRecordId g) media durable (u32 (memoryGroup.policyVersion g + 1)) false
    (bytes_Clone (epochOpening.GroupContextHash opening)) (memoryGroup.closed g)
    (memoryGroup.closeTime g) (memoryGroup.records g) (memoryGroup.claims g)
    (<[Rec.Epoch record := commitRow.mk (Rec.Epoch record) (Rec.RecordId record) record]>
       (memoryGroup.commits g))
    (memoryGroup.senders g) epochs (memoryGroup.recovery g).

(** (6b): the marker that closes the fan-out. *)
Definition closeFanOut (record : Rec.t) (g : memoryGroup.t) : memoryGroup.t :=
  match epochCompleteTagOf record with
  | None => g
  | Some marker =>
      match memoryGroup.epochs g !! memoryGroup.currentEpoch g with
      | Some row =>
          if (EpochCompleteTag.Epoch marker =? memoryGroup.currentEpoch g) &&
             (EpochCompleteTag.WrapCount marker =? epochRow.expectedWrapCount row)
          then memoryGroup.set_epochComplete true g else g
      | None => g
      end
  end.

(** (5a): the claim, then the row. *)
Definition claimOf (now : time) (record : Rec.t) : claimRow.t :=
  claimRow.mk (Rec.RecordId record) (bytes_Clone (Rec.BodyHash record))
    (headHash (Rec.CtHead record)) now.

Definition writeClaim (now : time) (record : Rec.t) (g : memoryGroup.t) : memoryGroup.t :=
  memoryGroup.set_claims (<[claimKeyOf record := claimOf now record]> (memoryGroup.claims g)) g.

Definition rowOf (now : time) (record : Rec.t) (mediaTtl : Z) (durableTtl : option Z)
    (policy : Z) : recordRow.t :=
  recordRow.mk record
    (default None (pruneAfter now (Rec.RetentionClass record) mediaTtl durableTtl))
    false now policy.

Definition writeRow (now : time) (record : Rec.t) (mediaTtl : Z) (durableTtl : option Z)
    (g : memoryGroup.t) : memoryGroup.t :=
  memoryGroup.set_records
    (memoryGroup.records g ++ [rowOf now record mediaTtl durableTtl (memoryGroup.policyVersion g)]) g.

(** (6c): the first sight of a recovery handle pins its key. *)
Definition writePin (now : time) (record : Rec.t) (recovery : gmap (list Z) recoveryRow.t) :
    gmap (list Z) recoveryRow.t :=
  match recoveryTagOf record with
  | None => recovery
  | Some tag =>
      match recovery !! octets (RecoveryTag.Handle tag) with
      | Some _ => recovery
      | None =>
          <[octets (RecoveryTag.Handle tag) :=
              recoveryRow.mk (bytes_Clone (RecoveryTag.VerifyPub tag)) (RecoveryTag.AlgId tag) now]>
            recovery
      end
  end.

(** (7): the sender's high water and accounting. *)
Definition account (now : time) (record : Rec.t) (senders : gmap (list Z) senderRow.t) :
    gmap (list Z) senderRow.t :=
  let sender := default senderRow.zero (senders !! octets (Rec.SenderHandle record)) in
  <[octets (Rec.SenderHandle record) :=
      senderRow.mk (Rec.StreamIndex record) (i64 (senderRow.recordCount sender + 1))
        (i64 (senderRow.byteCount sender + recordBytes record)) now]> senders.

(** One iteration of the write loop: the group, and what the result is told.  The [None] of
    [openingOf] is a nil dereference in the code; the gate has refused every such commit. *)
Definition writeOne (limits : Limits.t) (now : time) (st : GroupState.t)
    (keys : option EpochKeyDelivery.t) (id : Z) (g : memoryGroup.t) (current : pending.t) :
    memoryGroup.t * pending.t :=
  let record := Rec.set_PruneAfter None (Rec.set_RecordId id (cloneRecord (pending.record current))) in
  let '(g, mediaTtl, durableTtl, result) :=
    if Rec.IsCommit record then
      match openingOf record keys with
      | Some opening =>
          let '(media, durable, applied) := apply limits opening in
          let g := openEpoch now st opening media durable record g in
          (g, media, durable,
           SubmitResult.set_CurrentEpoch (memoryGroup.currentEpoch g)
             (SubmitResult.set_Applied (Some applied) (pending.result current)))
      | None => (g, memoryGroup.mediaTtlSeconds g, memoryGroup.durableTtlSeconds g,
                 pending.result current)
      end
    else (g, memoryGroup.mediaTtlSeconds g, memoryGroup.durableTtlSeconds g,
          pending.result current) in
  let g := closeFanOut record g in
  let g := writeClaim now record g in
  let g := writeRow now record mediaTtl durableTtl g in
  let g := memoryGroup.set_recovery (writePin now record (memoryGroup.recovery g)) g in
  let g := memoryGroup.set_senders (account now record (memoryGroup.senders g)) g in
  (g, pending.set_result
        (SubmitResult.set_RecordId (Rec.RecordId record)
           (SubmitResult.set_reason (acceptanceReason (SubmitResult.Applied result)) result))
        current).

(** The write loop: the k-th record written takes the id [first + k]. *)
Fixpoint writeAll (limits : Limits.t) (now : time) (st : GroupState.t)
    (keys : option EpochKeyDelivery.t) (first index : Z) (g : memoryGroup.t)
    (batch : list pending.t) : memoryGroup.t * list pending.t :=
  match batch with
  | [] => (g, [])
  | current :: rest =>
      if pending.settled current then
        let '(g, written) := writeAll limits now st keys first index g rest in
        (g, current :: written)
      else
        let '(g, current) := writeOne limits now st keys (u64 (first + index)) g current in
        let '(g, written) := writeAll limits now st keys first (index + 1) g rest in
        (g, current :: written)
  end.

Definition unsettled (batch : list pending.t) : list pending.t :=
  filter (λ p, pending.settled p = false) batch.

(** (5b) as a check before the allocation: a commit whose epoch is already taken. *)
Definition lostCommit (g : memoryGroup.t) (p : pending.t) : Prop :=
  pending.settled p = false ∧ Rec.IsCommit (pending.record p) = true ∧
  is_Some (memoryGroup.commits g !! Rec.Epoch (pending.record p)).

#[global] Instance lostCommit_dec g p : Decision (lostCommit g p).
Proof. unfold lostCommit. apply _. Defined.

(** [commit]: steps (4) through (7), applied together. *)
Definition commit (limits : Limits.t) (now : time) (g : memoryGroup.t) (st : GroupState.t)
    (keys : option EpochKeyDelivery.t) (batch : list pending.t) :
    memoryGroup.t * list SubmitResult.t :=
  match list_find (lostCommit g) batch with
  | Some (i, _) => (g, refuseBatch (Some g) batch i REASON_COMMIT_LOST)
  | None =>
      let first := memoryGroup.nextRecordId g in
      let g := memoryGroup.set_nextRecordId
                 (u64 (first + Z.of_nat (length (unsettled batch)))) g in
      let '(g, batch) := writeAll limits now st keys first 0 g batch in
      let currentEpoch := memoryGroup.currentEpoch g in
      (g, resultsOf
            ((λ current,
                if SubmitResult.CurrentEpoch (pending.result current) =? 0
                then pending.set_result
                       (SubmitResult.set_CurrentEpoch currentEpoch (pending.result current)) current
                else current) <$> batch))
  end.

(** ** [Submit] *)

(** The shape checks in front of everything: an error is the caller's fault. *)
Fixpoint validateRecords (records : list Rec.t) : option Error :=
  match records with
  | [] => None
  | record :: rest => first_error (validateRecord record) (validateRecords rest)
  end.

Definition validateSubmit (ctx : option Error) (request : SubmitRequest.t) : option Error :=
  let records := SubmitRequest.Records request in
  let commits := length (filter (λ r, Rec.IsCommit r = true) records) in
  first_error ctx
  (first_error (checkLength (SubmitRequest.GroupId request) GroupIdBytes)
  (first_error (match records with [] => Some ErrEmptyBatch | _ => None end)
  (first_error (validateRecords records)
     (if negb (commits =? 0)%nat && negb (length records =? 1)%nat
      then Some ErrCommitBatch else None)))).

(** The first phase: the batch, probed against the claims as they stand, before the row lock. *)
Definition submit_probe (group : option memoryGroup.t) (request : SubmitRequest.t) :
    list pending.t :=
  probe group
    ((λ record, pending.mk record SubmitResult.zero probeAbsent false)
     <$> SubmitRequest.Records request).

Definition settle (p : pending.t) : pending.t :=
  if decide (pending.probe p = probeIdentical)
  then pending.mk (pending.record p) (pending.result p) (pending.probe p) true
  else p.

(** The second phase: what the probe settled, then the row lock, the gates and the writes.
    [group] is [None] when the lookup in front of the probe found no group. *)
Definition submit_finish (limits : Limits.t) (now : time) (group : option memoryGroup.t)
    (request : SubmitRequest.t) (batch : list pending.t) :
    option memoryGroup.t * list SubmitResult.t :=
  match list_find (λ p, pending.probe p = probeDiffers) batch with
  | Some (i, _) => (group, refuseBatch group batch i REASON_STREAM_INDEX_REUSED)
  | None =>
      let batch := settle <$> batch in
      if decide (unsettled batch = [])
      then (group, resultsOf (fillCurrentEpoch group batch))
      else
        match group with
        | None => (None, refuseUnavailable batch)
        | Some g =>
            if memoryGroup.closed g then (Some g, refuseUnavailable batch)
            else
              let st := state g in
              let batch :=
                (λ current, pending.set_result
                   (SubmitResult.set_CurrentEpoch (GroupState.CurrentEpoch st)
                      (pending.result current)) current) <$> batch in
              match gates g st (SubmitRequest.EpochKeys request) 0 batch ∅ ∅ with
              | Some (i, refusal) => (Some g, refuseBatch (Some g) batch i refusal)
              | None =>
                  let '(g, results) :=
                    commit limits now g st (SubmitRequest.EpochKeys request) batch in
                  (Some g, results)
              end
        end
  end.

(** ** The store *)

Module MemoryStore.
Record t := mk {
  limits : Limits.t;
  groups : gmap (list Z) memoryGroup.t }.
Definition set_groups (x : gmap (list Z) memoryGroup.t) (s : t) : t := mk (limits s) x.
End MemoryStore.

Definition NewMemoryStore (limits : Limits.t) : MemoryStore.t := MemoryStore.mk limits ∅.

Definition group (self : MemoryStore.t) (groupId : slice) : option memoryGroup.t :=
  MemoryStore.groups self !! octets groupId.

(** The group put back under its id, when there is one. *)
Definition put_group (self : MemoryStore.t) (groupId : slice) (g : option memoryGroup.t) :
    MemoryStore.t :=
  match g with
  | None => self
  | Some g => MemoryStore.set_groups (<[octets groupId := g]> (MemoryStore.groups self)) self
  end.

Definition Submit (ctx : option Error) (now : time) (self : MemoryStore.t)
    (request : SubmitRequest.t) : MemoryStore.t * res Error (list SubmitResult.t) :=
  match validateSubmit ctx request with
  | Some e => (self, Err e)
  | None =>
      let g := group self (SubmitRequest.GroupId request) in
      let '(g', results) :=
        submit_finish (MemoryStore.limits self) now g request (submit_probe g request) in
      (put_group self (SubmitRequest.GroupId request) g', Ok results)
  end.

Definition CloseGroup (ctx : option Error) (now : time) (self : MemoryStore.t) (groupId : slice) :
    MemoryStore.t * option Error :=
  match first_error ctx (checkLength groupId GroupIdBytes) with
  | Some e => (self, Some e)
  | None =>
      match group self groupId with
      | None => (self, Some ErrGroupUnavailable)
      | Some g =>
          if memoryGroup.closed g then (self, Some ErrGroupUnavailable)
          else (put_group self groupId (Some (memoryGroup.set_closed true now g)), None)
      end
  end.

(** ** [CreateGroup] *)

Definition validateCreate (ctx : option Error) (request : CreateGroupRequest.t) :
    res Error Rec.t :=
  match first_error ctx
          (first_error (checkLength (CreateGroupRequest.GroupId request) GroupIdBytes)
             (checkLength (CreateGroupRequest.BootstrapWriteKey request) EpochKeyBytes)) with
  | Some e => Err e
  | None =>
      match CreateGroupRequest.InitialCommit request with
      | None => Err ErrEmptyBatch
      | Some initial =>
          match validateRecord initial with Some e => Err e | None => Ok initial end
      end
  end.

(** The group a founding commit makes: epoch 0 already retired, epoch 1 open for its fan-out. *)
Definition newGroup (now : time) (request : CreateGroupRequest.t) (opening : epochOpening.t)
    (media : Z) (durable : option Z) (record : Rec.t) : memoryGroup.t :=
  memoryGroup.mk (bytes_Clone (CreateGroupRequest.GroupId request)) now 1 (firstRecordId + 1)
    media durable 1 false (bytes_Clone (epochOpening.GroupContextHash opening)) false zero_time
    [rowOf now record media durable 1]
    {[claimKeyOf record := claimOf now record]}
    {[Rec.Epoch record := commitRow.mk (Rec.Epoch record) (Rec.RecordId record) record]}
    {[octets (Rec.SenderHandle record) :=
        senderRow.mk (Rec.StreamIndex record) 1 (recordBytes record) now]}
    (<[1 := epochRow.mk 1 (bytes_Clone (epochOpening.WriteKey opening))
              (bytes_Clone (epochOpening.ReadKey opening)) now (epochOpening.AlgId opening)
              (epochOpening.ExpectedWrapCount opening) (Rec.RecordId record) now zero_time]>
       {[0 := epochRow.mk 0 (bytes_Clone (CreateGroupRequest.BootstrapWriteKey request)) None
                zero_time 0 0 0 now now]})
    (match recoveryTagOf record with
     | Some tag =>
         {[octets (RecoveryTag.Handle tag) :=
             recoveryRow.mk (bytes_Clone (RecoveryTag.VerifyPub tag)) (RecoveryTag.AlgId tag) now]}
     | None => ∅
     end).

Definition createRejected : CreateGroupResult.t := CreateGroupResult.mk REASON_REJECTED 0 0 None.

Definition CreateGroup (ctx : option Error) (now : time) (self : MemoryStore.t)
    (request : CreateGroupRequest.t) : MemoryStore.t * res Error CreateGroupResult.t :=
  match validateCreate ctx request with
  | Err e => (self, Err e)
  | Ok initial =>
      if negb (Rec.IsCommit initial) || negb (Rec.Epoch initial =? 0) ||
         negb (wellFormedEpochAttachment initial 1 (CreateGroupRequest.EpochKeys request))
      then (self, Ok createRejected)
      else
        match openingOf initial (CreateGroupRequest.EpochKeys request) with
        | None => (self, Ok createRejected) (* unreachable: the test above ran [openingOf] *)
        | Some opening =>
            if bool_decide (is_Some (group self (CreateGroupRequest.GroupId request)))
            then (self, Ok createRejected)
            else
              let '(media, durable, applied) := apply (MemoryStore.limits self) opening in
              let record :=
                Rec.set_PruneAfter None (Rec.set_RecordId firstRecordId (cloneRecord initial)) in
              let g := newGroup now request opening media durable record in
              (put_group self (CreateGroupRequest.GroupId request) (Some g),
               Ok (CreateGroupResult.mk (acceptanceReason (Some applied))
                     (memoryGroup.currentEpoch g) (Rec.RecordId record) (Some applied)))
        end
  end.

(** ** The read paths *)

(** The group a read may see: one that exists and is not closed. *)
Definition open_group (self : MemoryStore.t) (groupId : slice) : option memoryGroup.t :=
  match group self groupId with
  | Some g => if memoryGroup.closed g then None else Some g
  | None => None
  end.

Definition GroupStateOf (ctx : option Error) (self : MemoryStore.t) (groupId : slice) :
    res Error GroupState.t :=
  match first_error ctx (checkLength groupId GroupIdBytes) with
  | Some e => Err e
  | None =>
      match open_group self groupId with
      | None => Err ErrGroupUnavailable
      | Some g => Ok (state g)
      end
  end.

Definition EpochKeysOf (ctx : option Error) (self : MemoryStore.t) (groupId : slice) (epoch : Z) :
    res Error EpochKeys.t :=
  match first_error ctx (checkLength groupId GroupIdBytes) with
  | Some e => Err e
  | None =>
      match open_group self groupId with
      | None => Err ErrEpochKeyUnknown
      | Some g =>
          match memoryGroup.epochs g !! epoch with
          | None => Err ErrEpochKeyUnknown
          | Some row =>
              if bool_decide (epochRow.writeKey row = None) &&
                 bool_decide (epochRow.readKey row = None)
              then Err ErrEpochKeyUnknown
              else Ok (EpochKeys.mk (epochRow.epoch row) (bytes_Clone (epochRow.writeKey row))
                         (bytes_Clone (epochRow.readKey row)) (epochRow.readKeyInstall row)
                         (epochRow.algId row) (epochRow.openedByRecord row)
                         (epochRow.acceptTime row) (epochRow.retireTime row))
          end
      end
  end.

(** The first loop of [Fetch]: the high water under the reader's ceiling. *)
Definition highWaterOf (readEpoch : Z) (rows : list recordRow.t) : Z :=
  fold_left (λ acc row,
    if readEpoch <? Rec.Epoch (recordRow.record row) then acc
    else Z.max acc (Rec.RecordId (recordRow.record row))) rows 0.

(** The second loop: what has been appended so far, the cursor, and whether the limit cut it. *)
Fixpoint fetchLoop (request : FetchRequest.t) (rows : list recordRow.t) (page : list Rec.t)
    (next : Z) : list Rec.t * Z * bool :=
  match rows with
  | [] => (page, next, true)
  | row :: rest =>
      let record := recordRow.record row in
      if FetchRequest.ReadEpoch request <? Rec.Epoch record
      then fetchLoop request rest page next
      else if Rec.RecordId record <=? FetchRequest.SinceRecordId request
      then fetchLoop request rest page next
      else if negb (classIncluded (FetchRequest.ClassMask request) (Rec.RetentionClass record))
      then fetchLoop request rest page next
      else if negb (FetchRequest.Limit request =? 0) &&
              (u32 (Z.of_nat (length page)) =? FetchRequest.Limit request)
      then (page, next, false)
      else fetchLoop request rest (page ++ [read row (FetchRequest.HeadsOnly request)])
             (Rec.RecordId record)
  end.

Definition Fetch (ctx : option Error) (self : MemoryStore.t) (request : FetchRequest.t) :
    res Error FetchResult.t :=
  match first_error ctx (checkLength (FetchRequest.GroupId request) GroupIdBytes) with
  | Some e => Err e
  | None =>
      match open_group self (FetchRequest.GroupId request) with
      | None => Err ErrGroupUnavailable
      | Some g =>
          let '(page, next, complete) :=
            fetchLoop request (memoryGroup.records g) [] (FetchRequest.SinceRecordId request) in
          Ok (FetchResult.mk page next
                (highWaterOf (FetchRequest.ReadEpoch request) (memoryGroup.records g)) complete)
      end
  end.
