(* ===== verification/GroupLog.v ===== *)
(** * The group log: what a group promises, as a replay of its records

    The abstract specification of one group is its log, the rows of [message_record] in order.
    Everything else the store keeps beside them (the stream claims, the commit of each epoch, the
    sender high waters, the recovery pins, the current epoch, whether its fan-out is closed, the
    next id) is a function of the log: [replay].  [log_ok] says which logs are legal: each row was
    admissible in the view its predecessors build.

    The lemmas of this file are about logs alone; [GroupInv.v] shows that the code's rows are the
    replay of a legal log. *)

From S2P Require Import Prelude StoreTypes Retention MemoryStore.

(** ** The view and its replay *)

Module view.
Record t := mk {
  next : Z;
  epoch : Z;
  complete : bool;
  expected : Z;
  claims : gmap (list Z * Z) claimRow.t;
  commits : gmap Z commitRow.t;
  senders : gmap (list Z) senderRow.t;
  recovery : gmap (list Z) recoveryRow.t }.
End view.

(** A group before its founding commit. *)
Definition empty_view : view.t := view.mk firstRecordId 0 false 0 ∅ ∅ ∅ ∅.

(** The wrap count a commit's attachment announces, under either of its two kinds. *)
Definition announcedWraps (r : Rec.t) : Z :=
  match Rec.Attachment r with
  | Some a =>
      match Attachment.Kind a with
      | AttachmentEpoch => default 0 (EpochAttachment.ExpectedWrapCount <$> Attachment.Epoch a)
      | AttachmentEpochDigest =>
          default 0 (EpochDigestAttachment.ExpectedWrapCount <$> Attachment.EpochDigest a)
      | _ => 0
      end
  | None => 0
  end.

(** The marker that closes the fan-out of [epoch], which announced [expected] wraps. *)
Definition closes (epoch expected : Z) (r : Rec.t) : bool :=
  match epochCompleteTagOf r with
  | Some marker =>
      (EpochCompleteTag.Epoch marker =? epoch) && (EpochCompleteTag.WrapCount marker =? expected)
  | None => false
  end.

Definition step_view (v : view.t) (row : recordRow.t) : view.t :=
  let r := recordRow.record row in
  let now := recordRow.createTime row in
  let epoch := if Rec.IsCommit r then u64 (view.epoch v + 1) else view.epoch v in
  let expected := if Rec.IsCommit r then announcedWraps r else view.expected v in
  view.mk (u64 (view.next v + 1)) epoch
    ((if Rec.IsCommit r then false else view.complete v) || closes epoch expected r)
    expected
    (<[claimKeyOf r := claimOf now r]> (view.claims v))
    (if Rec.IsCommit r
     then <[Rec.Epoch r := commitRow.mk (Rec.Epoch r) (Rec.RecordId r) r]> (view.commits v)
     else view.commits v)
    (account now r (view.senders v))
    (writePin now r (view.recovery v)).

Definition replay (rows : list recordRow.t) : view.t := fold_left step_view rows empty_view.

(** ** Legal logs *)

Definition last_index (v : view.t) (sender : list Z) : option Z :=
  senderRow.lastStreamIndex <$> view.senders v !! sender.

(** What the next row of a log must satisfy. *)
Record admissible (v : view.t) (r : Rec.t) : Prop := Admissible {
  adm_id : Rec.RecordId r = view.next v;
  adm_epoch : Rec.Epoch r = view.epoch v;
  adm_found : view.commits v = ∅ → Rec.IsCommit r = true;
  adm_open : view.complete v = true ∨ exemptFromEpochComplete r = true ∨ view.commits v = ∅;
  adm_kind : Rec.IsCommit r = isEpochAttachmentKind (attachmentKindOf r);
  adm_commit : Rec.IsCommit r = true → view.commits v !! Rec.Epoch r = None;
  adm_sender : ∀ l, last_index v (octets (Rec.SenderHandle r)) = Some l → l < Rec.StreamIndex r;
  adm_pin : ∀ tag pin, recoveryTagOf r = Some tag →
      view.recovery v !! octets (RecoveryTag.Handle tag) = Some pin →
      octets (recoveryRow.verifyPub pin) = octets (RecoveryTag.VerifyPub tag);
  adm_valid : validateRecord r = None }.

Inductive log_ok : list recordRow.t → Prop :=
  | log_nil : log_ok []
  | log_snoc rows row :
      log_ok rows → admissible (replay rows) (recordRow.record row) → log_ok (rows ++ [row]).

(** ** Lemmas on the replay *)

Lemma replay_snoc rows row : replay (rows ++ [row]) = step_view (replay rows) row.
Proof. unfold replay. by rewrite fold_left_app. Qed.

#[export] Hint Rewrite replay_snoc : server_rw.

(** The commits of a log prefix. *)
Definition commits_in (rows : list recordRow.t) : nat :=
  length (filter (λ row, Rec.IsCommit (recordRow.record row) = true) rows).

Lemma commits_in_snoc rows row :
  commits_in (rows ++ [row]) =
  (commits_in rows + if Rec.IsCommit (recordRow.record row) then 1 else 0)%nat.
Proof.
  unfold commits_in. rewrite filter_app, length_app. f_equal.
  rewrite filter_cons, filter_nil. repeat case_decide; simplify_eq/=; repeat case_match; simplify_eq/=; auto.
Qed.

Lemma commits_in_length rows : (commits_in rows <= length rows)%nat.
Proof. apply length_filter. Qed.

Lemma commits_in_app a b : commits_in (a ++ b) = (commits_in a + commits_in b)%nat.
Proof. unfold commits_in. by rewrite filter_app, length_app. Qed.

Lemma replay_next rows : view.next (replay rows) = u64 (1 + Z.of_nat (length rows)).
Proof.
  induction rows as [|row rows IH] using rev_ind; [done|].
  rewrite replay_snoc. simpl. rewrite IH, u64_add_l, length_app. simpl. f_equal. lia.
Qed.

Lemma replay_epoch rows : view.epoch (replay rows) = u64 (Z.of_nat (commits_in rows)).
Proof.
  induction rows as [|row rows IH] using rev_ind; [done|].
  rewrite replay_snoc, commits_in_snoc. simpl. rewrite IH.
  destruct (Rec.IsCommit _); rewrite ?u64_add_l; f_equal; lia.
Qed.

(** A property of every admissible row holds along a legal log. *)
Lemma log_ok_prefix a b : log_ok (a ++ b) → log_ok a.
Proof.
  induction b as [|row b IH] using rev_ind; [by rewrite app_nil_r|].
  rewrite app_assoc. intros H. inversion H as [|rows row' Hok Hadm Heq].
  - by destruct (a ++ b).
  - apply app_inj_tail in Heq as [-> ->]. auto.
Qed.

Lemma log_ok_snoc_inv rows row :
  log_ok (rows ++ [row]) → log_ok rows ∧ admissible (replay rows) (recordRow.record row).
Proof.
  intros H. inversion H as [|rows' row' Hok Hadm Heq]; [by destruct rows|].
  by apply app_inj_tail in Heq as [-> ->].
Qed.

Lemma log_ok_lookup rows i row :
  log_ok rows → rows !! i = Some row → admissible (replay (take i rows)) (recordRow.record row).
Proof.
  intros Hok Hi. rewrite <- (take_drop (S i) rows) in Hok. apply log_ok_prefix in Hok.
  rewrite (take_S_r _ _ row Hi) in Hok. by apply log_ok_snoc_inv in Hok as [_ Hok].
Qed.

(** ** Ids *)

Lemma log_ids rows i row :
  log_ok rows → rows !! i = Some row →
  Rec.RecordId (recordRow.record row) = u64 (1 + Z.of_nat i).
Proof.
  intros Hok Hi. rewrite (adm_id _ _ (log_ok_lookup _ _ _ Hok Hi)), replay_next.
  rewrite length_take_le; [done|]. apply lookup_lt_Some in Hi. lia.
Qed.

Lemma log_ids_exact rows i row :
  log_ok rows → Z.of_nat (length rows) < two64 → rows !! i = Some row →
  Rec.RecordId (recordRow.record row) = 1 + Z.of_nat i.
Proof.
  intros Hok Hl Hi. rewrite (log_ids _ _ _ Hok Hi). apply lookup_lt_Some in Hi.
  apply u64_small. lia.
Qed.

(** ** Epochs *)

Lemma log_epoch rows i row :
  log_ok rows → rows !! i = Some row →
  Rec.Epoch (recordRow.record row) = u64 (Z.of_nat (commits_in (take i rows))).
Proof.
  intros Hok Hi. by rewrite (adm_epoch _ _ (log_ok_lookup _ _ _ Hok Hi)), replay_epoch.
Qed.

Lemma commits_in_take_le i j rows :
  (i <= j)%nat → (commits_in (take i rows) <= commits_in (take j rows))%nat.
Proof.
  intros Hij. rewrite <- (take_drop i (take j rows)), take_take, Nat.min_l by done.
  rewrite commits_in_app. lia.
Qed.

Lemma commits_in_take_bound i rows : (commits_in (take i rows) <= length rows)%nat.
Proof. pose proof (commits_in_length (take i rows)). rewrite length_take in *. lia. Qed.

Lemma log_epoch_exact rows i row :
  log_ok rows → Z.of_nat (length rows) < two64 → rows !! i = Some row →
  Rec.Epoch (recordRow.record row) = Z.of_nat (commits_in (take i rows)).
Proof.
  intros Hok Hl Hi. rewrite (log_epoch _ _ _ Hok Hi). apply u64_small.
  pose proof (commits_in_take_bound i rows). lia.
Qed.

(** ** Stream indexes and claims *)

Lemma account_last now r senders h :
  senderRow.lastStreamIndex <$> account now r senders !! h =
  if decide (h = octets (Rec.SenderHandle r)) then Some (Rec.StreamIndex r)
  else senderRow.lastStreamIndex <$> senders !! h.
Proof.
  unfold account. case_decide as E; [subst; by rewrite lookup_insert_eq|].
  by rewrite lookup_insert_ne.
Qed.

(** Along a legal log every claim of a sender is at or below its high water. *)
Lemma log_claims_below rows k c :
  log_ok rows → view.claims (replay rows) !! k = Some c →
  ∃ l, last_index (replay rows) k.1 = Some l ∧ k.2 <= l.
Proof.
  intros Hok. revert k c. induction Hok as [|rows row Hok IH Hadm]; intros k c; [done|].
  rewrite replay_snoc. unfold last_index. simpl. rewrite account_last.
  rewrite lookup_insert_Some. intros [[<- _]|[Hne Hk]].
  - rewrite decide_True by done. simpl. eauto with lia.
  - destruct (IH _ _ Hk) as (l & Hl & Hle). case_decide as E; [|eauto].
    rewrite E in Hl. pose proof (adm_sender _ _ Hadm _ Hl). eexists; split; [done|lia].
Qed.

(** So an admissible row claims a fresh key: nothing is ever overwritten. *)
Lemma admissible_fresh rows r :
  log_ok rows → admissible (replay rows) r → view.claims (replay rows) !! claimKeyOf r = None.
Proof.
  intros Hok Hadm. destruct (_ !! claimKeyOf r) as [c|] eqn:Hc; [|done].
  destruct (log_claims_below _ _ _ Hok Hc) as (l & Hl & Hle). simpl in *.
  pose proof (adm_sender _ _ Hadm _ Hl). lia.
Qed.

Lemma log_claims_spec rows k c :
  log_ok rows →
  view.claims (replay rows) !! k = Some c ↔
  ∃ i row, rows !! i = Some row ∧ k = claimKeyOf (recordRow.record row) ∧
           c = claimOf (recordRow.createTime row) (recordRow.record row).
Proof.
  intros Hok. revert k c. induction Hok as [|rows row Hok IH Hadm]; intros k c.
  { split; [done|]. by intros (i & row & H & _). }
  rewrite replay_snoc. simpl. rewrite lookup_insert_Some. split.
  - intros [[<- <-]|[Hne Hk]].
    + exists (length rows), row. split; [|done]. by rewrite lookup_app_r, Nat.sub_diag.
    + apply IH in Hk as (i & row' & Hi & -> & ->). exists i, row'. split; [|done].
      by apply lookup_app_l_Some.
  - intros (i & row' & Hi & -> & ->). apply lookup_app_Some in Hi as [Hi|[Hl Hi] ].
    + right. assert (view.claims (replay rows) !! claimKeyOf (recordRow.record row') =
        Some (claimOf (recordRow.createTime row') (recordRow.record row'))) as Hk by (apply IH; eauto).
      split; [|done]. intros Heq. rewrite <- Heq, (admissible_fresh _ _ Hok Hadm) in Hk. done.
    + left. by apply list_lookup_singleton_Some in Hi as [_ <-].
Qed.

(** Two rows never hold the same claim key. *)
Lemma log_claims_inj rows i j ri rj :
  log_ok rows → rows !! i = Some ri → rows !! j = Some rj →
  claimKeyOf (recordRow.record ri) = claimKeyOf (recordRow.record rj) → i = j.
Proof.
  intros Hok Hi Hj Heq.
  assert (∀ a b ra rb, (a < b)%nat → rows !! a = Some ra → rows !! b = Some rb →
    claimKeyOf (recordRow.record ra) ≠ claimKeyOf (recordRow.record rb)) as Hlt.
  { intros a b ra rb Hab Ha Hb E.
    pose proof (log_ok_lookup _ _ _ Hok Hb) as Hadm.
    assert (log_ok (take b rows)) as Hok' by
      (rewrite <- (take_drop b rows) in Hok; by apply log_ok_prefix in Hok).
    pose proof (admissible_fresh _ _ Hok' Hadm) as Hfr.
    assert (view.claims (replay (take b rows)) !! claimKeyOf (recordRow.record ra) =
      Some (claimOf (recordRow.createTime ra) (recordRow.record ra))) as Hin.
    { apply log_claims_spec; [done|]. exists a, ra. by rewrite lookup_take_lt. }
    congruence. }
  destruct (decide (i < j)%nat); [by edestruct Hlt|].
  destruct (decide (j < i)%nat); [by edestruct (Hlt j i)|]. lia.
Qed.

(** Appending legal rows keeps every claim. *)
Lemma log_claims_mono rows more k c :
  log_ok (rows ++ more) → view.claims (replay rows) !! k = Some c →
  view.claims (replay (rows ++ more)) !! k = Some c.
Proof.
  intros Hok Hk. pose proof (log_ok_prefix _ _ Hok) as Hok'.
  apply log_claims_spec in Hk as (i & row & Hi & ? & ?); [|done].
  apply log_claims_spec; [done|]. exists i, row. split; [|done]. by apply lookup_app_l_Some.
Qed.

(** ** Commits *)

Lemma log_commits_spec rows e c :
  log_ok rows →
  view.commits (replay rows) !! e = Some c ↔
  ∃ i row, rows !! i = Some row ∧ Rec.IsCommit (recordRow.record row) = true ∧
    Rec.Epoch (recordRow.record row) = e ∧
    c = commitRow.mk e (Rec.RecordId (recordRow.record row)) (recordRow.record row).
Proof.
  intros Hok. revert e c. induction Hok as [|rows row Hok IH Hadm]; intros e c.
  { split; [done|]. by intros (i & row & H & _). }
  rewrite replay_snoc. simpl.
  assert (∀ i row', rows !! i = Some row' → (rows ++ [row]) !! i = Some row') as Hl
    by (intros; by apply lookup_app_l_Some).
  assert ((rows ++ [row]) !! length rows = Some row) as Hlast
    by (by rewrite lookup_app_r, Nat.sub_diag).
  destruct (Rec.IsCommit (recordRow.record row)) eqn:Hc; [rewrite lookup_insert_Some|]; split.
  - intros [[<- <-]|[Hne Hk]]; [eauto 8|]. apply IH in Hk as (i & row' & ? & ? & ? & ?). eauto 8.
  - intros (i & row' & Hi & Hc' & <- & ->). apply lookup_app_Some in Hi as [Hi|[Hle Hi] ].
    + right. assert (view.commits (replay rows) !! Rec.Epoch (recordRow.record row') =
        Some (commitRow.mk (Rec.Epoch (recordRow.record row'))
          (Rec.RecordId (recordRow.record row')) (recordRow.record row'))) as Hk
        by (apply IH; eauto 8).
      split; [|done]. intros Heq. rewrite <- Heq, (adm_commit _ _ Hadm Hc) in Hk. done.
    + left. by apply list_lookup_singleton_Some in Hi as [_ <-].
  - intros Hk. apply IH in Hk as (i & row' & ? & ? & ? & ?). eauto 8.
  - intros (i & row' & Hi & Hc' & <- & ->). apply IH.
    apply lookup_app_Some in Hi as [Hi|[Hle Hi] ]; [eauto 8|].
    apply list_lookup_singleton_Some in Hi as [_ <-]. congruence.
Qed.

(** Every epoch below the current one was closed by a commit of the log. *)
Lemma log_commits_dom rows e :
  log_ok rows → Z.of_nat (length rows) < two64 →
  is_Some (view.commits (replay rows) !! e) ↔ 0 <= e < view.epoch (replay rows).
Proof.
  intros Hok Hl. rewrite replay_epoch, u64_small
    by (pose proof (commits_in_length rows); lia).
  revert e. induction Hok as [|rows row Hok IH Hadm]; intros e.
  { simpl. rewrite lookup_empty. split; [by intros [? ?]|unfold commits_in; simpl; lia]. }
  rewrite length_app in Hl. simpl in Hl. specialize (IH ltac:(lia)).
  rewrite replay_snoc, commits_in_snoc. simpl.
  destruct (Rec.IsCommit _) eqn:Hc; [|rewrite IH; lia].
  pose proof (adm_epoch _ _ Hadm) as He. rewrite replay_epoch, u64_small in He
    by (pose proof (commits_in_length rows); lia).
  destruct (decide (Rec.Epoch (recordRow.record row) = e)) as [<-|Hne].
  - rewrite lookup_insert_eq. split; [lia|eauto].
  - rewrite lookup_insert_ne, IH by done. lia.
Qed.

(** ** Recovery pins *)

Lemma writePin_keep now r recovery h pin :
  recovery !! h = Some pin → writePin now r recovery !! h = Some pin.
Proof.
  intros H. unfold writePin. destruct (recoveryTagOf r) as [tag|]; [|done].
  destruct (recovery !! octets _) eqn:E; [done|]. rewrite lookup_insert_ne; [done|]. congruence.
Qed.

(** The pub key of a row's tag is, octet for octet, the one its handle was first seen with. *)
Lemma log_pins rows i row tag :
  log_ok rows → rows !! i = Some row → recoveryTagOf (recordRow.record row) = Some tag →
  ∃ pin, view.recovery (replay rows) !! octets (RecoveryTag.Handle tag) = Some pin ∧
         octets (recoveryRow.verifyPub pin) = octets (RecoveryTag.VerifyPub tag).
Proof.
  intros Hok. revert i row tag. induction Hok as [|rows row' Hok IH Hadm]; intros i row tag Hi Ht;
    [done|]. rewrite replay_snoc. simpl. apply lookup_app_Some in Hi as [Hi|[_ Hi] ].
  - destruct (IH _ _ _ Hi Ht) as (pin & Hp & He). eauto using writePin_keep.
  - apply list_lookup_singleton_Some in Hi as [_ ->]. unfold writePin. rewrite Ht.
    destruct (view.recovery _ !! _) as [pin|] eqn:Hp.
    + exists pin. split; [done|]. eauto using adm_pin.
    + eexists. by rewrite lookup_insert_eq.
Qed.

Lemma log_pins_mono rows more h pin :
  view.recovery (replay rows) !! h = Some pin →
  view.recovery (replay (rows ++ more)) !! h = Some pin.
Proof.
  intros H. induction more as [|row more IH] using rev_ind; [by rewrite app_nil_r|].
  rewrite app_assoc, replay_snoc. simpl. by apply writePin_keep.
Qed.

(** ** Accounting *)

Definition rows_of (h : list Z) (rows : list recordRow.t) : list recordRow.t :=
  filter (λ row, octets (Rec.SenderHandle (recordRow.record row)) = h) rows.

Definition bytes_of (rows : list recordRow.t) : Z :=
  foldr (λ row acc, recordBytes (recordRow.record row) + acc) 0 rows.

Lemma bytes_of_snoc rows row :
  bytes_of (rows ++ [row]) = bytes_of rows + recordBytes (recordRow.record row).
Proof. induction rows; simpl; lia. Qed.

Lemma rows_of_snoc h rows row :
  rows_of h (rows ++ [row]) =
  rows_of h rows ++ if decide (octets (Rec.SenderHandle (recordRow.record row)) = h) then [row] else [].
Proof. unfold rows_of. rewrite filter_app. done. Qed.

Lemma log_accounting rows h :
  match view.senders (replay rows) !! h with
  | None => rows_of h rows = []
  | Some s => ∃ last front, rows_of h rows = front ++ [last] ∧
      senderRow.lastStreamIndex s = Rec.StreamIndex (recordRow.record last) ∧
      senderRow.recordCount s = i64 (Z.of_nat (length (rows_of h rows))) ∧
      senderRow.byteCount s = i64 (bytes_of (rows_of h rows)) ∧
      senderRow.lastTime s = recordRow.createTime last
  end.
Proof.
  induction rows as [|row rows IH] using rev_ind; [done|].
  rewrite replay_snoc, rows_of_snoc. simpl. unfold account. case_decide as E.
  - rewrite E, lookup_insert_eq. exists row, (rows_of h rows). simpl.
    rewrite length_app, bytes_of_snoc. simpl. rewrite Nat2Z.inj_add.
    destruct (view.senders (replay rows) !! h) as [s|]; simpl.
    + destruct IH as (last & front & Hr & _ & -> & -> & _). rewrite !i64_add_l. done.
    + rewrite IH. simpl. by rewrite Z.add_0_l.
  - rewrite lookup_insert_ne by done. by rewrite app_nil_r.
Qed.

(** ** The wrap fan-out *)

Lemma closes_ordinary e n r :
  closes e n r = true → attachmentKindOf r = AttachmentEpochComplete.
Proof. unfold closes, epochCompleteTagOf. by case_decide. Qed.

(** The wraps the current epoch waits for are those its commit announced. *)
Lemma log_expected rows :
  log_ok rows → rows ≠ [] → Z.of_nat (length rows) < two64 →
  ∃ c, view.commits (replay rows) !! (view.epoch (replay rows) - 1) = Some c ∧
       view.expected (replay rows) = announcedWraps (commitRow.record c).
Proof.
  intros Hok. induction Hok as [|rows row Hok IH Hadm]; intros Hne Hl; [done|].
  rewrite replay_snoc. simpl. rewrite length_app in Hl. simpl in Hl.
  destruct (Rec.IsCommit (recordRow.record row)) eqn:Hc.
  - exists (commitRow.mk (Rec.Epoch (recordRow.record row)) (Rec.RecordId (recordRow.record row))
      (recordRow.record row)). split; [|done]. pose proof (adm_epoch _ _ Hadm) as He.
    rewrite replay_epoch in He |- *. pose proof (commits_in_length rows).
    rewrite u64_small in He by lia. rewrite (u64_small (Z.of_nat _)), u64_small by lia.
    replace (Z.of_nat (commits_in rows) + 1 - 1) with (Rec.Epoch (recordRow.record row)) by lia.
    by rewrite lookup_insert_eq.
  - destruct rows as [|r0 rows]; [by rewrite (adm_found _ _ Hadm) in Hc|]. apply IH; [done|lia].
Qed.

(** A fan-out is closed by a marker of its own epoch, and by nothing else. *)
Lemma log_complete rows :
  log_ok rows → view.complete (replay rows) = true →
  ∃ j row, rows !! j = Some row ∧
    Rec.Epoch (recordRow.record row) = view.epoch (replay rows) ∧
    closes (view.epoch (replay rows)) (view.expected (replay rows)) (recordRow.record row) = true.
Proof.
  intros Hok. induction Hok as [|rows row Hok IH Hadm]; [done|].
  rewrite replay_snoc. simpl. destruct (Rec.IsCommit (recordRow.record row)) eqn:Hc; simpl.
  { intros Hcl. apply closes_ordinary in Hcl. pose proof (adm_kind _ _ Hadm) as Hk.
    rewrite Hcl, Hc in Hk. done. }
  destruct (closes _ _ (recordRow.record row)) eqn:Hcl.
  - intros _. exists (length rows), row. split; [by rewrite lookup_app_r, Nat.sub_diag|].
    split; [apply Hadm|done].
  - rewrite orb_false_r. intros H. destruct (IH H) as (j & m & Hj & ? & ?).
    exists j, m. split; [by apply lookup_app_l_Some|done].
Qed.
