(* ===== verification/GroupInv.v ===== *)
(** * Every operation keeps a group the replay of a legal log

    [group_inv] is the well-formedness invariant of one [memoryGroup]: its maps and counters are
    the replay of its records ([GroupLog.v]), the records form a legal log, and the keys of the
    current epoch and of its predecessor, and no others, are in custody.  The lemmas show that
    [CreateGroup]'s new group has it and that the write loop of [commit] keeps it, whatever batch
    the gates let through. *)

From S2P Require Import Prelude StoreTypes Retention MemoryStore GroupLog.

(** ** The invariant *)

(** The view a group's rows show when [next] is the next id; while a batch is being written the
    counter is already past the whole batch. *)
Definition view_at (next : Z) (g : memoryGroup.t) : view.t :=
  view.mk next (memoryGroup.currentEpoch g) (memoryGroup.epochComplete g)
    (default 0 (epochRow.expectedWrapCount <$>
                  memoryGroup.epochs g !! memoryGroup.currentEpoch g))
    (memoryGroup.claims g) (memoryGroup.commits g) (memoryGroup.senders g)
    (memoryGroup.recovery g).

(** 32 octets of key. *)
Definition is_key (k : slice) : Prop := len k = EpochKeyBytes.

(** The keys the group holds: a read key for every epoch since the first, write keys for exactly
    the current epoch and the one briefly retired predecessor, and a wrap count to wait for. *)
Record custody (g : memoryGroup.t) : Prop := Custody {
  cus_dom : ∀ e, is_Some (memoryGroup.epochs g !! e) ↔ 0 <= e <= memoryGroup.currentEpoch g;
  cus_pos : 1 <= memoryGroup.currentEpoch g;
  cus_row : ∀ e row, memoryGroup.epochs g !! e = Some row →
      epochRow.epoch row = e ∧
      (1 <= e → is_key (epochRow.readKey row) ∧ epochRow.expectedWrapCount row ≠ 0) ∧
      (memoryGroup.currentEpoch g - 1 <= e → is_key (epochRow.writeKey row)) ∧
      (e < memoryGroup.currentEpoch g - 1 → epochRow.writeKey row = None) }.

Record inv_at (next : Z) (g : memoryGroup.t) : Prop := InvAt {
  inv_view : view_at next g = replay (memoryGroup.records g);
  inv_log : log_ok (memoryGroup.records g);
  inv_epoch : is_Some (memoryGroup.epochs g !! memoryGroup.currentEpoch g);
  inv_founded : memoryGroup.commits g ≠ ∅;
  inv_custody : Z.of_nat (length (memoryGroup.records g)) < two64 → custody g }.

Definition group_inv (g : memoryGroup.t) : Prop := inv_at (memoryGroup.nextRecordId g) g.

(** The record as it is stored: the id the server allocates, and no prune time of its own. *)
Definition stamp (id : Z) (r : Rec.t) : Rec.t := Rec.set_PruneAfter None (Rec.set_RecordId id r).

(** ** One write *)

Lemma openingOf_stamp id r keys : openingOf (stamp id r) keys = openingOf r keys.
Proof. by destruct r. Qed.
Lemma attachmentKindOf_stamp id r : attachmentKindOf (stamp id r) = attachmentKindOf r.
Proof. by destruct r. Qed.
Lemma recoveryTagOf_stamp id r : recoveryTagOf (stamp id r) = recoveryTagOf r.
Proof. by destruct r. Qed.
Lemma validateRecord_stamp id r : validateRecord (stamp id r) = validateRecord r.
Proof. by destruct r. Qed.
Lemma exempt_stamp id r : exemptFromEpochComplete (stamp id r) = exemptFromEpochComplete r.
Proof. by destruct r. Qed.
Lemma claimKeyOf_stamp id r : claimKeyOf (stamp id r) = claimKeyOf r.
Proof. by destruct r. Qed.
#[export] Hint Rewrite openingOf_stamp attachmentKindOf_stamp recoveryTagOf_stamp
  validateRecord_stamp exempt_stamp claimKeyOf_stamp : server_rw.

Lemma opening_announces r keys o :
  openingOf r keys = Some o → announcedWraps r = epochOpening.ExpectedWrapCount o.
Proof. unfold openingOf, announcedWraps. intros H. cases_in H; by simplify_eq/=. Qed.

(** The rows of the epochs table after an opening, in every place. *)
Lemma openEpoch_lookup now st o media durable r g e :
  0 <= GroupState.CurrentEpoch st < two64 →
  memoryGroup.epochs (openEpoch now st o media durable r g) !! e =
  if decide (e = u64 (GroupState.CurrentEpoch st + 1)) then
    Some (let row := epochRow.mk e (epochOpening.WriteKey o) (epochOpening.ReadKey o) now
            (epochOpening.AlgId o) (epochOpening.ExpectedWrapCount o) (Rec.RecordId r) now zero_time in
          if (e <? GroupState.CurrentEpoch st) && bool_decide (epochOpening.WriteKey o ≠ None)
          then epochRow.set_writeKey None row else row)
  else
    (λ row, if bool_decide (epochRow.writeKey row = None) then row
            else if e <? GroupState.CurrentEpoch st then epochRow.set_writeKey None row
            else if e =? GroupState.CurrentEpoch st then epochRow.set_retireTime now row
            else row) <$> memoryGroup.epochs g !! e.
Proof.
  intros Hr. pose proof (u64_succ_ne _ Hr) as Hne. unfold openEpoch. simpl.
  rewrite map_lookup_imap. case_decide as E.
  - subst e. rewrite lookup_alter_ne by done. rewrite lookup_insert_eq. done.
  - destruct (decide (e = GroupState.CurrentEpoch st)) as [->|Hc].
    + rewrite lookup_alter_eq, lookup_insert_ne by done.
      destruct (_ !! _) as [row|]; [|done]. simpl. rewrite Z.ltb_irrefl, Z.eqb_refl. simpl.
      repeat case_bool_decide; done.
    + rewrite lookup_alter_ne, lookup_insert_ne by done.
      destruct (_ !! _) as [row|]; [|done]. simpl. rewrite (proj2 (Z.eqb_neq _ _) Hc).
      repeat case_bool_decide; destruct (e <? _); done.
Qed.

Lemma closeFanOut_fields r g :
  closeFanOut r g = memoryGroup.set_epochComplete (memoryGroup.epochComplete (closeFanOut r g)) g.
Proof. unfold closeFanOut. cases; by destruct g. Qed.

Lemma closeFanOut_complete r g :
  is_Some (memoryGroup.epochs g !! memoryGroup.currentEpoch g) →
  memoryGroup.epochComplete (closeFanOut r g) =
  memoryGroup.epochComplete g ||
  closes (memoryGroup.currentEpoch g)
    (default 0 (epochRow.expectedWrapCount <$>
                  memoryGroup.epochs g !! memoryGroup.currentEpoch g)) r.
Proof.
  intros [row Hrow]. unfold closeFanOut, closes. rewrite Hrow. simpl.
  destruct (epochCompleteTagOf r); [|by rewrite orb_false_r].
  destruct (_ && _) eqn:E; simpl; rewrite ?E, ?orb_true_r, ?orb_false_r; done.
Qed.

(** The group half of [writeOne], named: the epoch opened or not, then the row and its index
    entries. *)
Definition opened (limits : Limits.t) (now : time) (st : GroupState.t)
    (keys : option EpochKeyDelivery.t) (record : Rec.t) (g : memoryGroup.t) : memoryGroup.t :=
  if Rec.IsCommit record then
    match openingOf record keys with
    | Some o => let '(media, durable, _) := apply limits o in openEpoch now st o media durable record g
    | None => g
    end
  else g.

Definition appended (now : time) (record : Rec.t) (g : memoryGroup.t) : memoryGroup.t :=
  let g := closeFanOut record g in
  let g := writeClaim now record g in
  let g := writeRow now record (memoryGroup.mediaTtlSeconds g) (memoryGroup.durableTtlSeconds g) g in
  let g := memoryGroup.set_recovery (writePin now record (memoryGroup.recovery g)) g in
  memoryGroup.set_senders (account now record (memoryGroup.senders g)) g.

(** What the result of a written record says. *)
Definition written (limits : Limits.t) (st : GroupState.t) (keys : option EpochKeyDelivery.t)
    (id : Z) (p : pending.t) : SubmitResult.t :=
  let result := pending.result p in
  let result :=
    if Rec.IsCommit (pending.record p) then
      match openingOf (pending.record p) keys with
      | Some o => SubmitResult.set_CurrentEpoch (u64 (GroupState.CurrentEpoch st + 1))
                    (SubmitResult.set_Applied (Some (apply limits o).2) result)
      | None => result
      end
    else result in
  SubmitResult.set_RecordId id
    (SubmitResult.set_reason (acceptanceReason (SubmitResult.Applied result)) result).

Lemma writeOne_eq limits now st keys id g p :
  writeOne limits now st keys id g p =
  (appended now (stamp id (pending.record p))
     (opened limits now st keys (stamp id (pending.record p)) g),
   pending.set_result (written limits st keys id p) p).
Proof.
  unfold writeOne, written, opened. rewrite cloneRecord_id.
  fold (stamp id (pending.record p)). rewrite openingOf_stamp.
  change (Rec.IsCommit (stamp id (pending.record p))) with (Rec.IsCommit (pending.record p)).
  destruct (Rec.IsCommit (pending.record p)); [|unfold appended; by rewrite closeFanOut_fields].
  destruct (openingOf _ _) as [o|]; [|unfold appended; by rewrite closeFanOut_fields].
  destruct (apply limits o) as [[media durable] applied]. simpl.
  unfold appended. by rewrite closeFanOut_fields.
Qed.

Lemma opened_current limits now st keys r g :
  GroupState.CurrentEpoch st = memoryGroup.currentEpoch g →
  (Rec.IsCommit r = true → is_Some (openingOf r keys)) →
  memoryGroup.currentEpoch (opened limits now st keys r g) =
  if Rec.IsCommit r then u64 (memoryGroup.currentEpoch g + 1) else memoryGroup.currentEpoch g.
Proof.
  intros Hst Ho. unfold opened. destruct (Rec.IsCommit r); [|done].
  destruct (Ho eq_refl) as [o ->]. destruct (apply limits o) as [[??]?]. simpl. by rewrite Hst.
Qed.

(** The row of the current epoch after a write, and the wrap count it announces. *)
Lemma opened_epoch_row limits now st keys r g :
  GroupState.CurrentEpoch st = memoryGroup.currentEpoch g →
  0 <= memoryGroup.currentEpoch g < two64 →
  is_Some (memoryGroup.epochs g !! memoryGroup.currentEpoch g) →
  (Rec.IsCommit r = true → is_Some (openingOf r keys)) →
  let g' := opened limits now st keys r g in
  epochRow.expectedWrapCount <$> memoryGroup.epochs g' !! memoryGroup.currentEpoch g' =
  Some (if Rec.IsCommit r then announcedWraps r
        else default 0 (epochRow.expectedWrapCount <$>
                          memoryGroup.epochs g !! memoryGroup.currentEpoch g)).
Proof.
  intros Hst Hr Hrow Ho g'. unfold g'. rewrite opened_current by done. unfold opened.
  destruct (Rec.IsCommit r); [|by destruct Hrow as [row ->]].
  destruct (Ho eq_refl) as [o Ho']. rewrite Ho'.
  destruct (apply limits o) as [[media durable] applied].
  rewrite openEpoch_lookup, Hst by by rewrite Hst. rewrite decide_True by done. simpl.
  rewrite (opening_announces _ _ _ Ho'). by destruct (_ && _).
Qed.

Lemma opened_fields limits now st keys r g :
  (Rec.IsCommit r = true → is_Some (openingOf r keys)) →
  let g' := opened limits now st keys r g in
  memoryGroup.records g' = memoryGroup.records g ∧
  memoryGroup.claims g' = memoryGroup.claims g ∧
  memoryGroup.senders g' = memoryGroup.senders g ∧
  memoryGroup.recovery g' = memoryGroup.recovery g ∧
  memoryGroup.commits g' =
    (if Rec.IsCommit r then <[Rec.Epoch r := commitRow.mk (Rec.Epoch r) (Rec.RecordId r) r]>
                              (memoryGroup.commits g) else memoryGroup.commits g) ∧
  memoryGroup.epochComplete g' = (if Rec.IsCommit r then false else memoryGroup.epochComplete g) ∧
  memoryGroup.nextRecordId g' = memoryGroup.nextRecordId g ∧
  memoryGroup.closed g' = memoryGroup.closed g ∧
  memoryGroup.groupId g' = memoryGroup.groupId g.
Proof.
  intros Ho g'. unfold g', opened. destruct (Rec.IsCommit r); [|done].
  destruct (Ho eq_refl) as [o ->]. by destruct (apply limits o) as [[media durable] applied].
Qed.

Lemma writeOne_view limits now st keys id g r :
  GroupState.CurrentEpoch st = memoryGroup.currentEpoch g →
  0 <= memoryGroup.currentEpoch g < two64 →
  is_Some (memoryGroup.epochs g !! memoryGroup.currentEpoch g) →
  (Rec.IsCommit r = true → is_Some (openingOf r keys)) →
  let g' := appended now r (opened limits now st keys r g) in
  ∃ row, recordRow.record row = r ∧ recordRow.createTime row = now ∧
    memoryGroup.records g' = memoryGroup.records g ++ [row] ∧
    view_at (u64 (id + 1)) g' =
      step_view (view_at id g) row ∧
    is_Some (memoryGroup.epochs g' !! memoryGroup.currentEpoch g') ∧
    memoryGroup.epochs g' = memoryGroup.epochs (opened limits now st keys r g) ∧
    memoryGroup.nextRecordId g' = memoryGroup.nextRecordId g ∧
    memoryGroup.closed g' = memoryGroup.closed g ∧
    memoryGroup.groupId g' = memoryGroup.groupId g.
Proof.
  intros Hst Hr Hrow Ho g'. unfold g', appended.
  pose proof (opened_epoch_row limits now st keys r g Hst Hr Hrow Ho) as Hexp. simpl in Hexp.
  pose proof (opened_current limits now st keys r g Hst Ho) as Hcur.
  destruct (opened_fields limits now st keys r g Ho) as (Hrs & Hcl & Hse & Hre & Hco & Hec & Hnx & Hcd & Hgi).
  assert (is_Some (memoryGroup.epochs (opened limits now st keys r g) !!
    memoryGroup.currentEpoch (opened limits now st keys r g))) as Hrow'.
  { eapply fmap_is_Some. rewrite Hexp. eauto. }
  rewrite (closeFanOut_fields r (opened limits now st keys r g)).
  rewrite (closeFanOut_complete _ _ Hrow'), Hexp.
  clear g'. set (g1 := opened limits now st keys r g) in *. clearbody g1.
  exists (rowOf now r (memoryGroup.mediaTtlSeconds g1) (memoryGroup.durableTtlSeconds g1)
            (memoryGroup.policyVersion g1)).
  split; [done|]. split; [done|]. split; [simpl; by rewrite Hrs|]. split; [|simpl; auto].
  unfold view_at, step_view. simpl. rewrite Hexp, Hcur, Hcl, Hse, Hre, Hco, Hec. reflexivity.
Qed.

(** ** The gates against the group as it grows *)

(** [gate] reads a group frozen before the batch and what the batch established so far; that is the
    gate against the group the writes have already reached. *)
Record grown (g : memoryGroup.t) (hw : gmap (list Z) Z) (pn : gmap (list Z) slice)
    (g' : memoryGroup.t) : Prop := Grown {
  grown_commits : memoryGroup.commits g' = memoryGroup.commits g;
  grown_epoch : memoryGroup.currentEpoch g' = memoryGroup.currentEpoch g;
  grown_complete : memoryGroup.epochComplete g = true → memoryGroup.epochComplete g' = true;
  grown_senders : ∀ h, senderRow.lastStreamIndex <$> memoryGroup.senders g' !! h =
      match hw !! h with
      | Some l => Some l
      | None => senderRow.lastStreamIndex <$> memoryGroup.senders g !! h
      end;
  grown_pins : ∀ h, octets <$> (recoveryRow.verifyPub <$> memoryGroup.recovery g' !! h) =
      octets <$> match pn !! h with
      | Some k => Some k
      | None => recoveryRow.verifyPub <$> memoryGroup.recovery g !! h
      end }.

Lemma grown_refl g : grown g ∅ ∅ g.
Proof. by split. Qed.

Lemma gate_grown g hw pn g' st r keys :
  grown g hw pn g' → gate g st r keys hw pn = gate g' st r keys ∅ ∅.
Proof.
  intros [Hc He Hco Hs Hp]. unfold gate. rewrite Hc. rewrite !lookup_empty, Hs.
  destruct (recoveryTagOf r) as [tag|]; [|done].
  set (h := octets (RecoveryTag.Handle tag)) in *. specialize (Hp h). rewrite lookup_empty.
  repeat (case_match; [done|]). revert Hp. unfold bytes_Equal.
  destruct (pn !! h) as [k|], (memoryGroup.recovery g' !! h) as [k'|],
    (memoryGroup.recovery g !! h) as [k''|]; simpl;
    intros Hp; try discriminate Hp; try (injection Hp as Hp; rewrite Hp); done.
Qed.

(** What a record that passes the gate is: admissible in the group's view, and, for a commit, the
    bearer of a well-formed opening. *)
Lemma gate_admissible g st id r keys :
  GroupState.CurrentEpoch st = memoryGroup.currentEpoch g →
  (GroupState.EpochComplete st = true → memoryGroup.epochComplete g = true) →
  memoryGroup.commits g ≠ ∅ →
  gate g st r keys ∅ ∅ = REASON_OK → validateRecord r = None →
  admissible (view_at id g) (stamp id r) ∧
  (Rec.IsCommit r = true →
     wellFormedEpochAttachment r (u64 (memoryGroup.currentEpoch g + 1)) keys = true).
Proof.
  unfold gate. intros Hst Hco Hfd H Hv. rewrite !lookup_empty in H. rewrite Hst in H.
  destruct (Rec.IsCommit r && bool_decide _) eqn:E1; [done|].
  destruct (negb (Rec.Epoch r =? _)) eqn:E2; [done|].
  destruct (negb (GroupState.EpochComplete _) && _) eqn:E3; [done|].
  destruct (negb (Bool.eqb _ _)) eqn:E4; [done|].
  destruct (Rec.IsCommit r && negb _) eqn:E5; [done|].
  destruct (match _ <$> _ with Some _ => _ | None => _ end) eqn:E6; [done|].
  apply negb_false_iff in E2, E4. apply Z.eqb_eq in E2. apply Bool.eqb_prop in E4.
  split; [|by intros Hc; rewrite Hc in E5; destruct (wellFormedEpochAttachment _ _ _)].
  split; autorewrite with server_rw; try done.
  - apply andb_false_iff in E3. rewrite !negb_false_iff in E3. destruct E3; simpl; auto.
  - intros Hc. change (Rec.IsCommit r = true) in Hc. rewrite Hc in E1. simpl in E1.
    apply bool_decide_eq_false, eq_None_not_Some in E1. done.
  - intros l Hl. unfold last_index in Hl. simpl in Hl, E6. rewrite Hl in E6. by reflect_bools.
  - intros tag pin Ht Hp. rewrite Ht, lookup_empty in H. simpl in H, Hp. rewrite Hp in H. simpl in H.
    destruct (bytes_Equal _ _) eqn:E7; [|done]. by apply bytes_Equal_spec in E7.
Qed.

(** ** Custody *)

Lemma custody_ext g g' :
  memoryGroup.epochs g' = memoryGroup.epochs g →
  memoryGroup.currentEpoch g' = memoryGroup.currentEpoch g → custody g → custody g'.
Proof. intros He Hc [Hd Hp Hr]. split; rewrite ?He, ?Hc; auto. Qed.

Lemma is_key_not_nil k : is_key k → k ≠ None.
Proof. unfold is_key, len. intros H ->. done. Qed.

Lemma openEpoch_custody now st o media durable r g :
  custody g → GroupState.CurrentEpoch st = memoryGroup.currentEpoch g →
  memoryGroup.currentEpoch g + 1 < two64 →
  is_key (epochOpening.WriteKey o) → is_key (epochOpening.ReadKey o) →
  epochOpening.ExpectedWrapCount o ≠ 0 →
  custody (openEpoch now st o media durable r g).
Proof.
  intros [Hdom Hpos Hrow] Hst Hb Hw Hr Hn.
  assert (u64 (memoryGroup.currentEpoch g + 1) = memoryGroup.currentEpoch g + 1) as Hu
    by (apply u64_small; lia).
  assert (∀ e, memoryGroup.epochs (openEpoch now st o media durable r g) !! e = _) as Hl
    by (intros e; apply openEpoch_lookup; rewrite Hst; lia).
  assert (memoryGroup.currentEpoch (openEpoch now st o media durable r g) =
          memoryGroup.currentEpoch g + 1) as Hc by (simpl; by rewrite Hst).
  split.
  - intros e. rewrite Hl, Hc, Hst, Hu. case_decide; [subst; split; [lia|eauto]|].
    rewrite fmap_is_Some, Hdom. lia.
  - lia.
  - intros e row. rewrite Hl, Hc, Hst, Hu. case_decide as E.
    + rewrite (proj2 (Z.ltb_ge e _)) by lia. simpl. intros [= <-]. simpl.
      split; [done|]. split; [done|]. split; [done|lia].
    + rewrite fmap_Some. intros (row0 & H0 & ->). destruct (Hrow _ _ H0) as (He & Hk & Hwk & Hwn).
      assert (is_Some (memoryGroup.epochs g !! e)) as Hd by eauto. apply Hdom in Hd.
      destruct (bool_decide (epochRow.writeKey row0 = None)) eqn:Eb;
        [apply bool_decide_eq_true in Eb | clear Eb].
      { split; [done|]. split; [auto|]. split; [|auto]. intros ?. exfalso.
        eapply is_key_not_nil; [|exact Eb]. apply Hwk. lia. }
      destruct (e <? memoryGroup.currentEpoch g) eqn:E1; [|destruct (e =? _) eqn:E2];
        reflect_bools; simpl; (split; [done|]; split; [done|]; split; [intros; first [lia | apply Hwk; lia]|]);
        intros; first [done | lia].
Qed.

(** ** The write loop *)

Lemma appended_current now r g :
  memoryGroup.currentEpoch (appended now r g) = memoryGroup.currentEpoch g.
Proof. unfold appended. by rewrite closeFanOut_fields. Qed.

Lemma inv_epoch_range next g : inv_at next g → 0 <= memoryGroup.currentEpoch g < two64.
Proof.
  intros [Hv _ _ _ _]. change (memoryGroup.currentEpoch g) with (view.epoch (view_at next g)).
  rewrite Hv, replay_epoch. apply u64_range.
Qed.

Lemma inv_epoch_bound next g :
  inv_at next g → Z.of_nat (length (memoryGroup.records g)) < two64 →
  memoryGroup.currentEpoch g <= Z.of_nat (length (memoryGroup.records g)).
Proof.
  intros [Hv _ _ _ _] Hb. change (memoryGroup.currentEpoch g) with (view.epoch (view_at next g)).
  rewrite Hv, replay_epoch. pose proof (commits_in_length (memoryGroup.records g)).
  rewrite u64_small; lia.
Qed.

Lemma write_inv limits now st keys id g r :
  GroupState.CurrentEpoch st = memoryGroup.currentEpoch g →
  inv_at id g →
  admissible (view_at id g) (stamp id r) →
  (Rec.IsCommit r = true →
     wellFormedEpochAttachment r (u64 (memoryGroup.currentEpoch g + 1)) keys = true) →
  inv_at (u64 (id + 1))
    (appended now (stamp id r) (opened limits now st keys (stamp id r) g)).
Proof.
  intros Hst Hinv Hadm Hwf. pose proof (inv_epoch_range _ _ Hinv) as Hr.
  pose proof (inv_epoch_bound _ _ Hinv) as Hbd. destruct Hinv as [Hv Hl He Hfd Hc].
  assert (Rec.IsCommit (stamp id r) = true → is_Some (openingOf (stamp id r) keys)) as Ho.
  { rewrite openingOf_stamp. intros Hcm.
    destruct (wellFormed_opening _ _ _ (Hwf Hcm)) as (o & -> & _). eauto. }
  destruct (writeOne_view limits now st keys id g (stamp id r) Hst Hr He Ho)
    as (row & Hrow & Htime & Hrs & Hview & Hsome & Heps & _).
  pose proof (opened_current limits now st keys (stamp id r) g Hst Ho) as Hcur.
  pose proof (appended_current now (stamp id r) (opened limits now st keys (stamp id r) g)) as Hac.
  cbv zeta in Hrs, Hview, Hsome, Heps.
  set (G := appended now (stamp id r) (opened limits now st keys (stamp id r) g)) in *. clearbody G.
  split.
  - by rewrite Hview, Hv, Hrs, replay_snoc.
  - rewrite Hrs. constructor; [done|]. by rewrite Hrow, <- Hv.
  - exact Hsome.
  - intros Hempty. apply Hfd. apply (f_equal view.commits) in Hview. simpl in Hview.
    rewrite Hempty in Hview. destruct (Rec.IsCommit (recordRow.record row)); [|done].
    symmetry in Hview. by apply insert_non_empty in Hview.
  - rewrite Hrs, length_app. simpl. intros Hlen.
    specialize (Hc ltac:(lia)). specialize (Hbd ltac:(lia)).
    apply (custody_ext (opened limits now st keys (stamp id r) g)); [exact Heps|exact Hac|].
    unfold opened.
    change (Rec.IsCommit (stamp id r)) with (Rec.IsCommit r).
    destruct (Rec.IsCommit r) eqn:Hcm; [|done]. rewrite openingOf_stamp.
    destruct (wellFormed_opening _ _ _ (Hwf eq_refl)) as (o & -> & _ & Hw & Hrk & Hn).
    destruct (apply limits o) as [[media durable] applied].
    apply openEpoch_custody; try done. lia.
Qed.

(** A batch as [Submit] lets it through: a commit is alone. *)
Definition batch_shape (batch : list pending.t) : Prop :=
  Forall (λ p, Rec.IsCommit (pending.record p) = false) batch ∨ ∃ p, batch = [p].

(** An ordinary record leaves the group grown by it. *)
Lemma grown_step g0 hw pn g now r id st limits keys :
  grown g0 hw pn g → Rec.IsCommit r = false →
  (∀ tag pin, recoveryTagOf r = Some tag →
     memoryGroup.recovery g !! octets (RecoveryTag.Handle tag) = Some pin →
     octets (recoveryRow.verifyPub pin) = octets (RecoveryTag.VerifyPub tag)) →
  grown g0 (<[octets (Rec.SenderHandle r) := Rec.StreamIndex r]> hw) (pinBatch r pn)
    (appended now (stamp id r) (opened limits now st keys (stamp id r) g)).
Proof.
  intros [Hc He Hco Hs Hp] Hcm Hpin. unfold opened.
  change (Rec.IsCommit (stamp id r)) with (Rec.IsCommit r). rewrite Hcm. unfold appended.
  split.
  - by rewrite closeFanOut_fields.
  - by rewrite closeFanOut_fields.
  - intros H. specialize (Hco H). simpl. unfold closeFanOut. cases.
  - intros h. rewrite closeFanOut_fields. cbn [memoryGroup.senders memoryGroup.set_senders
      memoryGroup.set_recovery writeRow writeClaim memoryGroup.set_records memoryGroup.set_claims
      memoryGroup.set_epochComplete].
    rewrite account_last. change (Rec.SenderHandle (stamp id r)) with (Rec.SenderHandle r).
    case_decide as E; [subst; by rewrite lookup_insert_eq|]. by rewrite lookup_insert_ne.
  - intros h. rewrite closeFanOut_fields. cbn [memoryGroup.recovery memoryGroup.set_senders
      memoryGroup.set_recovery writeRow writeClaim memoryGroup.set_records memoryGroup.set_claims
      memoryGroup.set_epochComplete].
    unfold writePin, pinBatch. rewrite recoveryTagOf_stamp. specialize (Hp h) as Hph.
    destruct (recoveryTagOf r) as [tag|] eqn:Ht; [|done].
    set (h' := octets (RecoveryTag.Handle tag)) in *. specialize (Hp h') as Hph'.
    destruct (memoryGroup.recovery g !! h') as [pin|] eqn:Hg, (pn !! h') as [k|] eqn:Hk; try done.
    + destruct (decide (h = h')) as [->|Hne]; [|by rewrite lookup_insert_ne].
      rewrite lookup_insert_eq, Hg. simpl. f_equal. eapply Hpin; [done|exact Hg].
    + destruct (decide (h = h')) as [->|Hne]; [by rewrite !lookup_insert_eq|].
      by rewrite !lookup_insert_ne.
Qed.

(** What the write loop leaves of a batch: the results alone. *)
Fixpoint marked (limits : Limits.t) (st : GroupState.t) (keys : option EpochKeyDelivery.t)
    (first index : Z) (batch : list pending.t) : list pending.t :=
  match batch with
  | [] => []
  | p :: rest =>
      if pending.settled p then p :: marked limits st keys first index rest
      else pending.set_result (written limits st keys (u64 (first + index)) p) p
             :: marked limits st keys first (index + 1) rest
  end.

Lemma writeAll_marked limits now st keys first index g batch :
  (writeAll limits now st keys first index g batch).2 = marked limits st keys first index batch.
Proof.
  revert index g. induction batch as [|p rest IH]; intros index g; [done|]. simpl.
  destruct (pending.settled p).
  - specialize (IH index g). by destruct (writeAll _ _ _ _ _ _ _ _); simplify_eq/=.
  - rewrite writeOne_eq. cbv iota beta.
    match goal with |- context [writeAll ?a ?b ?c ?d ?e ?f ?g1 rest] => specialize (IH f g1);
      destruct (writeAll a b c d e f g1 rest) end. by simplify_eq/=.
Qed.

(** The group after the write loop, without the results. *)
Fixpoint grow (limits : Limits.t) (now : time) (st : GroupState.t)
    (keys : option EpochKeyDelivery.t) (first index : Z) (g : memoryGroup.t)
    (batch : list pending.t) : memoryGroup.t :=
  match batch with
  | [] => g
  | p :: rest =>
      if pending.settled p then grow limits now st keys first index g rest
      else
        let r := stamp (u64 (first + index)) (pending.record p) in
        grow limits now st keys first (index + 1) (appended now r (opened limits now st keys r g)) rest
  end.

Lemma writeAll_grow limits now st keys first index g batch :
  (writeAll limits now st keys first index g batch).1 = grow limits now st keys first index g batch.
Proof.
  revert index g. induction batch as [|p rest IH]; intros index g; [done|]. simpl.
  destruct (pending.settled p).
  - specialize (IH index g). by destruct (writeAll _ _ _ _ _ _ _ _); simplify_eq/=.
  - rewrite writeOne_eq. cbv iota beta.
    match goal with |- context [writeAll ?a ?b ?c ?d ?e ?f ?g1 rest] => specialize (IH f g1);
      destruct (writeAll a b c d e f g1 rest) end. by simplify_eq/=.
Qed.

Lemma unsettled_cons p rest :
  unsettled (p :: rest) = if pending.settled p then unsettled rest else p :: unsettled rest.
Proof. unfold unsettled. rewrite filter_cons. by destruct (pending.settled p). Qed.

(** What the loop does to the group: the invariant is kept, the rows are appended in order, one for
    every record the probe had not settled, and nothing else about the group's identity moves. *)
Record grew (now first index : Z) (batch : list pending.t) (g g' : memoryGroup.t) : Prop := Grew {
  grew_inv : inv_at (u64 (first + (index + Z.of_nat (length (unsettled batch))))) g';
  grew_rows : ∃ rows, memoryGroup.records g' = memoryGroup.records g ++ rows ∧
      recordRow.record <$> rows =
        imap (λ k p, stamp (u64 (first + (index + Z.of_nat k))) (pending.record p)) (unsettled batch) ∧
      Forall (λ row, recordRow.createTime row = now) rows;
  grew_next : memoryGroup.nextRecordId g' = memoryGroup.nextRecordId g;
  grew_closed : memoryGroup.closed g' = memoryGroup.closed g;
  grew_id : memoryGroup.groupId g' = memoryGroup.groupId g }.

Lemma grew_skip now first index p rest g g' :
  pending.settled p = true → grew now first index rest g g' → grew now first index (p :: rest) g g'.
Proof. intros Hs [? ? ? ? ?]. split; rewrite ?unsettled_cons, ?Hs; done. Qed.

Lemma grew_cons now first index p rest g g1 g' row :
  pending.settled p = false →
  memoryGroup.records g1 = memoryGroup.records g ++ [row] →
  recordRow.record row = stamp (u64 (first + index)) (pending.record p) →
  recordRow.createTime row = now →
  memoryGroup.nextRecordId g1 = memoryGroup.nextRecordId g →
  memoryGroup.closed g1 = memoryGroup.closed g →
  memoryGroup.groupId g1 = memoryGroup.groupId g →
  grew now first (index + 1) rest g1 g' → grew now first index (p :: rest) g g'.
Proof.
  intros Hs Hrs Hrow Ht Hn Hcl Hid [Hinv (rows & Hr & Hm & Hf) Hn' Hcl' Hid'].
  split; rewrite ?unsettled_cons, ?Hs; [| |congruence|congruence|congruence].
  - simpl. replace (index + Z.of_nat (S (length (unsettled rest))))
      with (index + 1 + Z.of_nat (length (unsettled rest))) by lia. done.
  - exists (row :: rows). split; [|split; [|by constructor] ].
    + by rewrite Hr, Hrs, <- app_assoc.
    + rewrite fmap_cons, Hm, Hrow, imap_cons. f_equal; [by rewrite Z.add_0_r|].
      apply imap_ext. intros k q _. simpl. do 3 f_equal. lia.
Qed.

Lemma grow_spec limits now st keys g0 first :
  st = state g0 → ∀ batch i hw pn g index,
  gates g0 st keys i batch hw pn = None → grown g0 hw pn g →
  Forall (λ p, validateRecord (pending.record p) = None) batch → batch_shape batch →
  inv_at (u64 (first + index)) g →
  grew now first index batch g (grow limits now st keys first index g batch).
Proof.
  intros Hst batch. induction batch as [|p rest IH]; intros i hw pn g index Hg Hgr Hv Hsh Hinv.
  { split; simpl; rewrite ?Z.add_0_r; try done. exists []. by rewrite app_nil_r. }
  apply Forall_cons in Hv as [Hp Hv]. simpl in Hg |- *.
  assert (batch_shape rest) as Hsh'.
  { destruct Hsh as [Hsh|[q [= -> ->] ] ]; [apply Forall_cons in Hsh as [_ Hsh]|]; left; auto. }
  destruct (pending.settled p) eqn:Hs; [apply grew_skip; eauto|].
  destruct (decide _) as [Hok|]; [|done]. set (r := pending.record p) in *.
  set (id := u64 (first + index)) in *.
  assert (GroupState.CurrentEpoch st = memoryGroup.currentEpoch g) as Hce.
  { subst st. simpl. by rewrite (grown_epoch _ _ _ _ Hgr). }
  rewrite (gate_grown _ _ _ _ _ _ _ Hgr) in Hok.
  destruct (gate_admissible g st id r keys) as [Hadm Hwf]; [done| |apply Hinv|done|done|].
  { subst st. apply (grown_complete _ _ _ _ Hgr). }
  assert (Rec.IsCommit (stamp id r) = true → is_Some (openingOf (stamp id r) keys)) as Ho.
  { rewrite openingOf_stamp. intros Hcm.
    destruct (wellFormed_opening _ _ _ (Hwf Hcm)) as (o & -> & _). eauto. }
  destruct (writeOne_view limits now st keys id g (stamp id r) Hce (inv_epoch_range _ _ Hinv)
    (inv_epoch _ _ Hinv) Ho) as (row & Hrow & Ht & Hrs & _ & _ & _ & Hn & Hcl & Hid).
  eapply grew_cons; try done.
  assert (inv_at (u64 (first + (index + 1)))
    (appended now (stamp id r) (opened limits now st keys (stamp id r) g))) as Hinv'.
  { replace (u64 (first + (index + 1))) with (u64 (id + 1)); [by apply write_inv|].
    unfold id. rewrite u64_add_l. f_equal. lia. }
  destruct Hsh as [Hsh|[q [= -> ->] ] ].
  - apply Forall_cons in Hsh as [Hcm _]. eapply IH; [exact Hg| |done|done|done].
    apply grown_step; [done|done|].
    intros tag pin Ht' Hpin. eapply (adm_pin _ _ Hadm); [by rewrite recoveryTagOf_stamp|done].
  - split; simpl; rewrite ?Z.add_0_r; try done. exists []. by rewrite app_nil_r.
Qed.

(** ** A group closed *)

Lemma closed_inv g now : group_inv g → group_inv (memoryGroup.set_closed true now g).
Proof.
  intros [Hv Hl He Hf Hc]. split; [exact Hv|exact Hl|exact He|exact Hf|].
  intros Hb. apply (custody_ext g); [done|done|by apply Hc].
Qed.

(** ** A group at its creation *)

Lemma newGroup_inv now request opening media durable r :
  Rec.IsCommit r = true → Rec.Epoch r = 0 → Rec.RecordId r = firstRecordId →
  validateRecord r = None → openingOf r (CreateGroupRequest.EpochKeys request) = Some opening →
  wellFormedEpochAttachment r 1 (CreateGroupRequest.EpochKeys request) = true →
  is_key (CreateGroupRequest.BootstrapWriteKey request) →
  group_inv (newGroup now request opening media durable r).
Proof.
  intros Hc He Hid Hv Ho Hwf Hbk. pose proof (wellFormed_kind _ _ _ Hwf) as Hk.
  assert (recoveryTagOf r = None) as Htag.
  { unfold recoveryTagOf. case_decide as E; [|done]. by rewrite E in Hk. }
  assert (closes 1 (announcedWraps r) r = false) as Hcl.
  { unfold closes, epochCompleteTagOf. case_decide as E; [by rewrite E in Hk|done]. }
  destruct (wellFormed_opening _ _ _ Hwf) as (o & Ho' & _ & Hw & Hr & Hn).
  rewrite Ho in Ho'. injection Ho' as <-.
  split.
  - unfold newGroup, view_at, replay, step_view. simpl. rewrite Hc, Htag, He, Hid. simpl.
    rewrite lookup_insert_eq. simpl. rewrite <- (opening_announces _ _ _ Ho). change (u64 (0 + 1)) with 1. rewrite Hcl.
    unfold account, writePin. rewrite Htag, lookup_empty. simpl.
    replace (i64 (0 + recordBytes r)) with (recordBytes r); [done|].
    unfold recordBytes. by rewrite (Z.add_comm 0), i64_add_l, Z.add_0_r.
  - simpl. apply (log_snoc [] _ log_nil). split; simpl; rewrite ?Hk; try done. by right; right.
  - simpl. by rewrite lookup_insert_eq.
  - simpl. apply map_non_empty_singleton.
  - intros _. split; [|done|].
    + intros e. simpl. destruct (decide (e = 1)) as [->|H1]; [rewrite lookup_insert_eq; split; [lia|eauto]|].
      rewrite lookup_insert_ne by done. destruct (decide (e = 0)) as [->|H0].
      * rewrite lookup_singleton_eq. split; [lia|eauto].
      * rewrite lookup_singleton_ne by done. split; [by intros [? ?]|lia].
    + intros e row. simpl. rewrite lookup_insert_Some, lookup_singleton_Some.
      intros [[<- <-]|(_ & <- & <-)]; simpl; repeat split; try done; lia.
Qed.
