(* ===== verification/Submission.v ===== *)
(** * What a submission does to its group

    [submit_finish], the half of [Submit] that runs under the row lock, on every branch: either the
    group is exactly what it was, or the batch was admitted whole.  The batch was probed against
    the claims of some earlier state of the group; [probed] is what of that is still true when the
    lock is held. *)

From S2P Require Import Prelude StoreTypes Retention MemoryStore GroupLog GroupInv.

(** ** Probed batches *)

Definition same_content (c : claimRow.t) (r : Rec.t) : bool :=
  bytes_Equal (claimRow.bodyHash c) (Rec.BodyHash r) &&
  bytes_Equal (claimRow.headHash c) (headHash (Rec.CtHead r)).

(** The claim a record's key is held by, in a group that may not exist. *)
Definition claim_of (group : option memoryGroup.t) (r : Rec.t) : option claimRow.t :=
  g ← group; memoryGroup.claims g !! claimKeyOf r.

(** What is known of a probed record: an answer of the probe is backed by a claim. *)
Definition probed (group : option memoryGroup.t) (p : pending.t) : Prop :=
  pending.settled p = false ∧
  match pending.probe p with
  | probeAbsent => pending.result p = SubmitResult.zero
  | probeIdentical => ∃ c, claim_of group (pending.record p) = Some c ∧
      same_content c (pending.record p) = true ∧
      pending.result p = SubmitResult.set_RecordId (claimRow.recordId c) SubmitResult.zero
  | probeDiffers => pending.result p = SubmitResult.zero ∧
      ∃ c, claim_of group (pending.record p) = Some c ∧
           same_content c (pending.record p) = false
  end.

(** A batch between its two phases. *)
Record ready (group : option memoryGroup.t) (request : SubmitRequest.t) (batch : list pending.t) :
    Prop := Ready {
  ready_records : pending.record <$> batch = SubmitRequest.Records request;
  ready_probed : Forall (probed group) batch;
  ready_valid : Forall (λ p, validateRecord (pending.record p) = None) batch;
  ready_shape : batch_shape batch;
  ready_some : batch ≠ [] }.

Lemma validateRecords_Forall records :
  validateRecords records = None ↔ Forall (λ r, validateRecord r = None) records.
Proof.
  induction records as [|r rest IH]; simpl; [done|].
  by rewrite first_error_None, IH, Forall_cons.
Qed.

Lemma submit_probe_records group request :
  pending.record <$> submit_probe group request = SubmitRequest.Records request.
Proof.
  unfold submit_probe, probe, probeOne. destruct group as [g|]; rewrite <- !list_fmap_compose;
    rewrite <- (list_fmap_id (SubmitRequest.Records request)) at 2; apply list_fmap_ext;
    intros i r _; simpl; [|done].
  destruct (_ !! _); [|done]. by destruct (_ && _).
Qed.

Lemma submit_probe_probed group request : Forall (probed group) (submit_probe group request).
Proof.
  unfold submit_probe, probe. destruct group as [g|]; rewrite ?Forall_fmap; apply Forall_forall.
  - intros r _. unfold compose, probeOne, probed. simpl.
    destruct (_ !! _) as [c|] eqn:Hc; [|done].
    destruct (_ && _) eqn:E; simpl; (split; [done|]); eauto.
  - intros r _. done.
Qed.

Lemma validateSubmit_shape ctx request :
  validateSubmit ctx request = None →
  SubmitRequest.Records request ≠ [] ∧
  Forall (λ r, validateRecord r = None) (SubmitRequest.Records request) ∧
  (Forall (λ r, Rec.IsCommit r = false) (SubmitRequest.Records request) ∨
   ∃ r, SubmitRequest.Records request = [r]).
Proof.
  unfold validateSubmit. rewrite !first_error_None, validateRecords_Forall.
  intros (_ & _ & Hne & Hv & Hc). split; [by destruct (SubmitRequest.Records request)|].
  split; [done|]. destruct (_ && _) eqn:E; [done|]. apply andb_false_iff in E as [E|E].
  - left. apply negb_false_iff, Nat.eqb_eq, length_zero_iff_nil in E.
    apply Forall_forall. intros r Hr. destruct (Rec.IsCommit r) eqn:Hcm; [|done].
    assert (r ∈ filter (λ r, Rec.IsCommit r = true) (SubmitRequest.Records request)) as Hin
      by by apply list_elem_of_filter. rewrite E in Hin. by apply not_elem_of_nil in Hin.
  - right. apply negb_false_iff, Nat.eqb_eq in E.
    destruct (SubmitRequest.Records request) as [|r [|]]; try done. eauto.
Qed.

Lemma submit_probe_ready ctx group request :
  validateSubmit ctx request = None → ready group request (submit_probe group request).
Proof.
  intros H. destruct (validateSubmit_shape _ _ H) as (Hne & Hv & Hsh).
  pose proof (submit_probe_records group request) as Hr.
  split; [done|apply submit_probe_probed|by rewrite <- Hr, Forall_fmap in Hv| |].
  - destruct Hsh as [Hsh|[r Hsh] ]; rewrite <- Hr in Hsh.
    + left. by rewrite Forall_fmap in Hsh.
    + right. destruct (submit_probe group request) as [|p [|]]; try done. eauto.
  - intros E. rewrite E in Hr. by destruct (SubmitRequest.Records request).
Qed.

(** ** The gates and the compare-and-swap *)

(** The check in [commit] repeats the gate's: behind the gates it never fires. *)
Lemma gates_no_lost g st keys i batch hw pn :
  gates g st keys i batch hw pn = None → list_find (lostCommit g) batch = None.
Proof.
  intros H. apply list_find_None. revert i hw pn H.
  induction batch as [|p rest IH]; intros i hw pn H; [by constructor|]. simpl in H.
  destruct (pending.settled p) eqn:Hs.
  - constructor; [by intros (? & _); congruence|eauto].
  - destruct (decide (gate _ _ _ _ _ _ = REASON_OK)) as [Hok|]; [|done].
    constructor; [|eauto]. intros (_ & Hc & Hl). unfold gate in Hok.
    rewrite Hc, bool_decide_eq_true_2 in Hok by done. done.
Qed.

Lemma marked_lookup limits st keys first index batch i p :
  batch !! i = Some p →
  if pending.settled p then marked limits st keys first index batch !! i = Some p
  else ∃ k, unsettled batch !! k = Some p ∧
    marked limits st keys first index batch !! i =
      Some (pending.set_result (written limits st keys (u64 (first + (index + Z.of_nat k))) p) p).
Proof.
  revert index i. induction batch as [|q rest IH]; intros index i Hi; [done|].
  rewrite unsettled_cons. simpl. destruct i as [|i]; simpl in Hi.
  - injection Hi as ->. destruct (pending.settled p); [done|]. exists 0%nat. simpl.
    by rewrite Z.add_0_r.
  - destruct (pending.settled q) eqn:Hq; simpl.
    + by apply IH.
    + specialize (IH (index + 1) i Hi). destruct (pending.settled p); [done|].
      destruct IH as (k & Hk & Hm). exists (S k). split; [done|]. rewrite Hm. do 5 f_equal. lia.
Qed.

Lemma marked_length limits st keys first index batch :
  length (marked limits st keys first index batch) = length batch.
Proof.
  revert index. induction batch as [|q rest IH]; intros index; [done|]. simpl.
  destruct (pending.settled q); simpl; auto.
Qed.

Lemma inv_at_set_next n x g : inv_at n g → inv_at n (memoryGroup.set_nextRecordId x g).
Proof. intros [Hv Hl He Hf Hc]. split; [exact Hv|exact Hl|exact He|exact Hf|]. intros Hb.
  apply (custody_ext g); [done|done|by apply Hc]. Qed.

(** A batch that passed the gates: [commit] writes every unsettled record of it. *)
Lemma commit_admits limits now g keys batch :
  gates g (state g) keys 0 batch ∅ ∅ = None → group_inv g →
  Forall (λ p, validateRecord (pending.record p) = None) batch → batch_shape batch →
  let '(g', results) := commit limits now g (state g) keys batch in
  group_inv g' ∧
  (∃ rows, memoryGroup.records g' = memoryGroup.records g ++ rows ∧
     recordRow.record <$> rows =
       imap (λ k p, stamp (u64 (memoryGroup.nextRecordId g + Z.of_nat k)) (pending.record p))
            (unsettled batch) ∧
     Forall (λ row, recordRow.createTime row = now) rows) ∧
  memoryGroup.nextRecordId g' =
    u64 (memoryGroup.nextRecordId g + Z.of_nat (length (unsettled batch))) ∧
  memoryGroup.closed g' = memoryGroup.closed g ∧
  memoryGroup.groupId g' = memoryGroup.groupId g ∧
  results = resultsOf
    ((λ current,
        if SubmitResult.CurrentEpoch (pending.result current) =? 0
        then pending.set_result
               (SubmitResult.set_CurrentEpoch (memoryGroup.currentEpoch g') (pending.result current))
               current
        else current)
     <$> marked limits (state g) keys (memoryGroup.nextRecordId g) 0 batch).
Proof.
  intros Hg Hinv Hv Hsh. unfold commit. rewrite (gates_no_lost _ _ _ _ _ _ _ Hg).
  set (first := memoryGroup.nextRecordId g).
  set (g1 := memoryGroup.set_nextRecordId (u64 (first + Z.of_nat (length (unsettled batch)))) g).
  assert (first = u64 first) as Hf.
  { unfold first. change (memoryGroup.nextRecordId g) with
      (view.next (view_at (memoryGroup.nextRecordId g) g)).
    rewrite (inv_view _ _ Hinv), replay_next. unfold u64. by rewrite Z.mod_mod. }
  assert (inv_at (u64 (first + 0)) g1) as Hinv1.
  { rewrite Z.add_0_r, <- Hf. by apply inv_at_set_next. }
  assert (grown g ∅ ∅ g1) as Hgr by by split.
  destruct (grow_spec limits now (state g) keys g first eq_refl batch 0 ∅ ∅ g1 0 Hg Hgr Hv Hsh Hinv1)
    as [Hi Hrows Hn Hc Hid].
  pose proof (writeAll_grow limits now (state g) keys first 0 g1 batch) as H1.
  pose proof (writeAll_marked limits now (state g) keys first 0 g1 batch) as H2.
  destruct (writeAll limits now (state g) keys first 0 g1 batch) as [g' batch'].
  cbn [fst snd] in H1, H2. rewrite <- H1 in *. rewrite <- H2. clear H1 H2.
  rewrite Z.add_0_l in Hi. split; [|done].
  unfold group_inv. rewrite Hn. exact Hi.
Qed.

(** ** The answers of a batch that wrote nothing *)

Definition answered (p : pending.t) (res : SubmitResult.t) : Prop :=
  SubmitResult.reason res = REASON_OK ∧
  SubmitResult.RecordId res = SubmitResult.RecordId (pending.result p).

Definition refused (res : SubmitResult.t) : Prop :=
  accepted (SubmitResult.reason res) = false ∧ SubmitResult.RecordId res = 0.

Lemma resultsOf_lookup batch i p :
  batch !! i = Some p →
  resultsOf batch !! i =
    Some (if accepted (SubmitResult.reason (pending.result p)) then pending.result p
          else SubmitResult.set_RecordId 0 (pending.result p)).
Proof. intros H. unfold resultsOf. by rewrite list_lookup_fmap, H. Qed.

(** [fillCurrentEpoch] at one place of the batch. *)
Definition fill (group : option memoryGroup.t) (p : pending.t) : pending.t :=
  match group with
  | Some g => if memoryGroup.closed g then p else fillOne g p
  | None => p
  end.

Lemma fillCurrentEpoch_fill group batch : fillCurrentEpoch group batch = fill group <$> batch.
Proof.
  unfold fill. destruct group as [g|]; simpl; [destruct (memoryGroup.closed g)|]; try done;
    symmetry; apply list_fmap_id.
Qed.

Lemma fill_keeps group p :
  pending.record (fill group p) = pending.record p ∧
  SubmitResult.reason (pending.result (fill group p)) = SubmitResult.reason (pending.result p) ∧
  SubmitResult.RecordId (pending.result (fill group p)) = SubmitResult.RecordId (pending.result p) ∧
  SubmitResult.Applied (pending.result (fill group p)) = SubmitResult.Applied (pending.result p).
Proof. unfold fill, fillOne. simpl. repeat case_match; done. Qed.

(** The two fields it fills in, on a result that is a refusal. *)
Definition filled (group : option memoryGroup.t) (p : pending.t) (res : SubmitResult.t) : Prop :=
  ∀ g, group = Some g → memoryGroup.closed g = false →
    SubmitResult.CurrentEpoch res =
      (if SubmitResult.CurrentEpoch (pending.result p) =? 0 then memoryGroup.currentEpoch g
       else SubmitResult.CurrentEpoch (pending.result p)) ∧
    SubmitResult.WinningCommit res =
      (if Rec.IsCommit (pending.record p)
       then commitRow.record <$> memoryGroup.commits g !! Rec.Epoch (pending.record p)
       else None).

Lemma fill_filled group p reason :
  accepted reason = false → SubmitResult.WinningCommit (pending.result p) = None →
  filled group p (SubmitResult.set_RecordId 0 (pending.result
    (fill group (pending.set_result (SubmitResult.set_reason reason (pending.result p)) p)))).
Proof.
  intros Hr Hw g -> Hc. unfold fill, fillOne. rewrite Hc. simpl.
  destruct (SubmitResult.CurrentEpoch (pending.result p) =? 0); simpl; rewrite Hr, orb_false_r;
    destruct (Rec.IsCommit (pending.record p)); simpl; try done;
    destruct (_ !! _) as [c|]; simpl; rewrite ?cloneRecord_id; done.
Qed.

(** Results that nothing beyond a retry has touched. *)
Definition bare (p : pending.t) : Prop :=
  SubmitResult.WinningCommit (pending.result p) = None ∧
  SubmitResult.Applied (pending.result p) = None ∧
  SubmitResult.reason (pending.result p) = REASON_OK.

(** What a refusal of a batch says about one of its records. *)
Lemma refuseBatch_lookup group batch off reason i p :
  accepted reason = false → bare p → batch !! i = Some p →
  ∃ res, refuseBatch group batch off reason !! i = Some res ∧
    if decide (pending.probe p = probeIdentical) then answered p res
    else refused res ∧
         SubmitResult.reason res = (if decide (i = off) then reason else REASON_REJECTED) ∧
         SubmitResult.Applied res = None ∧ filled group p res.
Proof.
  intros Hr (Hw & Ha & Hok) Hi. unfold refuseBatch. rewrite fillCurrentEpoch_fill.
  eexists. split.
  { apply resultsOf_lookup. rewrite list_lookup_fmap, list_lookup_imap, Hi. done. }
  destruct (fill_keeps group p) as (_ & H1 & H2 & _).
  set (why := if decide (i = off) then reason else REASON_REJECTED).
  assert (accepted why = false) as Hacc by (unfold why; by case_decide).
  destruct (decide (pending.probe p = probeIdentical)); simpl.
  - unfold answered. by rewrite H1, Hok; simpl; rewrite H1, Hok, H2.
  - destruct (fill_keeps group (pending.set_result (SubmitResult.set_reason why (pending.result p)) p))
      as (_ & G1 & G2 & G3). simpl in G1. rewrite G1, Hacc.
    unfold refused. simpl. rewrite G1, G3. simpl.
    split; [done|]. split; [done|]. split; [done|]. by apply fill_filled.
Qed.

Lemma refuseBatch_length group batch off reason :
  length (refuseBatch group batch off reason) = length batch.
Proof.
  unfold refuseBatch, resultsOf. rewrite fillCurrentEpoch_fill, !length_fmap, length_imap. done.
Qed.

Lemma refuseUnavailable_lookup batch i p :
  bare p → batch !! i = Some p →
  ∃ res, refuseUnavailable batch !! i = Some res ∧
    if decide (pending.probe p = probeIdentical) then answered p res
    else res = SubmitResult.set_reason REASON_REJECTED SubmitResult.zero.
Proof.
  intros (Hw & Ha & Hok) Hi. unfold refuseUnavailable. eexists. split.
  { apply resultsOf_lookup. by rewrite list_lookup_fmap, Hi. }
  destruct (decide _); simpl; [rewrite Hok; by split|done].
Qed.

(** ** The outcome of the second phase *)

(** The records of a batch that no earlier transaction holds. *)
Definition fresh (batch : list pending.t) : list Rec.t :=
  pending.record <$> filter (λ p, pending.probe p ≠ probeIdentical) batch.

(** What [Submit] works on behind the row lock: settled, and told the current epoch. *)
Definition told (epoch : Z) (p : pending.t) : pending.t :=
  pending.set_result (SubmitResult.set_CurrentEpoch epoch (pending.result p)) p.

Lemma settle_fields p :
  pending.record (settle p) = pending.record p ∧ pending.result (settle p) = pending.result p ∧
  pending.probe (settle p) = pending.probe p.
Proof. unfold settle. by case_decide. Qed.

Lemma settle_settled p :
  pending.settled p = false →
  pending.settled (settle p) = bool_decide (pending.probe p = probeIdentical).
Proof. intros H. unfold settle. case_decide; simpl; [by rewrite bool_decide_true|by rewrite bool_decide_false]. Qed.

Lemma unsettled_fresh epoch batch :
  Forall (λ p, pending.settled p = false) batch →
  pending.record <$> unsettled (told epoch <$> (settle <$> batch)) = fresh batch.
Proof.
  induction 1 as [|p batch Hp _ IH]; [done|]. rewrite !fmap_cons, unsettled_cons.
  change (pending.settled (told epoch (settle p))) with (pending.settled (settle p)).
  rewrite settle_settled by done. unfold fresh. rewrite filter_cons.
  destruct (settle_fields p) as (Hr & _).
  case_bool_decide; case_decide; try done. rewrite !fmap_cons. f_equal; [exact Hr|exact IH].
Qed.

Lemma unsettled_settle_nil batch :
  Forall (λ p, pending.settled p = false) batch →
  unsettled (settle <$> batch) = [] ↔ Forall (λ p, pending.probe p = probeIdentical) batch.
Proof.
  induction 1 as [|p batch Hp _ IH]; [done|].
  rewrite fmap_cons, unsettled_cons, settle_settled, Forall_cons by done.
  case_bool_decide; [rewrite IH; tauto|]. split; [done|tauto].
Qed.

(** The batch changed nothing: what an earlier transaction holds is answered, the rest refused. *)
Definition no_effect (batch : list pending.t) (results : list SubmitResult.t) : Prop :=
  ∀ i p, batch !! i = Some p → ∃ res, results !! i = Some res ∧
    if decide (pending.probe p = probeIdentical) then answered p res else refused res.

(** The batch was admitted whole. *)
Record admitted (now : time) (request : SubmitRequest.t) (batch : list pending.t)
    (g g' : memoryGroup.t) (results : list SubmitResult.t) : Prop := Landed {
  ad_open : memoryGroup.closed g = false;
  ad_open' : memoryGroup.closed g' = false;
  ad_id : memoryGroup.groupId g' = memoryGroup.groupId g;
  ad_inv : group_inv g';
  ad_some : fresh batch ≠ [];
  ad_nodiff : Forall (λ p, pending.probe p ≠ probeDiffers) batch;
  ad_gates : ∃ batch', gates g (state g) (SubmitRequest.EpochKeys request) 0 batch' ∅ ∅ = None ∧
      pending.record <$> unsettled batch' = fresh batch;
  ad_rows : ∃ rows, memoryGroup.records g' = memoryGroup.records g ++ rows ∧
      recordRow.record <$> rows =
        imap (λ k r, stamp (u64 (memoryGroup.nextRecordId g + Z.of_nat k)) r) (fresh batch) ∧
      Forall (λ row, recordRow.createTime row = now) rows ∧
      ∀ i p, batch !! i = Some p → ∃ res, results !! i = Some res ∧
        if decide (pending.probe p = probeIdentical) then answered p res
        else accepted (SubmitResult.reason res) = true ∧
             ∃ row, row ∈ rows ∧
               recordRow.record row = stamp (SubmitResult.RecordId res) (pending.record p) }.

Lemma probed_bare group p : probed group p → bare p.
Proof.
  intros [_ Hp]. destruct (pending.probe p).
  - unfold bare; by rewrite Hp.
  - destruct Hp as (c & _ & _ & Hp). unfold bare; by rewrite Hp.
  - destruct Hp as (Hp & _). unfold bare; by rewrite Hp.
Qed.

Lemma ready_settled group request batch :
  ready group request batch → Forall (λ p, pending.settled p = false) batch.
Proof. intros H. eapply Forall_impl; [apply H|]. by intros p [Hp _]. Qed.

Lemma ready_bare group request batch i p :
  ready group request batch → batch !! i = Some p → bare p.
Proof. intros H Hi. eapply probed_bare. by eapply Forall_lookup_1; [apply H|]. Qed.

(** The pendings behind the lock, place by place. *)
Lemma told_lookup epoch (batch : list pending.t) (i : nat) p :
  batch !! i = Some p → bare p →
  (told epoch <$> (settle <$> batch)) !! i = Some (told epoch (settle p)) ∧
  bare (told epoch (settle p)) ∧ pending.probe (told epoch (settle p)) = pending.probe p ∧
  pending.record (told epoch (settle p)) = pending.record p ∧
  (∀ res, answered (told epoch (settle p)) res ↔ answered p res).
Proof.
  intros Hi (H1 & H2 & H3). destruct (settle_fields p) as (Hr & Hs & Hp).
  rewrite !list_lookup_fmap, Hi. split; [done|].
  unfold bare, answered, told. simpl. rewrite Hs, Hp, Hr. done.
Qed.

Lemma gates_refusal g st keys i batch hw pn j why :
  gates g st keys i batch hw pn = Some (j, why) → why ≠ REASON_OK.
Proof.
  revert i hw pn. induction batch as [|p rest IH]; intros i hw pn H; [done|]. simpl in H.
  destruct (pending.settled p); [eauto|]. destruct (decide _); [eauto|]. by simplify_eq.
Qed.

Lemma gate_reason g st r keys hw pn :
  gate g st r keys hw pn ≠ REASON_RETENTION_CLAMPED.
Proof. unfold gate. cases. Qed.

Lemma gates_not_accepted g st keys i batch hw pn j why :
  gates g st keys i batch hw pn = Some (j, why) → accepted why = false.
Proof.
  intros H. assert (why ≠ REASON_RETENTION_CLAMPED) as Hc.
  { revert i hw pn H. induction batch as [|p rest IH]; intros i hw pn H; [done|]. simpl in H.
    destruct (pending.settled p); [eauto|]. destruct (decide _); [eauto|]. simplify_eq.
    apply gate_reason. }
  apply gates_refusal in H. by destruct why.
Qed.

Lemma refuse_no_effect group batch off reason :
  accepted reason = false → (∀ i p, batch !! i = Some p → bare p) →
  no_effect batch (refuseBatch group batch off reason).
Proof.
  intros Hr Hb i p Hi. destruct (refuseBatch_lookup group batch off reason i p Hr (Hb _ _ Hi) Hi)
    as (res & Hres & H). exists res. split; [done|]. case_decide; tauto.
Qed.

Lemma told_no_effect epoch (batch : list pending.t) results :
  (∀ i p, batch !! i = Some p → bare p) →
  no_effect (told epoch <$> (settle <$> batch)) results → no_effect batch results.
Proof.
  intros Hb H i p Hi. destruct (told_lookup epoch _ _ _ Hi (Hb _ _ Hi)) as (Hl & _ & Hp & _ & Ha).
  destruct (H _ _ Hl) as (res & Hres & Hcase). exists res. split; [done|].
  rewrite Hp in Hcase. case_decide; [by apply Ha|done].
Qed.

Lemma settle_no_effect (batch : list pending.t) results :
  (∀ i p, batch !! i = Some p → bare p) →
  no_effect (settle <$> batch) results → no_effect batch results.
Proof.
  intros Hb H i p Hi. destruct (settle_fields p) as (Hr & Hs & Hp).
  assert ((settle <$> batch) !! i = Some (settle p)) as Hl by by rewrite list_lookup_fmap, Hi.
  destruct (H _ _ Hl) as (res & Hres & Hcase). exists res. split; [done|].
  rewrite Hp in Hcase. unfold answered in *. by rewrite Hs in Hcase.
Qed.

Lemma unavailable_no_effect batch :
  (∀ i p, batch !! i = Some p → bare p) → no_effect batch (refuseUnavailable batch).
Proof.
  intros Hb i p Hi. destruct (refuseUnavailable_lookup batch i p (Hb _ _ Hi) Hi) as (res & Hres & H).
  exists res. split; [done|]. case_decide; [done|]. by subst res.
Qed.

Lemma retry_no_effect group batch :
  (∀ i p, batch !! i = Some p → bare p) → Forall (λ p, pending.probe p = probeIdentical) batch →
  no_effect batch (resultsOf (fillCurrentEpoch group batch)).
Proof.
  intros Hb Hall i p Hi. rewrite fillCurrentEpoch_fill. eexists. split.
  { apply resultsOf_lookup. by rewrite list_lookup_fmap, Hi. }
  destruct (fill_keeps group p) as (_ & H1 & H2 & _), (Hb _ _ Hi) as (_ & _ & Hok).
  rewrite decide_True by by eapply (Forall_lookup_1 _ _ _ _ Hall Hi).
  unfold answered. by rewrite H1, Hok; simpl; rewrite H1, Hok, H2.
Qed.

(** The last loop of [commit]: the epoch on every result that has none. *)
Definition lastly (epoch : Z) (p : pending.t) : pending.t :=
  if SubmitResult.CurrentEpoch (pending.result p) =? 0
  then pending.set_result (SubmitResult.set_CurrentEpoch epoch (pending.result p)) p else p.

Lemma lastly_keeps epoch p :
  SubmitResult.reason (pending.result (lastly epoch p)) = SubmitResult.reason (pending.result p) ∧
  SubmitResult.RecordId (pending.result (lastly epoch p)) = SubmitResult.RecordId (pending.result p) ∧
  SubmitResult.Applied (pending.result (lastly epoch p)) = SubmitResult.Applied (pending.result p).
Proof. unfold lastly. by case_match. Qed.

Lemma written_accepted limits st keys id p :
  accepted (SubmitResult.reason (written limits st keys id p)) = true ∧
  SubmitResult.RecordId (written limits st keys id p) = id.
Proof. unfold written. simpl. auto with server. Qed.

Lemma marked_results limits st keys first epoch batch i q :
  batch !! i = Some q → bare q →
  ∃ res, resultsOf (lastly epoch <$> marked limits st keys first 0 batch) !! i = Some res ∧
    if pending.settled q then answered q res
    else accepted (SubmitResult.reason res) = true ∧
         ∃ k, unsettled batch !! k = Some q ∧
              SubmitResult.RecordId res = u64 (first + Z.of_nat k).
Proof.
  intros Hi (_ & _ & Hok). pose proof (marked_lookup limits st keys first 0 batch i q Hi) as Hm.
  destruct (pending.settled q).
  - eexists. split; [apply resultsOf_lookup; by rewrite list_lookup_fmap, Hm|].
    destruct (lastly_keeps epoch q) as (H1 & H2 & _).
    unfold answered. by rewrite H1, Hok; simpl; rewrite H1, Hok, H2.
  - destruct Hm as (k & Hk & Hm).
    eexists. split; [apply resultsOf_lookup; by rewrite list_lookup_fmap, Hm|].
    set (w := pending.set_result _ q). destruct (lastly_keeps epoch w) as (H1 & H2 & _).
    destruct (written_accepted limits st keys (u64 (first + (0 + Z.of_nat k))) q) as [Ha Hid].
    assert (accepted (SubmitResult.reason (pending.result (lastly epoch w))) = true) as Haw
      by (rewrite H1; exact Ha).
    rewrite Haw. split; [exact Haw|]. exists k. split; [done|]. rewrite H2. exact Hid.
Qed.

(** The branch that writes. *)
Lemma finish_admits limits now group g request batch :
  group = Some g → ready group request batch → group_inv g → memoryGroup.closed g = false →
  Forall (λ p, pending.probe p ≠ probeDiffers) batch →
  ¬ Forall (λ p, pending.probe p = probeIdentical) batch →
  let batch' := told (memoryGroup.currentEpoch g) <$> (settle <$> batch) in
  gates g (state g) (SubmitRequest.EpochKeys request) 0 batch' ∅ ∅ = None →
  let out := commit limits now g (state g) (SubmitRequest.EpochKeys request) batch' in
  length out.2 = length batch ∧ admitted now request batch g out.1 out.2.
Proof.
  intros Hgroup Hready Hinv Hcl Hnd Hnall batch' Hg out.
  pose proof (ready_settled _ _ _ Hready) as Hset.
  assert (Forall (λ p, validateRecord (pending.record p) = None) batch') as Hv.
  { unfold batch'. rewrite !Forall_fmap. eapply Forall_impl; [exact (ready_valid _ _ _ Hready)|]. intros p Hp.
    unfold compose, told. simpl. destruct (settle_fields p) as (Hr & _). by rewrite Hr. }
  assert (batch_shape batch') as Hsh.
  { destruct (ready_shape _ _ _ Hready) as [Hs|[p Hs] ]; [left|right].
    - unfold batch'. rewrite !Forall_fmap. eapply Forall_impl; [exact Hs|]. intros p Hp.
      unfold compose, told. simpl. destruct (settle_fields p) as (Hr & _). by rewrite Hr.
    - unfold batch'. rewrite Hs. simpl. eauto. }
  pose proof (commit_admits limits now g _ batch' Hg Hinv Hv Hsh) as Hc. fold out in Hc.
  pose proof (unsettled_fresh (memoryGroup.currentEpoch g) batch Hset) as Hfr. fold batch' in Hfr.
  destruct out as [g' results]. destruct Hc as (Hi & (rows & Hrs & Hrec & Htime) & Hn & Hc & Hid & ->).
  rewrite Hcl in Hc. simpl. split.
  { unfold resultsOf. rewrite !length_fmap, marked_length. unfold batch'. by rewrite !length_fmap. }
  assert (recordRow.record <$> rows =
    imap (λ k r, stamp (u64 (memoryGroup.nextRecordId g + Z.of_nat k)) r) (fresh batch)) as Hrec'.
  { rewrite Hrec, <- Hfr, imap_fmap. done. }
  split; try done.
  - intros Hf. apply Hnall. apply (unsettled_settle_nil _ Hset).
    apply (f_equal length) in Hf. rewrite <- Hfr, length_fmap in Hf.
    apply length_zero_iff_nil. etransitivity; [|exact Hf]. unfold batch', unsettled. clear.
    generalize (settle <$> batch). intros l. induction l as [|p l IH]; [done|].
    rewrite fmap_cons, !filter_cons. destruct p as [? ? ? []]; simpl; [done|]. by f_equal.
  - exists batch'. done.
  - exists rows. do 3 (split; [done|]). intros i p Hp.
    pose proof (ready_bare _ _ _ _ _ Hready Hp) as Hb.
    destruct (told_lookup (memoryGroup.currentEpoch g) _ _ _ Hp Hb) as (Hl & Hb' & Hpr & Hre & Ha).
    fold batch' in Hl. set (q := told _ (settle p)) in *.
    destruct (marked_results limits (state g) (SubmitRequest.EpochKeys request)
      (memoryGroup.nextRecordId g) (memoryGroup.currentEpoch g') batch' i q Hl Hb') as (res & Hres & Hc').
    exists res. split; [exact Hres|].
    assert (pending.settled q = bool_decide (pending.probe p = probeIdentical)) as Hq.
    { apply settle_settled. by eapply (Forall_lookup_1 _ _ _ _ Hset Hp). }
    rewrite Hq in Hc'. case_decide as E; [rewrite bool_decide_true in Hc' by done; by apply Ha|].
    rewrite bool_decide_false in Hc' by done. destruct Hc' as (Hacc & k & Hk & Hid'). split; [done|].
    assert (∃ row, rows !! k = Some row ∧
      recordRow.record row = stamp (SubmitResult.RecordId res) (pending.record p)) as (row & Hrow & Hst).
    { apply (f_equal (lookup k)) in Hrec. rewrite list_lookup_fmap, list_lookup_imap, Hk in Hrec.
      destruct (rows !! k) as [row|]; [|done]. simpl in Hrec. injection Hrec as Hrec.
      exists row. split; [done|]. rewrite Hrec, Hid'. by f_equal. }
    exists row. split; [by eapply list_elem_of_lookup_2|done].
Qed.

Lemma no_effect_length (batch : list pending.t) (f : pending.t → pending.t) g results :
  results = resultsOf (fillCurrentEpoch g (f <$> batch)) → length results = length batch.
Proof. intros ->. unfold resultsOf. by rewrite fillCurrentEpoch_fill, !length_fmap. Qed.

(** Either nothing happened, or the whole batch did. *)
Theorem submit_finish_outcome limits now group request batch :
  ready group request batch → (∀ g, group = Some g → group_inv g) →
  let out := submit_finish limits now group request batch in
  length out.2 = length batch ∧
  ((out.1 = group ∧ no_effect batch out.2) ∨
   (∃ g g', group = Some g ∧ out.1 = Some g' ∧ admitted now request batch g g' out.2)).
Proof.
  intros Hready Hinv. pose proof (ready_settled _ _ _ Hready) as Hset.
  assert (∀ i p, batch !! i = Some p → bare p) as Hb by (intros; by eapply ready_bare).
  unfold submit_finish. destruct (list_find _ batch) as [[i q]|] eqn:Hfind.
  { simpl. split; [apply refuseBatch_length|]. left. split; [done|]. by apply refuse_no_effect. }
  apply list_find_None in Hfind. destruct (decide (unsettled (settle <$> batch) = [])) as [Hn|Hn].
  { simpl. split; [by eapply no_effect_length|]. left. split; [done|].
    apply settle_no_effect; [done|]. apply (unsettled_settle_nil _ Hset) in Hn.
    apply retry_no_effect.
    - intros i p Hi. apply list_lookup_fmap_Some in Hi as (q & -> & Hi).
      destruct (settle_fields q) as (_ & Hq & _). specialize (Hb _ _ Hi). unfold bare in *. by rewrite Hq.
    - apply Forall_fmap. eapply Forall_impl; [exact Hn|]. intros p Hp.
      destruct (settle_fields p) as (_ & _ & Hq). unfold compose. by rewrite Hq. }
  assert (∀ i p, (settle <$> batch) !! i = Some p → bare p) as Hbs.
  { intros i p Hi. apply list_lookup_fmap_Some in Hi as (q & -> & Hi).
    destruct (settle_fields q) as (_ & Hq & _). specialize (Hb _ _ Hi). unfold bare in *. by rewrite Hq. }
  assert (length (refuseUnavailable (settle <$> batch)) = length batch ∧
          no_effect batch (refuseUnavailable (settle <$> batch))) as [Hul Hun].
  { split; [unfold refuseUnavailable, resultsOf; by rewrite !length_fmap|].
    apply settle_no_effect, unavailable_no_effect; done. }
  destruct group as [g|]; [|by simpl; auto].
  destruct (memoryGroup.closed g) eqn:Hcl; [by simpl; auto|].
  change (GroupState.CurrentEpoch (state g)) with (memoryGroup.currentEpoch g).
  fold (told (memoryGroup.currentEpoch g)).
  change (λ current, pending.set_result _ current) with (told (memoryGroup.currentEpoch g)).
  destruct (gates _ _ _ _ _ _ _) as [[i why]|] eqn:Hg.
  - simpl. split; [unfold refuseBatch, resultsOf; rewrite fillCurrentEpoch_fill, !length_fmap, length_imap;
      by rewrite !length_fmap|]. left. split; [done|].
    apply (told_no_effect (memoryGroup.currentEpoch g)); [done|].
    apply refuse_no_effect; [by eapply gates_not_accepted|].
    intros j p Hj. apply list_lookup_fmap_Some in Hj as (q & -> & Hj). by apply Hbs in Hj.
  - assert (¬ Forall (λ p, pending.probe p = probeIdentical) batch) as Hnall
      by by rewrite <- unsettled_settle_nil.
    destruct (finish_admits limits now _ g request batch eq_refl Hready (Hinv g eq_refl) Hcl Hfind Hnall Hg)
      as [Hlen Had].
    destruct (commit _ _ _ _ _ _) as [g' results]. simpl in *. split; [done|]. right. eauto.
Qed.
