(* ===== verification/Interleaving.v ===== *)
(** * Concurrent submissions as a step relation

    [Submit] probes the claims before it takes the group's row lock, so other requests run between
    its two phases.  A configuration is the store and the submissions that have been probed and
    have not yet taken the lock; every step is one critical section of the code.  The invariant
    [config_ok] holds in every reachable configuration: each group is the replay of a legal log,
    and what a submission in flight was told by its probe is still true. *)

From S2P Require Import Prelude StoreTypes Retention MemoryStore GroupLog GroupInv Submission.

(** ** The transition system *)

(** A submission between its probe and the row lock.  [found] is the [group] pointer the code read
    at the start, nil or not: a group created in between is not seen. *)
Module inflight.
Record t := mk {
  request : SubmitRequest.t;
  found : bool;
  batch : list pending.t }.
End inflight.

Definition start (self : MemoryStore.t) (request : SubmitRequest.t) : inflight.t :=
  inflight.mk request (bool_decide (is_Some (group self (SubmitRequest.GroupId request))))
    (submit_probe (group self (SubmitRequest.GroupId request)) request).

Definition seen (self : MemoryStore.t) (f : inflight.t) : option memoryGroup.t :=
  if inflight.found f then group self (SubmitRequest.GroupId (inflight.request f)) else None.

Definition finish (now : time) (self : MemoryStore.t) (f : inflight.t) :
    MemoryStore.t * list SubmitResult.t :=
  let '(g, results) :=
    submit_finish (MemoryStore.limits self) now (seen self f) (inflight.request f)
      (inflight.batch f) in
  (put_group self (SubmitRequest.GroupId (inflight.request f)) g, results).

Abbreviation config := (MemoryStore.t * list inflight.t)%type.

Inductive step : config → config → Prop :=
  | step_create ctx now request s fl :
      step (s, fl) ((CreateGroup ctx now s request).1, fl)
  | step_close ctx now groupId s fl :
      step (s, fl) ((CloseGroup ctx now s groupId).1, fl)
  | step_start ctx request s fl :
      validateSubmit ctx request = None → step (s, fl) (s, start s request :: fl)
  | step_finish now s fl1 f fl2 :
      step (s, fl1 ++ f :: fl2) ((finish now s f).1, fl1 ++ fl2).

Abbreviation steps := (rtc step).

Definition reachable (limits : Limits.t) (c : config) : Prop :=
  steps (NewMemoryStore limits, []) c.

(** A submission that is not interleaved is the two phases in a row. *)
Lemma Submit_phases ctx now s request :
  Submit ctx now s request =
  match validateSubmit ctx request with
  | Some e => (s, Err e)
  | None => let '(s', results) := finish now s (start s request) in (s', Ok results)
  end.
Proof.
  unfold Submit, finish, seen, start. simpl. destruct (validateSubmit ctx request); [done|].
  case_bool_decide as E; [|apply eq_None_not_Some in E; rewrite E];
    by destruct (submit_finish _ _ _ _ _).
Qed.

(** ** How a group may change *)

Record extends (g g' : memoryGroup.t) : Prop := Extends {
  ext_rows : memoryGroup.records g `prefix_of` memoryGroup.records g';
  ext_closed : memoryGroup.closed g = true →
      memoryGroup.closed g' = true ∧ memoryGroup.records g' = memoryGroup.records g;
  ext_id : memoryGroup.groupId g' = memoryGroup.groupId g }.

#[global] Instance extends_preorder : PreOrder extends.
Proof.
  split.
  - intros g. split; done.
  - intros a b c [Hr Hc Hi] [Hr' Hc' Hi']. split; [by etrans| |congruence].
    intros H. destruct (Hc H) as [H1 H2]. destruct (Hc' H1) as [H3 H4]. split; congruence.
Qed.

Definition store_le (s s' : MemoryStore.t) : Prop :=
  MemoryStore.limits s' = MemoryStore.limits s ∧
  ∀ id g, MemoryStore.groups s !! id = Some g →
    ∃ g', MemoryStore.groups s' !! id = Some g' ∧ extends g g'.

#[global] Instance store_le_preorder : PreOrder store_le.
Proof.
  split.
  - intros s. split; [done|]. intros id g H. exists g. split; [done|]. reflexivity.
  - intros a b c [Hl H] [Hl' H']. split; [congruence|]. intros id g Hg.
    destruct (H _ _ Hg) as (g1 & H1 & E1). destruct (H' _ _ H1) as (g2 & H2 & E2).
    exists g2. split; [done|]. by etrans.
Qed.

(** What the code's maps keep when the rows only grow. *)
Lemma extends_claims g g' k c :
  group_inv g → group_inv g' → extends g g' →
  memoryGroup.claims g !! k = Some c → memoryGroup.claims g' !! k = Some c.
Proof.
  intros [Hv _ _ _ _] [Hv' Hl' _ _ _] [[rows Hr] _ _].
  change (memoryGroup.claims g) with (view.claims (view_at (memoryGroup.nextRecordId g) g)).
  change (memoryGroup.claims g') with (view.claims (view_at (memoryGroup.nextRecordId g') g')).
  rewrite Hv, Hv', Hr. apply log_claims_mono. by rewrite <- Hr.
Qed.

(** ** The invariant *)

Definition store_ok (s : MemoryStore.t) : Prop :=
  ∀ id g, MemoryStore.groups s !! id = Some g → group_inv g ∧ octets (memoryGroup.groupId g) = id.

Definition inflight_ok (s : MemoryStore.t) (f : inflight.t) : Prop :=
  ready (seen s f) (inflight.request f) (inflight.batch f) ∧
  (inflight.found f = true →
     is_Some (group s (SubmitRequest.GroupId (inflight.request f)))).

Definition config_ok (c : config) : Prop := store_ok c.1 ∧ Forall (inflight_ok c.1) c.2.

(** An answer of the probe survives whatever the other requests do. *)
Lemma inflight_mono s s' f :
  store_ok s → store_ok s' → store_le s s' → inflight_ok s f → inflight_ok s' f.
Proof.
  intros Hok Hok' [_ Hle] [[Hrec Hpr Hval Hsh Hne] Hf]. unfold inflight_ok, seen in *.
  destruct (inflight.found f) eqn:Ef; [|split; [by split|done]].
  destruct (Hf eq_refl) as [g Hg]. destruct (Hle _ _ Hg) as (g' & Hg' & Hext).
  split; [|intros _; exists g'; exact Hg']. split; try done. unfold group in *.
  rewrite Hg in Hpr. rewrite Hg'. eapply Forall_impl; [exact Hpr|]. intros p [Hs Hp]. split; [done|].
  destruct (Hok _ _ Hg) as [Hi _], (Hok' _ _ Hg') as [Hi' _].
  destruct (pending.probe p); [done| |].
  - destruct Hp as (c & Hc & ? & ?). exists c. split; [|done].
    exact (extends_claims g g' _ _ Hi Hi' Hext Hc).
  - destruct Hp as (? & c & Hc & ?). split; [done|]. exists c. split; [|done].
    exact (extends_claims g g' _ _ Hi Hi' Hext Hc).
Qed.

(** ** Every step keeps it *)

Lemma put_group_ok s groupId g g' :
  store_ok s → group s groupId = Some g → group_inv g' → extends g g' →
  store_ok (put_group s groupId (Some g')) ∧ store_le s (put_group s groupId (Some g')).
Proof.
  intros Hok Hg Hi He. destruct (Hok _ _ Hg) as [_ Hid]. split.
  - intros id h. simpl. rewrite lookup_insert_Some. intros [[<- <-]|[_ H]]; [|auto].
    split; [done|]. by rewrite (ext_id _ _ He).
  - split; [done|]. intros id h H. simpl. destruct (decide (id = octets groupId)) as [->|Hne].
    + rewrite lookup_insert_eq. exists g'. split; [done|]. unfold group in Hg. by simplify_eq.
    + rewrite lookup_insert_ne by done. exists h. split; [done|]. reflexivity.
Qed.

Lemma put_group_fresh s groupId g :
  store_ok s → group s groupId = None → group_inv g → octets (memoryGroup.groupId g) = octets groupId →
  store_ok (put_group s groupId (Some g)) ∧ store_le s (put_group s groupId (Some g)).
Proof.
  intros Hok Hn Hi Hid. split.
  - intros id h. simpl. rewrite lookup_insert_Some. intros [[<- <-]|[_ H]]; auto.
  - split; [done|]. intros id h H. exists h. split; [|reflexivity]. simpl.
    rewrite lookup_insert_ne; [done|]. intros <-. unfold group in Hn. congruence.
Qed.

Lemma closed_ext g now : extends g (memoryGroup.set_closed true now g).
Proof. by split. Qed.

Lemma CloseGroup_ok ctx now s groupId :
  store_ok s → let s' := (CloseGroup ctx now s groupId).1 in store_ok s' ∧ store_le s s'.
Proof.
  intros Hok. unfold CloseGroup. assert (store_ok s ∧ store_le s s) as Hsame by (split; [done|reflexivity]).
  destruct (first_error _ _); [done|]. destruct (group s groupId) as [g|] eqn:Hg; [|done].
  destruct (memoryGroup.closed g); [done|]. simpl fst.
  apply (put_group_ok _ _ g); [done|done|apply closed_inv; by apply (Hok _ _ Hg)|apply closed_ext].
Qed.

(** The one way [CreateGroup] changes the store. *)
Lemma CreateGroup_cases ctx now s request :
  let out := CreateGroup ctx now s request in
  (out.1 = s ∧ ((∃ e, out.2 = Err e) ∨ out.2 = Ok createRejected)) ∨
  (∃ r opening media durable applied,
     CreateGroupRequest.InitialCommit request = Some r ∧
     validateCreate ctx request = Ok r ∧
     Rec.IsCommit r = true ∧ Rec.Epoch r = 0 ∧
     wellFormedEpochAttachment r 1 (CreateGroupRequest.EpochKeys request) = true ∧
     openingOf r (CreateGroupRequest.EpochKeys request) = Some opening ∧
     apply (MemoryStore.limits s) opening = (media, durable, applied) ∧
     group s (CreateGroupRequest.GroupId request) = None ∧
     out.1 = put_group s (CreateGroupRequest.GroupId request)
               (Some (newGroup now request opening media durable (stamp firstRecordId r))) ∧
     out.2 = Ok (CreateGroupResult.mk (acceptanceReason (Some applied)) 1 firstRecordId (Some applied))).
Proof.
  unfold CreateGroup. destruct (validateCreate ctx request) as [r|e] eqn:Hv; [|left; eauto].
  destruct (_ || _ || _) eqn:Hb; [left; eauto|]. reflect_bools.
  destruct (openingOf _ _) as [o|] eqn:Ho; [|left; eauto].
  case_bool_decide as Hg; [left; eauto|]. apply eq_None_not_Some in Hg.
  destruct (apply _ o) as [[media durable] applied] eqn:Ha. right. rewrite cloneRecord_id.
  exists r, o, media, durable, applied. repeat split; try done.
  unfold validateCreate in Hv. cases_in Hv. done.
Qed.

Lemma validateCreate_valid ctx request r :
  validateCreate ctx request = Ok r →
  validateRecord r = None ∧ is_key (CreateGroupRequest.BootstrapWriteKey request).
Proof.
  unfold validateCreate. destruct (first_error ctx _) eqn:E; [done|].
  apply first_error_None in E as [_ E]. apply first_error_None in E as [_ E].
  unfold checkLength in E. intros H. cases_in H. split; [done|].
  destruct (len (CreateGroupRequest.BootstrapWriteKey request) =? EpochKeyBytes) eqn:E1; [|done].
  by apply Z.eqb_eq in E1.
Qed.

Lemma CreateGroup_ok ctx now s request :
  store_ok s → let s' := (CreateGroup ctx now s request).1 in store_ok s' ∧ store_le s s'.
Proof.
  intros Hok s'. unfold s'. destruct (CreateGroup_cases ctx now s request) as
    [[-> _]|(r & o & media & durable & applied & _ & Hv & Hc & He & Hwf & Ho & _ & Hn & -> & _)];
    [split; [done|reflexivity]|].
  destruct (validateCreate_valid _ _ _ Hv) as [Hvr Hk].
  apply put_group_fresh; [done|done| |done].
  apply newGroup_inv; rewrite ?validateRecord_stamp, ?openingOf_stamp; try done.
Qed.

Lemma admitted_extends now request batch g g' results :
  admitted now request batch g g' results → extends g g'.
Proof.
  intros [Hc Hc' Hid _ _ _ _ (rows & Hr & _)]. split; [rewrite Hr; by eexists| |done].
  intros H. congruence.
Qed.

Lemma put_group_same s groupId g : group s groupId = Some g → put_group s groupId (Some g) = s.
Proof. intros H. destruct s as [l m]. unfold put_group, MemoryStore.set_groups. simpl. f_equal. by apply insert_id. Qed.

Lemma put_seen s f : put_group s (SubmitRequest.GroupId (inflight.request f)) (seen s f) = s.
Proof.
  unfold seen. destruct (inflight.found f); [|done].
  destruct (group s _) as [g|] eqn:Hg; [|done]. by apply put_group_same.
Qed.

(** The two outcomes of a submission that takes the row lock, in the store. *)
Lemma finish_outcome now s f :
  store_ok s → inflight_ok s f →
  let out := finish now s f in
  length out.2 = length (SubmitRequest.Records (inflight.request f)) ∧
  ((out.1 = s ∧ no_effect (inflight.batch f) out.2) ∨
   (∃ g g', group s (SubmitRequest.GroupId (inflight.request f)) = Some g ∧ seen s f = Some g ∧
      out.1 = put_group s (SubmitRequest.GroupId (inflight.request f)) (Some g') ∧
      admitted now (inflight.request f) (inflight.batch f) g g' out.2)).
Proof.
  intros Hok [Hr Hf] out.
  assert (∀ g, seen s f = Some g → group s (SubmitRequest.GroupId (inflight.request f)) = Some g) as Hseen.
  { intros g. unfold seen. by destruct (inflight.found f). }
  assert (∀ g, seen s f = Some g → group_inv g) as Hinv.
  { intros g Hg. by apply (Hok _ _ (Hseen _ Hg)). }
  pose proof (submit_finish_outcome (MemoryStore.limits s) now _ _ _ Hr Hinv) as Ho.
  unfold out, finish. destruct (submit_finish _ _ _ _ _) as [g' results]. simpl in Ho |- *.
  destruct Ho as [Hl Ho]. split.
  { rewrite Hl, <- (ready_records _ _ _ Hr), length_fmap. done. }
  destruct Ho as [[-> Hn]|(g & g1 & Hg & -> & Ha)]; [left|right].
  - split; [apply put_seen|done].
  - exists g, g1. auto.
Qed.

Lemma finish_ok now s f :
  store_ok s → inflight_ok s f → let s' := (finish now s f).1 in store_ok s' ∧ store_le s s'.
Proof.
  intros Hok Hf s'. unfold s'.
  destruct (finish_outcome now s f Hok Hf) as [_ [[-> _]|(g & g' & Hg & _ & -> & Ha)] ].
  - split; [done|reflexivity].
  - apply (put_group_ok _ _ g); [done|done|apply Ha|by eapply admitted_extends].
Qed.

Lemma start_ok ctx s request :
  validateSubmit ctx request = None → inflight_ok s (start s request).
Proof.
  intros Hv. pose proof (submit_probe_ready ctx (group s (SubmitRequest.GroupId request)) request Hv) as Hr.
  unfold inflight_ok, seen, start. simpl. case_bool_decide as E.
  - split; [exact Hr|done].
  - apply eq_None_not_Some in E. rewrite E in Hr |- *. split; [exact Hr|done].
Qed.

Lemma step_ok c c' : config_ok c → step c c' → config_ok c' ∧ store_le c.1 c'.1.
Proof.
  intros [Hok Hfl] Hstep.
  assert (∀ s' fl, store_ok s' ∧ store_le c.1 s' → Forall (inflight_ok c.1) fl →
    config_ok (s', fl) ∧ store_le c.1 s') as Hkeep.
  { intros s' fl [Hok' Hle] Hfl'. split; [|done]. split; [done|]. simpl.
    eapply Forall_impl; [exact Hfl'|]. intros f. by apply inflight_mono. }
  destruct Hstep as [ctx now request s fl|ctx now groupId s fl|ctx request s fl Hv|now s fl1 f fl2];
    simpl in *.
  - apply Hkeep; [by apply CreateGroup_ok|done].
  - apply Hkeep; [by apply CloseGroup_ok|done].
  - split; [|reflexivity]. split; [done|]. constructor; [by eapply start_ok|done].
  - apply Forall_app in Hfl as [H1 H2]. apply Forall_cons in H2 as [Hf H2].
    apply Hkeep; [by apply finish_ok|by apply Forall_app].
Qed.

Lemma steps_ok c c' : config_ok c → steps c c' → config_ok c' ∧ store_le c.1 c'.1.
Proof.
  intros Hok H. induction H as [c|c1 c2 c3 H1 H2 IH]; [split; [done|reflexivity]|].
  destruct (step_ok _ _ Hok H1) as [Hok2 Hle]. destruct (IH Hok2) as [Hok3 Hle']. split; [done|].
  by etrans.
Qed.

Lemma initial_ok limits : config_ok (NewMemoryStore limits, []).
Proof. split; [|by constructor]. intros id g. simpl. by rewrite lookup_empty. Qed.

Lemma reachable_ok limits c : reachable limits c → config_ok c.
Proof. intros H. by destruct (steps_ok _ _ (initial_ok limits) H). Qed.

Lemma reachable_group limits s fl id g :
  reachable limits (s, fl) → MemoryStore.groups s !! id = Some g → group_inv g.
Proof. intros H Hg. destruct (reachable_ok _ _ H) as [Hok _]. by apply (Hok _ _ Hg). Qed.

#[export] Hint Resolve reachable_group : server.
