(* ===== verification/StoreProps.v ===== *)
(** * What the submit transaction guarantees

    The properties of the store over every reachable configuration of [Interleaving.v]: concurrent
    submissions, creations and closings in any order, each submission probed at one moment and
    finished at a later one. *)

From S2P Require Import Prelude StoreTypes Retention MemoryStore GroupLog GroupInv Submission.
From S2P Require Import Interleaving.

(** ** Vocabulary *)

Definition view_of (g : memoryGroup.t) : view.t := view_at (memoryGroup.nextRecordId g) g.

(** The record a client submitted and the record a row holds are the same one: same sender, same
    stream index, same body hash, same head. *)
Definition same_record (stored r : Rec.t) : Prop :=
  claimKeyOf stored = claimKeyOf r ∧
  octets (Rec.BodyHash stored) = octets (Rec.BodyHash r) ∧
  headHash (Rec.CtHead stored) = headHash (Rec.CtHead r).

(** [r] is in the log of its group under [id]. *)
Definition landed (s : MemoryStore.t) (groupId : slice) (r : Rec.t) (id : Z) : Prop :=
  ∃ g row, group s groupId = Some g ∧ row ∈ memoryGroup.records g ∧
    Rec.RecordId (recordRow.record row) = id ∧ same_record (recordRow.record row) r.

(** ** Lemmas *)

Lemma inv_claims g : group_inv g → memoryGroup.claims g = view.claims (replay (memoryGroup.records g)).
Proof. intros H. by rewrite <- (inv_view _ _ H). Qed.
Lemma inv_commits g : group_inv g → memoryGroup.commits g = view.commits (replay (memoryGroup.records g)).
Proof. intros H. by rewrite <- (inv_view _ _ H). Qed.
Lemma inv_next g : group_inv g →
  memoryGroup.nextRecordId g = u64 (1 + Z.of_nat (length (memoryGroup.records g))).
Proof. intros H. rewrite <- replay_next. by rewrite <- (inv_view _ _ H). Qed.
Lemma inv_current g : group_inv g →
  memoryGroup.currentEpoch g = u64 (Z.of_nat (commits_in (memoryGroup.records g))).
Proof. intros H. rewrite <- replay_epoch. by rewrite <- (inv_view _ _ H). Qed.

(** A claim is a row. *)
Lemma claim_landed s groupId g c r :
  group_inv g → group s groupId = Some g → memoryGroup.claims g !! claimKeyOf r = Some c →
  same_content c r = true → landed s groupId r (claimRow.recordId c).
Proof.
  intros Hi Hg Hc Hs. rewrite (inv_claims _ Hi) in Hc.
  apply log_claims_spec in Hc as (i & row & Hrow & Hk & ->); [|apply Hi].
  exists g, row. split; [done|]. split; [by eapply list_elem_of_lookup_2|]. split; [done|].
  unfold same_content in Hs. apply andb_prop in Hs as [H1 H2].
  apply bytes_Equal_spec in H1, H2. split; [done|]. split; [done|].
  unfold headHash in *. simpl in H2. by rewrite H2.
Qed.

(** A row is a claim, and stays one. *)
Lemma landed_claim s groupId r id g :
  group_inv g → group s groupId = Some g → landed s groupId r id →
  ∃ c, memoryGroup.claims g !! claimKeyOf r = Some c ∧ same_content c r = true ∧
       claimRow.recordId c = id.
Proof.
  intros Hi Hg (g' & row & Hg' & Hrow & Hid & Hk & Hb & Hh). rewrite Hg in Hg'. injection Hg' as <-.
  apply list_elem_of_lookup_1 in Hrow as [i Hrow].
  exists (claimOf (recordRow.createTime row) (recordRow.record row)).
  split; [|split].
  - rewrite (inv_claims _ Hi), log_claims_spec by apply Hi. eauto.
  - unfold same_content. simpl. apply andb_true_intro. split; apply bytes_Equal_spec; [done|].
    by rewrite Hh.
  - done.
Qed.

Lemma landed_mono s s' groupId r id : store_le s s' → landed s groupId r id → landed s' groupId r id.
Proof.
  intros [_ Hle] (g & row & Hg & Hrow & ?). destruct (Hle _ _ Hg) as (g' & Hg' & [[k Hk] _ _]).
  exists g', row. split; [exact Hg'|]. split; [|done]. rewrite Hk. apply elem_of_app. by left.
Qed.

Lemma same_record_stamp id r : same_record (stamp id r) r.
Proof. by destruct r. Qed.

Lemma ready_lookup group request batch i r :
  ready group request batch → SubmitRequest.Records request !! i = Some r →
  ∃ p, batch !! i = Some p ∧ pending.record p = r ∧ probed group p.
Proof.
  intros Hr Hi. rewrite <- (ready_records _ _ _ Hr), list_lookup_fmap in Hi.
  destruct (batch !! i) as [p|] eqn:Hp; [|done]. simpl in Hi. injection Hi as <-.
  exists p. split; [done|]. split; [done|]. by eapply Forall_lookup_1; [apply Hr|].
Qed.

Lemma seen_group s f g :
  seen s f = Some g → group s (SubmitRequest.GroupId (inflight.request f)) = Some g.
Proof. unfold seen. by destruct (inflight.found f). Qed.

(** A retry's answer names the row it retries. *)
Lemma answered_landed s f p res :
  store_ok s → probed (seen s f) p → pending.probe p = probeIdentical → answered p res →
  landed s (SubmitRequest.GroupId (inflight.request f)) (pending.record p) (SubmitResult.RecordId res).
Proof.
  intros Hok [_ Hp] Hpr [_ Hid]. rewrite Hpr in Hp. destruct Hp as (c & Hc & Hs & Hres).
  rewrite Hid, Hres. simpl. unfold claim_of in Hc. destruct (seen s f) as [g|] eqn:Hg; [|done].
  apply seen_group in Hg. simpl in Hc. eapply claim_landed; eauto. by apply (Hok _ _ Hg).
Qed.

(** What the two phases leave, record by record. *)
Lemma finish_lands now s f s' results :
  store_ok s → inflight_ok s f → finish now s f = (s', results) →
  length results = length (SubmitRequest.Records (inflight.request f)) ∧
  ∀ i r res, SubmitRequest.Records (inflight.request f) !! i = Some r → results !! i = Some res →
    if accepted (SubmitResult.reason res)
    then landed s' (SubmitRequest.GroupId (inflight.request f)) r (SubmitResult.RecordId res)
    else SubmitResult.RecordId res = 0 ∧ s' = s.
Proof.
  intros Hok Hif Hfin.
  destruct (finish_outcome now s f Hok Hif) as [Hlen Hcase].
  destruct (finish_ok now s f Hok Hif) as [Hok' Hle]. rewrite Hfin in *. simpl in *.
  split; [done|]. intros i r res Hi Hres.
  destruct (ready_lookup _ _ _ _ _ (proj1 Hif) Hi) as (p & Hp & <- & Hpr).
  assert (∀ res, pending.probe p = probeIdentical → answered p res →
    accepted (SubmitResult.reason res) = true ∧
    landed s' (SubmitRequest.GroupId (inflight.request f)) (pending.record p)
      (SubmitResult.RecordId res)) as Hans.
  { intros res' Hid Ha. split; [by rewrite (proj1 Ha)|].
    eapply landed_mono; [exact Hle|]. by eapply answered_landed. }
  destruct Hcase as [[-> Hno]|(g & g' & Hg & _ & -> & Had)].
  - destruct (Hno _ _ Hp) as (res' & Hres' & H). rewrite Hres in Hres'. injection Hres' as <-.
    case_decide as E; [destruct (Hans _ E H) as [-> ?]; done|]. by destruct H as [-> ->].
  - destruct (ad_rows _ _ _ _ _ _ Had) as (rows & Hrs & _ & _ & Hall).
    destruct (Hall _ _ Hp) as (res' & Hres' & H). rewrite Hres in Hres'. injection Hres' as <-.
    case_decide as E; [destruct (Hans _ E H) as [-> ?]; done|].
    destruct H as (-> & row & Hrow & Hst). exists g', row.
    split; [unfold group; simpl; apply lookup_insert_eq|].
    split; [rewrite Hrs; apply elem_of_app; by right|].
    rewrite Hst. split; [done|]. apply same_record_stamp.
Qed.

(** ** Properties *)


(** C1: ALL OR NOTHING.  When a submission that was probed at any earlier moment takes the row
    lock, every record whose answer is an acceptance is in the log of its group under the id
    answered, and if even one record of the batch is refused, then that answer carries no id and
    the store is exactly what it was. *)
Theorem finish_all_or_nothing limits s fl f now s' results :
  reachable limits (s, fl) → f ∈ fl → finish now s f = (s', results) →
  length results = length (SubmitRequest.Records (inflight.request f)) ∧
  ∀ i r res, SubmitRequest.Records (inflight.request f) !! i = Some r → results !! i = Some res →
    if accepted (SubmitResult.reason res)
    then landed s' (SubmitRequest.GroupId (inflight.request f)) r (SubmitResult.RecordId res)
    else SubmitResult.RecordId res = 0 ∧ s' = s.
Proof.
  intros Hr Hf Hfin. destruct (reachable_ok _ _ Hr) as [Hok Hfl].
  assert (inflight_ok s f) as Hif by (by eapply Forall_forall in Hfl). by eapply finish_lands.
Qed.

(** The probe finds a record that landed. *)
Lemma probe_landed s request i r id :
  store_ok s → SubmitRequest.Records request !! i = Some r →
  landed s (SubmitRequest.GroupId request) r id →
  ∃ p, inflight.batch (start s request) !! i = Some p ∧
       pending.probe p = probeIdentical ∧ SubmitResult.RecordId (pending.result p) = id.
Proof.
  intros Hok Hi Hl. pose proof Hl as (g & _ & Hg & _).
  destruct (landed_claim _ _ _ _ _ (proj1 (Hok _ _ Hg)) Hg Hl) as (c & Hc & Hs & Hid).
  eexists. split.
  { unfold start, submit_probe, probe. rewrite Hg. cbn [inflight.batch].
    rewrite !list_lookup_fmap, Hi. reflexivity. }
  unfold probeOne. cbn [pending.record]. rewrite Hc. unfold same_content in Hs. rewrite Hs. done.
Qed.

Lemma fresh_nil batch : Forall (λ p, pending.probe p = probeIdentical) batch → fresh batch = [].
Proof.
  unfold fresh. induction 1 as [|p batch Hp _ IH]; [done|]. rewrite filter_cons.
  rewrite decide_False; [done|]. intros H. by apply H.
Qed.

(** A submission every record of which has landed is answered from the log. *)
Lemma retry_answers now s request ids :
  store_ok s → inflight_ok s (start s request) →
  length ids = length (SubmitRequest.Records request) →
  (∀ i r id, SubmitRequest.Records request !! i = Some r → ids !! i = Some id →
     landed s (SubmitRequest.GroupId request) r id) →
  ∃ results, finish now s (start s request) = (s, results) ∧
    length results = length (SubmitRequest.Records request) ∧
    ∀ i res id, results !! i = Some res → ids !! i = Some id →
      SubmitResult.reason res = REASON_OK ∧ SubmitResult.RecordId res = id.
Proof.
  intros Hok Hif Hlen Hall. set (f := start s request) in *.
  assert (pending.record <$> inflight.batch f = SubmitRequest.Records request) as Hrr
    by exact (ready_records _ _ _ (proj1 Hif)).
  assert (∀ i p, inflight.batch f !! i = Some p → ∃ id, ids !! i = Some id ∧
    pending.probe p = probeIdentical ∧ SubmitResult.RecordId (pending.result p) = id) as Hpr.
  { intros i p Hp. pose proof (lookup_lt_Some _ _ _ Hp) as Hlt.
    assert (length (inflight.batch f) = length (SubmitRequest.Records request)) as Hbl
      by (apply (f_equal length) in Hrr; by rewrite length_fmap in Hrr).
    rewrite Hbl in Hlt. destruct (lookup_lt_is_Some_2 _ _ Hlt) as [r Hr].
    rewrite <- Hlen in Hlt. destruct (lookup_lt_is_Some_2 _ _ Hlt) as [id Hid].
    destruct (probe_landed s request i r id Hok Hr (Hall _ _ _ Hr Hid)) as (q & Hq & H1 & H2).
    fold f in Hq. rewrite Hp in Hq. injection Hq as <-. eauto. }
  destruct (finish_outcome now s f Hok Hif) as [Hl Hcase].
  destruct (finish now s f) as [s' results]. simpl in *. exists results.
  destruct Hcase as [[-> Hno]|(g & g' & _ & _ & _ & Had)].
  - split; [done|]. split; [done|]. intros i res id Hres Hid.
    pose proof (lookup_lt_Some _ _ _ Hres) as Hlt.
    rewrite Hl, <- Hrr, length_fmap in Hlt.
    destruct (lookup_lt_is_Some_2 _ _ Hlt) as [p Hp]. destruct (Hpr _ _ Hp) as (id' & Hid' & Hi & Hri).
    destruct (Hno _ _ Hp) as (res' & Hres' & H). rewrite decide_True in H by done.
    destruct H as [H1 H2]. split; congruence.
  - exfalso. apply (ad_some _ _ _ _ _ _ Had), fresh_nil. apply Forall_lookup_2.
    intros i p Hp. by destruct (Hpr _ _ Hp) as (? & _ & ? & _).
Qed.

(** C2: A RETRY IS ANSWERED AND WRITES NOTHING, FOREVER.  Once a batch has been accepted whole,
    the same records submitted again, at any later time and after any number of other
    submissions, epoch changes, creations and closings (also of this group), get [REASON_OK] and
    the very ids of the first answer, and the store does not change. *)
Theorem retry_idempotent limits s fl1 f fl2 now results s1 s2 fl ctx now' request :
  reachable limits (s, fl1 ++ f :: fl2) → finish now s f = (s1, results) →
  Forall (λ res, accepted (SubmitResult.reason res) = true) results →
  steps (s1, fl1 ++ fl2) (s2, fl) → validateSubmit ctx request = None →
  SubmitRequest.GroupId request = SubmitRequest.GroupId (inflight.request f) →
  SubmitRequest.Records request = SubmitRequest.Records (inflight.request f) →
  ∃ results', Submit ctx now' s2 request = (s2, Ok results') ∧
    length results' = length results ∧
    ∀ i res res', results !! i = Some res → results' !! i = Some res' →
      SubmitResult.reason res' = REASON_OK ∧
      SubmitResult.RecordId res' = SubmitResult.RecordId res.
Proof.
  intros Hr Hfin Hacc Hsteps Hv Hgid Hrec. destruct (reachable_ok _ _ Hr) as [Hok Hfl].
  assert (inflight_ok s f) as Hif.
  { apply Forall_app in Hfl as [_ Hfl]. by apply Forall_cons in Hfl as [Hfl _]. }
  pose proof (step_finish now s fl1 f fl2) as Hst. rewrite Hfin in Hst. simpl in Hst.
  destruct (step_ok _ _ (conj Hok Hfl) Hst) as [Hok1 _].
  destruct (steps_ok _ _ Hok1 Hsteps) as [[Hok2 _] Hle]. simpl in *.
  assert (length results = length (SubmitRequest.Records request)) as Hlen.
  { rewrite Hrec. pose proof (proj1 (finish_outcome now s f Hok Hif)) as H. by rewrite Hfin in H. }
  destruct (finish_lands _ _ _ _ _ Hok Hif Hfin) as [_ Hland].
  destruct (retry_answers now' s2 request (SubmitResult.RecordId <$> results)) as (results' & Hf' & Hl' & Hr').
  - done.
  - by eapply start_ok.
  - by rewrite length_fmap.
  - intros i r id Hi Hid. apply list_lookup_fmap_Some in Hid as (res & -> & Hres).
    rewrite Hrec in Hi. specialize (Hland _ _ _ Hi Hres).
    rewrite (Forall_lookup_1 _ _ _ _ Hacc Hres) in Hland. rewrite Hgid.
    eapply landed_mono; [exact Hle|done].
  - exists results'. rewrite Submit_phases, Hv, Hf'. split; [done|]. split; [congruence|].
    intros i res res' Hi Hi'. eapply Hr'; [done|]. by rewrite list_lookup_fmap, Hi.
Qed.

(** C4: IDS ARE GAPLESS AND NEVER REUSED.  However submissions interleave, the records of a group
    are numbered 1, 2, 3, ... in the order they were appended, the next id is one past the last,
    and no (sender handle, stream index) is held by two records. *)
Theorem record_ids_gapless limits s fl id g :
  reachable limits (s, fl) → MemoryStore.groups s !! id = Some g →
  Z.of_nat (length (memoryGroup.records g)) < two64 - 1 →
  (∀ i row, memoryGroup.records g !! i = Some row →
     Rec.RecordId (recordRow.record row) = Z.of_nat i + 1) ∧
  memoryGroup.nextRecordId g = Z.of_nat (length (memoryGroup.records g)) + 1 ∧
  (∀ i j ri rj, memoryGroup.records g !! i = Some ri → memoryGroup.records g !! j = Some rj →
     claimKeyOf (recordRow.record ri) = claimKeyOf (recordRow.record rj) → i = j).
Proof.
  intros Hr Hg Hlen. pose proof (reachable_group _ _ _ _ _ Hr Hg) as Hi.
  pose proof (inv_log _ _ Hi) as Hlog. split; [|split].
  - intros i row Hrow. rewrite (log_ids_exact _ i row Hlog); [lia|lia|done].
  - rewrite (inv_next _ Hi), u64_small; lia.
  - intros i j ri rj. by apply log_claims_inj.
Qed.

(** C5: EPOCHS ARE LINEAR.  Epochs never go back along the log; the current epoch is the number of
    commits; every epoch below it was closed by exactly one commit, which is the last record of
    that epoch; and the commit table holds exactly these. *)
Theorem epochs_linear limits s fl id g :
  reachable limits (s, fl) → MemoryStore.groups s !! id = Some g →
  Z.of_nat (length (memoryGroup.records g)) < two64 →
  memoryGroup.currentEpoch g = Z.of_nat (commits_in (memoryGroup.records g)) ∧
  (∀ i j ri rj, memoryGroup.records g !! i = Some ri → memoryGroup.records g !! j = Some rj →
     (i < j)%nat →
     Rec.Epoch (recordRow.record ri) + (if Rec.IsCommit (recordRow.record ri) then 1 else 0) <=
     Rec.Epoch (recordRow.record rj)) ∧
  (∀ e, 0 <= e < memoryGroup.currentEpoch g ↔ is_Some (memoryGroup.commits g !! e)) ∧
  (∀ e c, memoryGroup.commits g !! e = Some c ↔
     ∃ i row, memoryGroup.records g !! i = Some row ∧ Rec.IsCommit (recordRow.record row) = true ∧
       Rec.Epoch (recordRow.record row) = e ∧
       c = commitRow.mk e (Rec.RecordId (recordRow.record row)) (recordRow.record row)).
Proof.
  intros Hr Hg Hlen. pose proof (reachable_group _ _ _ _ _ Hr Hg) as Hi.
  pose proof (inv_log _ _ Hi) as Hlog.
  pose proof (commits_in_length (memoryGroup.records g)) as Hb.
  assert (memoryGroup.currentEpoch g = Z.of_nat (commits_in (memoryGroup.records g))) as Hc
    by (rewrite (inv_current _ Hi), u64_small; lia).
  split; [done|]. split; [|split].
  - intros i j ri rj Hi' Hj Hij.
    rewrite (log_epoch_exact _ _ _ Hlog Hlen Hi'), (log_epoch_exact _ _ _ Hlog Hlen Hj).
    pose proof (commits_in_take_le (S i) j (memoryGroup.records g) Hij) as Hle.
    rewrite (take_S_r _ _ _ Hi'), commits_in_snoc in Hle.
    destruct (Rec.IsCommit (recordRow.record ri)); lia.
  - intros e. rewrite (inv_commits _ Hi), (log_commits_dom _ e Hlog Hlen).
    rewrite <- (inv_view _ _ Hi). done.
  - intros e c. rewrite (inv_commits _ Hi). by apply log_commits_spec.
Qed.


(** A RECOVERY HANDLE IS BOUND ONCE.  In the log of a group two records that carry the same
    recovery handle carry, octet for octet, the same verification key, also when they came in one
    batch; the stored pin is that key, and no later step changes it. *)
Lemma recovery_pin_immutable limits s fl id g s2 fl2 i ri tagi :
  reachable limits (s, fl) → MemoryStore.groups s !! id = Some g →
  memoryGroup.records g !! i = Some ri → recoveryTagOf (recordRow.record ri) = Some tagi →
  steps (s, fl) (s2, fl2) →
  ∃ g2 pin, MemoryStore.groups s2 !! id = Some g2 ∧
    memoryGroup.recovery g2 !! octets (RecoveryTag.Handle tagi) = Some pin ∧
    octets (recoveryRow.verifyPub pin) = octets (RecoveryTag.VerifyPub tagi) ∧
    ∀ j rj tagj, memoryGroup.records g2 !! j = Some rj →
      recoveryTagOf (recordRow.record rj) = Some tagj →
      octets (RecoveryTag.Handle tagj) = octets (RecoveryTag.Handle tagi) →
      octets (RecoveryTag.VerifyPub tagj) = octets (RecoveryTag.VerifyPub tagi).
Proof.
  intros Hr Hg Hi Ht Hst. pose proof (reachable_ok _ _ Hr) as Hok.
  destruct (steps_ok _ _ Hok Hst) as [[Hok2 _] [_ Hle] ]. simpl in *.
  destruct (Hle _ _ Hg) as (g2 & Hg2 & [[rows Hrows] _ _]). destruct (Hok2 _ _ Hg2) as [Hinv2 _].
  assert (memoryGroup.records g2 !! i = Some ri) as Hi2 by (rewrite Hrows; by apply lookup_app_l_Some).
  destruct (log_pins _ _ _ _ (inv_log _ _ Hinv2) Hi2 Ht) as (pin & Hpin & Hk).
  exists g2, pin. split; [done|]. split; [by rewrite <- (inv_view _ _ Hinv2) in Hpin|]. split; [done|].
  intros j rj tagj Hj Htj Hh. destruct (log_pins _ _ _ _ (inv_log _ _ Hinv2) Hj Htj) as (pin' & Hpin' & Hk').
  rewrite Hh, Hpin in Hpin'. injection Hpin' as <-. congruence.
Qed.

(** SENDER ACCOUNTING IS EXACT.  A sender handle has a row if and only if it has records in
    the log; its high water is the index of its last record, its count and byte count are the
    number and the ciphertext octets of its records (modulo int64), its time that of the last. *)
Lemma sender_accounting_exact limits s fl id g h :
  reachable limits (s, fl) → MemoryStore.groups s !! id = Some g →
  match memoryGroup.senders g !! h with
  | None => rows_of h (memoryGroup.records g) = []
  | Some a => ∃ last front, rows_of h (memoryGroup.records g) = front ++ [last] ∧
      senderRow.lastStreamIndex a = Rec.StreamIndex (recordRow.record last) ∧
      senderRow.recordCount a = i64 (Z.of_nat (length (rows_of h (memoryGroup.records g)))) ∧
      senderRow.byteCount a = i64 (bytes_of (rows_of h (memoryGroup.records g))) ∧
      senderRow.lastTime a = recordRow.createTime last
  end.
Proof.
  intros Hr Hg. pose proof (reachable_group _ _ _ _ _ Hr Hg) as Hi.
  pose proof (log_accounting (memoryGroup.records g) h) as H. by rewrite <- (inv_view _ _ Hi) in H.
Qed.

(** C8: NOTHING ORDINARY IS WRITTEN BEFORE THE FAN-OUT CLOSES.  Every record of the log except the
    founding commit, the wraps and the markers stands behind a marker of its own epoch whose wrap
    count is the one announced by the commit that opened that epoch. *)
Theorem writes_wait_for_fan_out limits s fl id g i row :
  reachable limits (s, fl) → MemoryStore.groups s !! id = Some g →
  Z.of_nat (length (memoryGroup.records g)) < two64 →
  memoryGroup.records g !! i = Some row → i ≠ 0%nat →
  exemptFromEpochComplete (recordRow.record row) = false →
  ∃ j marker c, (j < i)%nat ∧ memoryGroup.records g !! j = Some marker ∧
    Rec.Epoch (recordRow.record marker) = Rec.Epoch (recordRow.record row) ∧
    memoryGroup.commits g !! (Rec.Epoch (recordRow.record row) - 1) = Some c ∧
    closes (Rec.Epoch (recordRow.record row)) (announcedWraps (commitRow.record c))
      (recordRow.record marker) = true.
Proof.
  intros Hr Hg Hlen Hi H0 Hex. pose proof (reachable_group _ _ _ _ _ Hr Hg) as Hinv.
  set (rows := memoryGroup.records g) in *.
  pose proof (inv_log _ _ Hinv) as Hlog. fold rows in Hlog.
  pose proof (log_ok_lookup _ _ _ Hlog Hi) as Hadm.
  assert (log_ok (take i rows)) as Hpre by (rewrite <- (take_drop i rows) in Hlog; by eapply log_ok_prefix).
  pose proof (lookup_lt_Some _ _ _ Hi) as Hlt.
  assert (length (take i rows) = i) as Hti by (rewrite length_take; lia).
  destruct (log_expected (take i rows) Hpre) as (c & Hc & Hexp).
  { intros E. rewrite E in Hti. by subst i. }
  { lia. }
  destruct (adm_open _ _ Hadm) as [Hco|[Hco|Hco] ];
    [|by rewrite Hex in Hco|by rewrite Hco in Hc].
  destruct (log_complete _ Hpre Hco) as (j & m & Hj & He & Hcl).
  pose proof (lookup_lt_Some _ _ _ Hj) as Hjl. rewrite Hti in Hjl.
  rewrite lookup_take_lt in Hj by done. rewrite (adm_epoch _ _ Hadm). rewrite Hexp in Hcl.
  exists j, m, c. do 3 (split; [done|]). split; [|done].
  rewrite (inv_commits _ Hinv). fold rows.
  apply log_commits_spec in Hc as (k & crow & Hk & Hcm & Hce & ->); [|done].
  apply log_commits_spec; [done|]. exists k, crow. split; [|done].
  pose proof (lookup_lt_Some _ _ _ Hk) as Hkl. rewrite lookup_take_lt in Hk; [done|]. lia.
Qed.

Lemma single_pending group request batch r :
  ready group request batch → SubmitRequest.Records request = [r] →
  ∃ p, batch = [p] ∧ pending.record p = r ∧ probed group p.
Proof.
  intros Hr Hone. pose proof (ready_records _ _ _ Hr) as H. rewrite Hone in H.
  destruct batch as [|p [|q rest]]; try done. injection H as H. exists p. split; [done|]. split; [done|].
  pose proof (ready_probed _ _ _ Hr) as Hp. by apply Forall_cons in Hp as [Hp _].
Qed.

(** A refused batch of one record: its answer, and what an open group adds to it. *)
Lemma refuse_single g q why :
  bare q → pending.probe q ≠ probeIdentical → accepted why = false →
  ∃ res, refuseBatch (Some g) [q] 0 why = [res] ∧ accepted (SubmitResult.reason res) = false ∧
    SubmitResult.reason res = why ∧
    (memoryGroup.closed g = false → Rec.IsCommit (pending.record q) = true →
     SubmitResult.CurrentEpoch (pending.result q) = 0 ∨
     SubmitResult.CurrentEpoch (pending.result q) = memoryGroup.currentEpoch g →
     SubmitResult.CurrentEpoch res = memoryGroup.currentEpoch g ∧
     ∀ w, memoryGroup.commits g !! Rec.Epoch (pending.record q) = Some w →
       SubmitResult.WinningCommit res = Some (commitRow.record w)).
Proof.
  intros Hq Hqp Hwhy.
  destruct (refuseBatch_lookup (Some g) [q] 0 why 0 q Hwhy Hq eq_refl) as (res & Hres & H).
  rewrite decide_False in H by done. destruct H as ([Ha _] & Hre & _ & Hfill). exists res.
  split; [|split; [done|split; [done|] ] ].
  - pose proof (refuseBatch_length (Some g) [q] 0 why) as Hl.
    destruct (refuseBatch (Some g) [q] 0 why) as [|x [|]]; try done. by injection Hres as ->.
  - intros Hcl Hcm Hce. destruct (Hfill g eq_refl Hcl) as [Hc Hwin]. split.
    + rewrite Hc. destruct Hce as [->| ->]; [done|]. by destruct (memoryGroup.currentEpoch g =? 0).
    + intros w Hw. by rewrite Hcm, Hw in Hwin.
Qed.

(** A commit the table names is a record of the log. *)
Lemma commit_in_log g w e :
  group_inv g → memoryGroup.commits g !! e = Some w →
  ∃ row, row ∈ memoryGroup.records g ∧ recordRow.record row = commitRow.record w ∧
    Rec.IsCommit (recordRow.record row) = true.
Proof.
  intros Hinv Hw. rewrite (inv_commits _ Hinv) in Hw.
  apply log_commits_spec in Hw as (i & row & Hi & Hc & _ & ->); [|apply Hinv].
  exists row. split; [by eapply list_elem_of_lookup_2|done].
Qed.

(** C6: THE LOSER OF AN EPOCH IS HANDED THE WINNER.  A commit for an epoch that another commit has
    already closed, however far the group has advanced since, changes nothing; it is refused with
    [REASON_COMMIT_LOST] unless its own stream index was already used for something else, and
    whatever the refusal, it carries the exact commit that won, which is in the log. *)
Theorem commit_loser_gets_winner limits s fl f now r g w :
  reachable limits (s, fl) → f ∈ fl →
  SubmitRequest.Records (inflight.request f) = [r] → Rec.IsCommit r = true →
  seen s f = Some g → memoryGroup.closed g = false →
  memoryGroup.commits g !! Rec.Epoch r = Some w →
  Forall (λ p, pending.probe p ≠ probeIdentical) (inflight.batch f) →
  ∃ res, finish now s f = (s, [res]) ∧ accepted (SubmitResult.reason res) = false ∧
    SubmitResult.WinningCommit res = Some (commitRow.record w) ∧
    SubmitResult.CurrentEpoch res = memoryGroup.currentEpoch g ∧
    (Forall (λ p, pending.probe p = probeAbsent) (inflight.batch f) →
       SubmitResult.reason res = REASON_COMMIT_LOST) ∧
    ∃ row, row ∈ memoryGroup.records g ∧ recordRow.record row = commitRow.record w ∧
      Rec.IsCommit (recordRow.record row) = true.
Proof.
  intros Hr Hf Hone Hcm Hseen Hcl Hw Hni. destruct (reachable_ok _ _ Hr) as [Hok Hfl].
  assert (inflight_ok s f) as Hif by (by eapply Forall_forall in Hfl).
  destruct (single_pending _ _ _ _ (proj1 Hif) Hone) as (p & Hb & Hp & Hpr).
  rewrite Hb in *. apply Forall_cons in Hni as [Hni _].
  pose proof (commit_in_log g w _ (proj1 (Hok _ _ (seen_group _ _ _ Hseen))) Hw) as Hrow.
  pose proof (put_group_same s _ g (seen_group _ _ _ Hseen)) as Hsame. simpl in Hsame.
  unfold finish. rewrite Hseen, Hb. unfold submit_finish. simpl list_find.
  destruct (pending.probe p) eqn:Hprobe; [|done|].
  - simpl. unfold settle. rewrite Hprobe. simpl. rewrite unsettled_cons, (proj1 Hpr). simpl.
    rewrite Hcl. simpl. assert (gate g (state g) (pending.record p)
      (SubmitRequest.EpochKeys (inflight.request f)) ∅ ∅ = REASON_COMMIT_LOST) as ->
      by (unfold gate; by rewrite Hp, Hcm, Hw).
    simpl. fold (told (memoryGroup.currentEpoch g) p).
    destruct (refuse_single g (told (memoryGroup.currentEpoch g) p) REASON_COMMIT_LOST)
      as (res & -> & ? & ? & Hfill); [by apply (probed_bare _ _ Hpr)|simpl; congruence|done|].
    destruct Hfill as [? Hwin]; [done|simpl; congruence|by right|].
    exists res. rewrite Hsame, (Hwin w) by (simpl; congruence). auto 10.
  - simpl. destruct (refuse_single g p REASON_STREAM_INDEX_REUSED) as (res & -> & ? & ? & Hfill);
      [by eapply probed_bare|congruence|done|].
    destruct Hfill as [? Hwin]; [done|congruence| |].
    { left. destruct Hpr as [_ Hpr]. rewrite Hprobe in Hpr. destruct Hpr as [-> _]. done. }
    exists res. rewrite Hsame, (Hwin w) by congruence. split_and!; try done.
    intros Hall. apply Forall_cons in Hall as [Hall _]. congruence.
Qed.

(** The store without the group: what a client of an id that was never created meets. *)
Definition forget (groupId : slice) (s : MemoryStore.t) : MemoryStore.t :=
  MemoryStore.set_groups (delete (octets groupId) (MemoryStore.groups s)) s.

Lemma forget_group groupId s : group (forget groupId s) groupId = None.
Proof. apply lookup_delete_eq. Qed.

(** A batch of unclaimed records meets a closed group as it meets no group at all. *)
Lemma closed_submit ctx now s request g :
  group s (SubmitRequest.GroupId request) = Some g → memoryGroup.closed g = true →
  (∀ r, r ∈ SubmitRequest.Records request → memoryGroup.claims g !! claimKeyOf r = None) →
  (Submit ctx now s request).2 = (Submit ctx now (forget (SubmitRequest.GroupId request) s) request).2
  ∧ (Submit ctx now s request).1 = s.
Proof.
  intros Hg Hc Hfree. unfold Submit. rewrite forget_group, Hg.
  destruct (validateSubmit ctx request) eqn:Hv; [done|].
  assert (submit_probe (Some g) request = submit_probe None request) as ->.
  { unfold submit_probe, probe. rewrite <- list_fmap_compose. apply list_fmap_ext. intros i r Hr.
    unfold compose, probeOne. simpl. rewrite Hfree; [done|]. by eapply list_elem_of_lookup_2. }
  assert (Forall (λ p, pending.probe p = probeAbsent ∧ pending.settled p = false)
    (submit_probe None request)) as Hall.
  { unfold submit_probe, probe. rewrite Forall_fmap. by apply Forall_forall. }
  assert (submit_probe None request ≠ []) as Hne.
  { pose proof (submit_probe_ready ctx None request Hv) as H. apply H. }
  set (batch := submit_probe None request) in *. unfold submit_finish.
  assert (list_find (λ p, pending.probe p = probeDiffers) batch = None) as ->.
  { apply list_find_None. eapply Forall_impl; [exact Hall|]. intros p [-> _]. done. }
  assert (unsettled (settle <$> batch) ≠ []) as Hun.
  { rewrite unsettled_settle_nil by (eapply Forall_impl; [exact Hall|]; by intros p [_ ?]).
    intros H. destruct batch as [|p rest]; [done|]. apply Forall_cons in H as [H _].
    apply Forall_cons in Hall as [[Hp _] _]. congruence. }
  rewrite !decide_False by done. rewrite Hc. cbn [fst snd]. split; [done|]. by apply put_group_same.
Qed.


(** The converse of [gate_admissible]. *)
Lemma admissible_gate g id r keys :
  memoryGroup.commits g ≠ ∅ → admissible (view_at id g) (stamp id r) →
  (Rec.IsCommit r = true →
     wellFormedEpochAttachment r (u64 (memoryGroup.currentEpoch g + 1)) keys = true) →
  gate g (state g) r keys ∅ ∅ = REASON_OK.
Proof.
  intros Hfd Hadm Hwf. destruct Hadm as [_ He _ Hop Hk Hcm Hse Hpin _].
  change (Rec.Epoch r = memoryGroup.currentEpoch g) in He.
  change (Rec.IsCommit r = true → memoryGroup.commits g !! Rec.Epoch r = None) in Hcm.
  change (Rec.IsCommit r = isEpochAttachmentKind (attachmentKindOf r)) in Hk.
  unfold gate. rewrite !lookup_empty.
  assert (Rec.IsCommit r && bool_decide (is_Some (memoryGroup.commits g !! Rec.Epoch r)) = false) as ->.
  { destruct (Rec.IsCommit r); [|done]. rewrite (Hcm eq_refl). done. }
  simpl GroupState.CurrentEpoch. simpl GroupState.EpochComplete.
  rewrite He, Z.eqb_refl, Hk, eqb_reflx. simpl.
  assert (negb (memoryGroup.epochComplete g) && negb (exemptFromEpochComplete r) = false) as ->.
  { rewrite exempt_stamp in Hop. simpl in Hop. destruct Hop as [->|[-> |Hop] ]; [done|by rewrite andb_false_r|done]. }
  rewrite <- Hk. assert (Rec.IsCommit r && negb (wellFormedEpochAttachment r
    (u64 (memoryGroup.currentEpoch g + 1)) keys) = false) as ->.
  { destruct (Rec.IsCommit r); [|done]. by rewrite Hwf. }
  unfold last_index in Hse. simpl in Hse.
  destruct (senderRow.lastStreamIndex <$> memoryGroup.senders g !! octets (Rec.SenderHandle r)) as [l|].
  - rewrite (proj2 (Z.leb_gt _ _)) by by apply Hse. 
    destruct (recoveryTagOf r) as [tag|] eqn:Ht; [|done]. rewrite lookup_empty.
    destruct (memoryGroup.recovery g !! _) as [pin|] eqn:Hp; [|done]. simpl.
    unfold bytes_Equal. rewrite bool_decide_true; [done|]. eapply Hpin; [by rewrite recoveryTagOf_stamp|done].
  - destruct (recoveryTagOf r) as [tag|] eqn:Ht; [|done]. rewrite lookup_empty.
    destruct (memoryGroup.recovery g !! _) as [pin|] eqn:Hp; [|done]. simpl.
    unfold bytes_Equal. rewrite bool_decide_true; [done|]. eapply Hpin; [by rewrite recoveryTagOf_stamp|done].
Qed.

(** The gate on one record against an open group, as the specification states it. *)
Lemma gate_iff g r keys :
  group_inv g → validateRecord r = None →
  gate g (state g) r keys ∅ ∅ = REASON_OK ↔
    admissible (view_of g) (stamp (memoryGroup.nextRecordId g) r) ∧
    (Rec.IsCommit r = true →
       wellFormedEpochAttachment r (u64 (memoryGroup.currentEpoch g + 1)) keys = true).
Proof.
  intros Hinv Hvr. split.
  - intros Hgate. apply gate_admissible with (st := state g); try done. apply Hinv.
  - intros [Hadm Hwf]. by apply (admissible_gate g (memoryGroup.nextRecordId g)); [apply Hinv| |].
Qed.

(** What the row lock makes of a single record that no claim answers: written under the next id
    when the gate passes it, refused otherwise. *)
Lemma single_admitted limits now g request r :
  let p := pending.mk r SubmitResult.zero probeAbsent false in
  group_inv g → memoryGroup.closed g = false → ready (Some g) request [p] →
  gate g (state g) r (SubmitRequest.EpochKeys request) ∅ ∅ = REASON_OK →
  ∃ res, (submit_finish limits now (Some g) request [p]).2 = [res] ∧
    accepted (SubmitResult.reason res) = true ∧
    SubmitResult.RecordId res = memoryGroup.nextRecordId g.
Proof.
  intros p Hinv Hcl Hready Hgate.
  destruct (finish_admits limits now (Some g) g request [p] eq_refl Hready Hinv Hcl) as [Hlen Had].
  { by constructor. }
  { intros H. by apply Forall_cons in H as [H _]. }
  { simpl. by rewrite Hgate. }
  unfold submit_finish. simpl. rewrite Hcl. simpl. rewrite Hgate. simpl in Hlen, Had |- *.
  destruct (commit _ _ _ _ _ _) as [g1 results]. simpl in *.
  destruct results as [|res [|]]; try done. exists res. split; [done|].
  destruct (ad_rows _ _ _ _ _ _ Had) as (rows & _ & Hrec & _ & Hall).
  destruct (Hall 0%nat p eq_refl) as (res' & Hres & Hacc & row & Hrow & Hst).
  injection Hres as <-. split; [done|].
  assert (rows = [row]) as ->.
  { unfold fresh in Hrec. simpl in Hrec. destruct rows as [|x [|]]; try done.
    by apply list_elem_of_singleton in Hrow as ->. }
  simpl in Hrec. injection Hrec as Hrec. rewrite Hst in Hrec.
  apply (f_equal Rec.RecordId) in Hrec. simpl in Hrec. rewrite Hrec, Z.add_0_r.
  rewrite (inv_next _ Hinv). unfold u64. by rewrite Z.mod_mod.
Qed.

Lemma single_refused limits now g request r :
  let p := pending.mk r SubmitResult.zero probeAbsent false in
  memoryGroup.closed g = false →
  gate g (state g) r (SubmitRequest.EpochKeys request) ∅ ∅ ≠ REASON_OK →
  ∃ res, (submit_finish limits now (Some g) request [p]).2 = [res] ∧
    accepted (SubmitResult.reason res) = false.
Proof.
  intros p Hcl Hgate. unfold submit_finish. simpl. rewrite Hcl. simpl.
  destruct (decide _) as [|_]; [done|]. simpl.
  destruct (refuse_single g (told (memoryGroup.currentEpoch g) p)
    (gate g (state g) r (SubmitRequest.EpochKeys request) ∅ ∅)) as (res & E & Ha & _); [done|done| |].
  - pose proof (gate_reason g (state g) r (SubmitRequest.EpochKeys request) ∅ ∅).
    by destruct (gate _ _ _ _ _ _).
  - exists res. split; [exact E|done].
Qed.

(** C7: ADMISSION IS EXACT.  A record that an open group does not hold yet is accepted if and only
    if it is admissible at the end of the log (the right epoch, its fan-out closed or the record
    exempt, a fresh commit or no commit, an attachment that matches, a stream index above the
    sender's high water, a recovery key that agrees with the pin) and, when it is a commit, it
    opens the next epoch with well-formed keys; an accepted record gets the next id. *)
Theorem admission_exact limits s fl groupId keys r g ctx now :
  reachable limits (s, fl) → open_group s groupId = Some g →
  validateSubmit ctx (SubmitRequest.mk groupId [r] keys) = None →
  memoryGroup.claims g !! claimKeyOf r = None →
  ∃ res, (Submit ctx now s (SubmitRequest.mk groupId [r] keys)).2 = Ok [res] ∧
    (accepted (SubmitResult.reason res) = true ↔
       admissible (view_of g) (stamp (memoryGroup.nextRecordId g) r) ∧
       (Rec.IsCommit r = true →
          wellFormedEpochAttachment r (u64 (memoryGroup.currentEpoch g + 1)) keys = true)) ∧
    (accepted (SubmitResult.reason res) = true →
       SubmitResult.RecordId res = memoryGroup.nextRecordId g).
Proof.
  intros Hr Ho Hv Hfree. set (request := SubmitRequest.mk groupId [r] keys) in *.
  unfold open_group in Ho. destruct (group s groupId) as [g'|] eqn:Hg; [|done].
  destruct (memoryGroup.closed g') eqn:Hcl; [done|]. injection Ho as ->.
  destruct (reachable_ok _ _ Hr) as [Hok _]. pose proof (proj1 (Hok _ _ Hg)) as Hinv.
  pose proof (start_ok ctx s request Hv) as Hif.
  destruct (validateSubmit_shape _ _ Hv) as (_ & Hvr & _). apply Forall_cons in Hvr as [Hvr _].
  set (p := pending.mk r SubmitResult.zero probeAbsent false).
  assert (submit_probe (Some g) request = [p]) as Hsp.
  { unfold submit_probe, probe, probeOne. simpl. by rewrite Hfree. }
  assert (ready (Some g) request [p]) as Hready by (rewrite <- Hsp; by eapply submit_probe_ready).
  rewrite Submit_phases, Hv. setoid_rewrite <- (gate_iff g r keys Hinv Hvr).
  assert (start s request = inflight.mk request true [p]) as ->.
  { unfold start. change (SubmitRequest.GroupId request) with groupId.
    by rewrite Hg, Hsp, bool_decide_true by eauto. }
  unfold finish, seen. cbn [inflight.found inflight.request inflight.batch].
  change (SubmitRequest.GroupId request) with groupId. rewrite Hg.
  destruct (decide (gate g (state g) r keys ∅ ∅ = REASON_OK)) as [Hgate|Hgate].
  - destruct (single_admitted (MemoryStore.limits s) now g request r Hinv Hcl Hready Hgate)
      as (res & E & Ha & Hid).
    fold p in E. destruct (submit_finish _ _ _ _ _) as [g1 results]. simpl in *. subst results.
    exists res. rewrite Ha. by split_and!.
  - destruct (single_refused (MemoryStore.limits s) now g request r Hcl Hgate) as (res & E & Ha).
    fold p in E. destruct (submit_finish _ _ _ _ _) as [g1 results]. simpl in *. subst results.
    exists res. rewrite Ha. by split_and!.
Qed.
