(* ===== verification/FetchProps.v ===== *)
(** * What [Fetch] serves

    The read path against its specification: a page is the first [Limit] of the records above the
    cursor, at or below the reader's epoch ceiling, in the asked classes.  A client that follows
    the cursor reads every such record exactly once. *)

From S2P Require Import Prelude StoreTypes Retention MemoryStore GroupLog GroupInv Submission.
From S2P Require Import Interleaving.

(** ** Specification *)

(** The rows a request asks for, before the limit. *)
Definition asked (request : FetchRequest.t) (row : recordRow.t) : Prop :=
  Rec.Epoch (recordRow.record row) <= FetchRequest.ReadEpoch request ∧
  FetchRequest.SinceRecordId request < Rec.RecordId (recordRow.record row) ∧
  classIncluded (FetchRequest.ClassMask request) (Rec.RetentionClass (recordRow.record row)) = true.

#[global] Instance asked_dec request row : Decision (asked request row).
Proof. unfold asked. apply _. Defined.

Definition wanted (request : FetchRequest.t) (rows : list recordRow.t) : list recordRow.t :=
  filter (asked request) rows.

(** A limit of 0 is no limit. *)
Definition cut {A} (limit : Z) (l : list A) : list A :=
  if limit =? 0 then l else take (Z.to_nat limit) l.

(** The cursor a page leaves. *)
Definition cursor (since : Z) (rows : list recordRow.t) : Z :=
  default since ((λ row, Rec.RecordId (recordRow.record row)) <$> last rows).

Definition page_spec (request : FetchRequest.t) (rows : list recordRow.t) : list Rec.t * Z * bool :=
  let page := cut (FetchRequest.Limit request) (wanted request rows) in
  ((λ row, read row (FetchRequest.HeadsOnly request)) <$> page,
   cursor (FetchRequest.SinceRecordId request) page,
   (FetchRequest.Limit request =? 0) ||
     (Z.of_nat (length (wanted request rows)) <=? FetchRequest.Limit request)).

(** ** The loop meets it *)

Lemma wanted_cons request row rows :
  wanted request (row :: rows) =
  if decide (asked request row) then row :: wanted request rows else wanted request rows.
Proof. unfold wanted. by rewrite filter_cons. Qed.

Lemma cursor_cons since row rows :
  cursor since (row :: rows) = cursor (Rec.RecordId (recordRow.record row)) rows.
Proof.
  unfold cursor. destruct rows as [|r rows]; [done|].
  destruct (last (r :: rows)) eqn:E; [by rewrite last_cons_cons, E|]. by apply last_None in E.
Qed.

(** One test of the loop body is the specification's predicate. *)
Lemma loop_step request row rows page next :
  fetchLoop request (row :: rows) page next =
  if decide (asked request row) then
    if negb (FetchRequest.Limit request =? 0) &&
       (u32 (Z.of_nat (length page)) =? FetchRequest.Limit request)
    then (page, next, false)
    else fetchLoop request rows (page ++ [read row (FetchRequest.HeadsOnly request)])
           (Rec.RecordId (recordRow.record row))
  else fetchLoop request rows page next.
Proof.
  assert (asked request row ↔
    (FetchRequest.ReadEpoch request <? Rec.Epoch (recordRow.record row)) = false ∧
    (Rec.RecordId (recordRow.record row) <=? FetchRequest.SinceRecordId request) = false ∧
    classIncluded (FetchRequest.ClassMask request)
      (Rec.RetentionClass (recordRow.record row)) = true) as Hiff.
  { unfold asked. by rewrite Z.ltb_ge, Z.leb_gt. }
  simpl. case_decide as Ha.
  - apply Hiff in Ha as (-> & -> & ->). done.
  - destruct (FetchRequest.ReadEpoch request <? _); [done|].
    destruct (_ <=? FetchRequest.SinceRecordId request); [done|].
    destruct (classIncluded _ _); [|done]. exfalso. apply Ha. tauto.
Qed.

Lemma fetchLoop_unlimited request rows page next :
  FetchRequest.Limit request = 0 →
  fetchLoop request rows page next =
  (page ++ ((λ row, read row (FetchRequest.HeadsOnly request)) <$> wanted request rows),
   cursor next (wanted request rows), true).
Proof.
  intros H0. revert page next. induction rows as [|row rows IH]; intros page next.
  { simpl. by rewrite app_nil_r. }
  rewrite loop_step, wanted_cons, H0. simpl. case_decide; [|apply IH].
  rewrite IH, cursor_cons, <- app_assoc. done.
Qed.

Lemma fetchLoop_limited request rows page next :
  0 < FetchRequest.Limit request < two32 →
  (Z.of_nat (length page) <= FetchRequest.Limit request) →
  let room := (Z.to_nat (FetchRequest.Limit request) - length page)%nat in
  fetchLoop request rows page next =
  (page ++ ((λ row, read row (FetchRequest.HeadsOnly request)) <$> take room (wanted request rows)),
   cursor next (take room (wanted request rows)),
   bool_decide (length (wanted request rows) <= room)%nat).
Proof.
  intros HL. revert page next. induction rows as [|row rows IH]; intros page next Hp room.
  { simpl. unfold wanted. rewrite filter_nil, take_nil. simpl. by rewrite app_nil_r. }
  rewrite loop_step, wanted_cons. rewrite (proj2 (Z.eqb_neq _ 0)) by lia. simpl.
  case_decide as Ha; [|by apply IH].
  assert (u32 (Z.of_nat (length page)) = Z.of_nat (length page)) as Hu
    by (apply Z.mod_small; lia).
  rewrite Hu. destruct (_ =? _) eqn:E; reflect_bools.
  - assert (room = 0%nat) as -> by lia. simpl. by rewrite app_nil_r.
  - rewrite IH by (rewrite length_app; simpl; lia).
    assert (room = S (Z.to_nat (FetchRequest.Limit request) - length page - 1)) as -> by lia.
    rewrite length_app. simpl. rewrite cursor_cons, <- app_assoc. simpl.
    replace (Z.to_nat (FetchRequest.Limit request) - (length page + 1))%nat
      with (Z.to_nat (FetchRequest.Limit request) - length page - 1)%nat by lia.
    f_equal. apply bool_decide_ext. lia.
Qed.

Lemma fetchLoop_spec request rows :
  0 <= FetchRequest.Limit request < two32 →
  fetchLoop request rows [] (FetchRequest.SinceRecordId request) = page_spec request rows.
Proof.
  intros HL. unfold page_spec, cut. destruct (FetchRequest.Limit request =? 0) eqn:E; reflect_bools.
  - by rewrite fetchLoop_unlimited.
  - rewrite fetchLoop_limited by (simpl; lia). simpl. rewrite Nat.sub_0_r. f_equal.
    case_bool_decide; symmetry; [apply Z.leb_le|apply Z.leb_gt]; lia.
Qed.

(** ** Logs in id order *)

Definition id_of (row : recordRow.t) : Z := Rec.RecordId (recordRow.record row).

(** Ids one to n, in order. *)
Definition numbered (rows : list recordRow.t) : Prop :=
  ∀ i row, rows !! i = Some row → id_of row = 1 + Z.of_nat i.

Lemma numbered_prefix a b : numbered (a ++ b) → numbered a.
Proof. intros H i row Hi. apply H. by apply lookup_app_l_Some. Qed.

Lemma numbered_last rows row : numbered (rows ++ [row]) → id_of row = 1 + Z.of_nat (length rows).
Proof. intros H. apply H. by rewrite lookup_app_r, Nat.sub_diag. Qed.

Lemma numbered_le rows row : numbered rows → row ∈ rows → 1 <= id_of row <= Z.of_nat (length rows).
Proof.
  intros H [i Hi]%list_elem_of_lookup_1. rewrite (H _ _ Hi). apply lookup_lt_Some in Hi. lia.
Qed.

(** Rows above the id of one of them are the rows after it. *)
Lemma above_id (P : recordRow.t → Prop) `{!∀ row, Decision (P row)} rows a x b :
  numbered rows → filter P rows = a ++ x :: b →
  filter (λ row, P row ∧ id_of x < id_of row) rows = b.
Proof.
  revert a x b. induction rows as [|row rows IH] using rev_ind; intros a x b Hn Hf.
  { by destruct a. }
  pose proof (numbered_prefix _ _ Hn) as Hn'. rewrite filter_app in Hf |- *.
  rewrite filter_cons, filter_nil in Hf. rewrite (filter_cons _ _ _), filter_nil.
  destruct (decide (P row)) as [HP|HP].
  - destruct b as [|y b] using rev_ind.
    + apply app_inj_tail in Hf as [Hf <-].
      rewrite (decide_False (P := P row ∧ id_of row < id_of row)) by lia. rewrite app_nil_r.
      apply elem_of_nil_inv. intros z Hz. apply list_elem_of_filter in Hz as [[_ Hz] Hin].
      apply (numbered_le _ _ Hn') in Hin. pose proof (numbered_last _ _ Hn). lia.
    + rewrite app_comm_cons, app_assoc in Hf. apply app_inj_tail in Hf as [Hf <-].
      rewrite (IH _ _ _ Hn' Hf). rewrite decide_True; [done|]. split; [done|].
      assert (x ∈ rows) as Hx.
      { assert (x ∈ filter P rows) as Hxf by (rewrite Hf; set_solver). by apply list_elem_of_filter in Hxf as [_ ?]. }
      apply (numbered_le _ _ Hn') in Hx. pose proof (numbered_last _ _ Hn). lia.
  - rewrite app_nil_r in Hf. rewrite (decide_False (P := P row ∧ _)) by tauto. rewrite app_nil_r. eauto.
Qed.

Definition set_since (since : Z) (request : FetchRequest.t) : FetchRequest.t :=
  FetchRequest.mk (FetchRequest.GroupId request) since (FetchRequest.Limit request)
    (FetchRequest.HeadsOnly request) (FetchRequest.ClassMask request)
    (FetchRequest.ReadEpoch request).

(** The next page begins where the last one ended. *)
Lemma wanted_next request rows :
  numbered rows → 0 < FetchRequest.Limit request →
  FetchRequest.Limit request < Z.of_nat (length (wanted request rows)) →
  let page := take (Z.to_nat (FetchRequest.Limit request)) (wanted request rows) in
  wanted (set_since (cursor (FetchRequest.SinceRecordId request) page) request) rows =
  drop (Z.to_nat (FetchRequest.Limit request)) (wanted request rows).
Proof.
  intros Hn HL Hlt page. set (L := Z.to_nat (FetchRequest.Limit request)) in *.
  destruct (last page) as [x|] eqn:Hx.
  2: { apply last_None in Hx. apply (f_equal length) in Hx. unfold page in Hx.
       rewrite length_take in Hx. simpl in Hx. lia. }
  unfold cursor. rewrite Hx. simpl. fold (id_of x). apply last_Some in Hx as [a Ha].
  assert (filter (asked request) rows = a ++ x :: drop L (wanted request rows)) as Hsplit.
  { fold (wanted request rows). rewrite <- (take_drop L (wanted request rows)) at 1.
    fold page. rewrite Ha, <- app_assoc. done. }
  rewrite <- (above_id _ _ _ _ _ Hn Hsplit). unfold wanted. apply list_filter_iff. intros row.
  assert (asked request x) as (_ & Hsx & _).
  { assert (x ∈ filter (asked request) rows) as H by (rewrite Hsplit; set_solver).
    by apply list_elem_of_filter in H as [? _]. }
  fold (id_of x) in Hsx. unfold asked, set_since. simpl. fold (id_of row). intuition lia.
Qed.

(** ** High water *)

Definition under (ceiling : Z) (rows : list recordRow.t) : list recordRow.t :=
  filter (λ row, Rec.Epoch (recordRow.record row) <= ceiling) rows.

Lemma highWater_snoc ceiling rows row :
  highWaterOf ceiling (rows ++ [row]) =
  if ceiling <? Rec.Epoch (recordRow.record row) then highWaterOf ceiling rows
  else Z.max (highWaterOf ceiling rows) (id_of row).
Proof. unfold highWaterOf. by rewrite fold_left_app. Qed.

Lemma highWater_bound ceiling rows :
  numbered rows → 0 <= highWaterOf ceiling rows <= Z.of_nat (length rows).
Proof.
  induction rows as [|row rows IH] using rev_ind; intros Hn; [done|].
  specialize (IH (numbered_prefix _ _ Hn)). rewrite highWater_snoc, length_app. simpl.
  pose proof (numbered_last _ _ Hn). destruct (_ <? _); lia.
Qed.

Lemma highWater_spec ceiling rows :
  numbered rows → highWaterOf ceiling rows = cursor 0 (under ceiling rows).
Proof.
  induction rows as [|row rows IH] using rev_ind; intros Hn; [done|].
  pose proof (numbered_prefix _ _ Hn) as Hn'. specialize (IH Hn').
  pose proof (highWater_bound ceiling rows Hn'). pose proof (numbered_last _ _ Hn).
  rewrite highWater_snoc. unfold under. rewrite filter_app, filter_cons, filter_nil.
  destruct (_ <? _) eqn:E; reflect_bools.
  - rewrite decide_False by lia. by rewrite app_nil_r.
  - rewrite decide_True by done. unfold cursor. rewrite last_snoc. simpl. fold (id_of row). lia.
Qed.

(** ** Properties *)

Lemma inv_numbered g :
  group_inv g → Z.of_nat (length (memoryGroup.records g)) < two64 → numbered (memoryGroup.records g).
Proof. intros Hi Hl i row. by apply log_ids_exact; [apply Hi|]. Qed.

Lemma open_group_lookup s groupId g :
  open_group s groupId = Some g → group s groupId = Some g ∧ memoryGroup.closed g = false.
Proof.
  unfold open_group. destruct (group s groupId) as [g'|]; [|done].
  destruct (memoryGroup.closed g') eqn:E; [done|]. by intros [= <-].
Qed.

(** [Fetch] on an open group of a reachable store, as its specification. *)
Lemma Fetch_spec limits s fl request g :
  reachable limits (s, fl) → open_group s (FetchRequest.GroupId request) = Some g →
  len (FetchRequest.GroupId request) = GroupIdBytes →
  Z.of_nat (length (memoryGroup.records g)) < two64 →
  0 <= FetchRequest.Limit request < two32 →
  Fetch None s request =
  Ok (let '(page, next, complete) := page_spec request (memoryGroup.records g) in
      FetchResult.mk page next
        (cursor 0 (under (FetchRequest.ReadEpoch request) (memoryGroup.records g))) complete).
Proof.
  intros Hr Ho Hl Hlen HL. unfold Fetch, checkLength. rewrite Hl, Ho. simpl.
  rewrite fetchLoop_spec by done. destruct (open_group_lookup _ _ _ Ho) as [Hg _].
  rewrite highWater_spec; [done|]. apply inv_numbered; [|done]. by eapply reachable_group.
Qed.

(** A PAGE IS EXACTLY WHAT WAS ASKED FOR.  [Fetch] serves, in id order, the first [Limit] (all,
    for 0) of the records above the cursor, at or below the reader's epoch ceiling and in the
    asked classes, whole or heads only; the new cursor is the last id served; [Complete] is false
    exactly when the limit left something out; and the high water is the last id under the
    ceiling, whatever the page. *)
Lemma fetch_exact limits s fl request g :
  reachable limits (s, fl) → open_group s (FetchRequest.GroupId request) = Some g →
  len (FetchRequest.GroupId request) = GroupIdBytes →
  Z.of_nat (length (memoryGroup.records g)) < two64 →
  0 <= FetchRequest.Limit request < two32 →
  let rows := memoryGroup.records g in
  ∃ result, Fetch None s request = Ok result ∧
    FetchResult.Records result =
      (λ row, read row (FetchRequest.HeadsOnly request)) <$>
        cut (FetchRequest.Limit request) (wanted request rows) ∧
    FetchResult.NextRecordId result =
      cursor (FetchRequest.SinceRecordId request)
        (cut (FetchRequest.Limit request) (wanted request rows)) ∧
    FetchResult.HighWaterRecordId result =
      cursor 0 (under (FetchRequest.ReadEpoch request) rows) ∧
    (FetchResult.Complete result = false ↔
       FetchRequest.Limit request ≠ 0 ∧
       FetchRequest.Limit request < Z.of_nat (length (wanted request rows))).
Proof.
  intros Hr Ho Hl Hlen HL rows. eexists. split; [by eapply Fetch_spec|]. unfold page_spec. simpl.
  do 3 (split; [done|]). rewrite orb_false_iff, Z.eqb_neq, Z.leb_gt. done.
Qed.

(** The client's loop: ask, append, follow the cursor until the answer is complete. *)
Fixpoint walk (fuel : nat) (s : MemoryStore.t) (request : FetchRequest.t) : option (list Rec.t) :=
  match fuel with
  | O => None
  | S fuel =>
      match Fetch None s request with
      | Err _ => None
      | Ok result =>
          if FetchResult.Complete result then Some (FetchResult.Records result)
          else (λ rest, FetchResult.Records result ++ rest) <$>
                 walk fuel s (set_since (FetchResult.NextRecordId result) request)
      end
  end.

Lemma walk_all limits s fl g :
  reachable limits (s, fl) → Z.of_nat (length (memoryGroup.records g)) < two64 →
  ∀ fuel request, open_group s (FetchRequest.GroupId request) = Some g →
  len (FetchRequest.GroupId request) = GroupIdBytes → 0 < FetchRequest.Limit request < two32 →
  (length (wanted request (memoryGroup.records g)) < fuel)%nat →
  walk fuel s request =
    Some ((λ row, read row (FetchRequest.HeadsOnly request)) <$> wanted request (memoryGroup.records g)).
Proof.
  intros Hr Hlen fuel. induction fuel as [|fuel IH]; intros request Ho Hl HL Hf; [lia|].
  set (rows := memoryGroup.records g) in *. simpl.
  rewrite (Fetch_spec limits s fl request g Hr Ho Hl Hlen) by lia. unfold page_spec, cut. fold rows.
  rewrite (proj2 (Z.eqb_neq _ 0)) by lia. simpl. destruct (_ <=? _) eqn:E; reflect_bools.
  - by rewrite take_ge by lia.
  - assert (numbered rows) as Hn.
    { apply inv_numbered; [|done]. eapply reachable_group; [done|]. by apply open_group_lookup in Ho as [? _]. }
    pose proof (wanted_next request rows Hn ltac:(lia) E) as Hw. cbv zeta in Hw.
    rewrite IH; [|done|done|done|].
    + fold rows. rewrite Hw. simpl. f_equal. rewrite <- fmap_app. by rewrite take_drop.
    + fold rows. rewrite Hw, length_drop. lia.
Qed.

(** C10: A CLIENT THAT FOLLOWS THE CURSOR READS EVERYTHING, ONCE.  With any page limit of at least
    one, the loop ends within one round more than the log has records, and what it has read is
    every record it asked for, in order and without repetition. *)
Theorem page_walk_complete limits s fl request g :
  reachable limits (s, fl) → open_group s (FetchRequest.GroupId request) = Some g →
  len (FetchRequest.GroupId request) = GroupIdBytes →
  Z.of_nat (length (memoryGroup.records g)) < two64 → 0 < FetchRequest.Limit request < two32 →
  walk (S (length (memoryGroup.records g))) s request =
    Some ((λ row, read row (FetchRequest.HeadsOnly request)) <$> wanted request (memoryGroup.records g)).
Proof.
  intros Hr Ho Hl Hlen HL. eapply walk_all; try done.
  pose proof (length_filter (asked request) (memoryGroup.records g)). unfold wanted. lia.
Qed.

(** THE EPOCH CEILING NEVER STRANDS A READER.  A reader that holds the keys up to an epoch the
    group has already left is served, as the very last record under its ceiling, the commit that
    closed that epoch; the high water it is told is that commit's id. *)
Lemma ceiling_ends_at_commit limits s fl request g :
  reachable limits (s, fl) → open_group s (FetchRequest.GroupId request) = Some g →
  len (FetchRequest.GroupId request) = GroupIdBytes →
  Z.of_nat (length (memoryGroup.records g)) < two64 → 0 <= FetchRequest.Limit request < two32 →
  0 <= FetchRequest.ReadEpoch request < memoryGroup.currentEpoch g →
  ∃ result row, Fetch None s request = Ok result ∧
    last (under (FetchRequest.ReadEpoch request) (memoryGroup.records g)) = Some row ∧
    Rec.IsCommit (recordRow.record row) = true ∧
    Rec.Epoch (recordRow.record row) = FetchRequest.ReadEpoch request ∧
    FetchResult.HighWaterRecordId result = Rec.RecordId (recordRow.record row).
Proof.
  intros Hr Ho Hl Hlen HL Hc. destruct (open_group_lookup _ _ _ Ho) as [Hg _].
  pose proof (reachable_group _ _ _ _ _ Hr Hg) as Hi. pose proof (inv_log _ _ Hi) as Hlog.
  set (rows := memoryGroup.records g) in *.
  assert (is_Some (view.commits (replay rows) !! FetchRequest.ReadEpoch request)) as [c Hcm].
  { apply log_commits_dom; [done|done|]. unfold rows. by rewrite <- (inv_view _ _ Hi). }
  apply log_commits_spec in Hcm as (i & row & Hrow & Hic & He & _); [|done].
  eexists _, row. split; [by eapply Fetch_spec|].
  assert (last (under (FetchRequest.ReadEpoch request) rows) = Some row) as Hlast.
  { rewrite <- (take_drop (S i) rows). unfold under. rewrite filter_app.
    assert (filter (λ row, Rec.Epoch (recordRow.record row) <= FetchRequest.ReadEpoch request)
      (drop (S i) rows) = []) as ->.
    { apply elem_of_nil_inv. intros r Hr'. apply list_elem_of_filter in Hr' as [Hle Hin].
      apply list_elem_of_lookup_1 in Hin as [j Hj]. rewrite lookup_drop in Hj.
      rewrite (log_epoch_exact _ _ _ Hlog Hlen Hj) in Hle.
      pose proof (log_epoch_exact _ _ _ Hlog Hlen Hrow) as Hei.
      pose proof (commits_in_take_le (S i) (S i + j) rows ltac:(lia)) as Hmono.
      rewrite (take_S_r _ _ _ Hrow), commits_in_snoc, Hic in Hmono. lia. }
    rewrite app_nil_r, (take_S_r _ _ _ Hrow), filter_app, filter_cons, filter_nil.
    rewrite decide_True by lia. apply last_snoc. }
  split; [done|]. split; [done|]. split; [done|]. unfold page_spec. simpl. fold rows.
  unfold cursor. by rewrite Hlast.
Qed.
