(* ===== verification/Scenario.v ===== *)
(** * A worked run

    A concrete history of one group, executed: it is founded, its fan-out closes, two records are
    written (one of them announces a recovery handle), the next epoch is opened, its fan-out
    closes, and a submission is in flight.  The witnesses of the store's theorems are taken at
    these states. *)

From S2P Require Import Prelude StoreTypes Retention MemoryStore GroupLog GroupInv Submission.
From S2P Require Import Interleaving StoreProps FetchProps.

(** ** Data *)

Definition gid : slice := Some (replicate 32 7).
Definition alice : slice := Some (replicate 16 1).
Definition bob : slice := Some (replicate 16 2).
Definition key (n : Z) : slice := Some (replicate 32 n).

Definition opens (epoch wraps : Z) : option Attachment.t :=
  Some (Attachment.mk AttachmentEpoch
    (Some (EpochAttachment.mk epoch (key epoch) (key (epoch + 100)) 1 0 86400 None wraps))
    None None None None).
Definition closes_at (epoch wraps : Z) : option Attachment.t :=
  Some (Attachment.mk AttachmentEpochComplete None None None
    (Some (EpochCompleteTag.mk epoch wraps)) None).
Definition recovers (handle pub : Z) : option Attachment.t :=
  Some (Attachment.mk AttachmentRecovery None None
    (Some (RecoveryTag.mk (Some (replicate 16 handle)) (key pub) 1)) None None).

Definition record (sender : slice) (epoch index : Z) (commit : bool) (class : Z)
    (att : option Attachment.t) : Rec.t :=
  Rec.mk sender epoch index commit class 0 1 0 (key index) (Some [index; 1]) (Some [index; 2]) None
    None att 0 None.

Definition founding : CreateGroupRequest.t :=
  CreateGroupRequest.mk gid (Some (record alice 0 1 true ClassPermanent (opens 1 1))) (key 50) None.

Definition batch_of (records : list Rec.t) : SubmitRequest.t := SubmitRequest.mk gid records None.

Definition marker1 : Rec.t := record alice 1 2 false ClassPermanent (closes_at 1 1).
Definition text1 : Rec.t := record bob 1 10 false ClassDurable None.
Definition text2 : Rec.t := record bob 1 11 false ClassDurable (recovers 3 60).
Definition commit1 : Rec.t := record alice 1 3 true ClassPermanent (opens 2 2).
Definition rival : Rec.t := record bob 1 12 true ClassPermanent (opens 2 1).
Definition marker2 : Rec.t := record alice 2 4 false ClassPermanent (closes_at 2 2).
Definition text3 : Rec.t := record bob 2 13 false ClassMedia (recovers 3 60).

(** ** The run *)

(** A submission with nothing between its two phases. *)
Definition run (now : time) (s : MemoryStore.t) (request : SubmitRequest.t) : MemoryStore.t :=
  (finish now s (start s request)).1.

Definition store1 : MemoryStore.t := (CreateGroup None 1000 (NewMemoryStore DefaultLimits) founding).1.
Definition store2 : MemoryStore.t := run 2000 store1 (batch_of [marker1]).
Definition store3 : MemoryStore.t := run 3000 store2 (batch_of [text1; text2]).
Definition store4 : MemoryStore.t := run 4000 store3 (batch_of [commit1]).
Definition store5 : MemoryStore.t := run 5000 store4 (batch_of [marker2]).
Definition store6 : MemoryStore.t := (CloseGroup None 6000 store5 gid).1.

Lemma reachable_run limits s now request :
  reachable limits (s, []) → validateSubmit None request = None →
  reachable limits (run now s request, []).
Proof.
  intros Hr Hv. eapply rtc_r; [eapply rtc_r; [exact Hr|exact (step_start None request s [] Hv)]|].
  exact (step_finish now s [] (start s request) []).
Qed.

Lemma reachable_started limits s request :
  reachable limits (s, []) → validateSubmit None request = None →
  reachable limits (s, [start s request]).
Proof. intros Hr Hv. eapply rtc_r; [exact Hr|exact (step_start None request s [] Hv)]. Qed.

Lemma store1_reachable : reachable DefaultLimits (store1, []).
Proof. eapply rtc_once. apply step_create. Qed.
Lemma store2_reachable : reachable DefaultLimits (store2, []).
Proof. apply reachable_run; [apply store1_reachable|reflexivity]. Qed.
Lemma store3_reachable : reachable DefaultLimits (store3, []).
Proof. apply reachable_run; [apply store2_reachable|reflexivity]. Qed.
Lemma store4_reachable : reachable DefaultLimits (store4, []).
Proof. apply reachable_run; [apply store3_reachable|reflexivity]. Qed.
Lemma store5_reachable : reachable DefaultLimits (store5, []).
Proof. apply reachable_run; [apply store4_reachable|reflexivity]. Qed.
Lemma store6_reachable : reachable DefaultLimits (store6, []).
Proof. eapply rtc_r; [apply store5_reachable|]. apply step_close. Qed.

(** What the run left: six records, two commits, epoch 2 open for writing. *)
Example run_summary :
  (λ g, (length (memoryGroup.records g), memoryGroup.currentEpoch g, memoryGroup.epochComplete g,
         memoryGroup.nextRecordId g, memoryGroup.durableTtlSeconds g)) <$> group store5 gid =
  Some (6%nat, 2, true, 7, Some 86400).
Proof. vm_compute. reflexivity. Qed.

#[local] Opaque finish CreateGroup CloseGroup Submit submit_probe group.

Lemma steps_run s now request :
  validateSubmit None request = None → steps (s, []) (run now s request, []).
Proof.
  intros Hv. eapply rtc_l; [exact (step_start None request s [] Hv)|].
  eapply rtc_once. exact (step_finish now s [] (start s request) []).
Qed.

Lemma store3_to_store6 : steps (store3, []) (store6, []).
Proof.
  etrans; [exact (steps_run store3 4000 (batch_of [commit1]) eq_refl)|]. fold store4.
  etrans; [exact (steps_run store4 5000 (batch_of [marker2]) eq_refl)|]. fold store5.
  apply rtc_once. exact (step_close None 6000 gid store5 []).
Qed.

(** ** Witnesses *)

Lemma group_lookup s groupId g :
  group s groupId = Some g → MemoryStore.groups s !! octets groupId = Some g.
Proof. done. Qed.

Lemma forallb_Forall {A} (f : A → bool) l : forallb f l = true → Forall (λ x, f x = true) l.
Proof.
  induction l as [|x l IH]; simpl; [by constructor|]. intros [? ?]%andb_prop. constructor; auto.
Qed.

(** A group found with computed fields. *)
Lemma group_of {A} s (f : memoryGroup.t → A) a :
  f <$> group s gid = Some a → ∃ g, group s gid = Some g ∧ f g = a.
Proof. intros H. by apply fmap_Some in H as (g & Hg & ->); eauto. Qed.

Lemma store5_group : ∃ g, group store5 gid = Some g ∧ open_group store5 gid = Some g ∧
  MemoryStore.groups store5 !! octets gid = Some g ∧
  length (memoryGroup.records g) = 6%nat ∧ memoryGroup.currentEpoch g = 2.
Proof.
  destruct (group_of store5 (λ g, (memoryGroup.closed g, length (memoryGroup.records g),
    memoryGroup.currentEpoch g)) (false, 6%nat, 2)) as (g & Hg & H); [vm_compute; reflexivity|].
  injection H as Hc Hl He. exists g. split; [exact Hg|]. split; [|split; [|split] ].
  - unfold open_group. rewrite Hg, Hc. reflexivity.
  - exact (group_lookup _ _ _ Hg).
  - exact Hl.
  - exact He.
Qed.


Lemma finish_all_or_nothing_witness :
  ∃ res, (finish 3000 store2 (start store2 (batch_of [text1; text2]))).2 !! 1%nat = Some res ∧
    accepted (SubmitResult.reason res) = true ∧ landed store3 gid text2 (SubmitResult.RecordId res).
Proof.
  destruct (finish_all_or_nothing DefaultLimits store2 [start store2 (batch_of [text1; text2])]
    (start store2 (batch_of [text1; text2])) 3000 store3
    (finish 3000 store2 (start store2 (batch_of [text1; text2]))).2) as [_ H].
  - apply reachable_started; [apply store2_reachable|reflexivity].
  - apply list_elem_of_singleton. reflexivity.
  - unfold store3, run. apply surjective_pairing.
  - assert ((λ res, accepted (SubmitResult.reason res)) <$>
      (finish 3000 store2 (start store2 (batch_of [text1; text2]))).2 !! 1%nat = Some true) as Ha
      by (vm_compute; reflexivity).
    destruct ((finish 3000 store2 (start store2 (batch_of [text1; text2]))).2 !! 1%nat) as [res|] eqn:E;
      [|discriminate Ha]. injection Ha as Ha. exists res. split; [reflexivity|]. split; [exact Ha|].
    specialize (H 1%nat text2 res eq_refl E). rewrite Ha in H. exact H.
Defined.

Lemma retry_idempotent_witness :
  ∃ results, Submit None 9000 store6 (batch_of [text1; text2]) = (store6, Ok results).
Proof.
  destruct (retry_idempotent DefaultLimits store2 [] (start store2 (batch_of [text1; text2])) [] 3000
    (finish 3000 store2 (start store2 (batch_of [text1; text2]))).2 store3 store6 [] None 9000
    (batch_of [text1; text2])) as (results & H & _).
  - apply reachable_started; [apply store2_reachable|reflexivity].
  - unfold store3, run. apply surjective_pairing.
  - apply (forallb_Forall (λ res, accepted (SubmitResult.reason res))). vm_compute. reflexivity.
  - exact store3_to_store6.
  - reflexivity.
  - reflexivity.
  - reflexivity.
  - exists results. exact H.
Defined.

Lemma record_ids_gapless_witness :
  ∃ g, group store5 gid = Some g ∧
    memoryGroup.nextRecordId g = Z.of_nat (length (memoryGroup.records g)) + 1.
Proof.
  destruct store5_group as (g & E & _ & Em & Hl & _). exists g. split; [exact E|].
  refine (proj1 (proj2 (record_ids_gapless DefaultLimits store5 [] (octets gid) g
    store5_reachable Em _))).
  rewrite Hl. reflexivity.
Defined.

Lemma epochs_linear_witness :
  ∃ g, group store5 gid = Some g ∧ ∀ e, 0 <= e < 2 ↔ is_Some (memoryGroup.commits g !! e).
Proof.
  destruct store5_group as (g & E & _ & Em & Hl & He). exists g. split; [exact E|].
  rewrite <- He.
  refine (proj1 (proj2 (proj2 (epochs_linear DefaultLimits store5 [] (octets gid) g
    store5_reachable Em _)))).
  rewrite Hl. reflexivity.
Defined.


(** Row [i] of the group of a store, found with computed fields. *)
Lemma row_of {A} s i (f : recordRow.t → A) a :
  (group s gid ≫= λ g, f <$> memoryGroup.records g !! i) = Some a →
  ∃ g row, group s gid = Some g ∧ memoryGroup.records g !! i = Some row ∧ f row = a.
Proof.
  destruct (group s gid) as [g|]; simpl; [|done]. intros H. apply fmap_Some in H as (row & Hr & ->).
  eauto.
Qed.

Lemma recovery_pin_immutable_witness :
  ∃ g2 pin, group store6 gid = Some g2 ∧
    memoryGroup.recovery g2 !! replicate 16 3 = Some pin ∧
    octets (recoveryRow.verifyPub pin) = replicate 32 60.
Proof.
  destruct (row_of store3 3 (λ row, recoveryTagOf (recordRow.record row))
    (Some (RecoveryTag.mk (Some (replicate 16 3)) (key 60) 1))) as (g & row & Hg & Hrow & Ht);
    [vm_compute; reflexivity|].
  destruct (recovery_pin_immutable DefaultLimits store3 [] (octets gid) g store6 [] 3 row
    (RecoveryTag.mk (Some (replicate 16 3)) (key 60) 1) store3_reachable (group_lookup _ _ _ Hg) Hrow Ht
    store3_to_store6) as (g2 & pin & Hg2 & Hp & Hk & _).
  exists g2, pin. split; [exact Hg2|]. split; [exact Hp|exact Hk].
Defined.

Lemma sender_accounting_exact_witness :
  ∃ g, group store5 gid = Some g ∧
    (memoryGroup.senders g !! octets bob = None → rows_of (octets bob) (memoryGroup.records g) = []).
Proof.
  destruct store5_group as (g & E & _ & Em & _). exists g. split; [exact E|].
  pose proof (sender_accounting_exact DefaultLimits store5 [] (octets gid) g (octets bob)
    store5_reachable Em) as H.
  intros Hn. rewrite Hn in H. exact H.
Defined.

Lemma writes_wait_for_fan_out_witness :
  ∃ g j marker, group store5 gid = Some g ∧ (j < 2)%nat ∧ memoryGroup.records g !! j = Some marker ∧
    Rec.Epoch (recordRow.record marker) = 1.
Proof.
  destruct (row_of store5 2 (λ row, (exemptFromEpochComplete (recordRow.record row),
    Rec.Epoch (recordRow.record row))) (false, 1)) as (g & row & Hg & Hrow & Ht); [vm_compute; reflexivity|].
  injection Ht as Hex Hep. destruct store5_group as (g' & E & _ & Em & Hl & _).
  rewrite Hg in E. injection E as <-.
  destruct (writes_wait_for_fan_out DefaultLimits store5 [] (octets gid) g 2 row store5_reachable Em)
    as (j & m & c & Hj & Hm & He & _).
  - rewrite Hl. reflexivity.
  - exact Hrow.
  - lia.
  - exact Hex.
  - exists g, j, m. rewrite <- Hep. split; [exact Hg|]. split; [exact Hj|]. split; [exact Hm|exact He].
Defined.

(** The rival for epoch 1, probed before the commit that wins. *)
Definition late : inflight.t := start store3 (batch_of [rival]).

Lemma late_reachable : reachable DefaultLimits (store4, [late]).
Proof.
  eapply rtc_r; [eapply rtc_r; [eapply rtc_r; [exact store3_reachable|]|]|].
  - exact (step_start None (batch_of [rival]) store3 [] eq_refl).
  - exact (step_start None (batch_of [commit1]) store3 [late] eq_refl).
  - exact (step_finish 4000 store3 [] (start store3 (batch_of [commit1])) [late]).
Qed.

Lemma commit_loser_gets_winner_witness :
  ∃ res w, finish 5000 store4 late = (store4, [res]) ∧
    SubmitResult.reason res = REASON_COMMIT_LOST ∧ SubmitResult.WinningCommit res = Some w ∧
    Rec.RecordId w = 5.
Proof.
  destruct (group_of store4 (λ g, (memoryGroup.closed g, commitRow.record <$> memoryGroup.commits g !! 1))
    (false, Some (stamp 5 commit1))) as (g & Hg & Ht); [vm_compute; reflexivity|].
  injection Ht as Hcl Hw. apply fmap_Some in Hw as (w & Hw & Hrec).
  assert (Forall (λ p, pending.probe p = probeAbsent) (inflight.batch late)) as Hpr.
  { assert (pending.probe <$> inflight.batch late = [probeAbsent]) as H by (vm_compute; reflexivity).
    clear -H. destruct (inflight.batch late) as [|p [|]]; [discriminate H| |discriminate H].
    injection H as H. constructor; [exact H|constructor]. }
  destruct (commit_loser_gets_winner DefaultLimits store4 [late] late 5000 rival g w)
    as (res & Hf & _ & Hwin & _ & Hlost & _).
  - exact late_reachable.
  - apply list_elem_of_singleton. reflexivity.
  - reflexivity.
  - reflexivity.
  - unfold seen. assert (inflight.found late = true) as -> by (vm_compute; reflexivity). exact Hg.
  - exact Hcl.
  - exact Hw.
  - eapply Forall_impl; [exact Hpr|]. intros p Hp. rewrite Hp. discriminate.
  - exists res, (stamp 5 commit1). split; [exact Hf|]. split; [exact (Hlost Hpr)|].
    rewrite Hrec. split; [exact Hwin|]. rewrite <- Hrec. reflexivity.
Defined.


Lemma admission_exact_witness :
  ∃ res, (Submit None 6000 store5 (SubmitRequest.mk gid [text3] None)).2 = Ok [res] ∧
    (accepted (SubmitResult.reason res) = true → SubmitResult.RecordId res = 7).
Proof.
  destruct (group_of store5 (λ g, (memoryGroup.nextRecordId g, memoryGroup.claims g !! claimKeyOf text3))
    (7, None)) as (g & Hg & Ht); [vm_compute; reflexivity|].
  injection Ht as Hn Hc. destruct store5_group as (g' & E & Eo & _).
  rewrite Hg in E. injection E as <-.
  destruct (admission_exact DefaultLimits store5 [] gid None text3 g None 6000) as (res & Hs & _ & Hid).
  - exact store5_reachable.
  - exact Eo.
  - reflexivity.
  - exact Hc.
  - exists res. split; [exact Hs|]. rewrite <- Hn. exact Hid.
Defined.

Definition everything (limit ceiling : Z) : FetchRequest.t :=
  FetchRequest.mk gid 0 limit false 0 ceiling.

Lemma fetch_exact_witness :
  ∃ g result, group store5 gid = Some g ∧ Fetch None store5 (everything 2 1) = Ok result ∧
    FetchResult.HighWaterRecordId result = cursor 0 (under 1 (memoryGroup.records g)).
Proof.
  destruct store5_group as (g & E & Eo & Em & Hl & _).
  destruct (fetch_exact DefaultLimits store5 [] (everything 2 1) g) as (result & Hf & _ & _ & Hh & _).
  - exact store5_reachable.
  - exact Eo.
  - reflexivity.
  - rewrite Hl. reflexivity.
  - split; [discriminate|reflexivity].
  - exists g, result. split; [exact E|]. split; [exact Hf|exact Hh].
Defined.

Lemma page_walk_complete_witness :
  ∃ g, group store5 gid = Some g ∧
    walk 7 store5 (everything 2 1) =
      Some ((λ row, read row false) <$> wanted (everything 2 1) (memoryGroup.records g)).
Proof.
  destruct store5_group as (g & E & Eo & Em & Hl & _). exists g. split; [exact E|].
  pose proof (page_walk_complete DefaultLimits store5 [] (everything 2 1) g store5_reachable Eo) as H.
  assert (len gid = GroupIdBytes) as H1 by reflexivity.
  assert (Z.of_nat (length (memoryGroup.records g)) < two64) as H2 by (rewrite Hl; reflexivity).
  assert (0 < FetchRequest.Limit (everything 2 1) < two32) as H3 by (split; reflexivity).
  specialize (H H1 H2 H3). rewrite Hl in H. exact H.
Defined.

(** The walk, executed: five records are at epoch 0 or 1, read in three pages of two. *)
Example walk_executed :
  (λ records, List.map Rec.RecordId records) <$> walk 3 store5 (everything 2 1) = Some [1; 2; 3; 4; 5].
Proof. vm_compute. reflexivity. Qed.

Lemma ceiling_ends_at_commit_witness :
  ∃ result row, Fetch None store5 (everything 2 1) = Ok result ∧
    Rec.IsCommit (recordRow.record row) = true ∧
    FetchResult.HighWaterRecordId result = Rec.RecordId (recordRow.record row).
Proof.
  destruct store5_group as (g & E & Eo & Em & Hl & He).
  destruct (ceiling_ends_at_commit DefaultLimits store5 [] (everything 2 1) g)
    as (result & row & Hf & _ & Hc & _ & Hh).
  - exact store5_reachable.
  - exact Eo.
  - reflexivity.
  - rewrite Hl. reflexivity.
  - split; [discriminate|reflexivity].
  - rewrite He. split; [discriminate|reflexivity].
  - exists result, row. split; [exact Hf|]. split; [exact Hc|exact Hh].
Defined.
