(* ===== verification/LinkBox.v ===== *)
(** * The link boxes ([LinkBoxes] and [LinkBoxSweeper] of [store/store.go], [store/memory.go])

    A link box is a rendezvous mailbox that lives ten minutes and takes at most two deposits.  Every
    method runs under one mutex, so each is one transition of the two tables: the boxes by
    rendezvous id, and each box's deposits in id order.  The caller's clock reading is the argument
    [now], as it is in the code. *)

From stdpp Require Import sorting.
From S2P Require Import Prelude Sha256 StoreTypes.

(** ** Constants and rows *)

Definition RendezvousIdBytes : Z := 32.
Definition LinkCardBytes : Z := 4124.
Definition LinkDepositBytes : Z := 17526.
Definition LinkBoxKind : Z := 4.
Definition LinkBoxAlgId : Z := 0x0014.
Definition LinkBoxDeposits : Z := 2.

Module LinkBoxRegistration.
Record t := mk {
  RendezvousId : slice;
  DepositVerifyPub : slice;
  CollectVerifyPub : slice;
  PublicCt : slice }.
End LinkBoxRegistration.

Module LinkBox.
Record t := mk {
  RendezvousId : slice;
  DepositVerifyPub : slice;
  CollectVerifyPub : slice;
  PublicCt : slice;
  DepositCount : Z;
  DepositsTaken : Z;
  RefusedCount : Z;
  RegisterTime : time;
  ExpireTime : time;
  RetiredTime : option time;
  ReclaimAfter : time }.
End LinkBox.

Module LinkBoxRegistered.
Record t := mk { reason : Reason; ExpireTime : time; MailboxDepth : Z }.
End LinkBoxRegistered.

Module LinkBoxDeposited.
Record t := mk {
  reason : Reason;
  DepositId : Z;
  DepositHash : slice;
  PendingCount : Z;
  Replayed : bool }.
(** A reason with nothing beside it. *)
Definition only (r : Reason) : t := mk r 0 None 0 false.
End LinkBoxDeposited.

Module LinkBoxCollectRequest.
Record t := mk {
  RendezvousId : slice;
  SinceDepositId : Z;
  AckThroughDepositId : Z;
  Limit : Z;
  VerifiedPub : slice }.
End LinkBoxCollectRequest.

Module LinkBoxDeposit.
Record t := mk { DepositId : Z; DepositCt : slice; CreateTime : time }.
End LinkBoxDeposit.

Module LinkBoxCollected.
Record t := mk {
  reason : Reason;
  Deposits : list LinkBoxDeposit.t;
  PendingCount : Z;
  RefusedCount : Z;
  ExpireTime : time;
  Complete : bool }.
Definition only (r : Reason) : t := mk r [] 0 0 zero_time false.
End LinkBoxCollected.

Module LinkBoxRetired.
Record t := mk { reason : Reason; DiscardedDeposits : Z }.
End LinkBoxRetired.

Module LinkBoxSweepBounds.
Record t := mk { Deposits : Z; Boxes : Z }.
End LinkBoxSweepBounds.

Module LinkBoxesSwept.
Record t := mk { Deposits : Z; Boxes : Z; Skipped : bool }.
End LinkBoxesSwept.

Module memoryLinkBoxRow.
Record t := mk {
  RendezvousId : slice;
  Kind : Z;
  DepositVerifyPub : slice;
  CollectVerifyPub : slice;
  CardXwingPub : slice;
  PublicCt : slice;
  AlgId : Z;
  NextDepositId : Z;
  DepositCount : Z;
  RefusedCount : Z;
  RegisterTime : time;
  RefreshTime : time;
  ExpireTime : time;
  RetiredTime : option time;
  ReclaimAfter : time }.
(** The columns an arm may change: the three counters and the retirement. *)
Definition update (next count refused : Z) (retired : option time) (r : t) : t :=
  mk (RendezvousId r) (Kind r) (DepositVerifyPub r) (CollectVerifyPub r) (CardXwingPub r)
     (PublicCt r) (AlgId r) next count refused (RegisterTime r) (RefreshTime r) (ExpireTime r)
     retired (ReclaimAfter r).
End memoryLinkBoxRow.

Module memoryLinkDepositRow.
Record t := mk {
  RendezvousId : slice;
  DepositId : Z;
  DepositHash : slice;
  DepositCt : slice;
  CreateTime : time;
  PruneAfter : time }.
End memoryLinkDepositRow.

(** The two tables. *)
Module Boxes.
Record t := mk {
  boxes : gmap (list Z) memoryLinkBoxRow.t;
  deposits : gmap (list Z) (list memoryLinkDepositRow.t) }.
Definition empty : t := mk ∅ ∅.
Definition put_row (key : list Z) (row : memoryLinkBoxRow.t) (s : t) : t :=
  mk (<[key := row]> (boxes s)) (deposits s).
(** [self.deposits[key]]: no entry reads as the nil slice. *)
Definition held (key : list Z) (s : t) : list memoryLinkDepositRow.t := default [] (deposits s !! key).
End Boxes.

(** ** Helpers *)

Definition linkBoxTime (now : time) : time := truncate_micro now.

Definition linkBox (self : memoryLinkBoxRow.t) : LinkBox.t :=
  LinkBox.mk (bytes_Clone (memoryLinkBoxRow.RendezvousId self))
    (bytes_Clone (memoryLinkBoxRow.DepositVerifyPub self))
    (bytes_Clone (memoryLinkBoxRow.CollectVerifyPub self))
    (bytes_Clone (memoryLinkBoxRow.PublicCt self))
    (u32 (memoryLinkBoxRow.DepositCount self))
    (u64 (memoryLinkBoxRow.NextDepositId self - 1))
    (u64 (memoryLinkBoxRow.RefusedCount self))
    (memoryLinkBoxRow.RegisterTime self) (memoryLinkBoxRow.ExpireTime self)
    (memoryLinkBoxRow.RetiredTime self) (memoryLinkBoxRow.ReclaimAfter self).

Definition Live (self : LinkBox.t) (now : time) : bool :=
  bool_decide (LinkBox.RetiredTime self = None) &&
  Before (linkBoxTime now) (LinkBox.ExpireTime self).

Definition validateLinkBoxRegistration (registration : option LinkBoxRegistration.t)
    (ttl liveCap : Z) : option Error :=
  match registration with
  | None => Some ErrIdentifierShape
  | Some r =>
      first_error (checkLength (LinkBoxRegistration.RendezvousId r) RendezvousIdBytes)
      (first_error (checkLength (LinkBoxRegistration.DepositVerifyPub r) VerifyPubBytes)
      (first_error (checkLength (LinkBoxRegistration.CollectVerifyPub r) VerifyPubBytes)
      (first_error (if negb (len (LinkBoxRegistration.PublicCt r) =? LinkCardBytes)
                    then Some ErrLinkBoxShape else None)
      (first_error (if ttl <=? 0 then Some ErrLinkBoxTtl else None)
                   (if liveCap =? 0 then Some ErrLinkBoxLiveCap else None)))))
  end.

Definition validateLinkBoxDeposit (rendezvousId verifiedPub depositCt : slice) : option Error :=
  first_error (checkLength rendezvousId RendezvousIdBytes)
  (first_error (checkLength verifiedPub VerifyPubBytes)
     (if negb (len depositCt =? LinkDepositBytes) then Some ErrLinkBoxShape else None)).

Definition validateLinkBoxAct (rendezvousId verifiedPub : slice) : option Error :=
  first_error (checkLength rendezvousId RendezvousIdBytes)
              (checkLength verifiedPub VerifyPubBytes).

Definition linkBoxDepositHash (depositCt : slice) : slice :=
  Some (Sha256.Sum256 (octets depositCt)).

Definition sameLinkBoxRegistration (box : LinkBox.t) (r : LinkBoxRegistration.t) : bool :=
  bytes_Equal (LinkBox.DepositVerifyPub box) (LinkBoxRegistration.DepositVerifyPub r) &&
  bytes_Equal (LinkBox.CollectVerifyPub box) (LinkBoxRegistration.CollectVerifyPub r) &&
  bytes_Equal (LinkBox.PublicCt box) (LinkBoxRegistration.PublicCt r).

Definition linkBoxDepositsAfter (standing : list LinkBoxDeposit.t) (since limit : Z) :
    list LinkBoxDeposit.t * bool :=
  let after := filter (λ d, since < LinkBoxDeposit.DepositId d) standing in
  if negb (limit =? 0) && (limit <? u32 (Z.of_nat (length after)))
  then (take (Z.to_nat limit) after, false)
  else (after, true).

Definition depositKeyOf (row : memoryLinkBoxRow.t) : slice := memoryLinkBoxRow.DepositVerifyPub row.
Definition collectKeyOf (row : memoryLinkBoxRow.t) : slice := memoryLinkBoxRow.CollectVerifyPub row.

Definition liveLinkBox (self : Boxes.t) (rendezvousId : slice) (now : time) (verifiedPub : slice)
    (pinned : memoryLinkBoxRow.t → slice) : option memoryLinkBoxRow.t :=
  match Boxes.boxes self !! octets rendezvousId with
  | None => None
  | Some row =>
      if negb (Live (linkBox row) now) || negb (bytes_Equal (pinned row) verifiedPub)
      then None else Some row
  end.

(** The live boxes at [now], which the cap counts. *)
Definition countLive (self : Boxes.t) (now : time) : Z :=
  u64 (Z.of_nat (size (filter (λ kv, Live (linkBox kv.2) now = true) (Boxes.boxes self)))).

(** ** The arms *)

Definition RegisterLinkBox (ctx : option Error) (self : Boxes.t)
    (registration : option LinkBoxRegistration.t) (now : time) (ttl liveCap : Z) :
    Boxes.t * res Error LinkBoxRegistered.t :=
  match first_error ctx (validateLinkBoxRegistration registration ttl liveCap), registration with
  | Some e, _ => (self, Err e)
  | None, None => (self, Err ErrIdentifierShape)
  | None, Some r =>
      let now := linkBoxTime now in
      let key := octets (LinkBoxRegistration.RendezvousId r) in
      match Boxes.boxes self !! key with
      | Some row =>
          let box := linkBox row in
          if Live box now && sameLinkBoxRegistration box r
          then (self, Ok (LinkBoxRegistered.mk REASON_OK (LinkBox.ExpireTime box)
                            (LinkBox.DepositCount box)))
          else (self, Ok (LinkBoxRegistered.mk REASON_REJECTED zero_time 0))
      | None =>
          if liveCap <=? countLive self now
          then (self, Ok (LinkBoxRegistered.mk REASON_CARD_RATE_LIMITED zero_time 0))
          else
            let expire := linkBoxTime (now + ttl) in
            (Boxes.put_row key
               (memoryLinkBoxRow.mk (bytes_Clone (LinkBoxRegistration.RendezvousId r)) LinkBoxKind
                  (bytes_Clone (LinkBoxRegistration.DepositVerifyPub r))
                  (bytes_Clone (LinkBoxRegistration.CollectVerifyPub r)) None
                  (bytes_Clone (LinkBoxRegistration.PublicCt r)) LinkBoxAlgId 1 0 0 now now expire
                  None expire) self,
             Ok (LinkBoxRegistered.mk REASON_OK expire 0))
      end
  end.

Definition LinkBoxOf (ctx : option Error) (self : Boxes.t) (rendezvousId : slice) :
    res Error LinkBox.t :=
  match first_error ctx (checkLength rendezvousId RendezvousIdBytes) with
  | Some e => Err e
  | None =>
      match Boxes.boxes self !! octets rendezvousId with
      | None => Err ErrLinkBoxUnknown
      | Some row => Ok (linkBox row)
      end
  end.

Definition DepositLinkBox (ctx : option Error) (self : Boxes.t)
    (rendezvousId verifiedPub depositCt : slice) (now : time) :
    Boxes.t * res Error LinkBoxDeposited.t :=
  match first_error ctx (validateLinkBoxDeposit rendezvousId verifiedPub depositCt) with
  | Some e => (self, Err e)
  | None =>
      let depositHash := linkBoxDepositHash depositCt in
      let now := linkBoxTime now in
      match liveLinkBox self rendezvousId now verifiedPub depositKeyOf with
      | None => (self, Ok (LinkBoxDeposited.only REASON_CARD_RETIRED))
      | Some row =>
          let key := octets rendezvousId in
          match list_find (λ d, bytes_Equal (memoryLinkDepositRow.DepositHash d) depositHash = true)
                          (Boxes.held key self) with
          | Some (_, d) =>
              (self, Ok (LinkBoxDeposited.mk REASON_OK (u64 (memoryLinkDepositRow.DepositId d))
                           (bytes_Clone (memoryLinkDepositRow.DepositHash d))
                           (u32 (memoryLinkBoxRow.DepositCount row)) true))
          | None =>
              if LinkBoxDeposits <=? u64 (memoryLinkBoxRow.NextDepositId row - 1) then
                (Boxes.put_row key
                   (memoryLinkBoxRow.update (memoryLinkBoxRow.NextDepositId row)
                      (memoryLinkBoxRow.DepositCount row)
                      (i64 (memoryLinkBoxRow.RefusedCount row + 1))
                      (memoryLinkBoxRow.RetiredTime row) row) self,
                 Ok (LinkBoxDeposited.only REASON_CARD_RATE_LIMITED))
              else
                let depositId := memoryLinkBoxRow.NextDepositId row in
                let d := memoryLinkDepositRow.mk (bytes_Clone rendezvousId) depositId
                           (bytes_Clone depositHash) (bytes_Clone depositCt) now
                           (memoryLinkBoxRow.ExpireTime row) in
                let row' := memoryLinkBoxRow.update (i64 (depositId + 1))
                              (i32 (memoryLinkBoxRow.DepositCount row + 1))
                              (memoryLinkBoxRow.RefusedCount row)
                              (memoryLinkBoxRow.RetiredTime row) row in
                (Boxes.mk (<[key := row']> (Boxes.boxes self))
                          (<[key := Boxes.held key self ++ [d]]> (Boxes.deposits self)),
                 Ok (LinkBoxDeposited.mk REASON_OK (u64 depositId) depositHash
                       (u32 (memoryLinkBoxRow.DepositCount row')) false))
          end
      end
  end.

Definition CollectLinkBox (ctx : option Error) (self : Boxes.t)
    (request : option LinkBoxCollectRequest.t) (now : time) :
    Boxes.t * res Error LinkBoxCollected.t :=
  match ctx, request with
  | Some e, _ => (self, Err e)
  | None, None => (self, Err ErrIdentifierShape)
  | None, Some q =>
      match validateLinkBoxAct (LinkBoxCollectRequest.RendezvousId q)
              (LinkBoxCollectRequest.VerifiedPub q) with
      | Some e => (self, Err e)
      | None =>
          let now := linkBoxTime now in
          match liveLinkBox self (LinkBoxCollectRequest.RendezvousId q) now
                  (LinkBoxCollectRequest.VerifiedPub q) collectKeyOf with
          | None => (self, Ok (LinkBoxCollected.only REASON_CARD_RETIRED))
          | Some row =>
              let key := octets (LinkBoxCollectRequest.RendezvousId q) in
              let kept :=
                filter (λ d, LinkBoxCollectRequest.AckThroughDepositId q
                               < u64 (memoryLinkDepositRow.DepositId d)) (Boxes.held key self) in
              let standing :=
                (λ d, LinkBoxDeposit.mk (u64 (memoryLinkDepositRow.DepositId d))
                        (bytes_Clone (memoryLinkDepositRow.DepositCt d))
                        (memoryLinkDepositRow.CreateTime d)) <$> kept in
              let '(returned, complete) :=
                linkBoxDepositsAfter standing (LinkBoxCollectRequest.SinceDepositId q)
                  (LinkBoxCollectRequest.Limit q) in
              (Boxes.mk
                 (<[key := memoryLinkBoxRow.update (memoryLinkBoxRow.NextDepositId row)
                             (i32 (Z.of_nat (length kept))) 0 (memoryLinkBoxRow.RetiredTime row) row]>
                    (Boxes.boxes self))
                 (<[key := kept]> (Boxes.deposits self)),
               Ok (LinkBoxCollected.mk REASON_OK returned (u32 (Z.of_nat (length kept)))
                     (u64 (memoryLinkBoxRow.RefusedCount row)) (memoryLinkBoxRow.ExpireTime row)
                     complete))
          end
      end
  end.

Definition RetireLinkBox (ctx : option Error) (self : Boxes.t) (rendezvousId verifiedPub : slice)
    (now : time) : Boxes.t * res Error LinkBoxRetired.t :=
  match first_error ctx (validateLinkBoxAct rendezvousId verifiedPub) with
  | Some e => (self, Err e)
  | None =>
      let now := linkBoxTime now in
      match liveLinkBox self rendezvousId now verifiedPub collectKeyOf with
      | None => (self, Ok (LinkBoxRetired.mk REASON_CARD_RETIRED 0))
      | Some row =>
          let key := octets rendezvousId in
          let discarded := length (Boxes.held key self) in
          (Boxes.mk
             (<[key := memoryLinkBoxRow.update (memoryLinkBoxRow.NextDepositId row) 0
                         (memoryLinkBoxRow.RefusedCount row) (Some now) row]> (Boxes.boxes self))
             (delete key (Boxes.deposits self)),
           Ok (LinkBoxRetired.mk REASON_OK (u32 (Z.of_nat discarded))))
      end
  end.

Definition LiveLinkBoxes (ctx : option Error) (self : Boxes.t) (now : time) : res Error Z :=
  match ctx with
  | Some e => Err e
  | None => Ok (countLive self (linkBoxTime now))
  end.

(** ** The sweep *)

Definition DefaultLinkBoxSweepBounds : LinkBoxSweepBounds.t := LinkBoxSweepBounds.mk 1000 500.

Definition orDefault (self : LinkBoxSweepBounds.t) : LinkBoxSweepBounds.t :=
  LinkBoxSweepBounds.mk
    (if LinkBoxSweepBounds.Deposits self =? 0
     then LinkBoxSweepBounds.Deposits DefaultLinkBoxSweepBounds else LinkBoxSweepBounds.Deposits self)
    (if LinkBoxSweepBounds.Boxes self =? 0
     then LinkBoxSweepBounds.Boxes DefaultLinkBoxSweepBounds else LinkBoxSweepBounds.Boxes self).

(** [bytes.Compare] and [cmp.Or]. *)
Fixpoint bytes_Compare (a b : list Z) : comparison :=
  match a, b with
  | [], [] => Eq
  | [], _ => Lt
  | _, [] => Gt
  | x :: a, y :: b => match x ?= y with Eq => bytes_Compare a b | c => c end
  end.
Definition cmp_Or (a b : comparison) : comparison := match a with Eq => b | c => c end.

Definition depositOrder (a b : memoryLinkDepositRow.t) : comparison :=
  cmp_Or (memoryLinkDepositRow.PruneAfter a ?= memoryLinkDepositRow.PruneAfter b)
    (cmp_Or (bytes_Compare (octets (memoryLinkDepositRow.RendezvousId a))
                           (octets (memoryLinkDepositRow.RendezvousId b)))
            (memoryLinkDepositRow.DepositId a ?= memoryLinkDepositRow.DepositId b)).

Definition boxOrder (a b : memoryLinkBoxRow.t) : comparison :=
  cmp_Or (memoryLinkBoxRow.ReclaimAfter a ?= memoryLinkBoxRow.ReclaimAfter b)
    (bytes_Compare (octets (memoryLinkBoxRow.RendezvousId a))
                   (octets (memoryLinkBoxRow.RendezvousId b))).

Definition not_after {A} (order : A → A → comparison) (a b : A) : Prop := order a b ≠ Gt.
#[global] Instance not_after_dec {A} (order : A → A → comparison) : RelDecision (not_after order).
Proof. intros a b. unfold not_after. apply _. Defined.

(** [if uint32(len(l)) > bound { l = l[:bound] }] *)
Definition at_most {A} (bound : Z) (l : list A) : list A :=
  if bound <? u32 (Z.of_nat (length l)) then take (Z.to_nat bound) l else l.

(** The deposits at or past [prune_after], oldest first, within the bound. *)
Definition dueDeposits (self : Boxes.t) (now : time) (bound : Z) : list memoryLinkDepositRow.t :=
  at_most bound (merge_sort (not_after depositOrder)
    (filter (λ d, Before now (memoryLinkDepositRow.PruneAfter d) = false)
       (mjoin ((map_to_list (Boxes.deposits self)).*2)))).

(** One turn of the delete loop.  The code compares row pointers; a row's deposit id is its identity
    within its box. *)
Definition dropDeposit (m : gmap (list Z) (list memoryLinkDepositRow.t))
    (d : memoryLinkDepositRow.t) : gmap (list Z) (list memoryLinkDepositRow.t) :=
  let key := octets (memoryLinkDepositRow.RendezvousId d) in
  let rest := filter (λ x, memoryLinkDepositRow.DepositId x ≠ memoryLinkDepositRow.DepositId d)
                     (default [] (m !! key)) in
  if decide (rest = []) then delete key m else <[key := rest]> m.

(** [deposit_count] recomputed for the boxes the first statement touched. *)
Definition recount (touched : list (list Z)) (deposits : gmap (list Z) (list memoryLinkDepositRow.t))
    (boxes : gmap (list Z) memoryLinkBoxRow.t) : gmap (list Z) memoryLinkBoxRow.t :=
  map_imap (λ key row,
    Some (if decide (key ∈ touched)
          then memoryLinkBoxRow.update (memoryLinkBoxRow.NextDepositId row)
                 (i32 (Z.of_nat (length (default [] (deposits !! key)))))
                 (memoryLinkBoxRow.RefusedCount row) (memoryLinkBoxRow.RetiredTime row) row
          else row)) boxes.

Definition reclaimable (boxes : gmap (list Z) memoryLinkBoxRow.t) (now : time) (bound : Z) :
    list memoryLinkBoxRow.t :=
  at_most bound (merge_sort (not_after boxOrder)
    (filter (λ row, Before now (memoryLinkBoxRow.ReclaimAfter row) = false)
       ((map_to_list boxes).*2))).

Definition SweepLinkBoxes (ctx : option Error) (self : Boxes.t) (now : time)
    (bounds : LinkBoxSweepBounds.t) : Boxes.t * res Error LinkBoxesSwept.t :=
  match ctx with
  | Some e => (self, Err e)
  | None =>
      let bounds := orDefault bounds in
      let now := linkBoxTime now in
      let due := dueDeposits self now (LinkBoxSweepBounds.Deposits bounds) in
      let deposits := fold_left dropDeposit due (Boxes.deposits self) in
      let touched := (λ d, octets (memoryLinkDepositRow.RendezvousId d)) <$> due in
      let boxes := recount touched deposits (Boxes.boxes self) in
      let gone := reclaimable boxes now (LinkBoxSweepBounds.Boxes bounds) in
      let keys := (λ row, octets (memoryLinkBoxRow.RendezvousId row)) <$> gone in
      (Boxes.mk (fold_left (λ m key, delete key m) keys boxes)
                (fold_left (λ m key, delete key m) keys deposits),
       Ok (LinkBoxesSwept.mk (u32 (Z.of_nat (length due))) (u32 (Z.of_nat (length gone))) false))
  end.
