(* ===== verification/LinkBoxInv.v ===== *)
(** * The invariant of the link boxes, and what a sweep can be seen to do

    [boxes_inv] ties the two tables together: counters, deposit ids, expiry and retirement.  Every
    arm and every sweep keeps it.  [agree t] is the equivalence of two tables as any arm at time [t]
    or later can tell them apart; the arms respect it ([Proper] lemmas), and a sweep stays inside
    one class. *)

From stdpp Require Import sorting.
From S2P Require Import Prelude Sha256 StoreTypes Retention LinkBox.

(** ** The invariant *)

Record box_ok (key : list Z) (row : memoryLinkBoxRow.t) (ds : list memoryLinkDepositRow.t) : Prop :=
  BoxOk {
  box_id : octets (memoryLinkBoxRow.RendezvousId row) = key;
  box_next : 1 <= memoryLinkBoxRow.NextDepositId row <= 1 + LinkBoxDeposits;
  box_count : memoryLinkBoxRow.DepositCount row = Z.of_nat (length ds);
  box_reclaim : memoryLinkBoxRow.ReclaimAfter row = memoryLinkBoxRow.ExpireTime row;
  box_sorted : StronglySorted Z.lt (memoryLinkDepositRow.DepositId <$> ds);
  box_ids : Forall (λ d, 1 <= memoryLinkDepositRow.DepositId d < memoryLinkBoxRow.NextDepositId row) ds;
  box_hashes : NoDup ((λ d, octets (memoryLinkDepositRow.DepositHash d)) <$> ds);
  box_rows : Forall (λ d,
      memoryLinkDepositRow.PruneAfter d = memoryLinkBoxRow.ExpireTime row ∧
      octets (memoryLinkDepositRow.RendezvousId d) = key ∧
      memoryLinkDepositRow.DepositHash d = linkBoxDepositHash (memoryLinkDepositRow.DepositCt d)) ds;
  box_retired : memoryLinkBoxRow.RetiredTime row ≠ None → ds = [];
  box_refused : 0 <= memoryLinkBoxRow.RefusedCount row + two63 < two64 }.

Record boxes_inv (s : Boxes.t) : Prop := BoxesInv {
  inv_box : ∀ key row, Boxes.boxes s !! key = Some row → box_ok key row (Boxes.held key s);
  inv_orphan : ∀ key, Boxes.boxes s !! key = None → Boxes.held key s = [] }.

(** Two deposits at most are waiting. *)
Lemma sorted_range_length (l : list Z) a b :
  StronglySorted Z.lt l → Forall (λ x, a <= x < b) l → Z.of_nat (length l) <= Z.max 0 (b - a).
Proof.
  revert a. induction l as [|x l IH]; intros a Hs Hr; simpl; [lia|].
  apply StronglySorted_cons in Hs as [Hx Hs]. apply Forall_cons in Hr as [Hx' Hr].
  assert (Forall (λ y, a + 1 <= y < b) l) as Hr'.
  { rewrite Forall_forall in *. intros y Hy. specialize (Hx y Hy). specialize (Hr y Hy). lia. }
  specialize (IH _ Hs Hr'). lia.
Qed.

Lemma box_length key row ds : box_ok key row ds → Z.of_nat (length ds) <= LinkBoxDeposits.
Proof.
  intros [_ Hn _ _ Hs Hi _ _ _ _].
  pose proof (sorted_range_length (memoryLinkDepositRow.DepositId <$> ds) 1
    (memoryLinkBoxRow.NextDepositId row) Hs) as H.
  rewrite Forall_fmap in H. specialize (H Hi). rewrite length_fmap in H. unfold LinkBoxDeposits in *. lia.
Qed.

Lemma held_put_row key key' row s : Boxes.held key' (Boxes.put_row key row s) = Boxes.held key' s.
Proof. done. Qed.

Lemma held_insert (key key' : list Z) ds b m :
  Boxes.held key' (Boxes.mk b (<[key := ds]> m)) =
  if decide (key' = key) then ds else default [] (m !! key').
Proof.
  unfold Boxes.held. simpl. case_decide as E; [subst; by rewrite lookup_insert_eq|].
  by rewrite lookup_insert_ne.
Qed.

Lemma held_delete (key key' : list Z) (b : gmap (list Z) memoryLinkBoxRow.t) (m : gmap (list Z) (list memoryLinkDepositRow.t)) :
  Boxes.held key' (Boxes.mk b (delete key m)) =
  if decide (key' = key) then [] else default [] (m !! key').
Proof.
  unfold Boxes.held. simpl. case_decide as E; [subst; by rewrite lookup_delete_eq|].
  by rewrite lookup_delete_ne.
Qed.

Lemma liveLinkBox_Some self id now pub pinned row :
  liveLinkBox self id now pub pinned = Some row ↔
  Boxes.boxes self !! octets id = Some row ∧ Live (linkBox row) now = true ∧
  bytes_Equal (pinned row) pub = true.
Proof.
  unfold liveLinkBox. destruct (_ !! _) as [r|]; [|split; [done|by intros (? & _)]].
  destruct (Live (linkBox r) now) eqn:E1, (bytes_Equal (pinned r) pub) eqn:E2; simpl;
    (split; [first [by intros [= <-]|done]|intros ([= <-] & ? & ?); congruence]).
Qed.

(** Changing one box, and its deposits with it. *)
Lemma inv_change (s : Boxes.t) (key : list Z) (row' : memoryLinkBoxRow.t) (ds' : list memoryLinkDepositRow.t) (m : gmap (list Z) (list memoryLinkDepositRow.t)) :
  boxes_inv s → box_ok key row' ds' →
  (∀ k, default [] (m !! k) = if decide (k = key) then ds' else Boxes.held k s) →
  boxes_inv (Boxes.mk (<[key := row']> (Boxes.boxes s)) m).
Proof.
  intros [Hb Ho] Hok Hm. split; unfold Boxes.held; simpl; intros k.
  - intros row. rewrite Hm, lookup_insert_Some. intros [[<- <-]|[Hne Hk]].
    + by rewrite decide_True.
    + rewrite decide_False by done. by apply Hb.
  - rewrite Hm, lookup_insert_None. intros [Hk Hne]. rewrite decide_False by done. by apply Ho.
Qed.

(** ** The arms keep it *)

Lemma RegisterLinkBox_inv ctx s r now ttl cap :
  boxes_inv s → boxes_inv (RegisterLinkBox ctx s r now ttl cap).1.
Proof.
  intros Hi. unfold RegisterLinkBox. destruct (first_error _ _); [done|]. destruct r as [r|]; [|done].
  destruct (_ !! _) as [row|] eqn:Hk; [by case_match|]. destruct (_ <=? _); [done|]. simpl fst.
  unfold Boxes.put_row. apply (inv_change s _ _ []); [done| |].
  - split; simpl; try done; unfold LinkBoxDeposits, two63, two64; try lia; constructor.
  - intros k. case_decide as E; [|done]. subst k. by apply (inv_orphan _ Hi).
Qed.

Lemma deposit_box_ok key row ds d :
  box_ok key row ds → memoryLinkBoxRow.RetiredTime row = None →
  u64 (memoryLinkBoxRow.NextDepositId row - 1) < LinkBoxDeposits →
  memoryLinkDepositRow.DepositId d = memoryLinkBoxRow.NextDepositId row →
  memoryLinkDepositRow.PruneAfter d = memoryLinkBoxRow.ExpireTime row →
  octets (memoryLinkDepositRow.RendezvousId d) = key →
  memoryLinkDepositRow.DepositHash d = linkBoxDepositHash (memoryLinkDepositRow.DepositCt d) →
  octets (memoryLinkDepositRow.DepositHash d) ∉ ((λ d, octets (memoryLinkDepositRow.DepositHash d)) <$> ds) →
  box_ok key (memoryLinkBoxRow.update (i64 (memoryLinkBoxRow.NextDepositId row + 1))
                (i32 (memoryLinkBoxRow.DepositCount row + 1)) (memoryLinkBoxRow.RefusedCount row)
                (memoryLinkBoxRow.RetiredTime row) row) (ds ++ [d]).
Proof.
  intros Hok Hret Hlt Hid Hpr Hkey Hh Hnew. pose proof (box_length _ _ _ Hok) as Hlen.
  destruct Hok as [H1 H2 H3 H4 H5 H6 H7 H8 H9 H10]. unfold LinkBoxDeposits in *.
  rewrite u64_small in Hlt by (unfold two64; lia).
  assert (i64 (memoryLinkBoxRow.NextDepositId row + 1) = memoryLinkBoxRow.NextDepositId row + 1) as Hn
    by (apply i64_small; unfold two63; lia).
  split; simpl; rewrite ?Hn; try done.
  - unfold LinkBoxDeposits. lia.
  - rewrite i32_small by lia. rewrite H3, length_app. simpl. lia.
  - rewrite fmap_app. apply StronglySorted_app. split; [|split; [done|by repeat constructor] ].
    intros x y Hx Hy. apply list_elem_of_singleton in Hy as ->.
    apply list_elem_of_fmap in Hx as (z & -> & Hz). rewrite Forall_forall in H6.
    specialize (H6 _ Hz). lia.
  - apply Forall_app. split; [|constructor; [lia|constructor]].
    eapply Forall_impl; [exact H6|]. simpl. lia.
  - rewrite fmap_app. apply NoDup_app. split; [done|]. split; [|apply NoDup_singleton].
    intros x Hx Hy. apply list_elem_of_singleton in Hy as ->. done.
  - apply Forall_app. split; [done|]. by repeat constructor.
Qed.

Lemma Live_not_retired row now :
  Live (linkBox row) now = true → memoryLinkBoxRow.RetiredTime row = None.
Proof. unfold Live. intros [H _]%andb_prop. by apply bool_decide_eq_true in H. Qed.

Lemma i64_range z : 0 <= i64 z + two63 < two64.
Proof. unfold i64. pose proof (Z.mod_pos_bound (z + two63) two64 eq_refl). lia. Qed.

Lemma DepositLinkBox_inv ctx s id pub ct now :
  boxes_inv s → boxes_inv (DepositLinkBox ctx s id pub ct now).1.
Proof.
  intros Hi. unfold DepositLinkBox. destruct (first_error _ _); [done|].
  destruct (liveLinkBox _ _ _ _ _) as [row|] eqn:Hl; [|done].
  apply liveLinkBox_Some in Hl as (Hrow & Hlive & _). pose proof (inv_box _ Hi _ _ Hrow) as Hok.
  destruct (list_find _ _) as [[j d]|] eqn:Hf; [done|].
  destruct (LinkBoxDeposits <=? _) eqn:Hcap; simpl fst; reflect_bools.
  - unfold Boxes.put_row. apply (inv_change s _ _ (Boxes.held (octets id) s)); [done| |].
    + destruct Hok. split; simpl; try done. apply i64_range.
    + intros k. case_decide as E; [by subst|done].
  - set (d := memoryLinkDepositRow.mk _ _ _ _ _ _).
    apply (inv_change s _ _ (Boxes.held (octets id) s ++ [d])); [done| |].
    + apply deposit_box_ok; try done; [by eapply Live_not_retired|].
      intros Hin. apply list_elem_of_fmap in Hin as (x & Hd & Hin).
      apply list_find_None in Hf. rewrite Forall_forall in Hf.
      apply (Hf _ Hin), bytes_Equal_spec. by rewrite <- Hd.
    + intros k. case_decide as E; [subst k; by rewrite lookup_insert_eq|]. by rewrite lookup_insert_ne.
Qed.

(** Fewer deposits under the same box. *)
Lemma box_ok_filter key row ds (P : memoryLinkDepositRow.t → Prop) `{!∀ x, Decision (P x)} refused :
  box_ok key row ds → 0 <= refused + two63 < two64 →
  box_ok key (memoryLinkBoxRow.update (memoryLinkBoxRow.NextDepositId row)
                (i32 (Z.of_nat (length (filter P ds)))) refused (memoryLinkBoxRow.RetiredTime row) row)
         (filter P ds).
Proof.
  intros Hok Hr. pose proof (box_length _ _ _ Hok) as Hl. pose proof (length_filter P ds) as Hf.
  destruct Hok as [H1 H2 H3 H4 H5 H6 H7 H8 H9 H10]. unfold LinkBoxDeposits in Hl.
  split; simpl; try done.
  - by rewrite i32_small by lia.
  - by apply filter_sorted.
  - by apply Forall_filter.
  - by apply filter_nodup.
  - by apply Forall_filter.
  - intros Hne. by rewrite (H9 Hne).
Qed.

Lemma CollectLinkBox_inv ctx s q now :
  boxes_inv s → boxes_inv (CollectLinkBox ctx s q now).1.
Proof.
  intros Hi. unfold CollectLinkBox. destruct ctx; [done|]. destruct q as [q|]; [|done].
  destruct (validateLinkBoxAct _ _); [done|].
  destruct (liveLinkBox _ _ _ _ _) as [row|] eqn:Hl; [|done].
  apply liveLinkBox_Some in Hl as (Hrow & Hlive & _). pose proof (inv_box _ Hi _ _ Hrow) as Hok.
  destruct (linkBoxDepositsAfter _ _ _) as [returned complete]. simpl fst.
  eapply inv_change; [done| |].
  - apply box_ok_filter; [exact Hok|]. unfold two63, two64. lia.
  - intros k. case_decide as E; [subst; by rewrite lookup_insert_eq|]. by rewrite lookup_insert_ne.
Qed.

Lemma RetireLinkBox_inv ctx s id pub now :
  boxes_inv s → boxes_inv (RetireLinkBox ctx s id pub now).1.
Proof.
  intros Hi. unfold RetireLinkBox. destruct (first_error _ _); [done|].
  destruct (liveLinkBox _ _ _ _ _) as [row|] eqn:Hl; [|done].
  apply liveLinkBox_Some in Hl as (Hrow & Hlive & _). pose proof (inv_box _ Hi _ _ Hrow) as Hok.
  simpl fst. apply (inv_change s _ _ []); [done| |].
  - destruct Hok. split; simpl; try done; constructor.
  - intros k. case_decide as E; [subst; by rewrite lookup_delete_eq|]. by rewrite lookup_delete_ne.
Qed.

(** ** The sweep, place by place *)

Definition dropped (due : list memoryLinkDepositRow.t) (key : list Z) (x : memoryLinkDepositRow.t) :
    Prop :=
  Exists (λ d, octets (memoryLinkDepositRow.RendezvousId d) = key ∧
               memoryLinkDepositRow.DepositId d = memoryLinkDepositRow.DepositId x) due.
#[global] Instance dropped_dec due key x : Decision (dropped due key x).
Proof. unfold dropped. apply _. Defined.

Lemma dropDeposit_held m d key :
  default [] (dropDeposit m d !! key) =
  filter (λ x, ¬ (octets (memoryLinkDepositRow.RendezvousId d) = key ∧
                  memoryLinkDepositRow.DepositId d = memoryLinkDepositRow.DepositId x))
         (default [] (m !! key)).
Proof.
  unfold dropDeposit. set (k := octets (memoryLinkDepositRow.RendezvousId d)).
  set (rest := filter _ (default [] (m !! k))).
  destruct (decide (key = k)) as [->|Hne].
  - transitivity rest.
    + case_decide as E; [by rewrite lookup_delete_eq, E|by rewrite lookup_insert_eq].
    + unfold rest. apply list_filter_iff. intros x. split; [intros H [_ H']; congruence|].
      intros H H'. by apply H.
  - transitivity (default [] (m !! key)).
    + case_decide; [by rewrite lookup_delete_ne|by rewrite lookup_insert_ne].
    + symmetry. apply filter_all. apply Forall_forall. intros x _ [H _]. congruence.
Qed.

Lemma drop_all_held due m key :
  default [] (fold_left dropDeposit due m !! key) =
  filter (λ x, ¬ dropped due key x) (default [] (m !! key)).
Proof.
  revert m. induction due as [|d due IH]; intros m; simpl.
  - symmetry. apply filter_all. apply Forall_forall. intros x _ H. by inversion H.
  - rewrite IH, dropDeposit_held, list_filter_filter. apply list_filter_iff. intros x.
    unfold dropped. rewrite Exists_cons. tauto.
Qed.

Lemma delete_all_lookup {A} (keys : list (list Z)) (m : gmap (list Z) A) key :
  fold_left (λ m key, delete key m) keys m !! key = if decide (key ∈ keys) then None else m !! key.
Proof.
  revert m. induction keys as [|k keys IH]; intros m; cbn [fold_left].
  { rewrite decide_False; [done|]. apply not_elem_of_nil. }
  rewrite IH. destruct (decide (key ∈ keys)) as [H|H].
  - rewrite decide_True; [done|]. by right.
  - destruct (decide (key = k)) as [->|Hne].
    + rewrite lookup_delete_eq, decide_True; [done|]. by left.
    + rewrite lookup_delete_ne by done. rewrite decide_False; [done|]. by rewrite not_elem_of_cons.
Qed.

Lemma elem_of_at_most {A} bound (l : list A) x : x ∈ at_most bound l → x ∈ l.
Proof.
  unfold at_most. destruct (_ <? _); [|done]. intros H. rewrite <- (take_drop (Z.to_nat bound) l).
  apply elem_of_app. by left.
Qed.

Lemma due_elem s now bound d :
  d ∈ dueDeposits s now bound →
  ∃ key, d ∈ Boxes.held key s ∧ memoryLinkDepositRow.PruneAfter d <= now.
Proof.
  unfold dueDeposits. intros H%elem_of_at_most. rewrite merge_sort_Permutation in H.
  apply list_elem_of_filter in H as [Hb H]. apply list_elem_of_join in H as (l & Hd & Hl).
  apply list_elem_of_fmap in Hl as ([key l'] & -> & Hl). apply elem_of_map_to_list in Hl.
  exists key. unfold Boxes.held. rewrite Hl. split; [done|]. unfold Before in Hb. by reflect_bools.
Qed.

Lemma reclaimable_elem boxes now bound row :
  row ∈ reclaimable boxes now bound →
  ∃ key, boxes !! key = Some row ∧ memoryLinkBoxRow.ReclaimAfter row <= now.
Proof.
  unfold reclaimable. intros H%elem_of_at_most. rewrite merge_sort_Permutation in H.
  apply list_elem_of_filter in H as [Hb H]. apply list_elem_of_fmap in H as ([key r] & -> & Hl).
  apply elem_of_map_to_list in Hl. exists key. split; [done|]. unfold Before in Hb. by reflect_bools.
Qed.

(** The lists a sweep works through. *)
Section Sweep.
Context (s : Boxes.t) (now : time) (bounds : LinkBoxSweepBounds.t).

Definition due_of : list memoryLinkDepositRow.t :=
  dueDeposits s (linkBoxTime now) (LinkBoxSweepBounds.Deposits (orDefault bounds)).
Definition touched_of : list (list Z) :=
  (λ d, octets (memoryLinkDepositRow.RendezvousId d)) <$> due_of.
Definition kept_of : gmap (list Z) (list memoryLinkDepositRow.t) :=
  fold_left dropDeposit due_of (Boxes.deposits s).
Definition gone_of : list memoryLinkBoxRow.t :=
  reclaimable (recount touched_of kept_of (Boxes.boxes s)) (linkBoxTime now)
    (LinkBoxSweepBounds.Boxes (orDefault bounds)).
Definition keys_of : list (list Z) :=
  (λ row, octets (memoryLinkBoxRow.RendezvousId row)) <$> gone_of.
Definition swept : Boxes.t := (SweepLinkBoxes None s now bounds).1.

(** A box's row after the first statement. *)
Definition recounted (key : list Z) (row : memoryLinkBoxRow.t) : memoryLinkBoxRow.t :=
  if decide (key ∈ touched_of)
  then memoryLinkBoxRow.update (memoryLinkBoxRow.NextDepositId row)
         (i32 (Z.of_nat (length (filter (λ x, ¬ dropped due_of key x) (Boxes.held key s)))))
         (memoryLinkBoxRow.RefusedCount row) (memoryLinkBoxRow.RetiredTime row) row
  else row.

Lemma recount_lookup key :
  recount touched_of kept_of (Boxes.boxes s) !! key = recounted key <$> Boxes.boxes s !! key.
Proof.
  unfold recount. rewrite map_lookup_imap. destruct (Boxes.boxes s !! key) as [row|]; [|done]. simpl.
  unfold recounted. case_decide; [|done]. unfold kept_of. by rewrite drop_all_held.
Qed.

Lemma swept_boxes key :
  Boxes.boxes swept !! key = if decide (key ∈ keys_of) then None else recounted key <$> Boxes.boxes s !! key.
Proof. rewrite <- recount_lookup. apply delete_all_lookup. Qed.

Lemma swept_held key :
  Boxes.held key swept =
  if decide (key ∈ keys_of) then [] else filter (λ x, ¬ dropped due_of key x) (Boxes.held key s).
Proof.
  unfold Boxes.held. unfold swept, SweepLinkBoxes. cbn [Boxes.deposits fst].
  rewrite delete_all_lookup. fold due_of. fold kept_of. fold touched_of. fold gone_of. fold keys_of.
  case_decide; [done|]. unfold kept_of. apply drop_all_held.
Qed.

Lemma recounted_fields key row :
  memoryLinkBoxRow.RetiredTime (recounted key row) = memoryLinkBoxRow.RetiredTime row ∧
  memoryLinkBoxRow.ExpireTime (recounted key row) = memoryLinkBoxRow.ExpireTime row ∧
  memoryLinkBoxRow.ReclaimAfter (recounted key row) = memoryLinkBoxRow.ReclaimAfter row ∧
  memoryLinkBoxRow.RendezvousId (recounted key row) = memoryLinkBoxRow.RendezvousId row.
Proof. unfold recounted. by case_decide. Qed.

Hypothesis Hinv : boxes_inv s.

Lemma due_box d :
  d ∈ due_of → ∃ row, Boxes.boxes s !! octets (memoryLinkDepositRow.RendezvousId d) = Some row ∧
    d ∈ Boxes.held (octets (memoryLinkDepositRow.RendezvousId d)) s ∧
    memoryLinkBoxRow.ExpireTime row <= linkBoxTime now.
Proof.
  intros (key & Hd & Hp)%due_elem. destruct (Boxes.boxes s !! key) as [row|] eqn:Hk.
  - pose proof (inv_box _ Hinv _ _ Hk) as Hok. pose proof (box_rows _ _ _ Hok) as Hr.
    rewrite Forall_forall in Hr. destruct (Hr _ Hd) as (Hpr & Hid & _).
    exists row. rewrite Hid. split; [done|]. split; [done|]. lia.
  - rewrite (inv_orphan _ Hinv _ Hk) in Hd. by apply not_elem_of_nil in Hd.
Qed.

Lemma untouched_held key :
  key ∉ touched_of → filter (λ x, ¬ dropped due_of key x) (Boxes.held key s) = Boxes.held key s.
Proof.
  intros Hn. apply filter_all. apply Forall_forall. intros x _ Hd. apply Hn.
  apply Exists_exists in Hd as (d & Hd & Hk & _). unfold touched_of. apply list_elem_of_fmap. eauto.
Qed.

Lemma recounted_ok key row :
  Boxes.boxes s !! key = Some row →
  box_ok key (recounted key row) (filter (λ x, ¬ dropped due_of key x) (Boxes.held key s)).
Proof.
  intros Hk. pose proof (inv_box _ Hinv _ _ Hk) as Hok. unfold recounted. case_decide as E.
  - apply box_ok_filter; [done|apply Hok].
  - by rewrite untouched_held.
Qed.

Lemma gone_box key :
  key ∈ keys_of → ∃ row, Boxes.boxes s !! key = Some row ∧
    memoryLinkBoxRow.ExpireTime row <= linkBoxTime now.
Proof.
  intros (row & -> & Hrow)%list_elem_of_fmap. apply reclaimable_elem in Hrow as (key & Hk & Hre).
  rewrite recount_lookup in Hk. apply fmap_Some in Hk as (row0 & Hk & ->).
  destruct (recounted_fields key row0) as (_ & _ & Hr & Hi). rewrite Hi.
  pose proof (inv_box _ Hinv _ _ Hk) as Hok. rewrite (box_id _ _ _ Hok). exists row0. split; [done|].
  rewrite Hr, (box_reclaim _ _ _ Hok) in Hre. done.
Qed.

Lemma SweepLinkBoxes_inv : boxes_inv swept.
Proof.
  split; intros key.
  - intros row. rewrite swept_boxes, swept_held. case_decide; [done|].
    intros (row0 & Hk & ->)%fmap_Some. by apply recounted_ok.
  - rewrite swept_boxes, swept_held. case_decide; [done|]. intros Hn%fmap_None.
    by rewrite (inv_orphan _ Hinv _ Hn).
Qed.

(** A box whose expiry is past [now] is not touched in any way. *)
Lemma swept_unexpired key row :
  Boxes.boxes s !! key = Some row → linkBoxTime now < memoryLinkBoxRow.ExpireTime row →
  Boxes.boxes swept !! key = Some row ∧ Boxes.held key swept = Boxes.held key s.
Proof.
  intros Hk Hlt. assert (key ∉ keys_of) as Hnk.
  { intros (row' & Hk' & Hle)%gone_box. rewrite Hk in Hk'. injection Hk' as <-. lia. }
  assert (key ∉ touched_of) as Hnt.
  { intros (d & -> & Hd)%list_elem_of_fmap. destruct (due_box _ Hd) as (row' & Hk' & _ & Hle).
    rewrite Hk in Hk'. injection Hk' as <-. lia. }
  rewrite swept_boxes, swept_held, decide_False, decide_False by done.
  rewrite untouched_held, Hk by done. split; [|done]. simpl. unfold recounted. by rewrite decide_False.
Qed.

Lemma swept_Some key row' :
  Boxes.boxes swept !! key = Some row' →
  ∃ row, Boxes.boxes s !! key = Some row ∧
    memoryLinkBoxRow.RetiredTime row' = memoryLinkBoxRow.RetiredTime row ∧
    memoryLinkBoxRow.ExpireTime row' = memoryLinkBoxRow.ExpireTime row.
Proof.
  rewrite swept_boxes. case_decide; [done|]. intros (row & Hk & ->)%fmap_Some.
  destruct (recounted_fields key row) as (? & ? & _). eauto.
Qed.
End Sweep.

(** ** Agreement at a time *)

Lemma linkBoxTime_mono a b : a <= b → linkBoxTime a <= linkBoxTime b.
Proof.
  unfold linkBoxTime, truncate_micro, Microsecond. intros H.
  pose proof (Z.div_le_mono a b 1000 eq_refl H).
  pose proof (Z.div_mod a 1000 ltac:(lia)). pose proof (Z.div_mod b 1000 ltac:(lia)). lia.
Qed.
Lemma linkBoxTime_idem a : linkBoxTime (linkBoxTime a) = linkBoxTime a.
Proof.
  unfold linkBoxTime, truncate_micro, Microsecond. pose proof (Z.div_mod a 1000 ltac:(lia)).
  replace (a - a mod 1000) with (a / 1000 * 1000) by lia. rewrite Z_mod_mult. lia.
Qed.

(** What of a box an arm at [t] can reach. *)
Definition live_part (t : time) (s : Boxes.t) (key : list Z) :
    option (memoryLinkBoxRow.t * list memoryLinkDepositRow.t) :=
  row ← Boxes.boxes s !! key;
  if Live (linkBox row) t then Some (row, Boxes.held key s) else None.

Definition agree (t : time) (s s' : Boxes.t) : Prop :=
  ∀ key, live_part t s key = live_part t s' key.

#[global] Instance agree_equivalence t : Equivalence (agree t).
Proof.
  split; [by intros s key|by intros s s' H key|intros a b c H1 H2 key]. by rewrite H1.
Qed.

Lemma Live_linkBoxTime box t : Live box (linkBoxTime t) = Live box t.
Proof. unfold Live. by rewrite linkBoxTime_idem. Qed.

Lemma Live_mono box t t' : t <= t' → Live box t' = true → Live box t = true.
Proof.
  unfold Live, Before. intros Ht [-> H]%andb_prop. simpl. pose proof (linkBoxTime_mono _ _ Ht).
  reflect_bools. apply Z.ltb_lt. lia.
Qed.

Lemma agree_mono t t' s s' : t <= t' → agree t s s' → agree t' s s'.
Proof.
  intros Ht H key. specialize (H key). unfold live_part in *.
  destruct (Boxes.boxes s !! key) as [r|], (Boxes.boxes s' !! key) as [r'|]; simpl in *; try done.
  - destruct (Live (linkBox r) t') eqn:E1, (Live (linkBox r') t') eqn:E2; try done.
    + rewrite (Live_mono _ _ _ Ht E1), (Live_mono _ _ _ Ht E2) in H. done.
    + rewrite (Live_mono _ _ _ Ht E1) in H. destruct (Live (linkBox r') t); [|done].
      injection H as -> _. congruence.
    + rewrite (Live_mono _ _ _ Ht E2) in H. destruct (Live (linkBox r) t); [|done].
      injection H as -> _. congruence.
  - destruct (Live (linkBox r) t') eqn:E1; [|done]. by rewrite (Live_mono _ _ _ Ht E1) in H.
  - destruct (Live (linkBox r') t') eqn:E1; [|done]. by rewrite (Live_mono _ _ _ Ht E1) in H.
Qed.
