(* ===== verification/LinkBoxProps.v ===== *)
(** * What the link boxes guarantee

    Over every history of registrations, deposits, collections, retirements and sweeps: the
    invariant of the tables, the two deposits of a life, the replay, the cap, and that no arm but
    Register can tell whether a sweep has run. *)

From stdpp Require Import sorting.
From S2P Require Import Prelude Sha256 StoreTypes Retention LinkBox LinkBoxInv.

(** ** Events and histories *)

(** The arms that read a box by its id, the count the cap is checked against, and the sweep. *)
Inductive event : Type :=
  | Deposit (ctx : option Error) (id pub ct : slice)
  | Collect (ctx : option Error) (q : option LinkBoxCollectRequest.t)
  | Retire (ctx : option Error) (id pub : slice)
  | Count (ctx : option Error)
  | Sweep (ctx : option Error) (bounds : LinkBoxSweepBounds.t).

Inductive answer : Type :=
  | Deposited (r : res Error LinkBoxDeposited.t)
  | Collected (r : res Error LinkBoxCollected.t)
  | Retired (r : res Error LinkBoxRetired.t)
  | Counted (r : res Error Z)
  | Swept (r : res Error LinkBoxesSwept.t).

Definition perform (s : Boxes.t) (now : time) (e : event) : Boxes.t * answer :=
  match e with
  | Deposit ctx id pub ct => let '(s', r) := DepositLinkBox ctx s id pub ct now in (s', Deposited r)
  | Collect ctx q => let '(s', r) := CollectLinkBox ctx s q now in (s', Collected r)
  | Retire ctx id pub => let '(s', r) := RetireLinkBox ctx s id pub now in (s', Retired r)
  | Count ctx => (s, Counted (LiveLinkBoxes ctx s now))
  | Sweep ctx bounds => let '(s', r) := SweepLinkBoxes ctx s now bounds in (s', Swept r)
  end.

Definition is_sweep (e : event) : bool := match e with Sweep _ _ => true | _ => false end.

(** The answers the callers of the arms see, sweeps answering nobody. *)
Fixpoint answers (s : Boxes.t) (h : list (time * event)) : list answer :=
  match h with
  | [] => []
  | (now, e) :: h =>
      let '(s, a) := perform s now e in
      if is_sweep e then answers s h else a :: answers s h
  end.

Definition without_sweeps (h : list (time * event)) : list (time * event) :=
  filter (λ te, is_sweep te.2 = false) h.

(** A transition of the tables, registrations included. *)
Inductive box_step : Boxes.t → Boxes.t → Prop :=
  | step_register ctx r now ttl cap s : box_step s (RegisterLinkBox ctx s r now ttl cap).1
  | step_perform now e s : box_step s (perform s now e).1.

Definition box_reachable (s : Boxes.t) : Prop := rtc box_step Boxes.empty s.

Lemma perform_inv s now e : boxes_inv s → boxes_inv (perform s now e).1.
Proof.
  intros Hi. destruct e as [ctx id pub ct|ctx q|ctx id pub|ctx|ctx b]; simpl.
  - pose proof (DepositLinkBox_inv ctx s id pub ct now Hi). by destruct (DepositLinkBox _ _ _ _ _ _).
  - pose proof (CollectLinkBox_inv ctx s q now Hi). by destruct (CollectLinkBox _ _ _ _).
  - pose proof (RetireLinkBox_inv ctx s id pub now Hi). by destruct (RetireLinkBox _ _ _ _ _).
  - done.
  - destruct ctx; [done|]. apply (SweepLinkBoxes_inv s now b Hi).
Qed.

Lemma box_reachable_inv s : box_reachable s → boxes_inv s.
Proof.
  intros H. assert (boxes_inv Boxes.empty) as H0 by by split.
  revert H0. induction H as [s|s1 s2 s3 Hs _ IH]; [done|]. intros H1. apply IH.
  destruct Hs; [by apply RegisterLinkBox_inv|by apply perform_inv].
Qed.

(** ** Sweeps and agreement *)

(** A sweep stays inside the class of every later time. *)
Lemma sweep_agree s now t bounds :
  boxes_inv s → now <= t → agree t s (swept s now bounds).
Proof.
  intros Hi Ht key. unfold live_part. destruct (Boxes.boxes s !! key) as [row|] eqn:Hk; cbn [mbind option_bind].
  - destruct (Live (linkBox row) t) eqn:El.
    + assert (linkBoxTime now < memoryLinkBoxRow.ExpireTime row) as Hlt.
      { unfold Live, Before in El. apply andb_prop in El as [_ El]. reflect_bools. simpl in El.
        pose proof (linkBoxTime_mono _ _ Ht). lia. }
      destruct (swept_unexpired s now bounds Hi key row Hk Hlt) as [-> ->]. cbn [mbind option_bind]. by rewrite El.
    + destruct (Boxes.boxes (swept s now bounds) !! key) as [row'|] eqn:Hk'; [|done]. cbn [mbind option_bind].
      destruct (swept_Some s now bounds key row' Hk') as (row0 & Hk0 & Hr & He).
      rewrite Hk in Hk0. injection Hk0 as <-. unfold Live in *. simpl in *. by rewrite Hr, He, El.
  - destruct (Boxes.boxes (swept s now bounds) !! key) as [row'|] eqn:Hk'; [|done].
    destruct (swept_Some s now bounds key row' Hk') as (row0 & Hk0 & _). congruence.
Qed.

(** What an arm finds is a function of the class. *)
Lemma liveLinkBox_agree now s s' id pub pinned :
  agree now s s' →
  liveLinkBox s id (linkBoxTime now) pub pinned = liveLinkBox s' id (linkBoxTime now) pub pinned ∧
  (∀ row, liveLinkBox s id (linkBoxTime now) pub pinned = Some row →
     Boxes.held (octets id) s = Boxes.held (octets id) s').
Proof.
  intros H. specialize (H (octets id)). unfold live_part, liveLinkBox in *.
  destruct (Boxes.boxes s !! octets id) as [r|], (Boxes.boxes s' !! octets id) as [r'|]; simpl in *;
    rewrite ?Live_linkBoxTime; try destruct (Live (linkBox r) now); try destruct (Live (linkBox r') now);
    simpl; simplify_eq/=; try (split; [done|intros ? [=]]); try done.
Qed.

(** Two tables that agree, changed in the same way at one key, agree. *)
Lemma agree_change t s s' key row m m' :
  agree t s s' →
  default [] (m !! key) = default [] (m' !! key) →
  (∀ k, k ≠ key → default [] (m !! k) = Boxes.held k s) →
  (∀ k, k ≠ key → default [] (m' !! k) = Boxes.held k s') →
  agree t (Boxes.mk (<[key := row]> (Boxes.boxes s)) m) (Boxes.mk (<[key := row]> (Boxes.boxes s')) m').
Proof.
  intros H Hk Hm Hm' k. specialize (H k). unfold live_part, Boxes.held in *. simpl.
  destruct (decide (k = key)) as [->|Hne].
  - rewrite !lookup_insert_eq. simpl. by rewrite Hk.
  - rewrite !lookup_insert_ne by done. rewrite (Hm _ Hne), (Hm' _ Hne). done.
Qed.

Lemma agree_count now s s' : agree now s s' → countLive s now = countLive s' now.
Proof.
  intros H. unfold countLive. do 3 f_equal. apply map_eq. intros key. specialize (H key).
  rewrite !map_lookup_filter. unfold live_part in H.
  destruct (Boxes.boxes s !! key) as [r|], (Boxes.boxes s' !! key) as [r'|]; simpl in *; try done.
  - destruct (Live (linkBox r) now) eqn:E1, (Live (linkBox r') now) eqn:E2; simpl; try discriminate H;
      rewrite ?option_guard_True, ?option_guard_False by congruence; try done.
    by injection H as -> _.
  - destruct (Live (linkBox r) now) eqn:E1; [discriminate H|].
    by rewrite option_guard_False by congruence.
  - destruct (Live (linkBox r') now) eqn:E1; [discriminate H|].
    by rewrite option_guard_False by congruence.
Qed.

(** The arms respect the equivalence: same answer, and the tables still agree. *)
Lemma perform_agree now s s' e :
  is_sweep e = false → agree now s s' →
  (perform s now e).2 = (perform s' now e).2 ∧ agree now (perform s now e).1 (perform s' now e).1.
Proof.
  intros Hs Ha. destruct e as [ctx id pub ct|ctx q|ctx id pub|ctx|]; [| | | |done]; simpl.
  - unfold DepositLinkBox. destruct (first_error _ _); [done|].
    destruct (liveLinkBox_agree now s s' id pub depositKeyOf Ha) as [Hl Hh]. rewrite <- Hl.
    destruct (liveLinkBox s _ _ _ _) as [row|]; [|done]. rewrite <- (Hh _ eq_refl).
    destruct (list_find _ _) as [[j d]|]; [done|]. destruct (_ <=? _); simpl; (split; [done|]).
    + unfold Boxes.put_row. apply agree_change; try done. apply (Hh _ eq_refl).
    + apply agree_change; [done|by rewrite !lookup_insert_eq| |];
        intros k Hk; by rewrite lookup_insert_ne.
  - unfold CollectLinkBox. destruct ctx; [done|]. destruct q as [q|]; [|done].
    destruct (validateLinkBoxAct _ _); [done|].
    destruct (liveLinkBox_agree now s s' (LinkBoxCollectRequest.RendezvousId q)
      (LinkBoxCollectRequest.VerifiedPub q) collectKeyOf Ha) as [Hl Hh]. rewrite <- Hl.
    destruct (liveLinkBox s _ _ _ _) as [row|]; [|done]. rewrite <- (Hh _ eq_refl).
    destruct (linkBoxDepositsAfter _ _ _) as [returned complete]. simpl. split; [done|].
    apply agree_change; [done|by rewrite !lookup_insert_eq| |];
      intros k Hk; by rewrite lookup_insert_ne.
  - unfold RetireLinkBox. destruct (first_error _ _); [done|].
    destruct (liveLinkBox_agree now s s' id pub collectKeyOf Ha) as [Hl Hh]. rewrite <- Hl.
    destruct (liveLinkBox s _ _ _ _) as [row|]; [|done]. rewrite <- (Hh _ eq_refl). simpl.
    split; [done|]. apply agree_change; [done|by rewrite !lookup_delete_eq| |];
      intros k Hk; by rewrite lookup_delete_ne.
  - split; [|done]. unfold LiveLinkBoxes. destruct ctx; [done|].
    rewrite (agree_count (linkBoxTime now) s s'); [done|]. intros key. specialize (Ha key).
    unfold live_part in *. destruct (Boxes.boxes s !! key), (Boxes.boxes s' !! key); simpl in *;
      by rewrite ?Live_linkBoxTime.
Qed.

Definition in_order (h : list (time * event)) : Prop := StronglySorted Z.le h.*1.

Lemma answers_agree h :
  ∀ s s' t, boxes_inv s → agree t s s' → Forall (λ te, t <= te.1) h → in_order h →
  answers s h = answers s' (without_sweeps h).
Proof.
  induction h as [|[now e] h IH]; intros s s' t Hi Ha Ht Ho; [done|].
  apply Forall_cons in Ht as [Ht1 Ht]. apply StronglySorted_cons in Ho as [Hle Ho]. cbn [fst] in Ht1.
  assert (Forall (λ te, now <= te.1) h) as Hnow by (rewrite <- (Forall_fmap fst (Z.le now)); exact Hle).
  pose proof (agree_mono _ _ _ _ Ht1 Ha) as Ha'. pose proof (perform_inv s now e Hi) as Hi'.
  unfold without_sweeps. rewrite filter_cons. cbn [snd]. destruct (is_sweep e) eqn:Es.
  - rewrite decide_False by done. fold (without_sweeps h). cbn [answers].
    destruct e as [| | | |ctx bounds]; try done.
    assert (agree now (perform s now (Sweep ctx bounds)).1 s') as Hsw.
    { simpl. destruct ctx as [e|]; [done|]. etrans; [|exact Ha']. symmetry.
      apply (sweep_agree s now now bounds Hi). lia. }
    destruct (perform s now (Sweep ctx bounds)) as [s1 a]. cbn [is_sweep fst] in *.
    by eapply IH.
  - rewrite decide_True by done. fold (without_sweeps h). cbn [answers].
    destruct (perform_agree now s s' e Es Ha') as [Hans Hag].
    destruct (perform s now e) as [s1 a], (perform s' now e) as [s1' a']. cbn [fst snd] in *.
    rewrite Es, Hans. f_equal. by eapply IH.
Qed.

(** ** Properties *)

(** THE TWO TABLES NEVER DRIFT APART.  In every reachable state each box row's deposit count is
    the number of its deposits, which is at most two; their ids are distinct, increasing and below
    the box's next id, their hashes distinct and computed from their octets; each expires with its
    box; a retired box holds none, and no deposit stands without its box. *)
Lemma link_boxes_consistent s :
  box_reachable s →
  (∀ key row, Boxes.boxes s !! key = Some row →
     box_ok key row (Boxes.held key s) ∧
     memoryLinkBoxRow.DepositCount row = Z.of_nat (length (Boxes.held key s)) ∧
     Z.of_nat (length (Boxes.held key s)) <= LinkBoxDeposits) ∧
  (∀ key, Boxes.boxes s !! key = None → Boxes.held key s = []).
Proof.
  intros Hi%box_reachable_inv. split; [|apply Hi]. intros key row Hk.
  pose proof (inv_box _ Hi _ _ Hk) as Hok. split; [done|]. split; [apply Hok|].
  by eapply box_length.
Qed.

Lemma deposit_cases s id pub ct now :
  boxes_inv s →
  let key := octets id in
  let out := DepositLinkBox None s id pub ct now in
  validateLinkBoxDeposit id pub ct = None →
  match liveLinkBox s id (linkBoxTime now) pub depositKeyOf with
  | None => out = (s, Ok (LinkBoxDeposited.only REASON_CARD_RETIRED))
  | Some row =>
      (∃ d, d ∈ Boxes.held key s ∧
         octets (memoryLinkDepositRow.DepositHash d) = octets (linkBoxDepositHash ct) ∧
         out = (s, Ok (LinkBoxDeposited.mk REASON_OK (memoryLinkDepositRow.DepositId d)
                         (memoryLinkDepositRow.DepositHash d)
                         (Z.of_nat (length (Boxes.held key s))) true))) ∨
      (octets (linkBoxDepositHash ct) ∉
         ((λ d, octets (memoryLinkDepositRow.DepositHash d)) <$> Boxes.held key s)) ∧
      ((memoryLinkBoxRow.NextDepositId row = 1 + LinkBoxDeposits ∧
        out.2 = Ok (LinkBoxDeposited.only REASON_CARD_RATE_LIMITED) ∧
        Boxes.deposits out.1 = Boxes.deposits s ∧
        Boxes.boxes out.1 = <[key := memoryLinkBoxRow.update (memoryLinkBoxRow.NextDepositId row)
           (memoryLinkBoxRow.DepositCount row) (i64 (memoryLinkBoxRow.RefusedCount row + 1))
           (memoryLinkBoxRow.RetiredTime row) row]> (Boxes.boxes s)) ∨
       (memoryLinkBoxRow.NextDepositId row <= LinkBoxDeposits ∧
        out.2 = Ok (LinkBoxDeposited.mk REASON_OK (memoryLinkBoxRow.NextDepositId row)
                      (linkBoxDepositHash ct) (Z.of_nat (length (Boxes.held key s)) + 1) false) ∧
        Boxes.held key out.1 = Boxes.held key s ++
          [memoryLinkDepositRow.mk id (memoryLinkBoxRow.NextDepositId row) (linkBoxDepositHash ct) ct
             (linkBoxTime now) (memoryLinkBoxRow.ExpireTime row)]))
  end.
Proof.
  intros Hi key out Hv. unfold out, DepositLinkBox. rewrite Hv. cbn [first_error].
  destruct (liveLinkBox _ _ _ _ _) as [row|] eqn:Hl; [|done].
  apply liveLinkBox_Some in Hl as (Hrow & Hlive & _). pose proof (inv_box _ Hi _ _ Hrow) as Hok.
  fold key in Hrow, Hok |- *. pose proof (box_length _ _ _ Hok) as Hlen.
  pose proof (box_next _ _ _ Hok) as Hnext. unfold LinkBoxDeposits in Hlen, Hnext.
  destruct (list_find _ _) as [[j d]|] eqn:Hf.
  - left. apply list_find_Some in Hf as (Hj & Hh & _). apply bytes_Equal_spec in Hh.
    exists d. pose proof (list_elem_of_lookup_2 _ _ _ Hj) as Hd. split; [done|]. split; [done|].
    pose proof (box_ids _ _ _ Hok) as Hids. rewrite Forall_forall in Hids. specialize (Hids _ Hd).
    rewrite u64_small by (unfold two64; lia). rewrite (box_count _ _ _ Hok), u32_small
      by (unfold two32; lia). done.
  - right. split.
    { intros (d & Hd & Hin)%list_elem_of_fmap. apply list_find_None in Hf. rewrite Forall_forall in Hf.
      apply (Hf _ Hin), bytes_Equal_spec. done. }
    rewrite u64_small by (unfold two64; lia).
    destruct (LinkBoxDeposits <=? _) eqn:Hcap; reflect_bools; unfold LinkBoxDeposits in *.
    + left. split; [lia|done].
    + right. split; [lia|]. cbn [fst snd memoryLinkBoxRow.DepositCount memoryLinkBoxRow.update].
      rewrite (box_count _ _ _ Hok), u64_small by (unfold two64; lia).
      rewrite i32_small by lia. rewrite u32_small by (unfold two32; lia). split; [done|].
      unfold Boxes.held at 1. simpl. by rewrite lookup_insert_eq.
Qed.

(** TWO DEPOSITS IN A BOX'S LIFE.  On a live box, octets that are already waiting are answered
    with the waiting deposit and change nothing; new octets are stored as deposit 1 or 2 of the
    box's life, in that order, and expire with the box; a third is refused with
    [REASON_CARD_RATE_LIMITED], stores nothing and adds one to the refusals; and any other box is
    answered [REASON_CARD_RETIRED] and left as it is. *)
Lemma deposit_at_most_twice s id pub ct now :
  box_reachable s → validateLinkBoxDeposit id pub ct = None →
  let key := octets id in
  let out := DepositLinkBox None s id pub ct now in
  match liveLinkBox s id (linkBoxTime now) pub depositKeyOf with
  | None => out = (s, Ok (LinkBoxDeposited.only REASON_CARD_RETIRED))
  | Some row =>
      (∃ d, d ∈ Boxes.held key s ∧
         octets (memoryLinkDepositRow.DepositHash d) = octets (linkBoxDepositHash ct) ∧
         out = (s, Ok (LinkBoxDeposited.mk REASON_OK (memoryLinkDepositRow.DepositId d)
                         (memoryLinkDepositRow.DepositHash d)
                         (Z.of_nat (length (Boxes.held key s))) true))) ∨
      (octets (linkBoxDepositHash ct) ∉
         ((λ d, octets (memoryLinkDepositRow.DepositHash d)) <$> Boxes.held key s)) ∧
      ((memoryLinkBoxRow.NextDepositId row = 3 ∧
        out.2 = Ok (LinkBoxDeposited.only REASON_CARD_RATE_LIMITED) ∧
        Boxes.deposits out.1 = Boxes.deposits s ∧
        Boxes.boxes out.1 = <[key := memoryLinkBoxRow.update (memoryLinkBoxRow.NextDepositId row)
           (memoryLinkBoxRow.DepositCount row) (i64 (memoryLinkBoxRow.RefusedCount row + 1))
           (memoryLinkBoxRow.RetiredTime row) row]> (Boxes.boxes s)) ∨
       (memoryLinkBoxRow.NextDepositId row <= 2 ∧
        out.2 = Ok (LinkBoxDeposited.mk REASON_OK (memoryLinkBoxRow.NextDepositId row)
                      (linkBoxDepositHash ct) (Z.of_nat (length (Boxes.held key s)) + 1) false) ∧
        Boxes.held key out.1 = Boxes.held key s ++
          [memoryLinkDepositRow.mk id (memoryLinkBoxRow.NextDepositId row) (linkBoxDepositHash ct) ct
             (linkBoxTime now) (memoryLinkBoxRow.ExpireTime row)]))
  end.
Proof. intros Hi%box_reachable_inv Hv. exact (deposit_cases s id pub ct now Hi Hv). Qed.

(** A SWEEP DECIDES NOTHING AN ARM ANSWERS.  Take any history of deposits, collections,
    retirements and live counts with sweeps of any bounds at any points of it, the clock never
    going back: every answer is the one the same history without its sweeps gives. *)
Lemma sweep_invisible s h :
  box_reachable s → in_order h → answers s h = answers s (without_sweeps h).
Proof.
  intros Hi%box_reachable_inv Ho. destruct h as [|[now e] h]; [done|].
  apply (answers_agree _ s s now); [done|reflexivity| |done].
  apply StronglySorted_cons in Ho as [Hle _]. constructor; [cbn; lia|].
  rewrite <- (Forall_fmap fst (Z.le now)). exact Hle.
Qed.

(** The cap on live boxes holds at every insert, and a registration never prolongs a life.
    Register inserts only while fewer boxes than the cap are live, so that after it no more than
    the cap are; the same registration repeated on a live box answers its standing expiry, also at
    a full cap, and changes nothing; any other row at the id is refused and left as it is. *)
Lemma register_within_cap s r now ttl cap :
  box_reachable s → validateLinkBoxRegistration (Some r) ttl cap = None →
  Z.of_nat (size (Boxes.boxes s)) < two64 →
  let key := octets (LinkBoxRegistration.RendezvousId r) in
  let out := RegisterLinkBox None s (Some r) now ttl cap in
  match Boxes.boxes s !! key with
  | Some row =>
      out.1 = s ∧
      out.2 = Ok (if Live (linkBox row) now && sameLinkBoxRegistration (linkBox row) r
                  then LinkBoxRegistered.mk REASON_OK (memoryLinkBoxRow.ExpireTime row)
                         (Z.of_nat (length (Boxes.held key s)))
                  else LinkBoxRegistered.mk REASON_REJECTED zero_time 0)
  | None =>
      if cap <=? countLive s (linkBoxTime now)
      then out = (s, Ok (LinkBoxRegistered.mk REASON_CARD_RATE_LIMITED zero_time 0))
      else out.2 = Ok (LinkBoxRegistered.mk REASON_OK (linkBoxTime (linkBoxTime now + ttl)) 0) ∧
           countLive out.1 (linkBoxTime now) <= cap ∧
           is_Some (Boxes.boxes out.1 !! key) ∧
           ∀ k, k ≠ key → Boxes.boxes out.1 !! k = Boxes.boxes s !! k
  end.
Proof.
  intros Hi%box_reachable_inv Hv Hsize key out. unfold out, RegisterLinkBox. rewrite Hv.
  cbn [first_error]. fold key. destruct (Boxes.boxes s !! key) as [row|] eqn:Hk.
  - pose proof (inv_box _ Hi _ _ Hk) as Hok. pose proof (box_length _ _ _ Hok) as Hl.
    rewrite Live_linkBoxTime. destruct (_ && _); [|done]. simpl.
    rewrite (box_count _ _ _ Hok), u32_small by (unfold two32, LinkBoxDeposits in *; lia). done.
  - destruct (cap <=? countLive s (linkBoxTime now)) eqn:Hc; [done|]. reflect_bools.
    cbn [fst snd]. split; [done|]. split; [|split].
    + unfold countLive in *. unfold Boxes.put_row. cbn [Boxes.boxes]. set (row := memoryLinkBoxRow.mk _ _ _ _ _ _ _ _ _ _ _ _ _ _ _).
      set (P := λ kv : list Z * memoryLinkBoxRow.t, Live (linkBox kv.2) (linkBoxTime now) = true) in *.
      assert (size (filter P (<[key:=row]> (Boxes.boxes s))) <= S (size (filter P (Boxes.boxes s))))%nat
        as Hsz.
      { rewrite map_filter_insert. case_decide.
        - rewrite map_size_insert. unfold id. destruct (filter P (Boxes.boxes s) !! key); cbv beta; lia.
        - rewrite delete_id by done. lia. }
      assert (size (filter P (Boxes.boxes s)) <= size (Boxes.boxes s))%nat as Hle
        by apply map_subseteq_size, map_filter_subseteq.
      unfold two64 in *. rewrite u64_small in Hc by (unfold two64; lia).
      pose proof (Z.mod_le (Z.of_nat (size (filter P (<[key:=row]> (Boxes.boxes s))))) two64).
      unfold u64. unfold two64 in *. lia.
    + simpl. rewrite lookup_insert_eq. eauto.
    + intros k Hne. simpl. by rewrite lookup_insert_ne.
Qed.

(** ** Witnesses *)

Definition rid : slice := Some (replicate 32 4).
Definition depositKey : slice := Some (replicate 32 5).
Definition collectKey : slice := Some (replicate 32 6).
Definition card : slice := Some (replicate (Z.to_nat 4124) 1).
Definition parcel (n : Z) : slice := Some (replicate (Z.to_nat 17526) n).
Definition registration : LinkBoxRegistration.t :=
  LinkBoxRegistration.mk rid depositKey collectKey card.
Definition ten_minutes : Z := 600 * Second.

Definition box1 : Boxes.t := (RegisterLinkBox None Boxes.empty (Some registration) Second ten_minutes 8).1.
Definition box2 : Boxes.t := (perform box1 (2 * Second) (Deposit None rid depositKey (parcel 7))).1.

Lemma box1_reachable : box_reachable box1.
Proof. apply rtc_once. exact (step_register None (Some registration) Second ten_minutes 8 Boxes.empty). Qed.
Lemma box2_reachable : box_reachable box2.
Proof.
  eapply rtc_r; [exact box1_reachable|].
  exact (step_perform (2 * Second) (Deposit None rid depositKey (parcel 7)) box1).
Qed.

Lemma link_boxes_consistent_witness :
  ∃ row, Boxes.boxes box2 !! octets rid = Some row ∧
    memoryLinkBoxRow.DepositCount row = Z.of_nat (length (Boxes.held (octets rid) box2)) ∧
    memoryLinkBoxRow.NextDepositId row = 2.
Proof.
  destruct (Boxes.boxes box2 !! octets rid) as [row|] eqn:E.
  - destruct (proj1 (link_boxes_consistent box2 box2_reachable) _ _ E) as (_ & Hc & _).
    exists row. split; [reflexivity|]. split; [exact Hc|].
    assert (memoryLinkBoxRow.NextDepositId <$> Boxes.boxes box2 !! octets rid = Some 2) as H
      by (vm_compute; reflexivity).
    rewrite E in H. injection H as H. exact H.
  - assert (bool_decide (Boxes.boxes box2 !! octets rid = None) = false) as H
      by (rewrite bool_decide_eq_false; intros H; apply (f_equal (fmap memoryLinkBoxRow.NextDepositId)) in H;
          vm_compute in H; discriminate H).
    rewrite bool_decide_eq_false in H. destruct (H E).
Defined.

Lemma deposit_at_most_twice_witness :
  ∃ d, Boxes.held (octets rid) (DepositLinkBox None box1 rid depositKey (parcel 9) (3 * Second)).1 = [d].
Proof.
  pose proof (deposit_at_most_twice box1 rid depositKey (parcel 9) (3 * Second) box1_reachable) as H.
  assert (validateLinkBoxDeposit rid depositKey (parcel 9) = None) as Hv by (vm_compute; reflexivity).
  specialize (H Hv). cbv zeta in H.
  assert (memoryLinkBoxRow.NextDepositId <$>
    liveLinkBox box1 rid (linkBoxTime (3 * Second)) depositKey depositKeyOf = Some 1) as Hl
    by (vm_compute; reflexivity).
  assert (Boxes.held (octets rid) box1 = []) as Hh by (vm_compute; reflexivity).
  apply fmap_Some in Hl as (row & Hrow & Hn). rewrite Hrow, Hh in H.
  destruct H as [(d & Hd & _)|(_ & [(H3 & _)|(_ & _ & H)])].
  - apply not_elem_of_nil in Hd. destruct Hd.
  - rewrite <- Hn in H3. discriminate H3.
  - eexists. exact H.
Defined.

(** A sweep in the middle of a box's life and one after its end. *)
Definition swept_history : list (time * event) :=
  [(3 * Second, Sweep None (LinkBoxSweepBounds.mk 1 1));
   (4 * Second, Deposit None rid depositKey (parcel 8));
   (700 * Second, Sweep None (LinkBoxSweepBounds.mk 0 0));
   (701 * Second, Retire None rid collectKey)].

Lemma sweep_invisible_witness :
  answers box2 swept_history = answers box2 (without_sweeps swept_history).
Proof.
  apply (sweep_invisible box2 swept_history box2_reachable).
  unfold in_order, swept_history, Second, Millisecond, Microsecond. simpl. repeat constructor; lia.
Defined.

Lemma register_within_cap_witness :
  countLive (RegisterLinkBox None Boxes.empty (Some registration) Second ten_minutes 1).1
    (linkBoxTime Second) <= 1.
Proof.
  pose proof (register_within_cap Boxes.empty registration Second ten_minutes 1) as H.
  assert (box_reachable Boxes.empty) as H0 by apply rtc_refl.
  assert (validateLinkBoxRegistration (Some registration) ten_minutes 1 = None) as H1
    by (vm_compute; reflexivity).
  assert (Z.of_nat (size (Boxes.boxes Boxes.empty)) < two64) as H2 by (vm_compute; reflexivity).
  specialize (H H0 H1 H2). cbv zeta in H.
  assert (Boxes.boxes Boxes.empty !! octets (LinkBoxRegistration.RendezvousId registration) = None) as H3
    by (vm_compute; reflexivity).
  rewrite H3 in H. assert ((1 <=? countLive Boxes.empty (linkBoxTime Second)) = false) as H4
    by (vm_compute; reflexivity).
  rewrite H4 in H. destruct H as (_ & H & _). exact H.
Defined.
