(* ===== verification/Sweep.v ===== *)
(** * The sweep job ([sweep/sweep.go])

    One tick's work, [Job.Pass]: batches of the link box sweep until one reaches neither bound, the
    lock is found held, the pass has run its batches or spent its budget, the context ends, or a
    batch fails.  The job sees the store only through the interface [LinkBoxSweeper], so its
    theorems are proved against the interface's laws; the in-memory tables are an instance. *)

From stdpp Require Import sorting.
From S2P Require Import Prelude StoreTypes LinkBox LinkBoxInv.

(** ** The interface *)

(** [store.LinkBoxSweeper]: one batch, given the context's state, the clock and the bounds. *)
Class LinkBoxSweeper (S : Type) : Type :=
  sweep : option Error → S → time → LinkBoxSweepBounds.t → S * res Error LinkBoxesSwept.t.

(** What the interface promises of a batch that neither failed nor was skipped: it
    keeps the store sane, and when it reaches neither bound nothing is left that was due
    at its time. *)
Class LawfulSweeper (S : Type) `{!LinkBoxSweeper S} : Type := {
  sane : S → Prop;
  drained : S → time → Prop;
  sweep_sane ctx s now b : sane s → sane (sweep ctx s now b).1;
  sweep_drains ctx s now b swept :
    sane s → (sweep ctx s now b).2 = Ok swept → LinkBoxesSwept.Skipped swept = false →
    LinkBoxesSwept.Deposits swept < LinkBoxSweepBounds.Deposits (orDefault b) →
    LinkBoxesSwept.Boxes swept < LinkBoxSweepBounds.Boxes (orDefault b) →
    drained (sweep ctx s now b).1 now }.

(** ** The job *)

Definition DefaultEvery : Z := 300 * Second.
Definition DefaultMaxBatches : Z := 50.
Definition DefaultBudget : Z := 20 * Second.
Definition DefaultPause : Z := 100 * Millisecond.

Module Config.
Record t := mk {
  LinkBoxes : bool;
  Every : Z;
  Bounds : LinkBoxSweepBounds.t;
  MaxBatches : Z;
  Budget : Z;
  Pause : Z }.
End Config.

Module Totals.
Record t := mk { Batches : Z; Deposits : Z; Boxes : Z; Skipped : bool }.
Definition zero : t := mk 0 0 0 false.
End Totals.

Module Job.
Record t := mk {
  every : Z;
  bounds : LinkBoxSweepBounds.t;
  maxBatches : Z;
  budget : Z;
  pause : Z }.
End Job.

Inductive SweepError : Type := ErrNoLinkBoxes.

(** Every zero or negative setting takes its default. *)
Definition withDefaults (config : Config.t) : Job.t :=
  let or_default x d := if x <=? 0 then d else x in
  Job.mk (or_default (Config.Every config) DefaultEvery) (orDefault (Config.Bounds config))
    (or_default (Config.MaxBatches config) DefaultMaxBatches)
    (or_default (Config.Budget config) DefaultBudget)
    (or_default (Config.Pause config) DefaultPause).

(** [New]: a job without a store to sweep is refused. *)
Definition New (config : Config.t) : res SweepError Job.t :=
  if negb (Config.LinkBoxes config) then Err ErrNoLinkBoxes else Ok (withDefaults config).

Section Pass.
Context {S : Type} `{!LinkBoxSweeper S}.
(** The job, the clock's successive readings, and what each poll of the context answers. *)
Context (self : Job.t) (clock : nat → time) (ctx : nat → option Error) (started : time).

(** The loop of [Pass], with [fuel] batches left of [maxBatches]; [k] clock readings and [n] polls
    have been made. *)
Fixpoint passLoop (fuel k n : nat) (s : S) (totals : Totals.t) : S * Totals.t * option Error :=
  match fuel with
  | O => (s, totals, None)
  | Datatypes.S fuel =>
      let later := negb (Totals.Batches totals =? 0) in
      if later && (Job.budget self <=? clock k - started) then (s, totals, None)
      else
        let k := if later then Datatypes.S k else k in
        match ctx n with
        | Some e => (s, totals, Some e)
        | None =>
            let '(s, result) := sweep (ctx (Datatypes.S n)) s (clock k) (Job.bounds self) in
            match result with
            | Err e => (s, totals, Some e)
            | Ok swept =>
                if LinkBoxesSwept.Skipped swept
                then (s, Totals.mk (Totals.Batches totals) (Totals.Deposits totals)
                           (Totals.Boxes totals) true, None)
                else
                  let totals :=
                    Totals.mk (Totals.Batches totals + 1)
                      (u64 (Totals.Deposits totals + LinkBoxesSwept.Deposits swept))
                      (u64 (Totals.Boxes totals + LinkBoxesSwept.Boxes swept))
                      (Totals.Skipped totals) in
                  if (LinkBoxesSwept.Deposits swept <? LinkBoxSweepBounds.Deposits (Job.bounds self)) &&
                     (LinkBoxesSwept.Boxes swept <? LinkBoxSweepBounds.Boxes (Job.bounds self))
                  then (s, totals, None)
                  else passLoop fuel (Datatypes.S k) (Datatypes.S (Datatypes.S n)) s totals
            end
        end
  end.
End Pass.

(** [Pass]: the first clock reading is the start. *)
Definition Pass {S : Type} `{!LinkBoxSweeper S} (self : Job.t) (clock : nat → time)
    (ctx : nat → option Error) (s : S) : S * Totals.t * option Error :=
  passLoop self clock ctx (clock 0%nat) (Z.to_nat (Job.maxBatches self)) 1 0 s Totals.zero.

(** ** What a pass does *)

Lemma orDefault_idem b : orDefault (orDefault b) = orDefault b.
Proof.
  unfold orDefault. simpl. f_equal.
  - destruct (LinkBoxSweepBounds.Deposits b =? 0) eqn:E; [done|]. by rewrite E.
  - destruct (LinkBoxSweepBounds.Boxes b =? 0) eqn:E; [done|]. by rewrite E.
Qed.

Section Lawful.
Context {S : Type} `{!LinkBoxSweeper S, !LawfulSweeper S}.
Context (self : Job.t) (clock : nat → time) (ctx : nat → option Error) (started : time).

(** How a pass that failed on nothing ended. *)
Inductive ended (s : S) (totals : Totals.t) : Prop :=
  | ended_drained k : drained s (clock k) → ended s totals
  | ended_batches : Totals.Batches totals = Z.max 0 (Job.maxBatches self) → ended s totals
  | ended_budget k : Job.budget self <= clock k - started → ended s totals
  | ended_skipped : Totals.Skipped totals = true → ended s totals.

Lemma passLoop_spec fuel k n s totals s' totals' e :
  sane s → orDefault (Job.bounds self) = Job.bounds self →
  0 <= Totals.Batches totals →
  Totals.Batches totals + Z.of_nat fuel = Z.max 0 (Job.maxBatches self) →
  passLoop self clock ctx started fuel k n s totals = (s', totals', e) →
  sane s' ∧ Totals.Batches totals <= Totals.Batches totals' <= Z.max 0 (Job.maxBatches self) ∧
  (e = None → ended s' totals').
Proof.
  intros Hs Hb H0 Hf. revert k n s totals Hs H0 Hf.
  induction fuel as [|fuel IH]; intros k n s totals Hs H0 Hf; simpl.
  - intros [= <- <- <-]. split; [done|]. split; [lia|]. intros _. apply ended_batches. lia.
  - destruct (negb (Totals.Batches totals =? 0) && (Job.budget self <=? clock k - started)) eqn:Eb.
    { intros [= <- <- <-]. split; [done|]. split; [lia|]. intros _.
      apply andb_prop in Eb as [_ Eb]. reflect_bools. by eapply ended_budget. }
    clear Eb. set (k' := if negb (Totals.Batches totals =? 0) then Datatypes.S k else k). clearbody k'.
    destruct (ctx n) as [e'|].
    { intros [= <- <- <-]. split; [done|]. split; [lia|done]. }
    pose proof (sweep_sane (ctx (Datatypes.S n)) s (clock k') (Job.bounds self) Hs) as Hs1.
    pose proof (sweep_drains (ctx (Datatypes.S n)) s (clock k') (Job.bounds self)) as Hd.
    rewrite Hb in Hd.
    destruct (sweep _ _ _ _) as [s1 [swept|e']]; simpl in *.
    2: { intros [= <- <- <-]. split; [done|]. split; [lia|done]. }
    destruct (LinkBoxesSwept.Skipped swept) eqn:Esk.
    { intros [= <- <- <-]. split; [done|]. split; [simpl; lia|]. intros _. by apply ended_skipped. }
    destruct (_ && _) eqn:Er.
    + intros [= <- <- <-]. split; [done|]. split; [simpl; lia|]. intros _.
      apply andb_prop in Er as [? ?]. reflect_bools. eapply ended_drained. by apply (Hd swept Hs eq_refl Esk).
    + intros H. apply IH in H as (H1 & H2 & H3); simpl in *; [|done|lia|lia]. split; [done|].
      split; [lia|done].
Qed.
End Lawful.

(** ** The in-memory tables keep the laws *)

#[export] Instance boxes_sweeper : LinkBoxSweeper Boxes.t := SweepLinkBoxes.

(** Every deposit of the table. *)
Definition all_deposits (m : gmap (list Z) (list memoryLinkDepositRow.t)) :
    list memoryLinkDepositRow.t := mjoin ((map_to_list m).*2).

Lemma all_deposits_length (m : gmap (list Z) (list memoryLinkDepositRow.t)) (D : gset (list Z)) :
  (∀ k l, m !! k = Some l → (length l <= 2)%nat ∧ (l ≠ [] → k ∈ D)) →
  (length (all_deposits m) <= 2 * size D)%nat.
Proof.
  revert D. induction m as [|k l m Hk IH] using map_ind; intros D H.
  { unfold all_deposits. rewrite map_to_list_empty. simpl. lia. }
  assert (length (all_deposits (<[k := l]> m)) = length l + length (all_deposits m))%nat as ->.
  { unfold all_deposits. rewrite (map_to_list_insert m k l Hk). simpl. by rewrite length_app. }
  destruct (H k l) as [Hl HD]; [apply lookup_insert_eq|].
  destruct (decide (l = [])) as [->|Hne].
  - simpl. apply IH. intros k' l' Hk'. apply H. rewrite lookup_insert_ne; [done|]. congruence.
  - specialize (HD Hne). specialize (IH (D ∖ {[k]})).
    assert (length (all_deposits m) <= 2 * size (D ∖ {[k]}))%nat as Hm.
    { apply IH. intros k' l' Hk'. assert (k ≠ k') as Hkk by congruence.
      destruct (H k' l') as [H1 H2]; [by rewrite lookup_insert_ne|]. split; [done|].
      intros Hl'. specialize (H2 Hl'). set_solver. }
    assert (size D = S (size (D ∖ {[k]}))) as ->; [|lia].
    rewrite (union_difference_singleton_L k D HD) at 1.
    rewrite size_union by set_solver. by rewrite size_singleton.
Qed.

Definition boxes_sane (s : Boxes.t) : Prop :=
  boxes_inv s ∧ 2 * Z.of_nat (size (Boxes.boxes s)) < two32.

Lemma deposits_bound s : boxes_sane s → Z.of_nat (length (all_deposits (Boxes.deposits s))) < two32.
Proof.
  intros [Hi Hs].
  pose proof (all_deposits_length (Boxes.deposits s) (dom (Boxes.boxes s))) as H.
  rewrite size_dom in H. enough (length (all_deposits (Boxes.deposits s)) <= 2 * size (Boxes.boxes s))%nat by lia.
  apply H. intros k l Hk. assert (Boxes.held k s = l) as Hh by (unfold Boxes.held; by rewrite Hk).
  destruct (Boxes.boxes s !! k) as [row|] eqn:Hrow.
  - pose proof (box_length _ _ _ (inv_box _ Hi _ _ Hrow)) as Hl. rewrite Hh in Hl.
    unfold LinkBoxDeposits in Hl. split; [lia|]. intros _. apply elem_of_dom. eauto.
  - rewrite (inv_orphan _ Hi _ Hrow) in Hh. subst l. split; [simpl; lia|done].
Qed.

Lemma at_most_all {A} bound (l : list A) :
  Z.of_nat (length l) < two32 → u32 (Z.of_nat (length (at_most bound l))) < bound → at_most bound l = l.
Proof.
  unfold at_most. intros Hl. destruct (_ <? _) eqn:E; [|done]. reflect_bools.
  rewrite length_take. rewrite u32_small in E by lia. rewrite u32_small by lia. lia.
Qed.

Definition boxes_drained (s : Boxes.t) (now : time) : Prop :=
  (∀ key d, d ∈ Boxes.held key s → linkBoxTime now < memoryLinkDepositRow.PruneAfter d) ∧
  (∀ key row, Boxes.boxes s !! key = Some row → linkBoxTime now < memoryLinkBoxRow.ReclaimAfter row).

Lemma sort_filter_elem {A} (R : relation A) `{!RelDecision R} (P : A → Prop) `{!∀ x, Decision (P x)} l x :
  x ∈ merge_sort R (filter P l) ↔ P x ∧ x ∈ l.
Proof. by rewrite merge_sort_Permutation, list_elem_of_filter. Qed.

Lemma boxes_drains s now bounds :
  boxes_sane s →
  u32 (Z.of_nat (length (due_of s now bounds))) < LinkBoxSweepBounds.Deposits (orDefault bounds) →
  u32 (Z.of_nat (length (gone_of s now bounds))) < LinkBoxSweepBounds.Boxes (orDefault bounds) →
  boxes_drained (swept s now bounds) now.
Proof.
  intros Hs Hd Hb. pose proof (deposits_bound s Hs) as Hlen. destruct Hs as [Hi Hsize]. split.
  - intros key d. rewrite swept_held. case_decide; [by intros ?%not_elem_of_nil|].
    intros [Hnd Hin]%list_elem_of_filter. apply Z.lt_nge. intros Hle. apply Hnd.
    apply Exists_exists. exists d. split; [|split; [|done] ].
    + unfold due_of, dueDeposits in *. apply at_most_all in Hd.
      * rewrite Hd. apply sort_filter_elem. split; [unfold Before; apply Z.ltb_ge; done|].
        unfold Boxes.held in Hin. destruct (Boxes.deposits s !! key) as [l|] eqn:Hk;
          [|by apply not_elem_of_nil in Hin].
        apply list_elem_of_join. exists l. split; [done|]. apply list_elem_of_fmap.
        exists (key, l). split; [done|]. by apply elem_of_map_to_list.
      * rewrite merge_sort_Permutation. eapply Z.le_lt_trans; [|exact Hlen].
        apply Nat2Z.inj_le, length_filter.
    + destruct (Boxes.boxes s !! key) as [row|] eqn:Hk.
      * pose proof (box_rows _ _ _ (inv_box _ Hi _ _ Hk)) as Hr. rewrite Forall_forall in Hr.
        by destruct (Hr _ Hin) as (_ & ? & _).
      * rewrite (inv_orphan _ Hi _ Hk) in Hin. by apply not_elem_of_nil in Hin.
  - intros key row. rewrite swept_boxes. case_decide as Hn; [done|].
    intros (row0 & Hk & ->)%fmap_Some. apply Z.lt_nge. intros Hle. apply Hn.
    destruct (recounted_fields s now bounds key row0) as (_ & _ & Hre & Hid).
    apply list_elem_of_fmap. exists (recounted s now bounds key row0).
    split; [by rewrite Hid, (box_id _ _ _ (inv_box _ Hi _ _ Hk))|].
    unfold gone_of, reclaimable in *. apply at_most_all in Hb.
    + rewrite Hb. apply sort_filter_elem. split; [unfold Before; by apply Z.ltb_ge|].
      apply list_elem_of_fmap. exists (key, recounted s now bounds key row0). split; [done|].
      apply elem_of_map_to_list. by rewrite recount_lookup, Hk.
    + rewrite merge_sort_Permutation. eapply Z.le_lt_trans.
      { apply Nat2Z.inj_le, length_filter. }
      rewrite length_fmap, length_map_to_list.
      assert (size (recount (touched_of s now bounds) (kept_of s now bounds) (Boxes.boxes s)) <=
        size (Boxes.boxes s))%nat; [|unfold two32 in *; lia].
      rewrite <- !(size_dom (D := gset (list Z))). apply subseteq_size.
      intros k. rewrite !elem_of_dom, recount_lookup. by intros ?%fmap_is_Some.
Qed.

Lemma swept_size s now bounds :
  (size (Boxes.boxes (swept s now bounds)) <= size (Boxes.boxes s))%nat.
Proof.
  rewrite <- !(size_dom (D := gset (list Z))). apply subseteq_size.
  intros k. rewrite !elem_of_dom, swept_boxes. case_decide; [by intros [? ?]|].
  by intros ?%fmap_is_Some.
Qed.

#[export] Program Instance boxes_lawful : LawfulSweeper Boxes.t := {|
  sane := boxes_sane;
  drained := boxes_drained |}.
Next Obligation.
  intros [e|] s now b Hs; [done|]. destruct Hs as [Hi Hn]. split; [by apply SweepLinkBoxes_inv|].
  pose proof (swept_size s now b). unfold swept in *. unfold sweep, boxes_sweeper. lia.
Qed.
Next Obligation.
  intros [e|] s now b sw Hs H Hsk Hd Hb; [done|]. injection H as <-. simpl in Hd, Hb.
  by apply boxes_drains.
Qed.

(** A PASS ENDS, WITHIN ITS BATCHES, FOR A REASON.  Against any store that keeps the sweeper's
    laws: a pass of a job made by [New] runs at most [maxBatches] batches whatever the clock and
    the context do, leaves the store sane, and when it reports no error it stopped because nothing
    that was due is left, or it has run every batch, or its budget is spent, or another sweeper
    holds the lock. *)
Lemma pass_ends {S : Type} `{!LinkBoxSweeper S, !LawfulSweeper S} config self clock ctx (s : S) :
  sane s → New config = Ok self →
  let '(s', totals, e) := Pass self clock ctx s in
  sane s' ∧ 0 <= Totals.Batches totals <= Job.maxBatches self ∧ 0 < Job.maxBatches self ∧
  (e = None → ended self clock (clock 0%nat) s' totals).
Proof.
  intros Hs Hnew. unfold New in Hnew. destruct (Config.LinkBoxes config); [|discriminate Hnew].
  injection Hnew as <-. set (self := withDefaults config).
  assert (0 < Job.maxBatches self) as Hm.
  { unfold self, withDefaults. simpl. destruct (Config.MaxBatches config <=? 0) eqn:E; reflect_bools;
      unfold DefaultMaxBatches; lia. }
  destruct (Pass self clock ctx s) as [[s' totals] e] eqn:Hp. unfold Pass in Hp.
  apply passLoop_spec in Hp as (H1 & H2 & H3); [|done|apply orDefault_idem|done|].
  2: { cbn [Totals.Batches Totals.zero]. lia. }
  cbn [Totals.Batches Totals.zero] in H2. split; [done|]. split; [lia|]. done.
Qed.

(** A box with one deposit, swept a minute after its end by a job with default settings. *)
Definition quiet (k : nat) : option Error := None.
Definition later (k : nat) : time := 700 * Second + Z.of_nat k * Millisecond.
Definition defaults : Config.t := Config.mk true 0 (LinkBoxSweepBounds.mk 0 0) 0 0 0.
Definition one_box : Boxes.t :=
  (RegisterLinkBox None Boxes.empty
     (Some (LinkBoxRegistration.mk (Some (replicate 32 4)) (Some (replicate 32 5))
              (Some (replicate 32 6)) (Some (replicate (Z.to_nat 4124) 1))))
     Second (600 * Second) 8).1.

Lemma one_box_sane : boxes_sane one_box.
Proof.
  split; [|vm_compute; reflexivity]. apply RegisterLinkBox_inv. by split.
Qed.

Lemma pass_ends_witness :
  ∃ s totals, Pass (withDefaults defaults) later quiet one_box = (s, totals, None) ∧
    ended (withDefaults defaults) later (later 0) s totals.
Proof.
  pose proof (pass_ends defaults (withDefaults defaults) later quiet one_box one_box_sane eq_refl) as H. cbv zeta in H.
  assert ((Pass (withDefaults defaults) later quiet one_box).2 = None) as He by (vm_compute; reflexivity).
  destruct (Pass (withDefaults defaults) later quiet one_box) as [[s totals] e].
  cbn [snd] in He. destruct H as (_ & _ & _ & H). exists s, totals. rewrite He in H |- *.
  split; [reflexivity|]. exact (H eq_refl).
Defined.

Example pass_executed :
  (λ out, (Totals.Batches out, Totals.Boxes out)) (Pass (withDefaults defaults) later quiet one_box).1.2 = (1, 1).
Proof. vm_compute. reflexivity. Qed.
