(* ===== verification/Reassembly.v ===== *)
(** * Request reassembly ([peer/frame.go])

    The fragments of one request are assembled per (client id, request id), under a cap per client,
    a cap over all clients, a byte bound, and an expiry counted from the first fragment.  The
    expiry order is a linked list in the code; a node of it is a number here, and the node a
    buffer remembers is the one its removal unlinks.  Clock readings are arguments: [now] is what
    [expire] reads and [began] what the opening of a buffer reads. *)

From S2P Require Import Prelude StoreTypes.

(** ** Constants *)

Definition MaxFragmentPartBytes : Z := 2048.
Definition DefaultReassemblyIdle : Z := 30 * Second.
Definition DefaultReassembliesPerClient : Z := 16.
Definition DefaultMaxReassemblies : Z := 1024.
Definition DefaultMaxRequestBytes : Z := 131072.

Definition withinLimits (bytes max : Z) : Reason :=
  if max <? bytes then REASON_OVERSIZE else REASON_OK.

Definition partSize (budget : Z) : Z :=
  if (budget <=? 0) || (MaxFragmentPartBytes <? budget) then MaxFragmentPartBytes else budget.

(** ** Data *)

(** [MessageServerFragment]: the request id is a uint64, the index and the count uint32. *)
Module Fragment.
Record t := mk { RequestId : Z; Index : Z; Count : Z; Part : slice }.
End Fragment.

Abbreviation clientId := (list Z).
(** [reassemblyKey] *)
Abbreviation reassemblyKey := (list Z * Z)%type.

Module partial.
Record t := mk {
  count : Z;
  next : Z;
  bytes : list Z;
  started : time;
  element : option nat }.
End partial.

Module reassembly.
Record t := mk {
  maxRequestBytes : Z;
  perClient : Z;
  maxReassemblies : Z;
  idle : Z;
  inFlight : gmap (list Z * Z) partial.t;
  counts : gmap (list Z) Z;
  order : list (nat * (list Z * Z));
  nodes : nat;
  examined : Z }.
Definition update (f : gmap (list Z * Z) partial.t) (c : gmap (list Z) Z)
    (o : list (nat * (list Z * Z))) (r : t) : t :=
  mk (maxRequestBytes r) (perClient r) (maxReassemblies r) (idle r) f c o (nodes r) (examined r).
Definition set_order (o : list (nat * (list Z * Z))) (r : t) : t := update (inFlight r) (counts r) o r.
Definition examine (r : t) : t :=
  mk (maxRequestBytes r) (perClient r) (maxReassemblies r) (idle r) (inFlight r) (counts r)
     (order r) (nodes r) (u64 (examined r + 1)).
Definition take_node (r : t) : t :=
  mk (maxRequestBytes r) (perClient r) (maxReassemblies r) (idle r) (inFlight r) (counts r)
     (order r) (S (nodes r)) (examined r).
End reassembly.

Definition newReassembly (maxRequestBytes perClient maxReassemblies idle : Z) : reassembly.t :=
  reassembly.mk maxRequestBytes perClient maxReassemblies idle ∅ ∅ [] 0 0.

(** ** The abort rules *)

Module fragmentState.
Record t := mk {
  fragment : Fragment.t;
  current : option partial.t;
  openForClient : Z;
  open : Z;
  perClient : Z;
  maxReassemblies : Z;
  maxRequestBytes : Z }.
End fragmentState.

Definition nextIndex (self : fragmentState.t) : Z :=
  match fragmentState.current self with None => 0 | Some p => partial.next p end.
Definition buffered (self : fragmentState.t) : Z :=
  match fragmentState.current self with None => 0 | Some p => Z.of_nat (length (partial.bytes p)) end.
Definition opening (self : fragmentState.t) : bool :=
  match fragmentState.current self with None => true | Some _ => false end.

Definition abortIndex (state : fragmentState.t) : Reason :=
  if Fragment.Count (fragmentState.fragment state) <=? Fragment.Index (fragmentState.fragment state)
  then REASON_REJECTED else REASON_OK.
Definition abortOrder (state : fragmentState.t) : Reason :=
  if negb (Fragment.Index (fragmentState.fragment state) =? nextIndex state)
  then REASON_REJECTED else REASON_OK.
Definition abortCount (state : fragmentState.t) : Reason :=
  match fragmentState.current state with
  | None => REASON_OK
  | Some p => if negb (Fragment.Count (fragmentState.fragment state) =? partial.count p)
              then REASON_REJECTED else REASON_OK
  end.
Definition abortClient (state : fragmentState.t) : Reason :=
  if opening state && (fragmentState.perClient state <=? fragmentState.openForClient state)
  then REASON_REJECTED else REASON_OK.
Definition abortGlobal (state : fragmentState.t) : Reason :=
  if opening state && (0 <? fragmentState.maxReassemblies state) &&
     (fragmentState.maxReassemblies state <=? fragmentState.open state)
  then REASON_REJECTED else REASON_OK.
Definition abortBytes (state : fragmentState.t) : Reason :=
  withinLimits (buffered state + len (Fragment.Part (fragmentState.fragment state)))
    (fragmentState.maxRequestBytes state).

Definition reassemblyAborts : list (fragmentState.t → Reason) :=
  [abortIndex; abortOrder; abortCount; abortClient; abortGlobal; abortBytes].

(** The loop over the table: the first rule that does not answer [REASON_OK] decides. *)
Fixpoint firstAbort (rules : list (fragmentState.t → Reason)) (state : fragmentState.t) : Reason :=
  match rules with
  | [] => REASON_OK
  | rule :: rest =>
      let reason := rule state in
      if decide (reason = REASON_OK) then firstAbort rest state else reason
  end.

(** ** The operations *)

Definition drop (self : reassembly.t) (key : reassemblyKey) : reassembly.t :=
  match reassembly.inFlight self !! key with
  | None => self
  | Some current =>
      let order :=
        match partial.element current with
        | Some node => filter (λ e, e.1 ≠ node) (reassembly.order self)
        | None => reassembly.order self
        end in
      let n := default 0 (reassembly.counts self !! key.1) in
      reassembly.update (delete key (reassembly.inFlight self))
        (if n <=? 1 then delete key.1 (reassembly.counts self)
         else <[key.1 := n - 1]> (reassembly.counts self)) order self
  end.

(** The loop of [expire]; [None] is a loop that has not ended within [fuel] turns. *)
Fixpoint expireLoop (fuel : nat) (deadline : time) (self : reassembly.t) (dropped : Z) :
    option (reassembly.t * Z) :=
  match fuel with
  | O => None
  | S fuel =>
      match reassembly.order self with
      | [] => Some (self, dropped)
      | (node, key) :: _ =>
          let self := reassembly.examine self in
          match reassembly.inFlight self !! key with
          | None =>
              expireLoop fuel deadline
                (reassembly.set_order (filter (λ e, e.1 ≠ node) (reassembly.order self)) self) dropped
          | Some current =>
              if negb (Before (partial.started current) deadline) then Some (self, dropped)
              else expireLoop fuel deadline (drop self key) (dropped + 1)
          end
      end
  end.

(** [expire], with one turn more of fuel than the list has nodes; see [expire_exact]. *)
Definition expire (now : time) (self : reassembly.t) : option (reassembly.t * Z) :=
  if reassembly.idle self =? 0 then Some (self, 0)
  else expireLoop (S (length (reassembly.order self))) (now - reassembly.idle self) self 0.

Definition stateOf (self : reassembly.t) (client : clientId) (fragment : Fragment.t) :
    fragmentState.t :=
  fragmentState.mk fragment (reassembly.inFlight self !! (client, Fragment.RequestId fragment))
    (default 0 (reassembly.counts self !! client))
    (Z.of_nat (size (reassembly.inFlight self))) (reassembly.perClient self)
    (reassembly.maxReassemblies self) (reassembly.maxRequestBytes self).

(** The buffer a fragment that passed the rules is added to, opened when there is none. *)
Definition openBuffer (self : reassembly.t) (client : clientId) (fragment : Fragment.t)
    (began : time) : reassembly.t * partial.t :=
  let key := (client, Fragment.RequestId fragment) in
  match reassembly.inFlight self !! key with
  | Some current => (self, current)
  | None =>
      let node := reassembly.nodes self in
      let current := partial.mk (Fragment.Count fragment) 0 [] began (Some node) in
      (reassembly.take_node
         (reassembly.update (<[key := current]> (reassembly.inFlight self))
            (<[client := default 0 (reassembly.counts self !! client) + 1]> (reassembly.counts self))
            (reassembly.order self ++ [(node, key)]) self), current)
  end.

(** The slice an [append] to nil leaves: nil while nothing was appended. *)
Definition assembled (bytes : list Z) : slice := match bytes with [] => None | _ => Some bytes end.

(** [accept] past the expiry: the assembled bytes, whether the request is complete, the reason. *)
Definition acceptOne (self : reassembly.t) (client : clientId) (fragment : Fragment.t)
    (began : time) : reassembly.t * (slice * bool * Reason) :=
  let key := (client, Fragment.RequestId fragment) in
  let reason := firstAbort reassemblyAborts (stateOf self client fragment) in
  if decide (reason = REASON_OK) then
    let '(self, current) := openBuffer self client fragment began in
    let current :=
      partial.mk (partial.count current) (u32 (partial.next current + 1))
        (partial.bytes current ++ octets (Fragment.Part fragment)) (partial.started current)
        (partial.element current) in
    let self := reassembly.update (<[key := current]> (reassembly.inFlight self))
                  (reassembly.counts self) (reassembly.order self) self in
    if partial.next current <? partial.count current then (self, (None, false, REASON_OK))
    else (drop self key, (assembled (partial.bytes current), true, REASON_OK))
  else (drop self key, (None, false, reason)).

Definition accept (self : reassembly.t) (client : clientId) (fragment : Fragment.t)
    (now began : time) : option (reassembly.t * (slice * bool * Reason)) :=
  '(self, _) ← expire now self; Some (acceptOne self client fragment began).

(** [sweep]: an expiry under the lock, for a caller with no fragment. *)
Definition sweepReassembly (now : time) (self : reassembly.t) : option (reassembly.t * Z) :=
  expire now self.

(** [expiryReads]: the entries of the order every expiry so far has read. *)
Definition expiryReads (self : reassembly.t) : Z := reassembly.examined self.

(** [holding]: reassemblies, clients, bytes. *)
Definition holding (self : reassembly.t) : Z * Z * Z :=
  (Z.of_nat (size (reassembly.inFlight self)), Z.of_nat (size (reassembly.counts self)),
   map_fold (λ _ p acc, acc + Z.of_nat (length (partial.bytes p))) 0 (reassembly.inFlight self)).

(** ** The sender's side ([responseFrames]) *)

(** The fragments a body of more than one part travels in. *)
Definition fragmentAt (requestId : Z) (partBytes : Z) (count : nat) (body : list Z) (index : nat) :
    Fragment.t :=
  let from := Z.to_nat (Z.of_nat index * partBytes) in
  let to := Z.to_nat (Z.min (Z.of_nat (index + 1) * partBytes) (Z.of_nat (length body))) in
  Fragment.mk requestId (u32 (Z.of_nat index)) (u32 (Z.of_nat count))
    (Some (take (to - from) (skipn from body))).

Definition fragmentCount (partBytes : Z) (body : list Z) : nat :=
  Z.to_nat ((Z.of_nat (length body) + partBytes - 1) / partBytes).

Definition fragmentsOf (requestId : Z) (partBytes : Z) (body : list Z) : list Fragment.t :=
  let partBytes := partSize partBytes in
  let count := fragmentCount partBytes body in
  fragmentAt requestId partBytes count body <$> seq 0 count.

Inductive Frame : Type :=
  | ResponseFrame (bytes : list Z)
  | FragmentFrame (bytes : list Z).

Section Frames.
(** [connect.ProtoMarshal], on the two messages it is called with here. *)
Context {Response E : Type} (GetRequestId : Response → Z)
  (marshalResponse : Response → res E (list Z)) (marshalFragment : Fragment.t → res E (list Z)).

Fixpoint marshalAll (fragments : list Fragment.t) : res E (list Frame) :=
  match fragments with
  | [] => Ok []
  | f :: rest =>
      res_bind (marshalFragment f) (λ bytes,
        res_bind (marshalAll rest) (λ frames, Ok (FragmentFrame bytes :: frames)))
  end.

Definition responseFrames (response : Response) (partBytes : Z) : res E (list Frame) :=
  res_bind (marshalResponse response) (λ body,
    if Z.of_nat (length body) <=? partSize partBytes then Ok [ResponseFrame body]
    else marshalAll (fragmentsOf (GetRequestId response) partBytes body)).
End Frames.
