(* ===== verification/ReassemblyProps.v ===== *)
(** * What the reassembler guarantees

    The invariant that ties the buffers, the per-client counts and the expiry order together, kept
    by every operation; the bounds it gives; that an abort frees its buffer and nothing else; that
    an expiry ends and drops exactly what is past the bound; and that fragments cut by the sender's
    side assemble to the bytes they were cut from. *)

From stdpp Require Import sorting.
From S2P Require Import Prelude StoreTypes Reassembly.

(** ** The invariant *)

Definition client_entries (c : clientId) (order : list (nat * (list Z * Z))) :
    list (nat * (list Z * Z)) := filter (λ e, e.2.1 = c) order.

Definition count_entry (n : nat) : option Z := if (n =? 0)%nat then None else Some (Z.of_nat n).

Record partial_ok (maxBytes : Z) (horizon : time) (p : partial.t) : Prop := PartialOk {
  part_next : 0 <= partial.next p <= partial.count p;
  part_count : partial.count p < two32;
  part_bytes : Z.of_nat (length (partial.bytes p)) <= maxBytes;
  part_started : partial.started p <= horizon }.

(** When the buffer of an entry of the expiry order was started. *)
Definition started_of (r : reassembly.t) (e : nat * (list Z * Z)) : Z :=
  default 0 (partial.started <$> reassembly.inFlight r !! e.2).

Record reass_inv (horizon : time) (r : reassembly.t) : Prop := ReassInv {
  ri_nodes : NoDup (reassembly.order r).*1;
  ri_keys : NoDup (reassembly.order r).*2;
  ri_fresh : Forall (λ e, (e.1 < reassembly.nodes r)%nat) (reassembly.order r);
  ri_entry : ∀ node key, (node, key) ∈ reassembly.order r →
      ∃ p, reassembly.inFlight r !! key = Some p ∧ partial.element p = Some node;
  ri_flight : ∀ key p, reassembly.inFlight r !! key = Some p →
      partial_ok (reassembly.maxRequestBytes r) horizon p ∧
      ∃ node, partial.element p = Some node ∧ (node, key) ∈ reassembly.order r;
  ri_counts : ∀ c, reassembly.counts r !! c =
      count_entry (length (client_entries c (reassembly.order r)));
  ri_client : ∀ c, Z.of_nat (length (client_entries c (reassembly.order r))) <=
      Z.max 0 (reassembly.perClient r);
  ri_global : 0 < reassembly.maxReassemblies r →
      Z.of_nat (length (reassembly.order r)) <= reassembly.maxReassemblies r;
  ri_sorted : StronglySorted Z.le (started_of r <$> reassembly.order r) }.

Lemma inv_later t t' r : t <= t' → reass_inv t r → reass_inv t' r.
Proof.
  intros Ht [? ? ? ? Hf ? ? ? ?]. split; try done. intros key p Hp.
  destruct (Hf _ _ Hp) as [[? ? ? ?] ?]. split; [|done]. split; try done. lia.
Qed.

Lemma flight_dom t r : reass_inv t r → dom (reassembly.inFlight r) = list_to_set (C := gset (list Z * Z)) (reassembly.order r).*2.
Proof.
  intros Hi. apply set_eq. intros key. rewrite elem_of_dom, elem_of_list_to_set. split.
  - intros [p Hp]. destruct (ri_flight _ _ Hi _ _ Hp) as (_ & node & _ & Hin).
    apply list_elem_of_fmap. by exists (node, key).
  - intros ([node k] & -> & Hin)%list_elem_of_fmap. destruct (ri_entry _ _ Hi _ _ Hin) as (p & Hp & _).
    by exists p.
Qed.

Lemma flight_size t r : reass_inv t r → size (reassembly.inFlight r) = length (reassembly.order r).
Proof.
  intros Hi. rewrite <- (size_dom (D := gset (list Z * Z))), (flight_dom _ _ Hi).
  rewrite size_list_to_set by apply Hi. by rewrite length_fmap.
Qed.

Lemma counts_default t r c :
  reass_inv t r → default 0 (reassembly.counts r !! c) =
    Z.of_nat (length (client_entries c (reassembly.order r))).
Proof. intros Hi. rewrite (ri_counts _ _ Hi). unfold count_entry. destruct (length _); done. Qed.

(** ** Dropping a key *)

Lemma entry_node t r node key p e :
  reass_inv t r → reassembly.inFlight r !! key = Some p → partial.element p = Some node →
  e ∈ reassembly.order r → e.1 ≠ node ↔ e.2 ≠ key.
Proof.
  intros Hi Hp Hn He. destruct (ri_flight _ _ Hi _ _ Hp) as (_ & node' & Hn' & Hin).
  rewrite Hn in Hn'. injection Hn' as <-. split; intros Hne E; apply Hne.
  - by rewrite (fmap_NoDup_inj snd _ e (node, key) (ri_keys _ _ Hi) He Hin E).
  - by rewrite (fmap_NoDup_inj fst _ e (node, key) (ri_nodes _ _ Hi) He Hin E).
Qed.

(** What [drop] leaves when the key has a buffer. *)
Definition dropped (r : reassembly.t) (key : reassemblyKey) : reassembly.t :=
  reassembly.update (delete key (reassembly.inFlight r))
    (let n := default 0 (reassembly.counts r !! key.1) in
     if n <=? 1 then delete key.1 (reassembly.counts r)
     else <[key.1 := n - 1]> (reassembly.counts r))
    (filter (λ e, e.2 ≠ key) (reassembly.order r)) r.

Lemma drop_present t r key p :
  reass_inv t r → reassembly.inFlight r !! key = Some p → drop r key = dropped r key.
Proof.
  intros Hi Hp. unfold drop. rewrite Hp.
  destruct (ri_flight _ _ Hi _ _ Hp) as (_ & node & Hn & _). rewrite Hn.
  unfold dropped. f_equal. apply filter_ext_in. intros e He.
  by apply (entry_node t r node key p).
Qed.

Lemma entries_drop t r key p c :
  reass_inv t r → reassembly.inFlight r !! key = Some p →
  length (client_entries c (filter (λ e, e.2 ≠ key) (reassembly.order r))) =
    (length (client_entries c (reassembly.order r)) - (if decide (key.1 = c) then 1 else 0))%nat.
Proof.
  intros Hi Hp. destruct (ri_flight _ _ Hi _ _ Hp) as (_ & node & _ & Hin).
  unfold client_entries.
  rewrite (filter_key_Permutation snd (reassembly.order r) (node, key) (ri_keys _ _ Hi) Hin) at 2.
  rewrite filter_cons. simpl. case_decide; simpl; lia.
Qed.

Lemma started_of_other r r' e :
  reassembly.inFlight r' !! e.2 = reassembly.inFlight r !! e.2 → started_of r' e = started_of r e.
Proof. unfold started_of. by intros ->. Qed.

Lemma dropped_inv t r key p :
  reass_inv t r → reassembly.inFlight r !! key = Some p → reass_inv t (dropped r key).
Proof.
  intros Hi Hp. pose proof (entries_drop t r key p) as Hlen.
  split; cbn [dropped reassembly.update reassembly.order reassembly.inFlight reassembly.nodes
    reassembly.counts reassembly.maxRequestBytes reassembly.perClient reassembly.maxReassemblies].
  - by apply filter_nodup, Hi.
  - by apply filter_nodup, Hi.
  - by apply Forall_filter, Hi.
  - intros node k [Hk Hin]%list_elem_of_filter. simpl in Hk.
    rewrite lookup_delete_ne by congruence. by apply (ri_entry _ _ Hi).
  - intros k q Hq. apply lookup_delete_Some in Hq as [Hne Hq].
    destruct (ri_flight _ _ Hi _ _ Hq) as (? & n & ? & ?). split; [done|]. exists n.
    split; [done|]. apply list_elem_of_filter. split; [|done]. simpl. congruence.
  - intros c. rewrite (Hlen c Hi Hp), (counts_default _ _ _ Hi).
    destruct (decide (key.1 = c)) as [<-|Hc].
    + destruct (Z.leb_spec (Z.of_nat (length (client_entries key.1 (reassembly.order r)))) 1).
      * rewrite lookup_delete_eq. replace (_ - 1)%nat with 0%nat by lia. done.
      * rewrite lookup_insert_eq. unfold count_entry.
        destruct (Nat.eqb_spec (length (client_entries key.1 (reassembly.order r)) - 1) 0); [lia|].
        f_equal. lia.
    + rewrite Nat.sub_0_r, <- (ri_counts _ _ Hi). case_match; by simplify_map_eq.
  - intros c. rewrite (Hlen c Hi Hp). pose proof (ri_client _ _ Hi c). lia.
  - intros Hm. pose proof (ri_global _ _ Hi Hm).
    pose proof (length_filter (λ e : nat * (list Z * Z), e.2 ≠ key) (reassembly.order r)). lia.
  - erewrite list_fmap_ext; [apply filter_sorted, (ri_sorted _ _ Hi)|].
    intros i e He%list_elem_of_lookup_2. apply list_elem_of_filter in He as [He _].
    apply started_of_other. simpl. by rewrite lookup_delete_ne by congruence.
Qed.

Lemma drop_inv t r key : reass_inv t r → reass_inv t (drop r key).
Proof.
  intros Hi. destruct (reassembly.inFlight r !! key) as [p|] eqn:Hp.
  - rewrite (drop_present t r key p Hi Hp). by apply (dropped_inv t r key p).
  - unfold drop. by rewrite Hp.
Qed.

Lemma drop_inFlight r key :
  reassembly.inFlight (drop r key) = delete key (reassembly.inFlight r).
Proof.
  unfold drop. destruct (reassembly.inFlight r !! key) eqn:Hp; [done|]. by rewrite delete_id.
Qed.

(** The settings, which no operation changes. *)
Definition config (r : reassembly.t) : Z * Z * Z * Z :=
  (reassembly.maxRequestBytes r, reassembly.perClient r, reassembly.maxReassemblies r,
   reassembly.idle r).

Lemma drop_config r key : config (drop r key) = config r.
Proof. unfold drop. by case_match. Qed.
Lemma drop_examined r key : reassembly.examined (drop r key) = reassembly.examined r.
Proof. unfold drop. by case_match. Qed.

Lemma examine_inv t r : reass_inv t r → reass_inv t (reassembly.examine r).
Proof. intros [? ? ? ? ? ? ? ? ?]. by split. Qed.

(** ** Expiry *)

(** The buffers an expiry at [now] keeps: with no bound, all of them. *)
Definition unexpired (idle : Z) (now : time) (m : gmap (list Z * Z) partial.t) :
    gmap (list Z * Z) partial.t :=
  if idle =? 0 then m else filter (λ kv : (list Z * Z) * partial.t, now - idle <= partial.started kv.2) m.

Definition since (deadline : time) (m : gmap (list Z * Z) partial.t) : gmap (list Z * Z) partial.t :=
  filter (λ kv : (list Z * Z) * partial.t, deadline <= partial.started kv.2) m.

Lemma front_oldest t r node key p rest :
  reass_inv t r → reassembly.order r = (node, key) :: rest →
  reassembly.inFlight r !! key = Some p →
  ∀ k q, reassembly.inFlight r !! k = Some q → partial.started p <= partial.started q.
Proof.
  intros Hi Ho Hp k q Hq. destruct (ri_flight _ _ Hi _ _ Hq) as (_ & n & _ & Hin).
  pose proof (ri_sorted _ _ Hi) as Hs. rewrite Ho in Hin, Hs.
  rewrite fmap_cons, StronglySorted_cons, Forall_fmap, Forall_forall in Hs. destruct Hs as [Hs _].
  apply list_elem_of_In in Hin as [E|Hin].
  - injection E as -> ->. rewrite Hp in Hq. injection Hq as ->. lia.
  - apply list_elem_of_In, Hs in Hin. simpl in Hin. unfold started_of in Hin. simpl in Hin.
    by rewrite Hp, Hq in Hin.
Qed.

Lemma expireLoop_spec t deadline fuel r n :
  reass_inv t r → (length (reassembly.order r) < fuel)%nat →
  ∃ r' k, expireLoop fuel deadline r n =
      Some (r', n + (Z.of_nat (size (reassembly.inFlight r)) - Z.of_nat (size (reassembly.inFlight r')))) ∧
    reass_inv t r' ∧ config r' = config r ∧
    reassembly.inFlight r' = since deadline (reassembly.inFlight r) ∧
    u64 (reassembly.examined r') = u64 (reassembly.examined r + k) ∧
    0 <= k <= 1 + (Z.of_nat (size (reassembly.inFlight r)) - Z.of_nat (size (reassembly.inFlight r'))).
Proof.
  revert r n. induction fuel as [|fuel IH]; intros r n Hi Hf; [lia|]. cbn [expireLoop].
  destruct (reassembly.order r) as [|[node key] rest] eqn:Ho.
  - assert (reassembly.inFlight r = ∅) as Hm.
    { apply map_size_empty_inv. rewrite (flight_size _ _ Hi), Ho. done. }
    exists r, 0. rewrite Z.sub_diag, !Z.add_0_r. split_and!; try done.
    unfold since. by rewrite Hm, map_filter_empty.
  - destruct (ri_entry _ _ Hi node key) as (p & Hp & Hn); [rewrite Ho; by left|].
    change (reassembly.inFlight (reassembly.examine r)) with (reassembly.inFlight r). rewrite Hp.
    unfold Before. destruct (Z.ltb_spec (partial.started p) deadline) as [Hlt|Hge]; cbn [negb].
    + pose proof (examine_inv _ _ Hi) as Hi'.
      set (r1 := drop (reassembly.examine r) key).
      assert (reassembly.inFlight r1 = delete key (reassembly.inFlight r)) as Hd
        by apply (drop_inFlight (reassembly.examine r)).
      assert (reass_inv t r1) as Hr1 by by apply drop_inv.
      assert (S (size (reassembly.inFlight r1)) = size (reassembly.inFlight r)) as Hsz.
      { rewrite Hd, map_size_delete, Hp. simpl. enough (size (reassembly.inFlight r) ≠ 0%nat) by lia.
        rewrite (flight_size _ _ Hi), Ho. done. }
      destruct (IH r1 (n + 1) Hr1) as (r' & k & -> & Hr' & Hc & Hm & He & Hk).
      { rewrite <- (flight_size _ _ Hr1). rewrite <- Ho, <- (flight_size _ _ Hi) in Hf. lia. }
      exists r', (k + 1). split_and!; [do 2 f_equal; lia|done| | | |lia|lia].
      * rewrite Hc. unfold r1. by rewrite drop_config.
      * rewrite Hm, Hd. unfold since. apply map_filter_delete_not. intros q Hq. simpl.
        rewrite Hp in Hq. injection Hq as <-. lia.
      * rewrite He. unfold r1. rewrite drop_examined. simpl. autorewrite with server_rw.
        f_equal. lia.
    + exists (reassembly.examine r), 1.
      change (reassembly.inFlight (reassembly.examine r)) with (reassembly.inFlight r).
      rewrite Z.sub_diag, !Z.add_0_r. split_and!; try done; [by apply examine_inv| |].
      * unfold since. symmetry. apply map_filter_id. intros k q Hq.
        pose proof (front_oldest _ _ _ _ _ _ Hi Ho Hp _ _ Hq). simpl. lia.
      * simpl. unfold u64. rewrite Z.mod_mod; done.
Qed.

Lemma expire_spec t now r :
  reass_inv t r → ∃ r' k, expire now r =
      Some (r', Z.of_nat (size (reassembly.inFlight r)) - Z.of_nat (size (reassembly.inFlight r'))) ∧
    reass_inv t r' ∧ config r' = config r ∧
    reassembly.inFlight r' = unexpired (reassembly.idle r) now (reassembly.inFlight r) ∧
    u64 (reassembly.examined r') = u64 (reassembly.examined r + k) ∧
    0 <= k <= 1 + (Z.of_nat (size (reassembly.inFlight r)) - Z.of_nat (size (reassembly.inFlight r'))).
Proof.
  intros Hi. unfold expire, unexpired. destruct (reassembly.idle r =? 0).
  - exists r, 0. rewrite Z.sub_diag, !Z.add_0_r. split_and!; done.
  - destruct (expireLoop_spec t (now - reassembly.idle r) (S (length (reassembly.order r))) r 0 Hi)
      as (r' & k & E & H); [lia|]. exists r', k. split; [exact E|]. exact H.
Qed.

(** ** Accepting a fragment *)

Definition fragment_ok (f : Fragment.t) : Prop :=
  0 <= Fragment.Index f < two32 ∧ 0 <= Fragment.Count f < two32.

(** The table answers as one condition and one bound. *)
Definition misplaced (self : fragmentState.t) : bool :=
  (Fragment.Count (fragmentState.fragment self) <=? Fragment.Index (fragmentState.fragment self))
  || negb (Fragment.Index (fragmentState.fragment self) =? nextIndex self)
  || match fragmentState.current self with
     | Some p => negb (Fragment.Count (fragmentState.fragment self) =? partial.count p)
     | None => (fragmentState.perClient self <=? fragmentState.openForClient self)
               || (0 <? fragmentState.maxReassemblies self) &&
                  (fragmentState.maxReassemblies self <=? fragmentState.open self)
     end.

Lemma firstAbort_eq s :
  firstAbort reassemblyAborts s =
    if misplaced s then REASON_REJECTED
    else if fragmentState.maxRequestBytes s <?
            buffered s + len (Fragment.Part (fragmentState.fragment s))
         then REASON_OVERSIZE else REASON_OK.
Proof.
  unfold misplaced. destruct s as [f current n o pc mx mb]. 
  cbn [firstAbort reassemblyAborts fragmentState.fragment fragmentState.current
    fragmentState.perClient fragmentState.openForClient fragmentState.maxReassemblies
    fragmentState.open fragmentState.maxRequestBytes].
  unfold abortIndex, abortOrder, abortCount, abortClient, abortGlobal, abortBytes, withinLimits, opening.
  cbn [fragmentState.fragment fragmentState.current
    fragmentState.perClient fragmentState.openForClient fragmentState.maxReassemblies
    fragmentState.open fragmentState.maxRequestBytes].
  destruct (Fragment.Count f <=? Fragment.Index f), (Fragment.Index f =? _), (mb <? _); try done;
    destruct current as [p|]; simpl;
    try (by destruct (Fragment.Count f =? partial.count p));
    by destruct (pc <=? n), (0 <? mx), (mx <=? o).
Qed.

(** What opening a buffer leaves. *)
Definition pushed (r : reassembly.t) (key : reassemblyKey) (count : Z) (began : time) : reassembly.t :=
  reassembly.take_node
    (reassembly.update
       (<[key := partial.mk count 0 [] began (Some (reassembly.nodes r))]> (reassembly.inFlight r))
       (<[key.1 := default 0 (reassembly.counts r !! key.1) + 1]> (reassembly.counts r))
       (reassembly.order r ++ [(reassembly.nodes r, key)]) r).

Lemma entries_push c key (node : nat) (order : list (nat * (list Z * Z))) :
  length (client_entries c (order ++ [(node, key)])) =
    (length (client_entries c order) + (if decide (key.1 = c) then 1 else 0))%nat.
Proof.
  unfold client_entries. rewrite filter_app, length_app, filter_cons, filter_nil. simpl.
  case_decide; simpl; lia.
Qed.

Lemma StronglySorted_snoc_le (l : list Z) (x : Z) :
  StronglySorted Z.le l → Forall (λ y, y <= x) l → StronglySorted Z.le (l ++ [x]).
Proof.
  induction l as [|y l IH]; intros Hs Hx; [by repeat constructor|].
  rewrite StronglySorted_cons in Hs. destruct Hs as [Hy Hs]. rewrite Forall_cons in Hx.
  destruct Hx as [Hyx Hx]. cbn [app]. rewrite StronglySorted_cons. split; [|auto].
  apply Forall_app. split; [done|]. by constructor.
Qed.

Lemma pushed_inv t began r key count :
  reass_inv t r → t <= began → reassembly.inFlight r !! key = None → 0 <= count < two32 →
  0 <= reassembly.maxRequestBytes r →
  Z.of_nat (length (client_entries key.1 (reassembly.order r))) < reassembly.perClient r →
  (0 < reassembly.maxReassemblies r →
   Z.of_nat (length (reassembly.order r)) < reassembly.maxReassemblies r) →
  reass_inv began (pushed r key count began).
Proof.
  intros Hi Ht Hp Hc Hmx Hcl Hgl. pose proof (inv_later _ _ _ Ht Hi) as Hi'.
  assert (∀ e, e ∈ reassembly.order r → e.2 ≠ key) as Hnew.
  { intros [n k] He E. simpl in E. subst k. destruct (ri_entry _ _ Hi _ _ He) as (? & ? & _). congruence. }
  pose proof (ri_fresh _ _ Hi) as Hfr. rewrite Forall_forall in Hfr.
  split; cbn [pushed reassembly.take_node reassembly.update reassembly.order reassembly.inFlight reassembly.nodes
    reassembly.counts reassembly.maxRequestBytes reassembly.perClient reassembly.maxReassemblies].
  - rewrite fmap_app. apply NoDup_app. split_and!; [apply Hi| |by apply NoDup_singleton].
    intros n (e & -> & He)%list_elem_of_fmap. apply Hfr in He. simpl.
    intros E%list_elem_of_singleton. lia.
  - rewrite fmap_app. apply NoDup_app. split_and!; [apply Hi| |by apply NoDup_singleton].
    intros k (e & -> & He)%list_elem_of_fmap. apply Hnew in He. simpl.
    by intros E%list_elem_of_singleton.
  - apply Forall_app. split; [|repeat constructor; simpl; lia].
    apply Forall_forall. intros e He. apply Hfr in He. lia.
  - intros node k [Hin|E%list_elem_of_singleton]%elem_of_app.
    + pose proof (Hnew _ Hin). simpl in *. rewrite lookup_insert_ne by done. by apply (ri_entry _ _ Hi).
    + injection E as -> ->. rewrite lookup_insert_eq. by eexists.
  - intros k q Hq. apply lookup_insert_Some in Hq as [[<- <-]|[Hne Hq]].
    + split; [split; simpl; lia|]. exists (reassembly.nodes r). split; [done|].
      apply elem_of_app. right. by apply list_elem_of_singleton.
    + destruct (ri_flight _ _ Hi' _ _ Hq) as (? & n & ? & ?). split; [done|]. exists n.
      split; [done|]. apply elem_of_app. by left.
  - intros c. rewrite entries_push, (counts_default _ _ _ Hi).
    destruct (decide (key.1 = c)) as [<-|Hne].
    + rewrite lookup_insert_eq. unfold count_entry. case_match eqn:E; [reflect_bools|]; [|f_equal; lia].
      apply Nat.eqb_eq in E. lia.
    + rewrite lookup_insert_ne by done. rewrite (ri_counts _ _ Hi). by rewrite Nat.add_0_r.
  - intros c. rewrite entries_push. pose proof (ri_client _ _ Hi c).
    destruct (decide (key.1 = c)) as [<-|]; lia.
  - intros Hm. rewrite length_app. pose proof (Hgl Hm). simpl. lia.
  - rewrite fmap_app. unfold started_of at 2. simpl. rewrite lookup_insert_eq. simpl.
    erewrite list_fmap_ext; [apply StronglySorted_snoc_le; [apply (ri_sorted _ _ Hi)|]|].
    + apply Forall_fmap, Forall_forall. intros [n k] He.
      destruct (ri_entry _ _ Hi _ _ He) as (q & Hq & _). unfold started_of. simpl. rewrite Hq. simpl.
      apply (ri_flight _ _ Hi' _ _ Hq).
    + intros i e He%list_elem_of_lookup_2. apply started_of_other. simpl.
      rewrite lookup_insert_ne; [done|]. by apply not_eq_sym, Hnew.
Qed.

(** Replacing a buffer by one with its start and its node. *)
Lemma set_buffer_inv t r key p q :
  reass_inv t r → reassembly.inFlight r !! key = Some p →
  partial.started q = partial.started p → partial.element q = partial.element p →
  partial_ok (reassembly.maxRequestBytes r) t q →
  reass_inv t (reassembly.update (<[key := q]> (reassembly.inFlight r)) (reassembly.counts r)
                 (reassembly.order r) r).
Proof.
  intros Hi Hp Hs He Hq.
  split; cbn [reassembly.update reassembly.order reassembly.inFlight reassembly.nodes
    reassembly.counts reassembly.maxRequestBytes reassembly.perClient reassembly.maxReassemblies];
    try apply Hi.
  - intros node k Hin. destruct (ri_entry _ _ Hi _ _ Hin) as (p' & Hp' & Hn).
    destruct (decide (key = k)) as [<-|]; [|rewrite lookup_insert_ne by done; by exists p'].
    rewrite lookup_insert_eq. exists q. split; [done|]. congruence.
  - intros k p' Hk. apply lookup_insert_Some in Hk as [[<- <-]|[Hne Hk]].
    + destruct (ri_flight _ _ Hi _ _ Hp) as (_ & n & Hn & Hin). split; [done|].
      exists n. by rewrite He.
    + by apply (ri_flight _ _ Hi).
  - erewrite list_fmap_ext; [apply (ri_sorted _ _ Hi)|]. intros i e _. unfold started_of. simpl.
    destruct (decide (key = e.2)) as [<-|]; [|by rewrite lookup_insert_ne].
    rewrite lookup_insert_eq, Hp. simpl. by rewrite Hs.
Qed.

Lemma openBuffer_spec t began r client f :
  reass_inv t r → t <= began → fragment_ok f →
  firstAbort reassemblyAborts (stateOf r client f) = REASON_OK →
  let key := (client, Fragment.RequestId f) in
  let r' := (openBuffer r client f began).1 in
  let current := (openBuffer r client f began).2 in
  reass_inv began r' ∧ reassembly.inFlight r' = <[key := current]> (reassembly.inFlight r) ∧
  config r' = config r ∧ partial.next current = Fragment.Index f ∧
  partial.count current = Fragment.Count f ∧ Fragment.Index f < Fragment.Count f ∧
  Z.of_nat (length (partial.bytes current)) + len (Fragment.Part f) <= reassembly.maxRequestBytes r ∧
  current = default (partial.mk (Fragment.Count f) 0 [] began (partial.element current))
              (reassembly.inFlight r !! key).
Proof.
  intros Hi Ht Hf Hok key. pose proof (inv_later _ _ _ Ht Hi) as Hi'. rewrite firstAbort_eq in Hok.
  destruct (misplaced _) eqn:Hm; [done|].
  destruct (_ <? _) eqn:Hb; [done|]. clear Hok. apply Z.ltb_ge in Hb.
  unfold misplaced, openBuffer, stateOf, buffered, nextIndex in *.
  cbn [fragmentState.fragment fragmentState.current fragmentState.perClient
    fragmentState.openForClient fragmentState.maxReassemblies fragmentState.open
    fragmentState.maxRequestBytes] in *. fold key in Hm, Hb |- *.
  destruct (reassembly.inFlight r !! key) as [p|] eqn:Hp;
    apply orb_false_elim in Hm as [[Hm1 Hm2]%orb_false_elim Hm3]; reflect_bools; cbn [fst snd].
  - rewrite insert_id by done. simpl. split_and!; done.
  - change (reassembly.take_node _) with (pushed r key (Fragment.Count f) began).
    rewrite (counts_default _ _ _ Hi) in *. pose proof (flight_size _ _ Hi) as Hsz.
    pose proof (Zle_0_nat (length (octets (Fragment.Part f)))). unfold len in *.
    split_and!; try done; try lia. apply (pushed_inv t); simpl; try done; try lia.
    apply Hf.
Qed.

(** ** The reassembler as a map of buffers *)

(** A buffer without its place in the expiry order. *)
Record buffer := Buffer { b_count : Z; b_bytes : list Z; b_next : Z; b_started : time }.

Definition buffer_of (p : partial.t) : buffer :=
  Buffer (partial.count p) (partial.bytes p) (partial.next p) (partial.started p).

Definition buffers (r : reassembly.t) : gmap (list Z * Z) buffer := buffer_of <$> reassembly.inFlight r.

(** The buffers a client holds. *)
Definition load (m : gmap (list Z * Z) buffer) (c : clientId) : Z :=
  Z.of_nat (size (filter (λ kv : (list Z * Z) * buffer, kv.1.1 = c) m)).

Definition fresh_enough (idle : Z) (now : time) (m : gmap (list Z * Z) buffer) :
    gmap (list Z * Z) buffer :=
  if idle =? 0 then m else filter (λ kv : (list Z * Z) * buffer, now - idle <= b_started kv.2) m.

(** What one fragment does to the buffers: the expired ones go; a fragment that is not the next of
    its request, or opens one past a cap, or passes the byte bound, takes its own buffer with it
    and nothing else; the last fragment takes the buffer and gives its bytes. *)
Definition spec_accept (settings : Z * Z * Z * Z) (m : gmap (list Z * Z) buffer) (client : clientId)
    (f : Fragment.t) (now began : time) : gmap (list Z * Z) buffer * (slice * bool * Reason) :=
  let '(maxBytes, perClient, maxOpen, idle) := settings in
  let key := (client, Fragment.RequestId f) in
  let m := fresh_enough idle now m in
  let b := default (Buffer (Fragment.Count f) [] 0 began) (m !! key) in
  let body := b_bytes b ++ octets (Fragment.Part f) in
  let placed :=
    bool_decide (Fragment.Index f = b_next b ∧ Fragment.Count f = b_count b ∧
                 Fragment.Index f < Fragment.Count f) in
  let room :=
    bool_decide (is_Some (m !! key) ∨
                 load m client < perClient ∧ (0 < maxOpen → Z.of_nat (size m) < maxOpen)) in
  if negb (placed && room) then (delete key m, (None, false, REASON_REJECTED))
  else if maxBytes <? Z.of_nat (length body) then (delete key m, (None, false, REASON_OVERSIZE))
  else if b_next b + 1 =? b_count b then (delete key m, (assembled body, true, REASON_OK))
  else (<[key := Buffer (b_count b) body (b_next b + 1) (b_started b)]> m, (None, false, REASON_OK)).

Lemma buffers_lookup r key : buffers r !! key = buffer_of <$> reassembly.inFlight r !! key.
Proof. apply lookup_fmap. Qed.

Lemma buffers_size r : size (buffers r) = size (reassembly.inFlight r).
Proof. apply map_size_fmap. Qed.

Lemma load_entries t r c :
  reass_inv t r → load (buffers r) c = Z.of_nat (length (client_entries c (reassembly.order r))).
Proof.
  intros Hi. unfold load. f_equal. rewrite <- (size_dom (D := gset (list Z * Z))).
  assert (dom (filter (λ kv : (list Z * Z) * buffer, kv.1.1 = c) (buffers r)) =
          list_to_set (C := gset (list Z * Z)) (client_entries c (reassembly.order r)).*2) as ->.
  { apply set_eq. intros key. rewrite elem_of_dom, elem_of_list_to_set. split.
    - intros [b [Hb Hk]%map_lookup_filter_Some]. rewrite buffers_lookup in Hb.
      apply fmap_Some in Hb as (p & Hp & _). destruct (ri_flight _ _ Hi _ _ Hp) as (_ & n & _ & Hin).
      apply list_elem_of_fmap. exists (n, key). split; [done|]. by apply list_elem_of_filter.
    - intros ([n k] & -> & [Hk Hin]%list_elem_of_filter)%list_elem_of_fmap.
      destruct (ri_entry _ _ Hi _ _ Hin) as (p & Hp & _). exists (buffer_of p).
      apply map_lookup_filter_Some. rewrite buffers_lookup. simpl. by rewrite Hp. }
  rewrite size_list_to_set; [by rewrite length_fmap|]. apply filter_nodup, Hi.
Qed.

Lemma buffers_expired t r now r' n :
  reass_inv t r → expire now r = Some (r', n) →
  reass_inv t r' ∧ config r' = config r ∧ buffers r' = fresh_enough (reassembly.idle r) now (buffers r) ∧
  n = Z.of_nat (size (buffers r)) - Z.of_nat (size (buffers r')).
Proof.
  intros Hi E. destruct (expire_spec t now r Hi) as (r2 & k & E2 & Hr & Hc & Hm & _ & _).
  rewrite E2 in E. injection E as <- <-. rewrite !buffers_size. split_and!; try done.
  unfold buffers. rewrite Hm. unfold unexpired, fresh_enough. case_match; [done|].
  rewrite map_filter_fmap. done.
Qed.

(** The rules' verdict on the concrete state is the specification's on the map. *)
Lemma misplaced_spec t r client f (b : buffer) m began :
  reass_inv t r → m = buffers r → fragment_ok f →
  b = default (Buffer (Fragment.Count f) [] 0 began) (m !! (client, Fragment.RequestId f)) →
  misplaced (stateOf r client f) =
    negb (bool_decide (Fragment.Index f = b_next b ∧ Fragment.Count f = b_count b ∧
                       Fragment.Index f < Fragment.Count f) &&
          bool_decide (is_Some (m !! (client, Fragment.RequestId f)) ∨
             load m client < reassembly.perClient r ∧
             (0 < reassembly.maxReassemblies r → Z.of_nat (size m) < reassembly.maxReassemblies r))).
Proof.
  intros Hi -> Hf ->. unfold misplaced, stateOf, nextIndex.
  cbn [fragmentState.fragment fragmentState.current fragmentState.perClient
    fragmentState.openForClient fragmentState.maxReassemblies fragmentState.open].
  rewrite buffers_lookup, (load_entries _ _ _ Hi), buffers_size, (counts_default _ _ _ Hi).
  apply eq_bool_prop_intro. rewrite !Is_true_true.
  rewrite negb_true_iff, andb_false_iff, !orb_true_iff, !bool_decide_eq_false, negb_true_iff.
  destruct (reassembly.inFlight r !! (client, Fragment.RequestId f)) as [p|]; simpl.
  - rewrite negb_true_iff, Z.leb_le, !Z.eqb_neq. split.
    + intros H. left. lia.
    + intros [H|H]; [lia|]. exfalso. apply H. left. by eexists.
  - rewrite orb_true_iff, andb_true_iff, !Z.leb_le, Z.ltb_lt, Z.eqb_neq. split.
    + intros [H|H]; [left; lia|right]. intros [[? ?]|[? ?]]; [done|lia].
    + intros [H|H]; [lia|]. right. destruct (decide (reassembly.perClient r <=
        Z.of_nat (length (client_entries client (reassembly.order r))))) as [|Hc]; [by left|right].
      apply dec_stable. intros Hg. apply H. right. lia.
Qed.

Lemma buffers_insert r key p : buffer_of <$> <[key := p]> (reassembly.inFlight r) = <[key := buffer_of p]> (buffers r).
Proof. apply fmap_insert. Qed.

Lemma buffers_drop r key : buffers (drop r key) = delete key (buffers r).
Proof. unfold buffers. by rewrite drop_inFlight, fmap_delete. Qed.

(** What a fragment that passed the rules does, in one equation. *)
Lemma acceptOne_admitted t r client f began :
  reass_inv t r → t <= began → fragment_ok f →
  firstAbort reassemblyAborts (stateOf r client f) = REASON_OK →
  let key := (client, Fragment.RequestId f) in
  let b := default (Buffer (Fragment.Count f) [] 0 began) (buffers r !! key) in
  let body := b_bytes b ++ octets (Fragment.Part f) in
  let r' := (acceptOne r client f began).1 in
  reass_inv began r' ∧ config r' = config r ∧
  (buffers r', (acceptOne r client f began).2) =
    if b_next b + 1 =? b_count b then (delete key (buffers r), (assembled body, true, REASON_OK))
    else (<[key := Buffer (b_count b) body (b_next b + 1) (b_started b)]> (buffers r), (None, false, REASON_OK)).
Proof.
  intros Hi Ht Hf Hok key b body r'.
  pose proof (openBuffer_spec t began r client f Hi Ht Hf Hok) as Ho. fold key in Ho. cbv zeta in Ho.
  unfold r', acceptOne. rewrite decide_True by done. fold key.
  destruct (openBuffer r client f began) as [r1 current]. cbn [fst snd] in Ho.
  destruct Ho as (Hr1 & Hm & Hcfg & Hn & Hc & Hlt & Hb & Hcur).
  assert (b = buffer_of current) as Eb.
  { unfold b. rewrite buffers_lookup. destruct (reassembly.inFlight r !! key); simpl in Hcur |- *;
      [by subst|]. rewrite Hcur. done. }
  assert (reassembly.inFlight r1 !! key = Some current) as Hk by (rewrite Hm; apply lookup_insert_eq).
  set (q := partial.mk _ _ _ _ _). set (r2 := reassembly.update _ _ _ r1).
  assert (u32 (partial.next current + 1) = partial.next current + 1) as Hu.
  { apply u32_small. destruct Hf. lia. }
  assert (reass_inv began r2) as Hr2.
  { apply (set_buffer_inv began r1 key current q); try done.
    destruct (ri_flight _ _ Hr1 _ _ Hk) as [[? ? ? ?] _]. split; try done; unfold q; simpl; [lia|].
    rewrite length_app. unfold config in Hcfg. injection Hcfg as -> _ _ _. unfold len in Hb. lia. }
  assert (buffers r2 = <[key := Buffer (b_count b) body (b_next b + 1) (b_started b)]> (buffers r)) as Hbuf.
  { unfold buffers at 1, r2. simpl. rewrite buffers_insert. unfold buffers at 1. rewrite Hm, fmap_insert.
    rewrite insert_insert_eq. unfold buffer_of, q. simpl. rewrite Hu. unfold body. by rewrite Eb. }
  unfold body. rewrite Eb. simpl. rewrite Hu. fold q.
  destruct (Z.ltb_spec (partial.next current + 1) (partial.count current)),
    (Z.eqb_spec (partial.next current + 1) (partial.count current)); try lia; cbn [fst snd].
  - split_and!; [done..|]. f_equal. rewrite Hbuf. unfold body. by rewrite Eb.
  - split_and!; [by apply drop_inv|by rewrite drop_config|].
    rewrite buffers_drop, Hbuf, delete_insert_eq. done.
Qed.

Lemma accept_spec t r client f now began :
  reass_inv t r → t <= now → now <= began → fragment_ok f →
  ∃ r', accept r client f now began = Some (r', (spec_accept (config r) (buffers r) client f now began).2) ∧
    buffers r' = (spec_accept (config r) (buffers r) client f now began).1 ∧
    reass_inv began r' ∧ config r' = config r.
Proof.
  intros Hi Ht Hn Hf. destruct (expire_spec t now r Hi) as (r1 & k & E & _).
  destruct (buffers_expired t r now r1 _ Hi E) as (Hr1 & Hc1 & Hb1 & _).
  unfold accept. rewrite E. cbn [mbind option_bind]. exists (acceptOne r1 client f began).1.
  assert ((acceptOne r1 client f began).2 = (spec_accept (config r) (buffers r) client f now began).2 ∧
    buffers (acceptOne r1 client f began).1 = (spec_accept (config r) (buffers r) client f now began).1 ∧
    reass_inv began (acceptOne r1 client f began).1 ∧ config (acceptOne r1 client f began).1 = config r)
    as (E2 & ? & ? & ?); [|split_and!; try done; rewrite <- E2; by destruct (acceptOne r1 client f began)].
  unfold spec_accept. rewrite <- Hc1. unfold config at 1 2. cbv beta iota.
  replace (reassembly.idle r1) with (reassembly.idle r) by (unfold config in Hc1; congruence).
  rewrite <- Hb1. set (key := (client, Fragment.RequestId f)).
  pose proof (firstAbort_eq (stateOf r1 client f)) as Hab.
  rewrite (misplaced_spec t r1 client f _ (buffers r1) began Hr1 eq_refl Hf eq_refl) in Hab.
  fold key in Hab. set (b := default _ (buffers r1 !! key)) in *.
  assert (buffered (stateOf r1 client f) + len (Fragment.Part f) =
          Z.of_nat (length (b_bytes b ++ octets (Fragment.Part f)))) as Hlen.
  { rewrite length_app. unfold len, buffered, stateOf, b. simpl. fold key. rewrite buffers_lookup.
    destruct (reassembly.inFlight r1 !! key); simpl; lia. }
  cbn [fragmentState.maxRequestBytes fragmentState.fragment stateOf] in Hab.
  rewrite Hlen in Hab. cbv zeta.
  assert (t <= began) as Htb by lia.
  pose proof (acceptOne_admitted t r1 client f began Hr1 Htb Hf) as Hadm. fold key in Hadm. cbv zeta in Hadm.
  fold b in Hadm.
  destruct (negb _).
  { unfold acceptOne. rewrite Hab, decide_False by done. fold key. cbn [fst snd].
    split_and!; [done|apply buffers_drop|apply (inv_later t); [done|by apply drop_inv]|by rewrite drop_config]. }
  destruct (_ <? _).
  { unfold acceptOne. rewrite Hab, decide_False by done. fold key. cbn [fst snd].
    split_and!; [done|apply buffers_drop|apply (inv_later t); [done|by apply drop_inv]|by rewrite drop_config]. }
  destruct (Hadm Hab) as (Hr & Hc & Heq). destruct (_ =? _); injection Heq as -> ->; done.
Qed.

(** ** Reachable states *)

(** The states of a reassembler made with [settings], fed any fragments of any clients and swept
    at any times of a clock that does not go back; the index is the last reading. *)
Inductive reached (settings : Z * Z * Z * Z) : time → reassembly.t → Prop :=
  | reached_new t :
      reached settings t
        (let '(maxBytes, perClient, maxOpen, idle) := settings in
         newReassembly maxBytes perClient maxOpen idle)
  | reached_accept t r client f now began r' answer :
      reached settings t r → t <= now → now <= began → fragment_ok f →
      accept r client f now began = Some (r', answer) → reached settings began r'
  | reached_sweep t r now r' n :
      reached settings t r → t <= now → sweepReassembly now r = Some (r', n) → reached settings now r'.

Lemma new_inv t maxBytes perClient maxOpen idle :
  reass_inv t (newReassembly maxBytes perClient maxOpen idle).
Proof.
  split; simpl; try (by constructor); try done; [by intros ?? ?%elem_of_nil|..]; intros; lia.
Qed.

Lemma reached_inv settings t r : reached settings t r → reass_inv t r ∧ config r = settings.
Proof.
  induction 1 as [t|t r client f now began r' answer _ [Hi Hc] Ht Hn Hf E|t r now r' n _ [Hi Hc] Ht E].
  - destruct settings as [[[? ?] ?] ?]. split; [apply new_inv|done].
  - destruct (accept_spec t r client f now began Hi Ht Hn Hf) as (r2 & E2 & _ & Hi2 & Hc2).
    rewrite E2 in E. injection E as <- _. split; [done|congruence].
  - destruct (buffers_expired t r now r' n Hi E) as (Hi2 & Hc2 & _).
    split; [by apply (inv_later t)|congruence].
Qed.

Lemma held_bytes_bound (maxBytes : Z) (m : gmap (list Z * Z) partial.t) :
  map_Forall (λ _ p, Z.of_nat (length (partial.bytes p)) <= maxBytes) m →
  0 <= map_fold (λ _ p acc, acc + Z.of_nat (length (partial.bytes p))) 0 m
    <= Z.of_nat (size m) * maxBytes.
Proof.
  induction m as [|k p m Hk Hf IH] using map_first_key_ind; intros Hm; [done|].
  rewrite map_fold_insert_first_key by done. rewrite map_size_insert_None by done.
  apply map_Forall_insert in Hm as [Hp Hm]; [|done]. specialize (IH Hm). lia.
Qed.

(** The per-client cap, the cap over all clients and the byte bound hold in every reachable
    state of the reassembler, and the per-client counts are exactly the buffers each client holds:
    a client with none has no entry, so the counts do not grow with the clients seen. *)
Lemma reassembly_bounded maxBytes perClient maxOpen idle t r :
  reached (maxBytes, perClient, maxOpen, idle) t r → 0 <= perClient →
  (∀ c, load (buffers r) c <= perClient) ∧
  (0 < maxOpen → Z.of_nat (size (reassembly.inFlight r)) <= maxOpen) ∧
  (∀ c n, reassembly.counts r !! c = Some n ↔ n = load (buffers r) c ∧ 0 < n) ∧
  map_Forall (λ _ p, Z.of_nat (length (partial.bytes p)) <= maxBytes ∧ partial.started p <= t)
    (reassembly.inFlight r) ∧
  (holding r).2 <= (holding r).1.1 * maxBytes.
Proof.
  intros [Hi Hc]%reached_inv Hpc. injection Hc as Emx Epc Emo _.
  pose proof (ri_flight _ _ Hi) as Hfl.
  split_and!.
  - intros c. rewrite (load_entries _ _ _ Hi). pose proof (ri_client _ _ Hi c). lia.
  - rewrite (flight_size _ _ Hi), <- Emo. apply Hi.
  - intros c n. rewrite (load_entries _ _ _ Hi), (ri_counts _ _ Hi). unfold count_entry.
    destruct (Nat.eqb_spec (length (client_entries c (reassembly.order r))) 0).
    + split; [done|lia].
    + split; [intros [= <-]; lia|intros [-> _]; done].
  - intros k p Hp. destruct (Hfl _ _ Hp) as [[? ? ? ?] _]. subst. done.
  - apply held_bytes_bound. intros k p Hp. destruct (Hfl _ _ Hp) as [[? ? ? ?] _]. by subst.
Qed.

(** C37: Every fragment is answered, and its effect on the buffers is the specification's
    [spec_accept]: an aborted request frees its own buffer and no other, no cap or order rule
    leaves a buffer behind, and the bytes handed up are the concatenation of the parts. *)
Theorem accept_refines_spec settings t r client f now began :
  reached settings t r → t <= now → now <= began → fragment_ok f →
  ∃ r', accept r client f now began =
      Some (r', (spec_accept settings (buffers r) client f now began).2) ∧
    buffers r' = (spec_accept settings (buffers r) client f now began).1.
Proof.
  intros [Hi <-]%reached_inv Ht Hn Hf.
  destruct (accept_spec t r client f now began Hi Ht Hn Hf) as (r' & E & Hb & _). by exists r'.
Qed.

(** A sweep ends, keeps exactly the buffers started no more than the idle bound before it,
    reports how many it dropped, and reads at most one entry of the expiry order more than that:
    its cost is what it drops and not what is held. *)
Lemma expire_exact settings t r now :
  reached settings t r →
  ∃ r' n k, sweepReassembly now r = Some (r', n) ∧
    buffers r' = fresh_enough (settings.2) now (buffers r) ∧
    n = Z.of_nat (size (buffers r)) - Z.of_nat (size (buffers r')) ∧
    u64 (expiryReads r') = u64 (expiryReads r + k) ∧ 0 <= k <= n + 1.
Proof.
  intros [Hi <-]%reached_inv. destruct (expire_spec t now r Hi) as (r' & k & E & Hr & Hc & Hm & Hx & Hk).
  destruct (buffers_expired t r now r' _ Hi E) as (_ & _ & Hb & Hn).
  eexists r', _, k. split; [exact E|]. simpl. split_and!; try done; lia.
Qed.

(** ** Fragments cut and assembled *)

(** A fragment a client sends, and the two clock readings of its [accept]. *)
Record event := Event { e_client : clientId; e_fragment : Fragment.t; e_now : time; e_began : time }.
Definition event_key (e : event) : reassemblyKey := (e_client e, Fragment.RequestId (e_fragment e)).

Fixpoint feed (r : reassembly.t) (events : list event) :
    option (reassembly.t * list (reassemblyKey * (slice * bool * Reason))) :=
  match events with
  | [] => Some (r, [])
  | e :: rest =>
      '(r, answer) ← accept r (e_client e) (e_fragment e) (e_now e) (e_began e);
      '(r, answers) ← feed r rest;
      Some (r, (event_key e, answer) :: answers)
  end.

(** The clock does not go back, and the readings stay within the bound the idle clock gives. *)
Fixpoint clocked (t : time) (idle limit : Z) (events : list event) : Prop :=
  match events with
  | [] => True
  | e :: rest =>
      t <= e_now e ∧ e_now e <= e_began e ∧ fragment_ok (e_fragment e) ∧
      (idle = 0 ∨ e_now e <= limit) ∧ clocked (e_began e) idle limit rest
  end.

Definition fragments_for (key : reassemblyKey) (events : list event) : list Fragment.t :=
  e_fragment <$> filter (λ e, event_key e = key) events.
Definition answers_for (key : reassemblyKey) (answers : list (reassemblyKey * (slice * bool * Reason))) :
    list (slice * bool * Reason) :=
  snd <$> filter (λ a : reassemblyKey * (slice * bool * Reason), a.1 = key) answers.

Definition all_parts (n : nat) (body : list Z) : list (slice * bool * Reason) :=
  repeat (None, false, REASON_OK) n ++ [(assembled body, true, REASON_OK)].

Lemma partSize_pos budget : 0 < partSize budget <= MaxFragmentPartBytes.
Proof.
  unfold partSize, MaxFragmentPartBytes. destruct (Z.leb_spec budget 0), (Z.ltb_spec 2048 budget); simpl; lia.
Qed.

Lemma fragmentCount_spec p (body : list Z) :
  0 < p → body ≠ [] →
  let c := Z.of_nat (fragmentCount p body) in let L := Z.of_nat (length body) in
  1 <= c ∧ (c - 1) * p < L ∧ L <= c * p ∧ c <= L.
Proof.
  intros Hp Hb c L. assert (1 <= L) by (unfold L; destruct body; [done|simpl; lia]).
  unfold c, fragmentCount. fold L. pose proof (Z.div_mod (L + p - 1) p ltac:(lia)) as Hd.
  pose proof (Z.mod_pos_bound (L + p - 1) p Hp). 
  assert (1 <= (L + p - 1) / p) by (apply Z.div_le_lower_bound; lia).
  rewrite Z2Nat.id by lia. split_and!; nia.
Qed.

Lemma part_appends p (body : list Z) requestId (i : nat) :
  0 < p → body ≠ [] → (i < fragmentCount p body)%nat →
  take (Z.to_nat (Z.of_nat i * p)) body ++
    octets (Fragment.Part (fragmentAt requestId p (fragmentCount p body) body i)) =
  take (Z.to_nat (Z.of_nat (S i) * p)) body.
Proof.
  intros Hp Hb Hi. destruct (fragmentCount_spec p body Hp Hb) as (_ & Hc & _ & _).
  unfold fragmentAt. simpl octets. rewrite take_take_drop.
  destruct (Z.min_spec (Z.of_nat (i + 1) * p) (Z.of_nat (length body))) as [[Hlt ->]|[Hle ->]].
  - f_equal. nia.
  - rewrite !take_ge; [done| |]; nia.
Qed.

Lemma parts_all p (body : list Z) :
  0 < p → body ≠ [] → take (Z.to_nat (Z.of_nat (fragmentCount p body) * p)) body = body.
Proof. intros Hp Hb. destruct (fragmentCount_spec p body Hp Hb) as (_ & _ & Hc & _). apply take_ge. nia. Qed.

Lemma fresh_enough_lookup idle now m key b :
  m !! key = Some b → idle = 0 ∨ now <= b_started b + idle → fresh_enough idle now m !! key = Some b.
Proof.
  intros Hm Hi. unfold fresh_enough. destruct (Z.eqb_spec idle 0); [done|].
  apply map_lookup_filter_Some. split; [done|]. simpl. lia.
Qed.

Lemma fresh_enough_subseteq idle now m : fresh_enough idle now m ⊆ m.
Proof. unfold fresh_enough. case_match; [done|]. apply map_filter_subseteq. Qed.

Lemma load_mono m m' c : m ⊆ m' → load m c <= load m' c.
Proof.
  intros Hs. unfold load. apply Nat2Z.inj_le. apply map_subseteq_size.
  apply map_subseteq_spec. intros k b [Hk Hc]%map_lookup_filter_Some.
  apply map_lookup_filter_Some. split; [|done]. by apply (lookup_weaken m).
Qed.

(** A fragment of another request leaves a fresh enough buffer as it is. *)
Lemma spec_accept_other settings m client f now began key b :
  (client, Fragment.RequestId f) ≠ key → m !! key = Some b →
  settings.2 = 0 ∨ now <= b_started b + settings.2 →
  (spec_accept settings m client f now began).1 !! key = Some b.
Proof.
  destruct settings as [[[maxBytes perClient] maxOpen] idle]. simpl. intros Hk Hm Hi.
  pose proof (fresh_enough_lookup idle now m key b Hm Hi) as Hl.
  repeat case_match; simplify_eq/=; by rewrite ?lookup_delete_ne, ?lookup_insert_ne by done.
Qed.

Section Assembly.
Context (maxBytes perClient maxOpen idle : Z) (client : clientId) (requestId p : Z) (body : list Z).
Context (p_pos : 0 < p) (body_cons : body ≠ []) (body_fits : Z.of_nat (length body) <= maxBytes)
  (body_32 : Z.of_nat (length body) < two32).
Let key : reassemblyKey := (client, requestId).
Let count : nat := fragmentCount p body.
Let settings := (maxBytes, perClient, maxOpen, idle).

(** The buffer after the first [i] fragments. *)
Definition after_parts (began : time) (i : nat) : buffer :=
  Buffer (Z.of_nat count) (take (Z.to_nat (Z.of_nat i * p)) body) (Z.of_nat i) began.

(** The next part is taken when the buffer is there, and when there is none and the caps leave
    room for one. *)
Lemma spec_accept_part m now began started i :
  (i < count)%nat →
  default (Buffer (Z.of_nat count) [] 0 began) (fresh_enough idle now m !! key) = after_parts started i →
  (is_Some (fresh_enough idle now m !! key) ∨
   load m client < perClient ∧ (0 < maxOpen → Z.of_nat (size m) < maxOpen)) →
  spec_accept settings m client (fragmentAt requestId p count body i) now began =
    if (S i =? count)%nat
    then (delete key (fresh_enough idle now m), (assembled body, true, REASON_OK))
    else (<[key := after_parts started (S i)]> (fresh_enough idle now m), (None, false, REASON_OK)).
Proof.
  intros Hi Hb Hroom. destruct (fragmentCount_spec p body p_pos body_cons) as (Hc1 & Hc2 & Hc3 & Hc4).
  fold count in Hc1, Hc2, Hc3, Hc4.
  pose proof (part_appends p body requestId i p_pos body_cons Hi) as Happ. fold count in Happ.
  assert (u32 (Z.of_nat i) = Z.of_nat i) as Hu1 by (apply u32_small; lia).
  assert (u32 (Z.of_nat count) = Z.of_nat count) as Hu2 by (apply u32_small; lia).
  unfold spec_accept, settings. 
  change (Fragment.RequestId (fragmentAt requestId p count body i)) with requestId. fold key.
  change (Fragment.Index (fragmentAt requestId p count body i)) with (u32 (Z.of_nat i)).
  change (Fragment.Count (fragmentAt requestId p count body i)) with (u32 (Z.of_nat count)).
  rewrite Hu1, Hu2, Hb. cbn [after_parts b_bytes b_next b_count b_started]. rewrite Happ.
  rewrite bool_decide_eq_true_2 by (split_and!; done || lia).
  rewrite bool_decide_eq_true_2.
  2:{ destruct Hroom as [?|[Hl Hg]]; [by left|right].
      pose proof (load_mono _ _ client (fresh_enough_subseteq idle now m)).
      pose proof (map_subseteq_size _ _ (fresh_enough_subseteq idle now m)). split; lia. }
  cbn [andb negb]. destruct (Z.ltb_spec maxBytes (Z.of_nat (length (take (Z.to_nat (Z.of_nat (S i) * p)) body)))) as [Hlt|_].
  { rewrite length_take in Hlt. lia. }
  destruct (Nat.eqb_spec (S i) count) as [E|E], (Z.eqb_spec (Z.of_nat i + 1) (Z.of_nat count)); try lia.
  - rewrite E. unfold count. by rewrite parts_all.
  - unfold after_parts. do 3 f_equal. lia.
Qed.

Lemma feed_cons t r e rest :
  reass_inv t r → config r = settings → t <= e_now e → e_now e <= e_began e → fragment_ok (e_fragment e) →
  ∃ r', reass_inv (e_began e) r' ∧ config r' = settings ∧
    buffers r' = (spec_accept settings (buffers r) (e_client e) (e_fragment e) (e_now e) (e_began e)).1 ∧
    feed r (e :: rest) =
      '(r2, answers) ← feed r' rest;
      Some (r2, (event_key e,
        (spec_accept settings (buffers r) (e_client e) (e_fragment e) (e_now e) (e_began e)).2) :: answers).
Proof.
  intros Hi Hc Ht Hn Hf.
  destruct (accept_spec t r (e_client e) (e_fragment e) (e_now e) (e_began e) Hi Ht Hn Hf)
    as (r' & E & Hb & Hi' & Hc'). exists r'. rewrite Hc in E, Hb. split_and!; try done; [congruence|].
  cbn [feed]. rewrite E. done.
Qed.

Lemma answers_cons k a (answers : list (reassemblyKey * (slice * bool * Reason))) :
  answers_for key ((k, a) :: answers) = (if decide (k = key) then [a] else []) ++ answers_for key answers.
Proof. unfold answers_for. rewrite filter_cons. simpl. by case_decide. Qed.

Lemma fragments_cons e events :
  fragments_for key (e :: events) =
    (if decide (event_key e = key) then [e_fragment e] else []) ++ fragments_for key events.
Proof. unfold fragments_for. rewrite filter_cons. by case_decide. Qed.

Lemma feed_other t limit r events :
  reass_inv t r → config r = settings → clocked t idle limit events → fragments_for key events = [] →
  ∃ r' answers, feed r events = Some (r', answers) ∧ answers_for key answers = [].
Proof.
  revert t r. induction events as [|e events IH]; intros t r Hi Hc Hck Hev; [by exists r, []|].
  destruct Hck as (Ht & Hn & Hf & _ & Hck). rewrite fragments_cons in Hev.
  destruct (decide (event_key e = key)) as [|Hne]; [done|].
  destruct (feed_cons t r e events Hi Hc Ht Hn Hf) as (r1 & Hi1 & Hc1 & _ & ->).
  destruct (IH _ r1 Hi1 Hc1 Hck Hev) as (r2 & answers & -> & Ha). simpl.
  eexists _, _. split; [done|]. rewrite answers_cons, decide_False by done. done.
Qed.

Lemma feed_rest t began i r events :
  (0 < i < count)%nat → reass_inv t r → config r = settings → clocked t idle (began + idle) events →
  buffers r !! key = Some (after_parts began i) →
  fragments_for key events = fragmentAt requestId p count body <$> seq i (count - i) →
  ∃ r' answers, feed r events = Some (r', answers) ∧
    answers_for key answers = all_parts (count - i - 1) body.
Proof.
  revert t i r. induction events as [|e events IH]; intros t i r Hic Hi Hc Hck Hb Hev.
  { destruct (count - i)%nat eqn:?; [lia|done]. }
  destruct Hck as (Ht & Hn & Hf & Hl & Hck). rewrite fragments_cons in Hev.
  pose proof (fresh_enough_lookup idle (e_now e) (buffers r) key _ Hb Hl) as Hfe.
  destruct (feed_cons t r e events Hi Hc Ht Hn Hf) as (r1 & Hi1 & Hc1 & Hb1 & ->).
  destruct (decide (event_key e = key)) as [Hk|Hne].
  - destruct (count - i)%nat as [|n] eqn:En; [lia|]. simpl in Hev. injection Hev as Hef Hev.
    injection Hk as Ecl Erq.
    rewrite Ecl, Hef in Hb1 |- *. 
    rewrite (spec_accept_part _ _ _ began i) in Hb1 |- *; [|lia|by rewrite Hfe|left; by eexists|
      lia|by rewrite Hfe|left; by eexists].
    destruct (Nat.eqb_spec (S i) count) as [E|E].
    + assert (n = 0%nat) as -> by lia. 
      destruct (feed_other _ (began + idle) r1 events Hi1 Hc1 Hck Hev) as (r2 & answers & -> & Ha).
      simpl. eexists _, _. split; [done|]. rewrite answers_cons, Ha.
      rewrite decide_True; [done|]. unfold event_key. by rewrite Ecl, Hef.
    + assert (0 < S i < count)%nat as HSi by lia.
      assert (n = count - S i)%nat as En' by lia. rewrite En' in Hev.
      destruct (IH _ (S i) r1 HSi Hi1 Hc1 Hck) as (r2 & answers & -> & Ha); [|done|].
      { rewrite Hb1. apply lookup_insert_eq. }
      simpl. eexists _, _. split; [done|]. rewrite answers_cons, Ha.
      rewrite decide_True by (unfold event_key; by rewrite Ecl, Hef).
      replace (n - 0)%nat with (S (count - S i - 1)) by lia. done.
  - simpl in Hev. destruct (IH _ i r1 Hic Hi1 Hc1 Hck) as (r2 & answers & -> & Ha); [|done|].
    { rewrite Hb1. apply spec_accept_other; done. }
    simpl. eexists _, _. split; [done|]. by rewrite answers_cons, decide_False.
Qed.
End Assembly.

(** C38: Round trip of the framing: a body cut by the sender's side, its fragments sent in order
    with any fragments of other requests and other clients between them, is handed up whole with
    its last fragment and with nothing before it, provided the first fragment finds room under
    the caps, the body is within the byte bound and the fragments come within the idle bound. *)
Theorem fragments_assemble maxBytes perClient maxOpen idle t r client requestId partBytes body first events :
  reached (maxBytes, perClient, maxOpen, idle) t r →
  buffers r !! (client, requestId) = None →
  load (buffers r) client < perClient →
  (0 < maxOpen → Z.of_nat (size (buffers r)) < maxOpen) →
  body ≠ [] → Z.of_nat (length body) <= maxBytes → Z.of_nat (length body) < two32 →
  event_key first = (client, requestId) →
  clocked t idle (e_began first + idle) (first :: events) →
  fragments_for (client, requestId) (first :: events) = fragmentsOf requestId partBytes body →
  ∃ r' answers, feed r (first :: events) = Some (r', answers) ∧
    answers_for (client, requestId) answers =
      all_parts (length (fragmentsOf requestId partBytes body) - 1) body.
Proof.
  intros [Hi Hc]%reached_inv Hnone Hload Hopen Hne Hmx H32 Hk Hck Hev.
  pose proof (partSize_pos partBytes) as [Hp _]. unfold fragmentsOf in *.
  destruct (fragmentCount_spec _ body Hp Hne) as (Hc1 & _).
  set (p := partSize partBytes) in *. rewrite length_fmap, length_seq.
  destruct Hck as (Ht & Hn & Hf & _ & Hck).
  assert (seq 0 (fragmentCount p body) = 0%nat :: seq 1 (fragmentCount p body - 1)) as Hseq.
  { destruct (fragmentCount p body); [lia|]. simpl. by rewrite Nat.sub_0_r. }
  rewrite fragments_cons, decide_True, Hseq in Hev by done.
  rewrite fmap_cons in Hev. injection Hev as Hef Hev. pose proof Hk as [= Ecl Erq].
  destruct (feed_cons maxBytes perClient maxOpen idle t r first events Hi Hc Ht Hn Hf)
    as (r1 & Hi1 & Hc1' & Hb1 & ->).
  rewrite Ecl, Hef in Hb1 |- *.
  assert (fresh_enough idle (e_now first) (buffers r) !! (client, requestId) = None) as Hfn.
  { apply (lookup_weaken_None _ (buffers r)); [done|apply fresh_enough_subseteq]. }
  pose proof (spec_accept_part maxBytes perClient maxOpen idle client requestId p body Hp Hne Hmx H32
    (buffers r) (e_now first) (e_began first) (e_began first) 0) as Hsp.
  rewrite Hsp in Hb1 |- *; [|lia|rewrite Hfn; done|by right|lia|rewrite Hfn; done|by right].
  destruct (Nat.eqb_spec 1 (fragmentCount p body)) as [E|E].
  - rewrite <- E in Hev |- *.
    destruct (feed_other maxBytes perClient maxOpen idle client requestId (e_began first)
      (e_began first + idle) r1 events Hi1 Hc1' Hck Hev) as (r2 & answers & -> & Ha).
    simpl. eexists _, _. split; [done|]. by rewrite answers_cons, decide_True, Ha.
  - destruct (feed_rest maxBytes perClient maxOpen idle client requestId p body Hp Hne Hmx H32
      (e_began first) (e_began first) 1 r1 events) as (r2 & answers & -> & Ha); try done; [lia| |].
    { rewrite Hb1. apply lookup_insert_eq. }
    simpl. eexists _, _. split; [done|]. rewrite answers_cons, decide_True, Ha by done.
    destruct (fragmentCount p body - 1)%nat as [|n] eqn:En; [lia|]. simpl. by rewrite Nat.sub_0_r.
Qed.

(** ** A run of the reassembler *)

Module Run.
Definition settings : Z * Z * Z * Z := (100, 2, 4, 30).
Definition one : Fragment.t := Fragment.mk 1 0 3 (Some [1; 2]).
Definition two : Fragment.t := Fragment.mk 1 1 3 (Some [3]).
Definition new : reassembly.t := newReassembly 100 2 4 30.
(** One client has sent the first of three fragments. *)
Definition state : reassembly.t := default new (fst <$> accept new [7] one 5 6).
Definition body : list Z := [10; 20; 30; 40; 50].
Definition part (i : nat) : Fragment.t := fragmentAt 2 2 3 body i.
Definition other : event := Event [9] (Fragment.mk 2 0 2 None) 9 9.
Definition first : event := Event [7] (part 0) 7 8.
Definition rest : list event :=
  [other; Event [7] (part 1) 10 10; Event [7] two 11 11; Event [7] (part 2) 12 12].
End Run.

Lemma run_reached : reached Run.settings 6 Run.state.
Proof.
  apply (reached_accept _ 5 Run.new [7] Run.one 5 6 Run.state (None, false, REASON_OK)); try lia.
  - apply (reached_new Run.settings).
  - split; vm_compute; split; congruence.
  - vm_compute. reflexivity.
Defined.

Lemma reassembly_bounded_witness :
  reached Run.settings 6 Run.state ∧ load (buffers Run.state) [7] = 1 ∧
  (holding Run.state).2 <= (holding Run.state).1.1 * 100.
Proof.
  split; [exact run_reached|]. split; [vm_compute; reflexivity|].
  apply (reassembly_bounded 100 2 4 30 6 Run.state run_reached). lia.
Defined.

Lemma accept_refines_spec_witness :
  (∃ r', accept Run.state [7] Run.two 40 41 =
      Some (r', (spec_accept Run.settings (buffers Run.state) [7] Run.two 40 41).2) ∧
    buffers r' = (spec_accept Run.settings (buffers Run.state) [7] Run.two 40 41).1) ∧
  (spec_accept Run.settings (buffers Run.state) [7] Run.two 40 41).2 = (None, false, REASON_REJECTED) ∧
  (spec_accept Run.settings (buffers Run.state) [7] Run.two 20 21).2 = (None, false, REASON_OK).
Proof.
  split; [|split; vm_compute; reflexivity].
  apply (accept_refines_spec Run.settings 6); [exact run_reached|lia|lia|].
  split; vm_compute; split; congruence.
Defined.

Lemma expire_exact_witness :
  (∃ r' n k, sweepReassembly 37 Run.state = Some (r', n) ∧
    buffers r' = fresh_enough 30 37 (buffers Run.state) ∧
    n = Z.of_nat (size (buffers Run.state)) - Z.of_nat (size (buffers r')) ∧
    u64 (expiryReads r') = u64 (expiryReads Run.state + k) ∧ 0 <= k <= n + 1) ∧
  (snd <$> expire 36 Run.state) = Some 0 ∧ (snd <$> expire 37 Run.state) = Some 1.
Proof.
  split; [|split; vm_compute; reflexivity].
  exact (expire_exact Run.settings 6 Run.state 37 run_reached).
Defined.

Lemma fragments_assemble_witness :
  ∃ r' answers, feed Run.state (Run.first :: Run.rest) = Some (r', answers) ∧
    answers_for ([7], 2) answers =
      [(None, false, REASON_OK); (None, false, REASON_OK); (Some Run.body, true, REASON_OK)].
Proof.
  destruct (fragments_assemble 100 2 4 30 6 Run.state [7] 2 2 Run.body Run.first Run.rest)
    as (r' & answers & E & Ha).
  - exact run_reached.
  - vm_compute. reflexivity.
  - vm_compute. reflexivity.
  - intros _. vm_compute. reflexivity.
  - discriminate.
  - vm_compute. discriminate.
  - vm_compute. reflexivity.
  - reflexivity.
  - cbn [clocked Run.first Run.rest Run.other e_now e_began e_fragment].
    split_and!; try lia; try (right; lia); try exact I; split; vm_compute; split; congruence.
  - vm_compute. reflexivity.
  - exists r', answers. split; [exact E|]. rewrite Ha. vm_compute. reflexivity.
Defined.
