(* ===== verification/Connections.v ===== *)
(** * Connections, Hello and the connection checks ([peer/connection.go], [peer/hello.go],
    [peer/checks.go])

    One connection is one Hello epoch of one client id, and carries the nonce requests are
    authenticated against.  Connections are shared by pointer: the live map and a request in
    flight hold the same object, a lookup writes its [seen], and liveness compares pointers.  So
    the store of connection objects is explicit: an address is a number, and the live map holds
    addresses.  A clock reading is an argument, one per reading of the code; what [io.ReadFull]
    gives on the random source is an argument too, [None] for a source that answers short. *)

From S2P Require Import Prelude StoreTypes Reassembly.

(** ** Data *)

Module Connection.
Record t := mk { clientId : list Z; nonce : list Z; generation : Z; seen : time }.
End Connection.

Module Connections.
Record t := mk {
  idle : Z;
  heap : gmap nat Connection.t;
  next : nat;
  live : gmap (list Z) nat }.
Definition set_live (l : gmap (list Z) nat) (s : t) : t := mk (idle s) (heap s) (next s) l.
End Connections.

Inductive ConnectionError : Type := ErrNoRandom | ErrShortNonce | ErrNoConnections | ErrNoRequestBytes.

Definition NewConnections (hasRandom : bool) (idle : Z) : res ConnectionError Connections.t :=
  if negb hasRandom then Err ErrNoRandom else Ok (Connections.mk idle ∅ 0 ∅).

(** ** The operations *)

(** [expired]: silent for longer than the bound; a zero bound is no bound. *)
Definition expired (self : Connections.t) (current : Connection.t) (now : time) : bool :=
  if Connections.idle self =? 0 then false
  else Before (Connection.seen current) (now - Connections.idle self).

(** The object at an address of the store; an address the code holds is always allocated. *)
Definition expiredAt (self : Connections.t) (addr : nat) (now : time) : bool :=
  match Connections.heap self !! addr with Some current => expired self current now | None => false end.

Definition touch (now : time) (current : Connection.t) : Connection.t :=
  Connection.mk (Connection.clientId current) (Connection.nonce current)
    (Connection.generation current) now.

(** The loop of [sweep], over the entries of the live map in the order it is ranged in. *)
Fixpoint sweepLoop (entries : list (list Z * nat)) (now : time) (self : Connections.t) (closed : Z) :
    Connections.t * Z :=
  match entries with
  | [] => (self, closed)
  | (clientId, addr) :: rest =>
      if expiredAt self addr now
      then sweepLoop rest now
             (Connections.set_live (delete clientId (Connections.live self)) self) (closed + 1)
      else sweepLoop rest now self closed
  end.

(** [sweep]; [Sweep] is it under the lock. *)
Definition sweep (now : time) (self : Connections.t) : Connections.t * Z :=
  if Connections.idle self =? 0 then (self, 0)
  else sweepLoop (map_to_list (Connections.live self)) now self 0.

Definition Sweep (now : time) (self : Connections.t) : Connections.t * Z := sweep now self.

Definition previousGeneration (self : Connections.t) (clientId : clientId) : option Z :=
  addr ← Connections.live self !! clientId;
  Connection.generation <$> Connections.heap self !! addr.

Definition Open (drawn : option (list Z)) (clientId : clientId) (swept now : time)
    (self : Connections.t) : res ConnectionError (Connections.t * nat) :=
  match drawn with
  | None => Err ErrShortNonce
  | Some nonce =>
      let generation :=
        match previousGeneration self clientId with
        | Some previous => u64 (previous + 1)
        | None => 1
        end in
      let self := (sweep swept self).1 in
      let addr := Connections.next self in
      Ok (Connections.mk (Connections.idle self)
            (<[addr := Connection.mk clientId nonce generation now]> (Connections.heap self)) (S addr)
            (<[clientId := addr]> (Connections.live self)), addr)
  end.

Definition Lookup (clientId : clientId) (now : time) (self : Connections.t) :
    Connections.t * option nat :=
  match Connections.live self !! clientId with
  | None => (self, None)
  | Some addr =>
      if expiredAt self addr now
      then (Connections.set_live (delete clientId (Connections.live self)) self, None)
      else (Connections.mk (Connections.idle self) (alter (touch now) addr (Connections.heap self))
              (Connections.next self) (Connections.live self), Some addr)
  end.

Definition Peek (clientId : clientId) (now : time) (self : Connections.t) : option nat :=
  match Connections.live self !! clientId with
  | None => None
  | Some addr => if expiredAt self addr now then None else Some addr
  end.

(** [IsLive]: the pointer given is the one the live map holds, and it has not expired. *)
Definition IsLive (current : option nat) (now : time) (self : Connections.t) : bool :=
  match current with
  | None => false
  | Some addr =>
      match Connections.heap self !! addr with
      | None => false
      | Some connection =>
          if negb (bool_decide
                (Connections.live self !! Connection.clientId connection = Some addr)) then false
          else negb (expired self connection now)
      end
  end.

Definition Count (self : Connections.t) : Z := Z.of_nat (size (Connections.live self)).

(** The accessors of a connection. *)
Definition ServerNonce (current : Connection.t) : slice := assembled (Connection.nonce current).
Definition Holds (current : Connection.t) (nonce : slice) : bool :=
  bool_decide (Connection.nonce current = octets nonce).

(** ** The connection checks *)

(** [api.Connection], and the part of [inbound] the checks read. *)
Module ApiConnection.
Record t := mk { ServerNonce : slice; ClientId : list Z }.
End ApiConnection.

Definition apiConnection (current : Connection.t) : ApiConnection.t :=
  ApiConnection.mk (ServerNonce current) (Connection.clientId current).

Module inbound.
Record t := mk { clientId : list Z; bytes : Z; connection : option nat }.
Definition set_connection (a : option nat) (i : t) : t := mk (clientId i) (bytes i) a.
End inbound.

Module Checks.
Record t := mk { maxRequestBytes : Z }.
End Checks.

Definition NewChecks (hasConnections : bool) (maxRequestBytes : Z) : res ConnectionError Checks.t :=
  if negb hasConnections then Err ErrNoConnections
  else if maxRequestBytes <=? 0 then Err ErrNoRequestBytes
  else Ok (Checks.mk maxRequestBytes).

(** The arrival a context carries is an option: [inboundOf] finds one that is not nil or none. *)
Definition FrameWithinLimits (self : Checks.t) (arrived : option inbound.t) : Reason :=
  match arrived with
  | None => REASON_INTERNAL
  | Some arrived => withinLimits (inbound.bytes arrived) (Checks.maxRequestBytes self)
  end.

Definition ConnectionAuthenticated (arrived : option inbound.t) (conn : option ApiConnection.t)
    (now : time) (connections : Connections.t) : Reason :=
  match arrived, conn with
  | Some arrived, Some conn =>
      match inbound.connection arrived with
      | None => REASON_REJECTED
      | Some addr =>
          if negb (IsLive (Some addr) now connections) then REASON_REJECTED
          else match Connections.heap connections !! addr with
               | None => REASON_REJECTED
               | Some current =>
                   if negb (Holds current (ApiConnection.ServerNonce conn)) then REASON_REJECTED
                   else REASON_OK
               end
      end
  | _, _ => REASON_REJECTED
  end.

(** ** Hello *)

Section Hello.
(** The advertisement is a value of the protocol library, handed out as it is held. *)
Context {Capabilities : Type}.

Record HelloResponse := mkHello {
  ProtocolVersion : Z;
  ServerId : slice;
  ServerTimeMs : Z;
  HelloNonce : slice;
  HelloCapabilities : Capabilities }.

(** The fields of [Peer] that Hello reads. *)
Record HelloPeer := mkHelloPeer {
  protocolVersion : Z;
  serverId : list Z;
  capabilities : Capabilities }.

Record HelloAnswer := mkAnswer {
  answer_arrived : inbound.t;
  answer_reason : Reason;
  answer_response : option HelloResponse;
  answer_error : option ConnectionError }.

(** [hello]: [swept], [opened] and [answered] are its clock readings. *)
Definition hello (self : HelloPeer) (connections : Connections.t) (arrived : inbound.t)
    (supportedVersions : list Z) (drawn : option (list Z)) (swept opened answered : time) :
    Connections.t * HelloAnswer :=
  if negb (bool_decide (protocolVersion self ∈ supportedVersions))
  then (connections, mkAnswer arrived REASON_UNSUPPORTED_VERSION None None)
  else match Open drawn (inbound.clientId arrived) swept opened connections with
       | Err err => (connections, mkAnswer arrived REASON_INTERNAL None (Some err))
       | Ok (connections, addr) =>
           (connections,
            mkAnswer (inbound.set_connection (Some addr) arrived) REASON_OK
              (Some (mkHello (protocolVersion self) (assembled (serverId self))
                       (u64 (UnixMilli answered))
                       (match Connections.heap connections !! addr with
                        | Some current => ServerNonce current | None => None end)
                       (capabilities self))) None)
       end.
End Hello.
Arguments HelloResponse : clear implicits.
Arguments HelloPeer : clear implicits.
Arguments HelloAnswer : clear implicits.
