(* ===== verification/ConnectionProps.v ===== *)
(** * What the connection table guarantees

    Which nonce authenticates a request, that a connection once ended never comes back, that the
    three methods that apply the idle bound and the sweep agree, that every Hello bounds the live
    map, and what Hello does on each of its branches. *)

From S2P Require Import Prelude StoreTypes Reassembly Connections.

(** ** The sweep is a filter *)

Definition keeps (s : Connections.t) (now : time) (live : gmap (list Z) nat) : gmap (list Z) nat :=
  filter (λ kv : list Z * nat, expiredAt s kv.2 now = false) live.

Lemma expiredAt_set_live s l a now : expiredAt (Connections.set_live l s) a now = expiredAt s a now.
Proof. done. Qed.

Lemma sweepLoop_eq entries now s n :
  ∃ l, sweepLoop entries now s n =
      (Connections.set_live l s,
       n + Z.of_nat (length (filter (λ e : list Z * nat, expiredAt s e.2 now = true) entries))) ∧
    (∀ c a, (c, a) ∈ entries → expiredAt s a now = true → l !! c = None) ∧
    (∀ c, (∀ a, (c, a) ∈ entries → expiredAt s a now = false) → l !! c = Connections.live s !! c) ∧
    l ⊆ Connections.live s.
Proof.
  revert s n. induction entries as [|[c a] entries IH]; intros s n.
  - exists (Connections.live s). destruct s. simpl. rewrite Z.add_0_r. split_and!; try done.
    by intros c a ?%elem_of_nil.
  - simpl. rewrite filter_cons. simpl. destruct (expiredAt s a now) eqn:Ha.
    + destruct (IH (Connections.set_live (delete c (Connections.live s)) s) (n + 1))
        as (l & -> & H1 & H2 & H3). rewrite decide_True by done. exists l.
      assert (l ⊆ Connections.live s) as Hs by (etrans; [exact H3|apply delete_subseteq]).
      split_and!; [cbn [length]; rewrite Nat2Z.inj_succ, <- Z.add_1_l, Z.add_assoc; reflexivity| |intros c' Hc'|done].
      * intros c' a' [E|Hin]%list_elem_of_In Hx.
        -- injection E as <- <-. apply (lookup_weaken_None _ (delete c (Connections.live s))); [|done].
           apply lookup_delete_eq.
        -- apply list_elem_of_In in Hin. by apply (H1 c' a').
      * rewrite H2 by (intros a' Hin; apply Hc'; by right). simpl.
        apply lookup_delete_ne. intros <-. rewrite (Hc' a (list_elem_of_here _ _)) in Ha. done.
    + rewrite decide_False by done. destruct (IH s n) as (l & -> & H1 & H2 & H3). exists l.
      split_and!; [done| |intros c' Hc'; apply H2; intros a' Hin; apply Hc'; by right|done].
      intros c' a' [E|Hin]%list_elem_of_In Hx; [congruence|].
      apply list_elem_of_In in Hin. by apply (H1 c' a').
Qed.

(** In whatever order the live map is ranged, the entries that go are the expired ones. *)
Lemma sweepLoop_order entries now s n :
  entries ≡ₚ map_to_list (Connections.live s) →
  sweepLoop entries now s n =
    (Connections.set_live (keeps s now (Connections.live s)) s,
     n + (Z.of_nat (size (Connections.live s)) - Z.of_nat (size (keeps s now (Connections.live s))))).
Proof.
  intros Hp. destruct (sweepLoop_eq entries now s n) as (l & -> & H1 & H2 & H3).
  assert (∀ c a, (c, a) ∈ entries ↔ Connections.live s !! c = Some a) as He.
  { intros c a. rewrite Hp. apply elem_of_map_to_list. }
  f_equal; [f_equal; apply map_eq; intros c|].
  - unfold keeps. destruct (Connections.live s !! c) as [a|] eqn:Hc.
    + destruct (expiredAt s a now) eqn:Hx.
      * rewrite (H1 c a) by (done || by apply He). symmetry.
        apply map_lookup_filter_None. right. intros a' Ha'. simpl. congruence.
      * rewrite H2, Hc; [symmetry; by apply map_lookup_filter_Some|].
        intros a' ?%He. congruence.
    + rewrite (lookup_weaken_None _ _ _ Hc H3). symmetry. apply map_lookup_filter_None. by left.
  - rewrite Hp. f_equal. unfold keeps. rewrite map_filter_alt, map_size_list_to_map.
    + rewrite <- length_map_to_list.
      pose proof (length_filter_split (λ e : list Z * nat, expiredAt s e.2 now = true)
        (λ e : list Z * nat, expiredAt s e.2 now = false) (map_to_list (Connections.live s))) as Hl.
      rewrite <- Hl; [lia|]. intros e. destruct (expiredAt s e.2 now); split; congruence.
    + apply filter_nodup, NoDup_fst_map_to_list.
Qed.

Lemma sweep_eq now s :
  sweep now s =
    (Connections.set_live (keeps s now (Connections.live s)) s,
     Z.of_nat (size (Connections.live s)) - Z.of_nat (size (keeps s now (Connections.live s)))).
Proof.
  unfold sweep. destruct (Connections.idle s =? 0) eqn:Hidle; [|by rewrite sweepLoop_order].
  assert (keeps s now (Connections.live s) = Connections.live s) as ->.
  { apply map_filter_id. intros c a _. simpl. unfold expiredAt, expired. rewrite Hidle. by case_match. }
  rewrite Z.sub_diag. by destruct s.
Qed.

(** ** Runs *)

(** One operation that changes the table, at readings of a clock that does not go back, with the
    nonce it issued, if any. *)
Inductive cstep : time → Connections.t → option (clientId * list Z) → time → Connections.t → Prop :=
  | step_open t s drawn nonce c swept now s' a :
      t <= swept → swept <= now → drawn = Some nonce → Open drawn c swept now s = Ok (s', a) →
      cstep t s (Some (c, nonce)) now s'
  | step_lookup t s c now :
      t <= now → cstep t s None now (Lookup c now s).1
  | step_sweep t s now :
      t <= now → cstep t s None now (Sweep now s).1.

(** The nonces issued so far, the newest first. *)
Inductive crun (idle : Z) : time → list (clientId * list Z) → Connections.t → Prop :=
  | crun_new t : crun idle t [] (Connections.mk idle ∅ 0 ∅)
  | crun_step t h s i t' s' :
      crun idle t h s → cstep t s i t' s' → crun idle t' (option_list i ++ h) s'.

Inductive later : time → Connections.t → time → Connections.t → Prop :=
  | later_refl t s t' : t <= t' → later t s t' s
  | later_step t s t1 s1 i t2 s2 : later t s t1 s1 → cstep t1 s1 i t2 s2 → later t s t2 s2.

(** The nonce of a client's last Hello. *)
Fixpoint latest (h : list (clientId * list Z)) (c : clientId) : option (list Z) :=
  match h with
  | [] => None
  | (c', nonce) :: h => if decide (c' = c) then Some nonce else latest h c
  end.

Record conn_inv (h : list (clientId * list Z)) (t : time) (s : Connections.t) : Prop := ConnInv {
  ci_live : ∀ c a, Connections.live s !! c = Some a →
      ∃ k, Connections.heap s !! a = Some k ∧ Connection.clientId k = c ∧
           latest h c = Some (Connection.nonce k);
  ci_heap : ∀ a k, Connections.heap s !! a = Some k →
      (a < Connections.next s)%nat ∧ Connection.seen k <= t }.

Lemma Open_eq nonce c swept now s :
  ∃ g, Open (Some nonce) c swept now s =
    Ok (Connections.mk (Connections.idle s)
          (<[Connections.next s := Connection.mk c nonce g now]> (Connections.heap s))
          (S (Connections.next s))
          (<[c := Connections.next s]> (keeps s swept (Connections.live s))), Connections.next s).
Proof. eexists. unfold Open. rewrite sweep_eq. reflexivity. Qed.

(** A sweep only takes entries away. *)
Lemma shrink_inv h t t' s l :
  conn_inv h t s → t <= t' → l ⊆ Connections.live s → conn_inv h t' (Connections.set_live l s).
Proof.
  intros [Hl Hh] Ht Hs. split; simpl.
  - intros c a Ha. apply Hl. by apply (lookup_weaken l).
  - intros a k Hk. destruct (Hh _ _ Hk). split; [done|lia].
Qed.

Lemma Lookup_cases c now s :
  match Connections.live s !! c with
  | None => Lookup c now s = (s, None)
  | Some a =>
      if expiredAt s a now then
        Lookup c now s = (Connections.set_live (delete c (Connections.live s)) s, None)
      else Lookup c now s =
        (Connections.mk (Connections.idle s) (alter (touch now) a (Connections.heap s))
           (Connections.next s) (Connections.live s), Some a)
  end.
Proof. unfold Lookup. repeat case_match; congruence. Qed.

Lemma touched_inv h t now s a :
  conn_inv h t s → t <= now →
  conn_inv h now (Connections.mk (Connections.idle s) (alter (touch now) a (Connections.heap s))
                    (Connections.next s) (Connections.live s)).
Proof.
  intros [Hl Hh] Ht. split; simpl.
  - intros c b Hb. destruct (Hl _ _ Hb) as (k & Hk & Hc & Hn).
    destruct (decide (a = b)) as [<-|]; [|exists k; by rewrite lookup_alter_ne].
    exists (touch now k). rewrite lookup_alter_eq, Hk. done.
  - intros b k Hk. destruct (decide (a = b)) as [<-|].
    + rewrite lookup_alter_eq in Hk. apply fmap_Some in Hk as (k' & Hk' & ->).
      destruct (Hh _ _ Hk'). simpl. split; [done|lia].
    + rewrite lookup_alter_ne in Hk by done. destruct (Hh _ _ Hk). split; [done|lia].
Qed.

Lemma cstep_inv h t s i t' s' : conn_inv h t s → cstep t s i t' s' →
  conn_inv (option_list i ++ h) t' s' ∧ Connections.idle s' = Connections.idle s.
Proof.
  intros Hi Hstep. destruct Hstep as [t s ? nonce c swept now s' a Ht Hn -> E|t s c now Ht|t s now Ht]; simpl.
  - destruct (Open_eq nonce c swept now s) as (g & E2). rewrite E2 in E. injection E as <- <-.
    split; [|done]. destruct Hi as [Hl Hh]. split; simpl.
    + intros c' b Hb. destruct (decide (c = c')) as [<-|Hne].
      * rewrite lookup_insert_eq in Hb. injection Hb as <-. rewrite lookup_insert_eq.
        eexists. by split_and!.
      * rewrite lookup_insert_ne in Hb by done. apply map_lookup_filter_Some in Hb as [Hb _].
        destruct (Hl _ _ Hb) as (k & Hk & Hc & Hlat). exists k.
        destruct (Hh _ _ Hk). rewrite lookup_insert_ne by lia. by split_and!.
    + intros b k Hk. apply lookup_insert_Some in Hk as [[<- <-]|[Hne Hk]]; simpl; [lia|].
      destruct (Hh _ _ Hk). lia.
  - pose proof (Lookup_cases c now s) as Hc. repeat case_match; rewrite Hc; simpl.
    + split; [|done]. apply (shrink_inv _ t); [done..|]. apply delete_subseteq.
    + split; [|done]. by apply (touched_inv _ t).
    + split; [|done]. destruct Hi as [Hl Hh]. split; [done|]. intros a k Hk. destruct (Hh _ _ Hk). lia.
  - unfold Sweep. rewrite sweep_eq. simpl. split; [|done].
    apply (shrink_inv _ t); [done..|]. apply map_filter_subseteq.
Qed.

Lemma crun_inv idle t h s : crun idle t h s → conn_inv h t s ∧ Connections.idle s = idle.
Proof.
  induction 1 as [t|t h s i t' s' _ [Hi Hc] Hstep].
  - split; [|done]. split; simpl; [intros c a|intros a k]; by rewrite lookup_empty.
  - destruct (cstep_inv _ _ _ _ _ _ Hi Hstep) as [? Hc']. split; [done|congruence].
Qed.

(** ** Liveness *)

Lemma IsLive_spec a now s :
  IsLive (Some a) now s = true ↔
    ∃ k, Connections.heap s !! a = Some k ∧ Connections.live s !! Connection.clientId k = Some a ∧
         expired s k now = false.
Proof.
  unfold IsLive. destruct (Connections.heap s !! a) as [k|] eqn:Hk.
  - destruct (bool_decide _) eqn:Hb; reflect_bools; simpl; split.
    + intros ?%negb_true_iff. by exists k.
    + by intros (k' & [= <-] & _ & ->).
    + done.
    + by intros (k' & [= <-] & ? & _).
  - split; [done|]. by intros (? & ? & _).
Qed.

(** A connection no longer resolves from [now] on. *)
Definition dead (a : nat) (now : time) (s : Connections.t) : Prop :=
  ∃ k, Connections.heap s !! a = Some k ∧
    (Connections.live s !! Connection.clientId k ≠ Some a ∨ expired s k now = true).

Lemma expired_later s k t t' : t <= t' → expired s k t = true → expired s k t' = true.
Proof. unfold expired, Before. destruct (_ =? _); [done|]. intros. reflect_bools. apply Z.ltb_lt. lia. Qed.

Lemma dead_IsLive a now now' s : dead a now s → now <= now' → IsLive (Some a) now' s = false.
Proof.
  intros (k & Hk & Hd) Hn. destruct (IsLive (Some a) now' s) eqn:E; [|done].
  apply IsLive_spec in E as (k' & Hk' & Hl & Hx). rewrite Hk in Hk'. injection Hk' as <-.
  destruct Hd as [Hd|Hd]; [done|]. by rewrite (expired_later _ _ _ _ Hn Hd) in Hx.
Qed.

Lemma dead_shrunk a t0 s l :
  dead a t0 s → l ⊆ Connections.live s → dead a t0 (Connections.set_live l s).
Proof.
  intros (k & Hk & Hd) Hs. exists k. split; [done|]. simpl.
  destruct Hd as [Hd|Hd]; [left|by right]. intros Hl. apply Hd. by apply (lookup_weaken l).
Qed.

Lemma dead_step h a t0 t s i t' s' :
  conn_inv h t s → t0 <= t → dead a t0 s → cstep t s i t' s' → dead a t0 s'.
Proof.
  intros Hi Ht0 Hd Hstep.
  destruct Hstep as [t s ? nonce c swept now s' b Ht Hn -> E|t s c now Ht|t s now Ht].
  - destruct (Open_eq nonce c swept now s) as (g & E2). rewrite E2 in E. injection E as <- <-.
    destruct Hd as (k & Hk & Hd). destruct (ci_heap _ _ _ Hi _ _ Hk) as [Hlt _].
    exists k. simpl. rewrite lookup_insert_ne by lia. split; [done|]. left.
    intros Hl. apply lookup_insert_Some in Hl as [[_ ?]|[_ Hl]]; [lia|].
    apply map_lookup_filter_Some in Hl as [Hl Hx]. simpl in Hx.
    destruct Hd as [Hd|Hd]; [done|]. unfold expiredAt in Hx. rewrite Hk in Hx.
    assert (t0 <= swept) as Hle by lia. by rewrite (expired_later _ _ _ _ Hle Hd) in Hx.
  - pose proof (Lookup_cases c now s) as Hc. destruct (Connections.live s !! c) as [b|] eqn:Hb; [|by rewrite Hc].
    destruct (expiredAt s b now) eqn:Hx; rewrite Hc; simpl.
    { apply dead_shrunk; [done|]. apply delete_subseteq. }
    destruct (ci_live _ _ _ Hi _ _ Hb) as (kb & Hkb & Hcb & _).
    destruct Hd as (k & Hk & Hd). destruct (decide (b = a)) as [->|Hne].
    + rewrite Hk in Hkb. injection Hkb as <-. exists (touch now k). simpl.
      rewrite lookup_alter_eq, Hk. split; [done|]. left.
      destruct Hd as [Hd|Hd]; [done|]. unfold expiredAt in Hx. rewrite Hk in Hx.
      assert (t0 <= now) as Hle by lia. by rewrite (expired_later _ _ _ _ Hle Hd) in Hx.
    + exists k. simpl. by rewrite lookup_alter_ne.
  - unfold Sweep. rewrite sweep_eq. apply dead_shrunk; [done|]. apply map_filter_subseteq.
Qed.

Lemma later_inv h t s t' s' :
  conn_inv h t s → later t s t' s' → t <= t' ∧ ∃ h', conn_inv h' t' s'.
Proof.
  intros Hi Hlat. induction Hlat as [t s t' Ht|t s t1 s1 i t2 s2 _ IH Hstep].
  - split; [done|]. exists h. apply (shrink_inv h t t' s (Connections.live s)) in Hi; [|done..].
    by destruct s.
  - destruct (IH Hi) as [Ht1 [h1 Hi1]]. destruct (cstep_inv _ _ _ _ _ _ Hi1 Hstep) as [Hi2 _].
    split; [|by eexists]. destruct Hstep; lia.
Qed.

Lemma dead_later h a t s t' s' :
  conn_inv h t s → dead a t s → later t s t' s' → dead a t s'.
Proof.
  intros Hi Hd Hlat. induction Hlat as [|t s t1 s1 i t2 s2 Hl IH Hstep]; [done|].
  destruct (later_inv _ _ _ _ _ Hi Hl) as [? [h1 Hi1]].
  by apply (dead_step h1 a t t1 s1 i t2 s2 Hi1); [|apply IH|].
Qed.

(** ** The theorems *)

(** C39: A request is authenticated only by the nonce of the last Hello its client said, on the
    connection that Hello opened, and only while the connection has carried a frame within the
    idle bound. *)
Theorem authenticated_by_latest_hello idle t h s arrived conn now :
  crun idle t h s →
  ConnectionAuthenticated (Some arrived) (Some conn) now s = REASON_OK →
  ∃ a k, inbound.connection arrived = Some a ∧ Connections.heap s !! a = Some k ∧
    Connections.live s !! Connection.clientId k = Some a ∧
    latest h (Connection.clientId k) = Some (octets (ApiConnection.ServerNonce conn)) ∧
    (idle = 0 ∨ now - idle <= Connection.seen k).
Proof.
  intros [Hi Hid]%crun_inv. unfold ConnectionAuthenticated.
  destruct (inbound.connection arrived) as [a|]; [|done].
  destruct (IsLive (Some a) now s) eqn:Hlive; [|done]. simpl negb. cbv iota.
  apply IsLive_spec in Hlive as (k & Hk & Hl & Hx). rewrite Hk.
  unfold Holds. destruct (bool_decide _) eqn:Hn; [|done]. reflect_bools. intros _.
  destruct (ci_live _ _ _ Hi _ _ Hl) as (k' & Hk' & Hc & Hlat).
  rewrite Hk in Hk'. injection Hk' as <-. exists a, k. rewrite <- Hn. split_and!; try done.
  unfold expired, Before in Hx. rewrite Hid in Hx. destruct (Z.eqb_spec idle 0); [by left|right].
  reflect_bools. lia.
Qed.

(** A connection that has ended, replaced by a later Hello or silent past the idle bound, never
    authenticates again: no later lookup, sweep or Hello brings its nonce back. *)
Lemma ended_connection_never_returns idle t h s a k t' s' now arrived conn :
  crun idle t h s → Connections.heap s !! a = Some k → IsLive (Some a) t s = false →
  later t s t' s' → t' <= now → inbound.connection arrived = Some a →
  IsLive (Some a) now s' = false ∧
  ConnectionAuthenticated (Some arrived) conn now s' = REASON_REJECTED.
Proof.
  intros [Hi Hid]%crun_inv Hk Hnl Hlat Hn Harr.
  assert (dead a t s) as Hd.
  { exists k. split; [done|]. destruct (decide (Connections.live s !! Connection.clientId k = Some a))
      as [Hl|]; [right|by left]. destruct (expired s k t) eqn:Hx; [done|].
    rewrite <- Hnl. apply IsLive_spec. by exists k. }
  pose proof (dead_later _ _ _ _ _ _ Hi Hd Hlat) as Hd'.
  destruct (later_inv _ _ _ _ _ Hi Hlat) as [Ht _].
  assert (IsLive (Some a) now s' = false) as Hf by (apply (dead_IsLive a t now s' Hd'); lia).
  split; [done|]. unfold ConnectionAuthenticated. rewrite Harr. destruct conn; [|done].
  by rewrite Hf.
Qed.

(** Live is one predicate: a lookup, a peek, the liveness test and a sweep at one instant agree
    on whether a client has a connection and on which one it is; the lookup is the only one that
    keeps a connection alive, and what a sweep reports closed is what it removed. *)
Lemma liveness_one_predicate idle t h s c now :
  crun idle t h s →
  (Lookup c now s).2 = Peek c now s ∧
  Connections.live (Sweep now s).1 !! c = Peek c now s ∧
  (∀ a, Peek c now s = Some a ↔
     IsLive (Some a) now s = true ∧ Connection.clientId <$> Connections.heap s !! a = Some c) ∧
  (∀ a, Peek c now s = Some a →
     Connection.seen <$> Connections.heap (Lookup c now s).1 !! a = Some now) ∧
  (Sweep now s).2 = Count s - Count (Sweep now s).1.
Proof.
  intros [Hi Hid]%crun_inv. unfold Sweep, Count. rewrite sweep_eq. cbn [fst snd Connections.live Connections.set_live].
  pose proof (ci_live _ _ _ Hi c) as Hc. unfold Lookup, Peek, keeps.
  destruct (Connections.live s !! c) as [b|] eqn:Hb.
  - destruct (Hc b eq_refl) as (k & Hk & Hkc & _).
    assert (expiredAt s b now = expired s k now) as Hx by (unfold expiredAt; by rewrite Hk).
    rewrite Hx. destruct (expired s k now) eqn:Hxx; split_and!; try done.
    + apply map_lookup_filter_None. right. intros a Ha. simpl. congruence.
    + intros a. split; [done|]. intros [(k' & Hk' & Hl & Hx')%IsLive_spec Hcl]. exfalso.
      rewrite Hk' in Hcl. injection Hcl as Hcl. congruence.
    + apply map_lookup_filter_Some. simpl. split; congruence.
    + intros a. split.
      * intros [= <-]. rewrite Hk. simpl. split; [|by rewrite Hkc]. apply IsLive_spec.
        exists k. by rewrite Hkc.
      * intros [(k' & Hk' & Hl & Hx')%IsLive_spec Hcl]. rewrite Hk' in Hcl. injection Hcl as Hcl.
        congruence.
    + intros a [= <-]. simpl. by rewrite lookup_alter_eq, Hk.
  - split_and!; try done.
    + apply map_lookup_filter_None. by left.
    + intros a. split; [done|]. intros [(k' & Hk' & Hl & _)%IsLive_spec Hcl].
      rewrite Hk' in Hcl. injection Hcl as Hcl. congruence.
Qed.

(** Every Hello bounds the live map: past it, each connection in the map has carried a frame
    within the idle bound of that Hello, and the one it opened replaces the client's own. *)
Lemma open_bounds_live_map idle t h s nonce c swept now :
  crun idle t h s → 0 < idle → t <= swept → swept <= now →
  ∃ s' a, Open (Some nonce) c swept now s = Ok (s', a) ∧
    Peek c now s' = Some a ∧
    map_Forall (λ _ b, ∀ k, Connections.heap s' !! b = Some k → b ≠ a → swept - idle <= Connection.seen k)
      (Connections.live s') ∧
    Count s' <= 1 + Count (Sweep swept s).1.
Proof.
  intros [Hi Hid]%crun_inv Hne Ht Hn. destruct (Open_eq nonce c swept now s) as (g & E).
  eexists _, _. split; [exact E|]. unfold Peek, Count, Sweep. rewrite sweep_eq. cbn [fst snd Connections.live Connections.set_live].
  split_and!.
  - rewrite lookup_insert_eq. unfold expiredAt. cbn [Connections.heap]. rewrite lookup_insert_eq.
    unfold expired, Before. cbn [Connections.idle Connection.seen]. rewrite Hid.
    destruct (Z.eqb_spec idle 0), (Z.ltb_spec now (now - idle)); done || lia.
  - intros c' b Hb k Hk Hba. cbn [Connections.heap] in Hk. rewrite lookup_insert_ne in Hk by done.
    apply lookup_insert_Some in Hb as [[_ ?]|[_ Hb]]; [done|].
    apply map_lookup_filter_Some in Hb as [_ Hx]. simpl in Hx. unfold expiredAt, expired, Before in Hx.
    rewrite Hk, Hid in Hx. destruct (Z.eqb_spec idle 0); [lia|]. reflect_bools. lia.
  - rewrite map_size_insert. destruct (keeps s swept _ !! c); simpl; lia.
Qed.

(** Hello on each branch: an unsupported version or a random source that answers short issues
    nothing and leaves every connection as it was; otherwise the answer carries the nonce just
    drawn, a request with that nonce is authenticated at once, and no connection the client had
    before is live any more. *)
Lemma hello_exact {Caps : Type} (peer : HelloPeer Caps) idle t h s arrived versions drawn swept opened answered :
  crun idle t h s → 0 <= idle → t <= swept → swept <= opened →
  let '(s', answer) := hello peer s arrived versions drawn swept opened answered in
  match drawn with
  | Some nonce =>
      if bool_decide (protocolVersion peer ∈ versions) then
        ∃ a response, answer_response answer = Some response ∧ answer_reason answer = REASON_OK ∧
          octets (HelloNonce response) = nonce ∧ Connections.heap s !! a = None ∧
          answer_arrived answer = inbound.set_connection (Some a) arrived ∧
          (∀ conn, octets (ApiConnection.ServerNonce conn) = nonce →
             ConnectionAuthenticated (Some (answer_arrived answer)) (Some conn) opened s' = REASON_OK) ∧
          (∀ b k now, Connections.heap s !! b = Some k →
             Connection.clientId k = inbound.clientId arrived → IsLive (Some b) now s' = false)
      else s' = s ∧ answer = mkAnswer arrived REASON_UNSUPPORTED_VERSION None None
  | None =>
      s' = s ∧ answer_response answer = None ∧ answer_reason answer ≠ REASON_OK
  end.
Proof.
  intros [Hi Hid]%crun_inv Hne Ht Hn. unfold hello.
  destruct (bool_decide (protocolVersion peer ∈ versions)); cbn [negb].
  2:{ destruct drawn; done. }
  destruct drawn as [nonce|]; [|done].
  destruct (Open_eq nonce (inbound.clientId arrived) swept opened s) as (g & ->).
  cbn [answer_response answer_reason answer_arrived Connections.heap].
  rewrite lookup_insert_eq. eexists (Connections.next s), _. split; [done|]. split_and!; try done.
  - simpl. unfold ServerNonce, assembled. simpl. by destruct nonce.
  - destruct (Connections.heap s !! Connections.next s) eqn:Hh; [|done].
    destruct (ci_heap _ _ _ Hi _ _ Hh). lia.
  - intros conn Hc. unfold ConnectionAuthenticated. cbn [inbound.connection inbound.set_connection].
    unfold IsLive. cbn [Connections.heap Connections.live]. rewrite lookup_insert_eq. simpl Connection.clientId.
    rewrite lookup_insert_eq, bool_decide_eq_true_2 by done. simpl negb. cbv iota.
    unfold expired, Before. cbn [Connections.idle Connection.seen]. rewrite Hid.
    unfold Holds. simpl Connection.nonce. rewrite Hc, bool_decide_eq_true_2 by done.
    destruct (Z.eqb_spec idle 0), (Z.ltb_spec opened (opened - idle)); done || lia.
  - intros b k now Hb Hk. destruct (ci_heap _ _ _ Hi _ _ Hb) as [Hlt _].
    apply (dead_IsLive b now now); [|done]. exists k. cbn [Connections.heap Connections.live].
    rewrite lookup_insert_ne by lia. split; [done|]. left. rewrite Hk, lookup_insert_eq.
    intros [= E]. lia.
Qed.

(** ** A run of the table *)

Module HelloRun.
Definition new : Connections.t := Connections.mk 30 ∅ 0 ∅.
Definition opened (nonce c : list Z) (swept now : time) (s : Connections.t) : Connections.t :=
  match Open (Some nonce) c swept now s with Ok (s', _) => s' | Err _ => s end.
(** One client says Hello, and again five ticks later. *)
Definition once : Connections.t := opened [1; 1] [7] 5 6 new.
Definition twice : Connections.t := opened [2; 2] [7] 10 11 once.
Definition history : list (clientId * list Z) := [([7], [2; 2]); ([7], [1; 1])].
Definition arrived (a : nat) : inbound.t := inbound.mk [7] 10 (Some a).
Definition conn (nonce : list Z) : ApiConnection.t := ApiConnection.mk (Some nonce) [7].
Definition peer : HelloPeer unit := mkHelloPeer 1 [42] tt.
(** Another client's Hello between the two, after the first has expired. *)
Definition between : Connections.t := opened [3; 3] [8] 40 40 once.
Definition again : Connections.t := opened [2; 2] [7] 41 41 between.
End HelloRun.

Lemma once_run : crun 30 6 [([7], [1; 1])] HelloRun.once.
Proof.
  apply (crun_step 30 4 [] HelloRun.new (Some ([7], [1; 1])) 6 HelloRun.once); [apply crun_new|].
  apply (step_open 4 HelloRun.new (Some [1; 1]) [1; 1] [7] 5 6 HelloRun.once 0); try lia; reflexivity.
Defined.

Lemma twice_step : cstep 6 HelloRun.once (Some ([7], [2; 2])) 11 HelloRun.twice.
Proof.
  apply (step_open 6 HelloRun.once (Some [2; 2]) [2; 2] [7] 10 11 HelloRun.twice 1); try lia; reflexivity.
Defined.

Lemma twice_run : crun 30 11 HelloRun.history HelloRun.twice.
Proof. exact (crun_step 30 6 _ _ _ 11 _ once_run twice_step). Defined.

Lemma authenticated_by_latest_hello_witness :
  ConnectionAuthenticated (Some (HelloRun.arrived 1)) (Some (HelloRun.conn [2; 2])) 41 HelloRun.twice = REASON_OK ∧
  ConnectionAuthenticated (Some (HelloRun.arrived 1)) (Some (HelloRun.conn [2; 2])) 42 HelloRun.twice = REASON_REJECTED ∧
  ∃ a k, inbound.connection (HelloRun.arrived 1) = Some a ∧ Connections.heap HelloRun.twice !! a = Some k ∧
    Connections.live HelloRun.twice !! Connection.clientId k = Some a ∧
    latest HelloRun.history (Connection.clientId k) = Some [2; 2] ∧
    (30 = 0 ∨ 41 - 30 <= Connection.seen k).
Proof.
  split; [vm_compute; reflexivity|]. split; [vm_compute; reflexivity|].
  apply (authenticated_by_latest_hello 30 11 HelloRun.history HelloRun.twice (HelloRun.arrived 1)
    (HelloRun.conn [2; 2]) 41 twice_run). vm_compute. reflexivity.
Defined.

Lemma ended_connection_never_returns_witness :
  IsLive (Some 0%nat) 50 (Lookup [7] 20 HelloRun.twice).1 = false ∧
  ConnectionAuthenticated (Some (HelloRun.arrived 0)) (Some (HelloRun.conn [1; 1])) 50
    (Lookup [7] 20 HelloRun.twice).1 = REASON_REJECTED.
Proof.
  apply (ended_connection_never_returns 30 11 HelloRun.history HelloRun.twice 0
    (Connection.mk [7] [1; 1] 1 6) 20).
  - exact twice_run.
  - vm_compute. reflexivity.
  - vm_compute. reflexivity.
  - apply (later_step 11 HelloRun.twice 11 HelloRun.twice None 20); [apply later_refl; lia|].
    apply step_lookup. lia.
  - lia.
  - reflexivity.
Defined.

Lemma liveness_one_predicate_witness :
  Peek [7] 41 HelloRun.twice = Some 1%nat ∧ Peek [7] 42 HelloRun.twice = None ∧
  (Lookup [7] 42 HelloRun.twice).2 = Peek [7] 42 HelloRun.twice ∧
  Connections.live (Sweep 42 HelloRun.twice).1 !! [7] = Peek [7] 42 HelloRun.twice.
Proof.
  split; [vm_compute; reflexivity|]. split; [vm_compute; reflexivity|].
  destruct (liveness_one_predicate 30 11 HelloRun.history HelloRun.twice [7] 42 twice_run) as (H1 & H2 & _).
  split; [exact H1|exact H2].
Defined.

Lemma open_bounds_live_map_witness :
  ∃ s' a, Open (Some [3; 3]) [8] 50 50 HelloRun.twice = Ok (s', a) ∧ Peek [8] 50 s' = Some a ∧
    map_Forall (λ _ b, ∀ k, Connections.heap s' !! b = Some k → b ≠ a → 50 - 30 <= Connection.seen k)
      (Connections.live s') ∧
    Count s' <= 1 + Count (Sweep 50 HelloRun.twice).1.
Proof.
  apply (open_bounds_live_map 30 11 HelloRun.history HelloRun.twice); [exact twice_run|lia..].
Defined.

Lemma hello_exact_witness :
  ∃ a response,
    let answer := (hello HelloRun.peer HelloRun.once (inbound.mk [7] 10 None) [1; 2] (Some [2; 2]) 10 11 12).2 in
    answer_response answer = Some response ∧ answer_reason answer = REASON_OK ∧
    octets (HelloNonce response) = [2; 2] ∧ Connections.heap HelloRun.once !! a = None.
Proof.
  destruct (hello_exact HelloRun.peer 30 6 _ HelloRun.once (inbound.mk [7] 10 None) [1; 2] (Some [2; 2]) 10 11 12
    once_run ltac:(lia) ltac:(lia) ltac:(lia)) as (a & response & H1 & H2 & H3 & H4 & _).
  exists a, response. split; [exact H1|]. split; [exact H2|]. split; [exact H3|exact H4].
Defined.

(** The generation of a client's second Hello is 2 when its first connection is still in the map,
    and starts again at 1 when another Hello has swept it. *)
Example generation_counts_unswept_hellos :
  previousGeneration HelloRun.twice [7] = Some 2 ∧ previousGeneration HelloRun.again [7] = Some 1.
Proof. vm_compute. split; reflexivity. Qed.
