(* ===== verification/Prog.v ===== *)
(** * Programs that call their collaborators

    A request handler of [api] runs on one goroutine and talks to collaborators another goroutine
    may be talking to at the same moment: the store, the clock, the subscription registry.  It is a
    value of [prog]: it returns, or it panics (a nil pointer followed, an index out of range), or it makes one call and goes on with
    whatever the call answered.  The recursion is structural, so every handler returns after
    finitely many calls whatever its collaborators answer.  [runs] are its traces; [wp] proves a
    property of every trace by computing over the program. *)

From S2P Require Import Prelude.

(** ** The type *)

Section Prog.
Context {op : Type} {answer : op → Type}.

Inductive prog (A : Type) : Type :=
  | Return (a : A)
  | Panic
  | Do (c : op) (k : answer c → prog A).
#[global] Arguments Return {A} a.
#[global] Arguments Panic {A}.
#[global] Arguments Do {A} c k.

Fixpoint prog_bind {A B} (f : A → prog B) (p : prog A) : prog B :=
  match p with
  | Return a => f a
  | Panic => Panic
  | Do c k => Do c (λ r, prog_bind f (k r))
  end.

#[export] Instance prog_mret : MRet prog := @Return.
#[export] Instance prog_mbind : MBind prog := @prog_bind.

Definition call (c : op) : prog (answer c) := Do c Return.

(** Following a pointer. *)
Definition deref {A} (p : option A) : prog A :=
  match p with Some a => Return a | None => Panic end.

(** A loop over a slice of pointers: each iteration may write what its pointer points to and the
    loop's own variable, and the first that answers a refusal ends it. *)
Fixpoint forEach {S A R} (body : nat → S → A → prog (S * A * option R)) (index : nat) (s : S)
    (l : list A) : prog (S * list A * option R) :=
  match l with
  | [] => Return (s, [], None)
  | a :: l =>
      '(s, a, refused) ← body index s a;
      match refused with
      | Some r => Return (s, a :: l, Some r)
      | None =>
          '(s, l, refused) ← forEach body (Datatypes.S index) s l;
          Return (s, a :: l, refused)
      end
  end.

(** ** Traces *)

(** One call and what it answered. *)
Record event := Event { did : op; answered : answer did }.
Abbreviation trace := (list event).

Inductive outcome (A : Type) : Type := Returned (a : A) | Panicked.
#[global] Arguments Returned {A} a.
#[global] Arguments Panicked {A}.

(** [runs p tr out]: with the answers of [tr], in order, [p] ends in [out]. *)
Inductive runs {A} : prog A → trace → outcome A → Prop :=
  | runs_return a : runs (Return a) [] (Returned a)
  | runs_nil : runs Panic [] Panicked
  | runs_do c k r tr out : runs (k r) tr out → runs (Do c k) (Event c r :: tr) out.

(** What a run did before it made a call, and the call. *)
Definition reaches {A} (p : prog A) (before : trace) (c : op) : Prop :=
  ∃ r after out, runs p (before ++ Event c r :: after) out.

(** ** A logic of every trace *)

(** [can e]: the collaborators may answer so. [may before c]: the program is allowed this call
    after those. *)
Context (can : event → Prop) (may : trace → op → Prop).

Fixpoint wp {A} (p : prog A) (Q : trace → A → Prop) (before : trace) : Prop :=
  match p with
  | Return a => Q before a
  | Panic => False
  | Do c k => may before c ∧ ∀ r, can (Event c r) → wp (k r) Q (before ++ [Event c r])
  end.

Lemma wp_bind {A B} (f : A → prog B) p Q before :
  wp p (λ tr a, wp (f a) Q tr) before → wp (p ≫= f) Q before.
Proof.
  revert before. induction p as [a| |c k IH]; intros before; cbn; [done|done|].
  intros [Hm Hk]. split; [done|]. intros r Hr. by apply IH, Hk.
Qed.

Lemma wp_mono {A} (p : prog A) (Q Q' : trace → A → Prop) before :
  (∀ tr a, Q tr a → Q' tr a) → wp p Q before → wp p Q' before.
Proof.
  intros HQ. revert before. induction p as [a| |c k IH]; intros before; cbn; [auto|done|].
  intros [Hm Hk]. split; [done|]. intros r Hr. by apply IH, Hk.
Qed.

(** The events in front of a program are still there behind it. *)
Lemma wp_frame {A} (p : prog A) Q before :
  wp p Q before → wp p (λ tr a, before `prefix_of` tr ∧ Q tr a) before.
Proof.
  revert before. enough (∀ b0 before, b0 `prefix_of` before →
    wp p Q before → wp p (λ tr a, b0 `prefix_of` tr ∧ Q tr a) before) as H by (intros; by apply H).
  induction p as [a| |c k IH]; intros b0 before Hb; cbn; [done|done|].
  intros [Hm Hk]. split; [done|]. intros r Hr. apply IH; [|by apply Hk].
  by apply prefix_app_r.
Qed.

Lemma wp_runs {A} (p : prog A) Q before tr out :
  wp p Q before → runs p tr out → Forall can tr →
  ∃ a, out = Returned a ∧ Q (before ++ tr) a.
Proof.
  intros Hw Hr. revert before Hw. induction Hr as [a| |c k r tr out Hr IH]; intros before Hw Hc.
  - exists a. by rewrite app_nil_r.
  - done.
  - apply Forall_cons in Hc as [Hc1 Hc2]. destruct Hw as [_ Hk].
    destruct (IH _ (Hk r Hc1) Hc2) as (a & -> & Ha). exists a. split; [done|].
    by rewrite <- app_assoc in Ha.
Qed.

Lemma wp_calls {A} (p : prog A) Q before tr out i e :
  wp p Q before → runs p tr out → Forall can tr →
  tr !! i = Some e → may (before ++ take i tr) (did e).
Proof.
  intros Hw Hr. revert before i Hw. induction Hr as [a| |c k r tr out Hr IH]; intros before i Hw Hc Hi;
    [done|done|].
  apply Forall_cons in Hc as [Hc1 Hc2]. destruct Hw as [Hm Hk].
  destruct i as [|i]; simpl in Hi.
  - simplify_eq/=. by rewrite app_nil_r.
  - simpl. specialize (IH _ i (Hk r Hc1) Hc2 Hi). by rewrite <- app_assoc in IH.
Qed.

Lemma wp_deref {A} (p : option A) Q before :
  (∃ a, p = Some a ∧ Q before a) → wp (deref p) Q before.
Proof. by intros (a & -> & H). Qed.

(** A loop that goes to the end: [G] is what an iteration makes true of its element, and stays
    true; [I] is kept between iterations; [F] holds of a refusal. *)
Lemma wp_forEach {S A R} (body : nat → S → A → prog (S * A * option R))
    (P : nat → A → Prop) (G : trace → A → Prop) (I : trace → S → Prop) (F : R → Prop)
    (Q : trace → S * list A * option R → Prop) l index s before :
  (∀ i a tr s, P i a → I tr s →
     wp (body i s a)
       (λ tr' out, tr `prefix_of` tr' ∧
          match out.2 with None => G tr' out.1.2 ∧ I tr' out.1.1 | Some r => F r end) tr) →
  (∀ tr tr' a, tr `prefix_of` tr' → G tr a → G tr' a) →
  (∀ tr s l' r, F r → length l' = length l → before `prefix_of` tr → Q tr (s, l', Some r)) →
  (∀ tr s l', length l' = length l → before `prefix_of` tr → Forall (G tr) l' → I tr s →
     Q tr (s, l', None)) →
  (∀ i a, l !! i = Some a → P (index + i)%nat a) →
  I before s → wp (forEach body index s l) Q before.
Proof.
  intros Hb Hg. revert index s before Q.
  induction l as [|a l IH]; intros index s before Q Hr Hn Hp Hi; cbn.
  - by apply Hn.
  - apply wp_bind. eapply wp_mono; [|apply Hb; [|exact Hi] ].
    2:{ specialize (Hp 0%nat a eq_refl). by rewrite Nat.add_0_r in Hp. }
    intros tr [ [s1 a1] [r|] ] [Hpre Ho]; cbn in *; [by apply Hr|].
    destruct Ho as [Ga I1]. apply wp_bind.
    apply (IH (Datatypes.S index) s1 tr); [| | |done].
    + intros tr2 s2 l2 r HF Hl Hp2. cbn. apply Hr; [done|simpl; lia|by etrans].
    + intros tr2 s2 l2 Hl Hp2 HG HI. cbn. apply Hn; [simpl; lia|by etrans| |done].
      constructor; [by eapply Hg|done].
    + intros i x Hx. replace (Datatypes.S index + i)%nat with (index + Datatypes.S i)%nat by lia.
      by apply Hp.
Qed.
End Prog.

#[global] Arguments prog {op} answer A.
#[global] Arguments event {op} answer.
#[global] Arguments Event {op answer} did answered.
#[global] Arguments outcome A : clear implicits.

(** ** Running against a machine *)

(** The computation of [runs] when every call is answered by a state machine: what the program
    ended in, the state it left and its trace, for tests on concrete inputs. *)
Section Machine.
Context {op : Type} {answer : op → Type} {S : Type}.
Context (step : ∀ c : op, S → S * answer c).

Fixpoint exec {A} (p : prog answer A) (s : S) : S * list (event answer) * outcome A :=
  match p with
  | Return a => (s, [], Returned a)
  | Panic => (s, [], Panicked)
  | Do c k =>
      let '(s, r) := step c s in
      let '(s, tr, out) := exec (k r) s in (s, Event c r :: tr, out)
  end.

(** The first [n] calls only, and what is left of the program. *)
Fixpoint execFor (n : nat) {A} (p : prog answer A) (s : S) : S * list (event answer) * prog answer A :=
  match n, p with
  | Datatypes.S n, Do c k =>
      let '(s, r) := step c s in
      let '(s, tr, p) := execFor n (k r) s in (s, Event c r :: tr, p)
  | _, p => (s, [], p)
  end.

Lemma execFor_runs n {A} (p : prog answer A) s tr out :
  runs (execFor n p s).2 tr out → runs p ((execFor n p s).1.2 ++ tr) out.
Proof.
  revert p s. induction n as [|n IH]; intros p s; cbn; [done|]. destruct p as [a| |c k]; cbn; [done|done|].
  destruct (step c s) as [s' r]. specialize (IH (k r) s').
  destruct (execFor n (k r) s') as [ [s2 tr2] p2]. intros H. constructor. by apply IH.
Qed.

Lemma exec_runs {A} (p : prog answer A) s : runs p (exec p s).1.2 (exec p s).2.
Proof.
  revert s. induction p as [a| |c k IH]; intros s; cbn; [constructor|constructor|].
  destruct (step c s) as [s' r]. specialize (IH r s').
  destruct (exec (k r) s') as [ [s2 tr] out]. by constructor.
Qed.
End Machine.
