(* ===== verification/Message.v ===== *)
(** * The record layer and the wire types, as the server uses them

    The [message] and [protocol] libraries are not in the repository.  Their types appear here with
    the fields the server's code names, and their functions are the operations of the class
    [Library], arguments of every definition that calls them.  [LibraryLaws] states the documented
    behaviour the server relies on, as the comments of [api] record it: what [ParseRecord] and
    [ParseServerAttachment] hold of what they answer, the byte of a retention class, the ephemeral
    ladder, and message equality. *)

From S2P Require Import Prelude StoreTypes.

(** ** Record-layer data *)

Module RecordHeader.
Record t := mk {
  GroupId : list Z;            (* [32]byte *)
  SenderHandle : list Z;       (* [16]byte *)
  Epoch : Z;
  StreamIndex : Z;
  IsCommit : bool;
  RetentionClass : Z;
  EphBucket : Z;
  EphWindow : Z;
  SizeBucket : Z;
  ExpireAt : Z;
  BodyHash : list Z;           (* [32]byte *)
  BlobId : slice;
  ServerAttachment : slice }.
End RecordHeader.

Module Parsed.
Record t := mk { Header : RecordHeader.t; CtHead : slice; CtBody : slice; WriteAuth : list Z }.
End Parsed.

Inductive ServerAttachmentKind : Type :=
  | MessageAttachmentNone
  | MessageAttachmentEpoch
  | MessageAttachmentWrap
  | MessageAttachmentRecovery
  | MessageAttachmentComplete
  | MessageAttachmentEpochDigest
  | MessageAttachmentOther (code : Z).

#[global] Instance ServerAttachmentKind_eq_dec : EqDecision ServerAttachmentKind.
Proof. solve_decision. Defined.

(** The record layer's attachment bodies carry the fields of the store's, and [attachmentOf] copies
    them; its wrap tag carries an epoch where the store's has a leaf index. *)
Module MessageWrapTag.
Record t := mk { WrapTargetHandle : slice; Epoch : Z }.
End MessageWrapTag.

Module MessageRecoveryTag.
Record t := mk { RecoveryHandle : slice; RecoveryVerifyPub : slice; AlgId : Z }.
End MessageRecoveryTag.

Module ServerAttachment.
Record t := mk {
  Kind : ServerAttachmentKind;
  Epoch : option EpochAttachment.t;
  Wrap : option MessageWrapTag.t;
  Recovery : option MessageRecoveryTag.t;
  Complete : option EpochCompleteTag.t;
  EpochDigest : option EpochDigestAttachment.t }.
End ServerAttachment.

(** What the two signatures that cover a whole request are verified over. *)
Module RendezvousRegistration.
Record t := mk {
  RendezvousId : slice;
  DepositVerifyPub : slice;
  CollectVerifyPub : slice;
  CardXwingPub : slice;
  AlgId : Z;
  Kind : Z;
  PublicCt : slice }.
End RendezvousRegistration.

Module RendezvousCollectParams.
Record t := mk {
  RendezvousId : slice;
  SinceDepositId : Z;
  AckThroughDepositId : Z;
  Limit : Z;
  Subscribe : bool }.
End RendezvousCollectParams.

(** ** Wire types *)

Module pEpochKeyDelivery.
Record t := mk { WriteKey : slice; ReadKey : slice }.
End pEpochKeyDelivery.

(** [protocol.Record], with the fields the reader's build does not know. *)
Module pRecord.
Record t := mk {
  RecordBytes : slice;
  RecordId : Z;
  SenderHandle : slice;
  Epoch : Z;
  StreamIndex : Z;
  IsCommit : bool;
  RetentionClass : Z;
  SizeBucket : Z;
  ExpireAtMs : Z;
  BodyHash : slice;
  BlobId : slice;
  WrapTargetHandle : slice;
  RecoveryHandle : slice;
  Unknown : slice }.
Definition set_RecordBytes (x : slice) (r : t) : t :=
  mk x (RecordId r) (SenderHandle r) (Epoch r) (StreamIndex r) (IsCommit r) (RetentionClass r)
    (SizeBucket r) (ExpireAtMs r) (BodyHash r) (BlobId r) (WrapTargetHandle r) (RecoveryHandle r)
    (Unknown r).
Definition set_RecordId (x : Z) (r : t) : t :=
  mk (RecordBytes r) x (SenderHandle r) (Epoch r) (StreamIndex r) (IsCommit r) (RetentionClass r)
    (SizeBucket r) (ExpireAtMs r) (BodyHash r) (BlobId r) (WrapTargetHandle r) (RecoveryHandle r)
    (Unknown r).
End pRecord.

Module pRetentionApplied.
Record t := mk {
  MediaTtlSeconds : Z;
  DurableTtlSeconds : Z;
  MediaClampedDown : bool;
  DurableFlooredUp : bool;
  DurableClampedDown : bool;
  DurableDefaulted : bool;
  RequestedMediaTtlSeconds : Z;
  RequestedDurableTtlSeconds : Z }.
End pRetentionApplied.

Module pSubmitRequest.
Record t := mk {
  GroupId : slice;
  Records : list (option pRecord.t);
  EpochKeys : list (option pEpochKeyDelivery.t) }.
End pSubmitRequest.

Module pSubmitResult.
Record t := mk {
  reason : Reason;
  RecordId : Z;
  CurrentEpoch : Z;
  WinningCommit : option pRecord.t;
  Applied : option pRetentionApplied.t }.
End pSubmitResult.

Module pCreateGroupRequest.
Record t := mk {
  GroupId : slice;
  InitialCommit : option pRecord.t;
  BootstrapWriteKey : slice;
  EpochKeys : option pEpochKeyDelivery.t }.
End pCreateGroupRequest.

Module pCreateGroupResponse.
Record t := mk { CurrentEpoch : Z; RecordId : Z; Applied : option pRetentionApplied.t }.
End pCreateGroupResponse.

Module pFetchRequest.
Record t := mk {
  GroupId : slice;
  SinceRecordId : Z;
  Limit : Z;
  HeadsOnly : bool;
  ClassMask : Z;
  ReadEpoch : Z;
  ReqAuth : slice }.
Definition clear_ReqAuth (r : t) : t :=
  mk (GroupId r) (SinceRecordId r) (Limit r) (HeadsOnly r) (ClassMask r) (ReadEpoch r) None.
End pFetchRequest.

Module pFetchResponse.
Record t := mk {
  Records : list pRecord.t;
  NextRecordId : Z;
  HighWaterRecordId : Z;
  Complete : bool }.
End pFetchResponse.

Module pSubscription.
Record t := mk { GroupId : slice; SinceRecordId : Z }.
End pSubscription.

Module pSubscribeRequest.
Record t := mk {
  Subscriptions : list pSubscription.t;
  Replace : bool;
  ReadEpoch : Z;
  ReqAuth : slice }.
Definition clear_ReqAuth (r : t) : t := mk (Subscriptions r) (Replace r) (ReadEpoch r) None.
End pSubscribeRequest.

Module pSubscriptionAck.
Record t := mk { GroupId : slice; SnapshotRecordId : Z; reason : Reason }.
End pSubscriptionAck.

Module pUnsubscribeRequest.
Record t := mk { GroupIds : list slice; All : bool }.
End pUnsubscribeRequest.

Module pRegisterRequest.
Record t := mk {
  RendezvousId : slice;
  Kind : Z;
  DepositVerifyPub : slice;
  CollectVerifyPub : slice;
  CardXwingPub : slice;
  AlgId : Z;
  PublicCt : slice;
  RegisterAuth : slice }.
End pRegisterRequest.

Module pRegisterResponse.
Record t := mk { ExpireTimeMs : Z; MailboxDepth : Z }.
End pRegisterResponse.

Module pOpenRequest.
Record t := mk { RendezvousId : slice; OpenAuth : slice }.
End pOpenRequest.

Module pOpenResponse.
Record t := mk { AlgId : Z; DepositBytes : Z; PublicCt : slice; DepositSizes : list Z }.
End pOpenResponse.

Module pDepositRequest.
Record t := mk { RendezvousId : slice; DepositCt : slice; DepositAuth : slice }.
End pDepositRequest.

Module pDepositResponse.
Record t := mk { DepositId : Z; DepositHash : slice }.
End pDepositResponse.

Module pCollectRequest.
Record t := mk {
  RendezvousId : slice;
  SinceDepositId : Z;
  AckThroughDepositId : Z;
  Limit : Z;
  Subscribe : bool;
  CollectAuth : slice }.
End pCollectRequest.

Module pRendezvousDeposit.
Record t := mk { DepositId : Z; DepositCt : slice; CreateTimeMs : Z }.
End pRendezvousDeposit.

Module pCollectResponse.
Record t := mk {
  Deposits : list pRendezvousDeposit.t;
  PendingCount : Z;
  RefusedCount : Z;
  ExpireTimeMs : Z;
  Complete : bool }.
End pCollectResponse.

Module pRetireRequest.
Record t := mk { RendezvousId : slice; RetireAuth : slice }.
End pRetireRequest.

Module pRetireResponse.
Record t := mk { DiscardedDeposits : Z }.
End pRetireResponse.

(** The arms of [MessageServerRequest.body] the handlers of [api] take. *)
Inductive Body : Type :=
  | BodySubmit (request : pSubmitRequest.t)
  | BodyCreateGroup (request : pCreateGroupRequest.t)
  | BodyFetch (request : pFetchRequest.t)
  | BodySubscribe (request : pSubscribeRequest.t)
  | BodyUnsubscribe (request : pUnsubscribeRequest.t)
  | BodyRegister (request : pRegisterRequest.t)
  | BodyOpen (request : pOpenRequest.t)
  | BodyDeposit (request : pDepositRequest.t)
  | BodyCollect (request : pCollectRequest.t)
  | BodyRetire (request : pRetireRequest.t).

(** What the server reads of a field of the request message's descriptor. *)
Module FieldDescriptor.
Record t := mk { Number : Z; MessageName : option string; InOneof : bool }.
End FieldDescriptor.

(** ** The libraries' functions *)

Inductive LibError : Type :=
  | ErrServerAttachmentKindNotServed
  | ErrRetentionClassUnknown
  | ErrEpochKeysDigestMismatch
  | ErrLibrary (code : Z).

#[global] Instance LibError_eq_dec : EqDecision LibError.
Proof. solve_decision. Defined.

Class Library := {
  RetentionEph : Z;
  SizeBucketBlob : Z;
  SizeBucket64KBytes : Z;
  ParseRecord : slice → res LibError Parsed.t;
  EncodeRecord : Parsed.t → res LibError slice;
  ParseServerAttachment : slice → res LibError ServerAttachment.t;
  ParseEpochDigestAttachment : slice → res LibError EpochDigestAttachment.t;
  CheckEpochKeysDigest :
    list Z → EpochDigestAttachment.t → slice → slice → option LibError;
  VerifyWriteAuth : slice → slice → Parsed.t → bool;
  VerifyRequestAuth : slice → slice → Z → slice → slice → bool;
  RetentionClassWire : Z → Z → res LibError Z;
  RetentionClassOf : Z → res LibError (Z * Z);
  EphBucketSeconds : Z → Z;
  SizeBucketCtBodyBytes : Z → Z;
  RendezvousKeyIsAcceptable : slice → bool;
  VerifyRendezvousRegister : RendezvousRegistration.t → slice → slice → bool;
  VerifyRendezvousOpen : slice → slice → slice → slice → bool;
  VerifyRendezvousDeposit : slice → slice → slice → slice → slice → bool;
  VerifyRendezvousCollect : slice → slice → RendezvousCollectParams.t → slice → bool;
  VerifyRendezvousRetire : slice → slice → slice → slice → bool;
  protoEqual : pRecord.t → pRecord.t → bool;
  FullName : Body → string;
  requestFields : list FieldDescriptor.t;
  Marshal : Body → res LibError slice }.

(** ** Their documented behaviour *)

(** The well-formedness of an attachment body under its kind: the widths, and a positive wrap
    count. *)
Definition attachmentWellFormed (a : ServerAttachment.t) : Prop :=
  match ServerAttachment.Kind a with
  | MessageAttachmentEpoch => is_Some (ServerAttachment.Epoch a)
  | MessageAttachmentWrap =>
      ∃ w, ServerAttachment.Wrap a = Some w ∧
           len (MessageWrapTag.WrapTargetHandle w) = WrapTargetHandleBytes
  | MessageAttachmentRecovery =>
      ∃ t, ServerAttachment.Recovery a = Some t ∧
           len (MessageRecoveryTag.RecoveryHandle t) = RecoveryHandleBytes ∧
           len (MessageRecoveryTag.RecoveryVerifyPub t) = VerifyPubBytes
  | MessageAttachmentComplete => is_Some (ServerAttachment.Complete a)
  | MessageAttachmentEpochDigest => is_Some (ServerAttachment.EpochDigest a)
  | _ => True
  end.

(** The fields [proto.Equal] compares: bytes by their octets, an absent field being an empty one. *)
Definition sameMessage (a b : pRecord.t) : Prop :=
  octets (pRecord.RecordBytes a) = octets (pRecord.RecordBytes b) ∧
  pRecord.RecordId a = pRecord.RecordId b ∧
  octets (pRecord.SenderHandle a) = octets (pRecord.SenderHandle b) ∧
  pRecord.Epoch a = pRecord.Epoch b ∧
  pRecord.StreamIndex a = pRecord.StreamIndex b ∧
  pRecord.IsCommit a = pRecord.IsCommit b ∧
  pRecord.RetentionClass a = pRecord.RetentionClass b ∧
  pRecord.SizeBucket a = pRecord.SizeBucket b ∧
  pRecord.ExpireAtMs a = pRecord.ExpireAtMs b ∧
  octets (pRecord.BodyHash a) = octets (pRecord.BodyHash b) ∧
  octets (pRecord.BlobId a) = octets (pRecord.BlobId b) ∧
  octets (pRecord.WrapTargetHandle a) = octets (pRecord.WrapTargetHandle b) ∧
  octets (pRecord.RecoveryHandle a) = octets (pRecord.RecoveryHandle b) ∧
  octets (pRecord.Unknown a) = octets (pRecord.Unknown b).

#[global] Instance sameMessage_dec a b : Decision (sameMessage a b).
Proof. unfold sameMessage. apply _. Defined.

Class LibraryLaws `{Library} : Prop := {
  (** A Go array has its length. *)
  parse_arrays bs r : ParseRecord bs = Ok r →
    length (RecordHeader.GroupId (Parsed.Header r)) = 32%nat ∧
    length (RecordHeader.SenderHandle (Parsed.Header r)) = 16%nat ∧
    length (RecordHeader.BodyHash (Parsed.Header r)) = 32%nat;
  (** A uint64 has its range. *)
  parse_widths bs r : ParseRecord bs = Ok r →
    0 <= RecordHeader.EphWindow (Parsed.Header r) < two64;
  (** "the size bucket against the ladder, blob_id's presence in both directions" *)
  parse_bucket bs r : ParseRecord bs = Ok r →
    0 <= RecordHeader.SizeBucket (Parsed.Header r) <= 5 ∧
    (RecordHeader.SizeBucket (Parsed.Header r) = SizeBucketBlob ↔
     RecordHeader.BlobId (Parsed.Header r) ≠ None);
  (** "the retention class byte": "0x10 | bucket" on the ephemeral classes *)
  class_wire c b w : RetentionClassWire c b = Ok w →
    (c = RetentionEph ∧ 0 <= b <= 5 ∧ w = ClassEphBase + b) ∨
    (c ≠ RetentionEph ∧ 0 <= w <= ClassMedia);
  (** "an error here is a header the parser would not have produced" *)
  parse_class bs r : ParseRecord bs = Ok r →
    ∃ w, RetentionClassWire (RecordHeader.RetentionClass (Parsed.Header r))
           (RecordHeader.EphBucket (Parsed.Header r)) = Ok w ∧
         RetentionClassOf w = Ok (RecordHeader.RetentionClass (Parsed.Header r),
                                  RecordHeader.EphBucket (Parsed.Header r));
  (** "a POSITIVE for precisely buckets 1..5, ZERO for bucket 0 and a NEGATIVE off the ladder" *)
  ladder b : (0 < EphBucketSeconds b ↔ 1 <= b <= 5) ∧ EphBucketSeconds b < two32;
  (** "The widths, the alg_ids and expected_wrap_count > 0 are ParseServerAttachment's" *)
  parse_attachment bs a : ParseServerAttachment bs = Ok a → attachmentWellFormed a;
  proto_equal a b : protoEqual a b = true ↔ sameMessage a b }.
