(* ===== verification/Api.v ===== *)
(** * The handlers' common parts ([api/api.go])

    The handler and its configuration, the calls it makes on its collaborators, the known-group
    filter in front of the store, the front checks' order, the op byte and the reject pad. *)

From S2P Require Import Prelude StoreTypes MemoryStore LinkBox Connections Message Prog.

(** ** Errors and answers *)

(** The errors of [api], and those it hands on. *)
Inductive ApiError : Type :=
  | ErrNoStore
  | ErrNoKnownGroups
  | ErrNoFrontChecks
  | ErrNoConnection
  | ErrNoOpForBody
  | ErrNegativeRejectFloor
  | ErrEpochKeysLength
  | ErrEpochKeysOnNonCommit
  | ErrEpochKeysMissing
  | ErrEpochKeysUnwanted
  | ErrEpochKeyWidth
  | ErrEpochKeysEmptyEntry
  | ErrOfStore (e : Error)
  | ErrOfLibrary (e : LibError).

(** What a handler returns: the envelope's reason, the body if there is one, the error. *)
Record reply (B : Type) := Reply { reply_reason : Reason; reply_body : option B; reply_error : option ApiError }.
Arguments Reply {B}.
Arguments reply_reason {B}.
Arguments reply_body {B}.
Arguments reply_error {B}.

(** ** The collaborators *)

(** What a context carries: a [Deferral] or none, and the arrival the front checks read. *)
Module Context.
Record t := mk { deferring : bool; arrived : option inbound.t }.
End Context.

(** One call of a handler on a collaborator.  The store's arguments carry no context: whether it
    has ended is part of the store's answer. *)
Inductive op : Type :=
  | Now
  | Sleep (remaining : Z)
  | Defer (remaining : Z)
  | FrontFrame (ctx : Context.t) (conn : ApiConnection.t)
  | FrontConnection (ctx : Context.t) (conn : ApiConnection.t)
  | FrontRate (conn : ApiConnection.t) (op : Z)
  | IdsRead (groupId : slice)
  | IdsWrite (groupId : slice)
  | StoreGroupState (groupId : slice)
  | StoreEpochKeys (groupId : slice) (epoch : Z)
  | StoreSubmit (request : SubmitRequest.t)
  | StoreCreateGroup (request : CreateGroupRequest.t)
  | StoreFetch (request : FetchRequest.t)
  | BoxRead (rendezvousId : slice)
  | BoxCount (now : time)
  | BoxRegister (registration : LinkBoxRegistration.t) (now : time) (ttl cap : Z)
  | BoxDeposit (rendezvousId verifiedPub depositCt : slice) (now : time)
  | BoxCollect (request : LinkBoxCollectRequest.t) (now : time)
  | BoxRetire (rendezvousId verifiedPub : slice) (now : time)
  | Subscribe (clientId serverNonce groupId : slice) (readEpoch snapshot : Z) (replace : bool)
  | Unsubscribe (clientId serverNonce : slice) (groupIds : list slice) (all : bool)
  | Published (groupId : slice) (records : list (Z * Z))
  | SubscribeRendezvous (clientId serverNonce rendezvousId : slice) (expireTime now : time)
  | SettleRendezvous (clientId serverNonce rendezvousId : slice) (claimed : nat) (taken : bool)
  | DepositedRendezvous (rendezvousId : slice) (pending : Z) (now : time)
  | RetiredRendezvous (rendezvousId : slice).

(** Its answer.  [Subscribe] answers whether it was refused; [SubscribeRendezvous] a subscription's
    address or none, or the refusal. *)
Definition answer (c : op) : Type :=
  match c with
  | Now => time
  | Sleep _ | Defer _ | IdsWrite _ | Unsubscribe _ _ _ _ | Published _ _
  | SettleRendezvous _ _ _ _ _ | DepositedRendezvous _ _ _ | RetiredRendezvous _ => unit
  | FrontFrame _ _ | FrontConnection _ _ | FrontRate _ _ => Reason
  | IdsRead _ => bool
  | StoreGroupState _ => res Error GroupState.t
  | StoreEpochKeys _ _ => res Error EpochKeys.t
  | StoreSubmit _ => res Error (list SubmitResult.t)
  | StoreCreateGroup _ => res Error CreateGroupResult.t
  | StoreFetch _ => res Error FetchResult.t
  | BoxRead _ => res Error LinkBox.t
  | BoxCount _ => res Error Z
  | BoxRegister _ _ _ _ => res Error LinkBoxRegistered.t
  | BoxDeposit _ _ _ _ => res Error LinkBoxDeposited.t
  | BoxCollect _ _ => res Error LinkBoxCollected.t
  | BoxRetire _ _ _ => res Error LinkBoxRetired.t
  | Subscribe _ _ _ _ _ _ => bool
  | SubscribeRendezvous _ _ _ _ _ => option (option nat)
  end.

Abbreviation M := (prog answer).

Definition ask (c : op) : M (answer c) := call c.

(** ** The handler *)

Inductive KnownGroups : Type := memoryKnownGroups | storeKnownGroups.

(** [Config].  Of the store, the front checks, the registry and the link boxes the handler's own
    code reads only whether they are there. *)
Module Config.
Record t := mk {
  Store : bool;
  KnownGroups : option KnownGroups;
  Front : bool;
  MaxCtHeadBytes : Z;
  MaxRecordsPerSubmit : Z;
  MaxRecordsPerFetch : Z;
  RejectFloor : Z;
  Subscriptions : bool;
  LinkBoxes : bool;
  LinkBoxTtl : Z;
  LinkBoxLiveCap : Z }.
End Config.

Module Handler.
Record t := mk {
  knownGroups : KnownGroups;
  maxCtHeadBytes : Z;
  maxRecordsPerSubmit : Z;
  maxRecordsPerFetch : Z;
  rejectFloor : Z;
  subscriptions : bool;
  linkBoxes : bool;
  linkBoxTtl : Z;
  linkBoxLiveCap : Z }.
End Handler.

Section Handler.
Context `{Library}.

Definition DefaultMaxCtHeadBytes : Z := SizeBucket64KBytes.
Definition DefaultMaxRecordsPerSubmit : Z := 256.
Definition DefaultMaxRecordsPerFetch : Z := 512.
Definition DefaultLinkBoxTtl : Z := 600 * Second.
Definition DefaultLinkBoxLiveCap : Z := 10000.

Definition orDefault (value default : Z) : Z := if value =? 0 then default else value.

Definition New (config : Config.t) : res ApiError Handler.t :=
  if negb (Config.Store config) then Err ErrNoStore
  else match Config.KnownGroups config with
       | None => Err ErrNoKnownGroups
       | Some knownGroups =>
           if negb (Config.Front config) then Err ErrNoFrontChecks
           else if Config.RejectFloor config <? 0 then Err ErrNegativeRejectFloor
           else Ok (Handler.mk knownGroups
                      (orDefault (Config.MaxCtHeadBytes config) DefaultMaxCtHeadBytes)
                      (orDefault (Config.MaxRecordsPerSubmit config) DefaultMaxRecordsPerSubmit)
                      (orDefault (Config.MaxRecordsPerFetch config) DefaultMaxRecordsPerFetch)
                      (Config.RejectFloor config)
                      (Config.Subscriptions config)
                      (Config.LinkBoxes config)
                      (orDefault (Config.LinkBoxTtl config) DefaultLinkBoxTtl)
                      (orDefault (Config.LinkBoxLiveCap config) DefaultLinkBoxLiveCap))
       end.

(** ** The known-group filter *)

(** [storeKnownGroups] answers a hit from its map and puts a miss to the store; it keeps no
    negative.  [memoryKnownGroups] answers from its map alone. *)
Definition Contains (self : KnownGroups) (groupId : slice) : M (res Error bool) :=
  match self with
  | memoryKnownGroups => cached ← ask (IdsRead groupId); Return (Ok cached)
  | storeKnownGroups =>
      cached ← ask (IdsRead groupId);
      if (cached : bool) then Return (Ok true)
      else
        state ← ask (StoreGroupState groupId);
        match (state : res Error GroupState.t) with
        | Err ErrGroupUnavailable => Return (Ok false)
        | Err err => Return (Err err)
        | Ok _ => _ ← ask (IdsWrite groupId); Return (Ok true)
        end
  end.

Definition Insert (self : KnownGroups) (groupId : slice) : M unit := ask (IdsWrite groupId).

(** ** The op byte *)

Fixpoint opOfField (want : string) (fields : list FieldDescriptor.t) : res ApiError Z :=
  match fields with
  | [] => Err ErrNoOpForBody
  | field :: rest =>
      match FieldDescriptor.MessageName field with
      | None => opOfField want rest
      | Some name =>
          if negb (FieldDescriptor.InOneof field) then opOfField want rest
          else if negb (bool_decide (name = want)) then opOfField want rest
          else if (FieldDescriptor.Number field <? 0) || (255 <? FieldDescriptor.Number field)
          then Err ErrNoOpForBody
          else Ok (u8 (FieldDescriptor.Number field))
      end
  end.

Definition opOf (body : Body) : res ApiError Z := opOfField (FullName body) requestFields.

(** ** The front checks *)

(** Checks 1, 2 and 4, in order. *)
Definition frontChecks (ctx : Context.t) (conn : ApiConnection.t) (op : Z) : M Reason :=
  frame ← ask (FrontFrame ctx conn);
  if decide ((frame : Reason) = REASON_OK) then
    authenticated ← ask (FrontConnection ctx conn);
    if decide ((authenticated : Reason) = REASON_OK) then ask (FrontRate conn op)
    else Return (authenticated : Reason)
  else Return (frame : Reason).

(** [ChecksNotImplemented] answers every front check with REASON_OK. *)
Definition ChecksNotImplemented (c : op) : Reason := REASON_OK.

(** ** The pad *)

(** [t.Sub(u)], which saturates. *)
Definition Sub (t u : time) : Z := Z.max (- two63) (Z.min (two63 - 1) (t - u)).

Definition pad (self : Handler.t) (ctx : Context.t) (started : time) : M unit :=
  if Handler.rejectFloor self <=? 0 then Return tt
  else
    now ← ask Now;
    let remaining := i64 (Handler.rejectFloor self - Sub now started) in
    if Context.deferring ctx then ask (Defer remaining) else ask (Sleep remaining).

(** A padded refusal, with nothing beside the reason. *)
Definition padded {B} (self : Handler.t) (ctx : Context.t) (started : time) (reason : Reason) :
    M (reply B) :=
  _ ← pad self ctx started; Return (Reply reason None None).

(** The opening lines every handler has: a connection, a request, its op byte, the front checks. *)
Definition opening {R B} (self : Handler.t) (ctx : Context.t) (conn : option ApiConnection.t)
    (request : option R) (body : R → Body)
    (serve : time → ApiConnection.t → R → Z → M (reply B)) : M (reply B) :=
  started ← ask Now;
  match conn with
  | None => Return (Reply REASON_INTERNAL None (Some ErrNoConnection))
  | Some conn =>
      match request with
      | None => Return (Reply REASON_REJECTED None None)
      | Some request =>
          match opOf (body request) with
          | Err err => Return (Reply REASON_INTERNAL None (Some err))
          | Ok op =>
              reason ← frontChecks ctx conn op;
              if decide (reason = REASON_OK) then serve (started : time) conn request op
              else padded self ctx started reason
          end
      end
  end.
End Handler.
