(* ===== verification/ApiRecord.v ===== *)
(** * Records between the wire, the record layer and the store

    The parts of [api/submit.go], [api/epochkeys.go] and [api/fetch.go] that turn a record from one
    form into another: the attachment's two doors, the projection a record's bytes imply, the store's
    columns, the record rebuilt for a reader, and the rule that aligns the delivered epoch keys. *)

From S2P Require Import Prelude Sha256 StoreTypes MemoryStore Message Prog Api.

(** [const wholeSubmission = -1]: a refusal that is the submission's rather than one record's. *)
Definition wholeSubmission : Z := -1.

(** What one record of a submission has been shown to be.  The checks fill it in as they run. *)
Module recordPass.
Record t := mk {
  projection : option pRecord.t;
  parsed : option Parsed.t;
  attachment : option ServerAttachment.t;
  writeKey : slice }.
Definition start (projection : option pRecord.t) : t := mk projection None None None.
Definition set_parsed (x : Parsed.t) (p : t) : t := mk (projection p) (Some x) (attachment p) (writeKey p).
Definition set_attachment (x : ServerAttachment.t) (p : t) : t := mk (projection p) (parsed p) (Some x) (writeKey p).
Definition set_writeKey (x : slice) (p : t) : t := mk (projection p) (parsed p) (attachment p) x.
End recordPass.

Section Records.
Context `{Library}.

(** ** The attachment *)

(** [parseServerAttachment]: the second door is opened only for a kind the first does not serve. *)
Definition parseServerAttachment (bs : slice) : res LibError ServerAttachment.t :=
  match ParseServerAttachment bs with
  | Ok attachment => Ok attachment
  | Err err =>
      if bool_decide (err = ErrServerAttachmentKindNotServed) then
        match ParseEpochDigestAttachment bs with
        | Err _ => Err err
        | Ok digest =>
            Ok (ServerAttachment.mk MessageAttachmentEpochDigest None None None None (Some digest))
        end
      else Err err
  end.

(** [isEpochAttachmentKind] of [api], over the record layer's kinds. *)
Definition isEpochAttachmentKind (kind : ServerAttachmentKind) : bool :=
  match kind with
  | MessageAttachmentEpoch | MessageAttachmentEpochDigest => true
  | _ => false
  end.

(** The epoch an attachment opens, and whether it is an epoch attachment at all. *)
Definition opensEpochOf (attachment : option ServerAttachment.t) : option Z :=
  match attachment with
  | None => None
  | Some attachment =>
      match ServerAttachment.Kind attachment with
      | MessageAttachmentEpoch => EpochAttachment.Epoch <$> ServerAttachment.Epoch attachment
      | MessageAttachmentEpochDigest =>
          EpochDigestAttachment.Epoch <$> ServerAttachment.EpochDigest attachment
      | _ => None
      end
  end.

(** [attachmentOf]: the record layer's attachment as the store's columns.  The kind chooses the
    body, and a body that is not there is a nil pointer followed. *)
Definition attachmentOf (attachment : option ServerAttachment.t) : M (option Attachment.t) :=
  match attachment with
  | None => Return None
  | Some attachment =>
      match ServerAttachment.Kind attachment with
      | MessageAttachmentEpoch =>
          a ← deref (ServerAttachment.Epoch attachment);
          Return (Some (Attachment.mk AttachmentEpoch
            (Some (EpochAttachment.mk (EpochAttachment.Epoch a) (bytes_Clone (EpochAttachment.WriteKey a))
                     (bytes_Clone (EpochAttachment.ReadKey a)) (u32 (EpochAttachment.AlgId a))
                     (EpochAttachment.MediaTtlSeconds a) (EpochAttachment.DurableTtlSeconds a)
                     (bytes_Clone (EpochAttachment.GroupContextHash a))
                     (EpochAttachment.ExpectedWrapCount a))) None None None None))
      | MessageAttachmentWrap =>
          w ← deref (ServerAttachment.Wrap attachment);
          Return (Some (Attachment.mk AttachmentWrap None
            (Some (WrapTag.mk (bytes_Clone (MessageWrapTag.WrapTargetHandle w)) 0)) None None None))
      | MessageAttachmentRecovery =>
          t ← deref (ServerAttachment.Recovery attachment);
          Return (Some (Attachment.mk AttachmentRecovery None None
            (Some (RecoveryTag.mk (bytes_Clone (MessageRecoveryTag.RecoveryHandle t))
                     (bytes_Clone (MessageRecoveryTag.RecoveryVerifyPub t))
                     (u32 (MessageRecoveryTag.AlgId t)))) None None))
      | MessageAttachmentComplete =>
          c ← deref (ServerAttachment.Complete attachment);
          Return (Some (Attachment.mk AttachmentEpochComplete None None None
            (Some (EpochCompleteTag.mk (EpochCompleteTag.Epoch c) (EpochCompleteTag.WrapCount c))) None))
      | MessageAttachmentEpochDigest =>
          d ← deref (ServerAttachment.EpochDigest attachment);
          Return (Some (Attachment.mk AttachmentEpochDigest None None None None
            (Some (EpochDigestAttachment.mk (EpochDigestAttachment.Epoch d)
                     (u32 (EpochDigestAttachment.AlgId d))
                     (EpochDigestAttachment.MediaTtlSeconds d) (EpochDigestAttachment.DurableTtlSeconds d)
                     (bytes_Clone (EpochDigestAttachment.GroupContextHash d))
                     (EpochDigestAttachment.ExpectedWrapCount d)
                     (bytes_Clone (EpochDigestAttachment.EpochKeysDigest d))))))
      | _ => Return None
      end
  end.

(** ** The projection *)

Definition wrapHandleOf (attachment : option ServerAttachment.t) : slice :=
  match attachment with
  | Some (ServerAttachment.mk _ _ (Some wrap) _ _ _) => bytes_Clone (MessageWrapTag.WrapTargetHandle wrap)
  | _ => None
  end.

Definition recoveryHandleOf (attachment : option ServerAttachment.t) : slice :=
  match attachment with
  | Some (ServerAttachment.mk _ _ _ (Some recovery) _ _) =>
      bytes_Clone (MessageRecoveryTag.RecoveryHandle recovery)
  | _ => None
  end.

(** [projectionOf]: every field the server indexes, out of the parse. *)
Definition projectionOf (parsed : Parsed.t) (attachment : option ServerAttachment.t) :
    option pRecord.t :=
  let header := Parsed.Header parsed in
  match RetentionClassWire (RecordHeader.RetentionClass header) (RecordHeader.EphBucket header) with
  | Err _ => None
  | Ok retentionWire =>
      Some (pRecord.mk None 0 (Some (RecordHeader.SenderHandle header)) (RecordHeader.Epoch header)
              (RecordHeader.StreamIndex header) (RecordHeader.IsCommit header) (u32 retentionWire)
              (u32 (RecordHeader.SizeBucket header)) (RecordHeader.ExpireAt header)
              (Some (RecordHeader.BodyHash header)) (bytes_Clone (RecordHeader.BlobId header))
              (wrapHandleOf attachment) (recoveryHandleOf attachment) None)
  end.

(** ** The columns *)

(** [columnsOf]: the record as the store keeps it, out of the parse and never the projection. *)
Definition columnsOf (pass : recordPass.t) : M (res LibError Rec.t) :=
  parsed ← deref (recordPass.parsed pass);
  let header := Parsed.Header parsed in
  match RetentionClassWire (RecordHeader.RetentionClass header) (RecordHeader.EphBucket header) with
  | Err err => Return (Err err)
  | Ok retentionWire =>
      attachment ← attachmentOf (recordPass.attachment pass);
      Return (Ok (Rec.mk (Some (RecordHeader.SenderHandle header)) (RecordHeader.Epoch header)
        (RecordHeader.StreamIndex header) (RecordHeader.IsCommit header) retentionWire
        (RecordHeader.EphWindow header) (u8 (RecordHeader.SizeBucket header))
        (RecordHeader.ExpireAt header) (Some (RecordHeader.BodyHash header))
        (bytes_Clone (Parsed.CtHead parsed)) (bytes_Clone (Parsed.CtBody parsed))
        (bytes_Clone (RecordHeader.BlobId header))
        (bytes_Clone (RecordHeader.ServerAttachment header)) attachment 0 None))
  end.

(** ** The record a reader is handed *)

Definition noWriteAuth : list Z := repeat 0 32.

Definition rebuiltOf (groupId : slice) (record : Rec.t) (class ephBucket : Z) (headsOnly : bool) :
    Parsed.t :=
  Parsed.mk
    (RecordHeader.mk (octets groupId) (octets (Rec.SenderHandle record)) (Rec.Epoch record)
       (Rec.StreamIndex record) (Rec.IsCommit record) class ephBucket (Rec.EphWindow record)
       (Rec.SizeBucket record) (Rec.ExpireAtMs record) (octets (Rec.BodyHash record))
       (bytes_Clone (Rec.BlobId record)) (bytes_Clone (Rec.ServerAttachment record)))
    (bytes_Clone (Rec.CtHead record))
    (if headsOnly then None else bytes_Clone (Rec.CtBody record)) noWriteAuth.

(** [rebuildRecord]: the stored columns encoded again, with no [write_auth], and the projection the
    submit path verified. *)
Definition rebuildRecord (groupId : slice) (record : Rec.t) (headsOnly : bool) :
    res ApiError pRecord.t :=
  match RetentionClassOf (Rec.RetentionClass record) with
  | Err err => Err (ErrOfLibrary err)
  | Ok (class, ephBucket) =>
      if negb (len groupId =? GroupIdBytes) ||
         negb (len (Rec.SenderHandle record) =? SenderHandleBytes) ||
         negb (len (Rec.BodyHash record) =? BodyHashBytes)
      then Err (ErrOfStore ErrIdentifierShape)
      else
        let rebuilt := rebuiltOf groupId record class ephBucket headsOnly in
        match EncodeRecord rebuilt with
        | Err err => Err (ErrOfLibrary err)
        | Ok recordBytes =>
            match parseServerAttachment (RecordHeader.ServerAttachment (Parsed.Header rebuilt)) with
            | Err err => Err (ErrOfLibrary err)
            | Ok attachment =>
                match projectionOf rebuilt (Some attachment) with
                | None => Err (ErrOfLibrary ErrRetentionClassUnknown)
                | Some projection =>
                    Ok (pRecord.set_RecordId (Rec.RecordId record)
                          (pRecord.set_RecordBytes recordBytes projection))
                end
            end
        end
  end.

(** ** The delivered epoch keys *)

(** The refusals of the alignment rule for one record: [None] is no refusal. *)
Definition alignOne (record : recordPass.t) (parsed : Parsed.t)
    (delivery : option pEpochKeyDelivery.t) : option ApiError :=
  let isCommit := RecordHeader.IsCommit (Parsed.Header parsed) in
  let digestKind :=
    match recordPass.attachment record with
    | Some a => bool_decide (ServerAttachment.Kind a = MessageAttachmentEpochDigest)
    | None => false
    end in
  match delivery with
  | Some d =>
      if negb isCommit then Some ErrEpochKeysOnNonCommit
      else if negb digestKind then Some ErrEpochKeysUnwanted
      else if (len (pEpochKeyDelivery.WriteKey d) =? 0) && (len (pEpochKeyDelivery.ReadKey d) =? 0)
      then Some ErrEpochKeysEmptyEntry
      else if negb (len (pEpochKeyDelivery.WriteKey d) =? EpochKeyBytes) ||
              negb (len (pEpochKeyDelivery.ReadKey d) =? EpochKeyBytes)
      then Some ErrEpochKeyWidth
      else None
  | None => if isCommit && digestKind then Some ErrEpochKeysMissing else None
  end.

(** The loop of [epochKeyAlignment]: the last delivery wanted and its index. *)
Fixpoint alignLoop (deliveries : list (option pEpochKeyDelivery.t)) (index : nat)
    (records : list recordPass.t) (wanted : option pEpochKeyDelivery.t * Z) :
    M (res (Z * ApiError) (option pEpochKeyDelivery.t * Z)) :=
  match records with
  | [] => Return (Ok wanted)
  | record :: rest =>
      let delivery := mjoin (deliveries !! index) in
      parsed ← deref (recordPass.parsed record);
      match alignOne record parsed delivery with
      | Some err => Return (Err (Z.of_nat index, err))
      | None =>
          alignLoop deliveries (S index) rest
            (match delivery with Some d => (Some d, Z.of_nat index) | None => wanted end)
      end
  end.

(** [epochKeyAlignment]: the one delivery a submission's commit needs, or none, and its index; or the
    index a refusal belongs to and its name. *)
Definition epochKeyAlignment (records : list recordPass.t)
    (deliveries : list (option pEpochKeyDelivery.t)) :
    M (res (Z * ApiError) (option pEpochKeyDelivery.t * Z)) :=
  if negb (length deliveries =? 0)%nat && negb (length deliveries =? length records)%nat
  then Return (Err (wholeSubmission, ErrEpochKeysLength))
  else alignLoop deliveries 0 records (None, wholeSubmission).

(** [checkEpochKeysDigest]: the keys against the digest the attachment carries. *)
Definition checkEpochKeysDigest (groupId : slice) (attachment : option ServerAttachment.t)
    (delivery : option pEpochKeyDelivery.t) : option ApiError :=
  if negb (len groupId =? GroupIdBytes) then Some (ErrOfStore ErrIdentifierShape)
  else match attachment ≫= ServerAttachment.EpochDigest with
       | None => Some ErrEpochKeysMissing
       | Some digest =>
           match delivery with
           | None => Some ErrEpochKeysMissing
           | Some d =>
               ErrOfLibrary <$> CheckEpochKeysDigest (octets groupId) digest
                 (pEpochKeyDelivery.WriteKey d) (pEpochKeyDelivery.ReadKey d)
           end
       end.

Definition deliveryOf (delivery : option pEpochKeyDelivery.t) : option EpochKeyDelivery.t :=
  (λ d, EpochKeyDelivery.mk (bytes_Clone (pEpochKeyDelivery.WriteKey d))
          (bytes_Clone (pEpochKeyDelivery.ReadKey d))) <$> delivery.

(** ** The answers *)

Definition appliedOf (applied : option RetentionApplied.t) : option pRetentionApplied.t :=
  (λ a, pRetentionApplied.mk (RetentionApplied.MediaTtlSeconds a) (RetentionApplied.DurableTtlSeconds a)
          (RetentionApplied.MediaClampedDown a) (RetentionApplied.DurableFlooredUp a)
          (RetentionApplied.DurableClampedDown a) (RetentionApplied.DurableDefaulted a)
          (RetentionApplied.RequestedMediaTtlSeconds a)
          (RetentionApplied.RequestedDurableTtlSeconds a)) <$> applied.

(** [resultOf]: an id only beside an acceptance; the winner whenever the store attached one that
    re-encodes. *)
Definition resultOf (groupId : slice) (result : SubmitResult.t) : pSubmitResult.t :=
  pSubmitResult.mk (SubmitResult.reason result)
    (if accepted (SubmitResult.reason result) then SubmitResult.RecordId result else 0)
    (SubmitResult.CurrentEpoch result)
    (match SubmitResult.WinningCommit result with
     | None => None
     | Some commit =>
         match rebuildRecord groupId commit false with Ok winner => Some winner | Err _ => None end
     end)
    (appliedOf (SubmitResult.Applied result)).

(** [acceptance] of [api]. *)
Definition acceptance (reason : Reason) : bool :=
  bool_decide (reason = REASON_OK) || bool_decide (reason = REASON_RETENTION_CLAMPED).

Definition everyResultAccepted (response : list pSubmitResult.t) : bool :=
  forallb (λ result, acceptance (pSubmitResult.reason result)) response.
End Records.
