(* ===== verification/ApiSubmit.v ===== *)
(** * Submit and CreateGroup ([api/submit.go])

    The numbered checks of the submit path as the list [submitStages] that [Submit] runs in order,
    and [CreateGroup] with its carve-out.  A stage reads and writes the submission's pass; each
    answers a refusal, and the first that is not [REASON_OK] ends the run. *)

From S2P Require Import Prelude Sha256 StoreTypes MemoryStore Connections Message Prog Api ApiRecord.

Module refusal.
Record t := mk { reason : Reason; index : Z }.
Definition passed : t := mk REASON_OK wholeSubmission.
End refusal.

(** One submission as it moves down the checks. *)
Module submitPass.
Record t := mk {
  conn : ApiConnection.t;
  groupId : slice;
  records : list recordPass.t;
  deliveries : list (option pEpochKeyDelivery.t);
  keys : option pEpochKeyDelivery.t;
  alignment : option ApiError;
  response : option (list pSubmitResult.t) }.
Definition set_records (x : list recordPass.t) (p : t) : t :=
  mk (conn p) (groupId p) x (deliveries p) (keys p) (alignment p) (response p).
Definition set_keys (x : option pEpochKeyDelivery.t) (p : t) : t :=
  mk (conn p) (groupId p) (records p) (deliveries p) x (alignment p) (response p).
Definition set_alignment (x : ApiError) (p : t) : t :=
  mk (conn p) (groupId p) (records p) (deliveries p) (keys p) (Some x) (response p).
Definition set_response (x : list pSubmitResult.t) (p : t) : t :=
  mk (conn p) (groupId p) (records p) (deliveries p) (keys p) (alignment p) (Some x).
End submitPass.

Section Submit.
Context `{Library}.

Implicit Types (self : Handler.t) (ctx : Context.t) (pass : submitPass.t).

(** ** Check 3 *)

(** [ephWindow]: zero off the windowed classes, and within one window of arrival on them.  The
    division is by a product of two u64s, and dividing by zero panics. *)
Definition ephWindow (header : RecordHeader.t) : M Reason :=
  let seconds := EphBucketSeconds (RecordHeader.EphBucket header) in
  if negb (RecordHeader.RetentionClass header =? RetentionEph) || (seconds <=? 0) then
    if negb (RecordHeader.EphWindow header =? 0) then Return REASON_REJECTED else Return REASON_OK
  else
    now ← ask Now;
    let millis := UnixMilli now in
    if millis <? 0 then Return REASON_INTERNAL
    else
      let divisor := u64 (u64 seconds * 1000) in
      if divisor =? 0 then Panic
      else
        let arrival := u64 millis / divisor in
        let window := RecordHeader.EphWindow header in
        let distance := if arrival <? window then u64 (window - arrival) else u64 (arrival - window) in
        if 1 <? distance then Return REASON_REJECTED else Return REASON_OK.

(** [staticShape]: the parse, the shape rules it does not hold, the attachment, and the projection
    against the parse. *)
Definition staticShape self (groupId : slice) (pass : recordPass.t) : M (recordPass.t * Reason) :=
  match recordPass.projection pass with
  | None => Return (pass, REASON_REJECTED)
  | Some projection =>
      match ParseRecord (pRecord.RecordBytes projection) with
      | Err _ => Return (pass, REASON_REJECTED)
      | Ok parsed =>
          let pass := recordPass.set_parsed parsed pass in
          let header := Parsed.Header parsed in
          if negb (bytes_Equal (Some (RecordHeader.GroupId header)) groupId)
          then Return (pass, REASON_REJECTED)
          else if len (Parsed.CtHead parsed) =? 0 then Return (pass, REASON_REJECTED)
          else if Handler.maxCtHeadBytes self <? len (Parsed.CtHead parsed)
          then Return (pass, REASON_OVERSIZE)
          else if negb (RecordHeader.SizeBucket header =? SizeBucketBlob) &&
                  ((SizeBucketCtBodyBytes (RecordHeader.SizeBucket header) <? 0) ||
                   negb (len (Parsed.CtBody parsed) =?
                         SizeBucketCtBodyBytes (RecordHeader.SizeBucket header)))
          then Return (pass, REASON_REJECTED)
          else
            reason ← ephWindow header;
            if negb (bool_decide (reason = REASON_OK)) then Return (pass, reason)
            else match parseServerAttachment (RecordHeader.ServerAttachment header) with
                 | Err _ => Return (pass, REASON_REJECTED)
                 | Ok attachment =>
                     let pass := recordPass.set_attachment attachment pass in
                     if negb (Bool.eqb (isEpochAttachmentKind (ServerAttachment.Kind attachment))
                                (RecordHeader.IsCommit header))
                     then Return (pass, REASON_REJECTED)
                     else
                       let sent := pRecord.set_RecordId 0 (pRecord.set_RecordBytes None projection) in
                       match projectionOf parsed (Some attachment) with
                       | None => Return (pass, REASON_REJECTED)
                       | Some implied =>
                           if protoEqual implied sent then Return (pass, REASON_OK)
                           else Return (pass, REASON_REJECTED)
                       end
                 end
      end
  end.

(** A loop of the form [for index, record := range pass.records] that refuses at its first record
    whose check does. *)
Definition eachRecord (check : recordPass.t → M (recordPass.t * Reason)) pass :
    M (submitPass.t * refusal.t) :=
  '(_, records, refused) ←
    forEach (λ index (_ : unit) record,
      '(record, reason) ← check record;
      Return (tt, record, if decide (reason = REASON_OK) then None
                          else Some (refusal.mk reason (Z.of_nat index)))) 0 tt
      (submitPass.records pass);
  Return (submitPass.set_records records pass, default refusal.passed refused).

Definition isCommitPass (record : recordPass.t) : M bool :=
  parsed ← deref (recordPass.parsed record);
  Return (RecordHeader.IsCommit (Parsed.Header parsed)).

(** [commits], counted over the parses. *)
Fixpoint countCommits (records : list recordPass.t) : M nat :=
  match records with
  | [] => Return 0%nat
  | record :: rest =>
      isCommit ← isCommitPass record;
      commits ← countCommits rest;
      Return (if (isCommit : bool) then S commits else commits)
  end.

(** [checkEpochKeys]: the alignment rule, then the digest. *)
Definition checkEpochKeys pass : M (submitPass.t * refusal.t) :=
  aligned ← epochKeyAlignment (submitPass.records pass) (submitPass.deliveries pass);
  match aligned with
  | Err (index, err) =>
      Return (submitPass.set_alignment err pass, refusal.mk REASON_REJECTED index)
  | Ok (keys, index) =>
      let pass := submitPass.set_keys keys pass in
      match keys with
      | None => Return (pass, refusal.passed)
      | Some _ =>
          record ← (if index <? 0 then Panic
                    else deref (submitPass.records pass !! Z.to_nat index));
          match checkEpochKeysDigest (submitPass.groupId pass) (recordPass.attachment record) keys with
          | Some err =>
              Return (submitPass.set_alignment err pass, refusal.mk REASON_REJECTED index)
          | None => Return (pass, refusal.passed)
          end
      end
  end.

Definition checkStaticShape self pass : M (submitPass.t * refusal.t) :=
  let count := Z.of_nat (length (submitPass.records pass)) in
  if negb (len (submitPass.groupId pass) =? GroupIdBytes)
  then Return (pass, refusal.mk REASON_REJECTED wholeSubmission)
  else if count =? 0 then Return (pass, refusal.mk REASON_REJECTED wholeSubmission)
  else if Handler.maxRecordsPerSubmit self <? count
  then Return (pass, refusal.mk REASON_OVERSIZE wholeSubmission)
  else
    '(pass, refused) ← eachRecord (staticShape self (submitPass.groupId pass)) pass;
    if decide (refusal.reason refused = REASON_OK) then
      commits ← countCommits (submitPass.records pass);
      if negb (commits =? 0)%nat && negb (length (submitPass.records pass) =? 1)%nat
      then Return (pass, refusal.mk REASON_REJECTED wholeSubmission)
      else checkEpochKeys pass
    else Return (pass, refused).

(** ** Checks 5 to 8 *)

Definition checkKnownGroup self pass : M (submitPass.t * refusal.t) :=
  known ← Contains (Handler.knownGroups self) (submitPass.groupId pass);
  match known with
  | Err _ => Return (pass, refusal.mk REASON_INTERNAL wholeSubmission)
  | Ok false => Return (pass, refusal.mk REASON_REJECTED wholeSubmission)
  | Ok true => Return (pass, refusal.passed)
  end.

(** One iteration of check 6, with the keys already looked up in this submission. *)
Definition lookupKey (groupId : slice) (index : nat) (seen : gmap Z slice) (record : recordPass.t) :
    M (gmap Z slice * recordPass.t * option refusal.t) :=
  parsed ← deref (recordPass.parsed record);
  let epoch := RecordHeader.Epoch (Parsed.Header parsed) in
  match seen !! epoch with
  | Some key => Return (seen, recordPass.set_writeKey key record, None)
  | None =>
      keys ← ask (StoreEpochKeys groupId epoch);
      match (keys : res Error EpochKeys.t) with
      | Err _ => Return (seen, record, Some (refusal.mk REASON_REJECTED (Z.of_nat index)))
      | Ok keys =>
          if bool_decide (EpochKeys.WriteKey keys = None)
          then Return (seen, record, Some (refusal.mk REASON_REJECTED (Z.of_nat index)))
          else Return (<[epoch := EpochKeys.WriteKey keys]> seen,
                       recordPass.set_writeKey (EpochKeys.WriteKey keys) record, None)
      end
  end.

Definition checkEpochKey pass : M (submitPass.t * refusal.t) :=
  '(_, records, refused) ←
    forEach (lookupKey (submitPass.groupId pass)) 0 ∅ (submitPass.records pass);
  Return (submitPass.set_records records pass, default refusal.passed refused).

Definition writeAuth (conn : ApiConnection.t) (record : recordPass.t) : M (recordPass.t * Reason) :=
  parsed ← deref (recordPass.parsed record);
  Return (record,
    if VerifyWriteAuth (recordPass.writeKey record) (ApiConnection.ServerNonce conn) parsed
    then REASON_OK else REASON_REJECTED).

Definition checkWriteAuth pass : M (submitPass.t * refusal.t) :=
  eachRecord (writeAuth (submitPass.conn pass)) pass.

(** [blobd.ContentHash] *)
Definition ContentHash (body : slice) : list Z := Sha256.Sum256 (octets body).

Definition bodyHash (record : recordPass.t) : M Reason :=
  parsed ← deref (recordPass.parsed record);
  if RecordHeader.SizeBucket (Parsed.Header parsed) =? SizeBucketBlob then Return REASON_OK
  else if negb (bool_decide (ContentHash (Parsed.CtBody parsed) =
                             RecordHeader.BodyHash (Parsed.Header parsed)))
  then Return REASON_REJECTED
  else Return REASON_OK.

Definition checkBodyHash pass : M (submitPass.t * refusal.t) :=
  eachRecord (λ record, reason ← bodyHash record; Return (record, reason)) pass.

(** ** Check 9 *)

Definition recordKindIsBuilt (record : recordPass.t) : M Reason :=
  parsed ← deref (recordPass.parsed record);
  let header := Parsed.Header parsed in
  if (RecordHeader.RetentionClass header =? RetentionEph) && (RecordHeader.EphBucket header =? 0)
  then Return REASON_INTERNAL
  else if RecordHeader.SizeBucket header =? SizeBucketBlob then Return REASON_INTERNAL
  else Return REASON_OK.

(** One iteration of the loop that gathers the columns. *)
Definition gatherColumns (index : nat) (records : list Rec.t) (record : recordPass.t) :
    M (list Rec.t * recordPass.t * option refusal.t) :=
  reason ← recordKindIsBuilt record;
  if negb (bool_decide (reason = REASON_OK))
  then Return (records, record, Some (refusal.mk reason (Z.of_nat index)))
  else
    columns ← columnsOf record;
    match columns with
    | Err _ => Return (records, record, Some (refusal.mk REASON_INTERNAL (Z.of_nat index)))
    | Ok columns => Return (records ++ [columns], record, None)
    end.

Definition runTransaction pass : M (submitPass.t * refusal.t) :=
  '(columns, records, refused) ← forEach gatherColumns 0 [] (submitPass.records pass);
  let pass := submitPass.set_records records pass in
  match refused with
  | Some refused => Return (pass, refused)
  | None =>
      response ← ask (StoreSubmit (SubmitRequest.mk (submitPass.groupId pass) columns
                                     (deliveryOf (submitPass.keys pass))));
      match (response : res Error (list SubmitResult.t)) with
      | Err _ => Return (pass, refusal.mk REASON_INTERNAL wholeSubmission)
      | Ok results =>
          Return (submitPass.set_response (resultOf (submitPass.groupId pass) <$> results) pass,
                  refusal.passed)
      end
  end.

(** ** The pipeline *)

Definition submitStages self : list (Z * (submitPass.t → M (submitPass.t * refusal.t))) :=
  [(3, checkStaticShape self); (5, checkKnownGroup self); (6, checkEpochKey);
   (7, checkWriteAuth); (8, checkBodyHash); (9, runTransaction)].

(** [for _, current := range self.submitStages()] *)
Fixpoint runStages (stages : list (Z * (submitPass.t → M (submitPass.t * refusal.t)))) pass :
    M (submitPass.t * option refusal.t) :=
  match stages with
  | [] => Return (pass, None)
  | (_, run) :: rest =>
      '(pass, refused) ← run pass;
      if decide (refusal.reason refused = REASON_OK) then runStages rest pass
      else Return (pass, Some refused)
  end.

(** [refuseBatch] of [api]: a reason on every result and nothing beside it. *)
Definition refuseBatch (count : nat) (refused : refusal.t) : list pSubmitResult.t :=
  (λ index, pSubmitResult.mk
     (if (refusal.index refused =? wholeSubmission) || (refusal.index refused =? Z.of_nat index)
      then refusal.reason refused else REASON_REJECTED) 0 0 None None) <$> seq 0 count.

(** [publishAccepted]: the accepted results that name a record, with their records' epochs. *)
Definition published (records : list recordPass.t) (results : list pSubmitResult.t) :
    list (Z * Z) :=
  omap (λ x, x)
    (imap (λ index result,
       if negb (acceptance (pSubmitResult.reason result)) || (pSubmitResult.RecordId result =? 0)
       then None
       else match records !! index with
            | None => None
            | Some record =>
                (λ parsed, (pSubmitResult.RecordId result, RecordHeader.Epoch (Parsed.Header parsed)))
                <$> recordPass.parsed record
            end) results).

Definition publishAccepted self pass : M unit :=
  match submitPass.response pass with
  | None => Return tt
  | Some results =>
      if negb (Handler.subscriptions self) then Return tt
      else ask (Published (submitPass.groupId pass) (published (submitPass.records pass) results))
  end.

Definition startPass (conn : ApiConnection.t) (request : pSubmitRequest.t) : submitPass.t :=
  submitPass.mk conn (pSubmitRequest.GroupId request)
    (recordPass.start <$> pSubmitRequest.Records request) (pSubmitRequest.EpochKeys request)
    None None None.

(** What [Submit] does with a request that passed the front checks. *)
Definition serveSubmit self ctx (started : time) (conn : ApiConnection.t)
    (request : pSubmitRequest.t) (_ : Z) : M (reply (list pSubmitResult.t)) :=
  '(pass, refused) ← runStages (submitStages self) (startPass conn request);
  match refused with
  | Some refused =>
      _ ← pad self ctx started;
      if (length (submitPass.records pass) =? 0)%nat
      then Return (Reply (refusal.reason refused) None None)
      else Return (Reply REASON_OK (Some (refuseBatch (length (submitPass.records pass)) refused)) None)
  | None =>
      match submitPass.response pass with
      | None => Return (Reply REASON_INTERNAL None (Some ErrNoStore))
      | Some response =>
          _ ← (if everyResultAccepted response then Return tt else pad self ctx started);
          _ ← publishAccepted self pass;
          Return (Reply REASON_OK (Some response) None)
      end
  end.

Definition Submit self ctx (conn : option ApiConnection.t) (request : option pSubmitRequest.t) :
    M (reply (list pSubmitResult.t)) :=
  opening self ctx conn request BodySubmit (serveSubmit self ctx).

(** ** CreateGroup *)

(** What [CreateGroup] does with a request that passed the front checks. *)
Definition serveCreateGroup self ctx (started : time) (conn : ApiConnection.t)
    (request : pCreateGroupRequest.t) (_ : Z) : M (reply pCreateGroupResponse.t) :=
  let groupId := pCreateGroupRequest.GroupId request in
  let reject := padded self ctx started REASON_REJECTED in
  if negb (len (pCreateGroupRequest.BootstrapWriteKey request) =? EpochKeyBytes) then reject
  else
    '(pass, reason) ←
      staticShape self groupId (recordPass.start (pCreateGroupRequest.InitialCommit request));
    if negb (bool_decide (reason = REASON_OK)) then padded self ctx started reason
    else
      parsed ← deref (recordPass.parsed pass);
      if negb (RecordHeader.IsCommit (Parsed.Header parsed)) ||
         negb (RecordHeader.Epoch (Parsed.Header parsed) =? 0)
      then reject
      else if negb (bool_decide (opensEpochOf (recordPass.attachment pass) = Some 1)) then reject
      else
        aligned ← epochKeyAlignment [pass] [pCreateGroupRequest.EpochKeys request];
        match aligned with
        | Err _ => reject
        | Ok (keys, _) =>
            if (match keys with
                | None => false
                | Some _ => bool_decide (checkEpochKeysDigest groupId (recordPass.attachment pass) keys ≠ None)
                end)
            then reject
            else if negb (VerifyWriteAuth (pCreateGroupRequest.BootstrapWriteKey request)
                            (ApiConnection.ServerNonce conn) parsed)
            then reject
            else
              reason ← bodyHash pass;
              if negb (bool_decide (reason = REASON_OK)) then padded self ctx started reason
              else
                reason ← recordKindIsBuilt pass;
                if negb (bool_decide (reason = REASON_OK))
                then Return (Reply REASON_INTERNAL None None)
                else
                  columns ← columnsOf pass;
                  match columns with
                  | Err err => Return (Reply REASON_INTERNAL None (Some (ErrOfLibrary err)))
                  | Ok columns =>
                      result ← ask (StoreCreateGroup (CreateGroupRequest.mk groupId (Some columns)
                        (pCreateGroupRequest.BootstrapWriteKey request) (deliveryOf keys)));
                      match (result : res Error CreateGroupResult.t) with
                      | Err err => Return (Reply REASON_INTERNAL None (Some (ErrOfStore err)))
                      | Ok result =>
                          if negb (acceptance (CreateGroupResult.reason result))
                          then padded self ctx started (CreateGroupResult.reason result)
                          else
                            _ ← Insert (Handler.knownGroups self) groupId;
                            Return (Reply (CreateGroupResult.reason result)
                              (Some (pCreateGroupResponse.mk (CreateGroupResult.CurrentEpoch result)
                                       (CreateGroupResult.RecordId result)
                                       (appliedOf (CreateGroupResult.Applied result)))) None)
                      end
                  end
        end.

Definition CreateGroup self ctx (conn : option ApiConnection.t)
    (request : option pCreateGroupRequest.t) : M (reply pCreateGroupResponse.t) :=
  opening self ctx conn request BodyCreateGroup (serveCreateGroup self ctx).
End Submit.
