(* ===== verification/ApiFetch.v ===== *)
(** * Fetch, Subscribe and Unsubscribe ([api/fetch.go], [api/subscribe.go])

    The read path: the checks of a read as the list [fetchStages], the read-key lookup and the
    authenticator over the request's canonical bytes, and the handlers.  [Subscribe] is authorised as
    a read is and then registers with the registry, whose own state is [Subscriptions]. *)

From S2P Require Import Prelude StoreTypes MemoryStore Connections Message Prog Api ApiRecord.

(** One read request as it moves down the checks. *)
Module fetchPass.
Record t := mk {
  conn : ApiConnection.t;
  request : pFetchRequest.t;
  op : Z;
  readKey : slice }.
Definition set_readKey (x : slice) (p : t) : t := mk (conn p) (request p) (op p) x.
End fetchPass.

(** The request arms that carry a [req_auth] field, with the field cleared. *)
Definition clearReqAuth (body : Body) : option Body :=
  match body with
  | BodyFetch request => Some (BodyFetch (pFetchRequest.clear_ReqAuth request))
  | BodySubscribe request => Some (BodySubscribe (pSubscribeRequest.clear_ReqAuth request))
  | _ => None
  end.

Section Fetch.
Context `{Library}.

Implicit Types (self : Handler.t) (ctx : Context.t) (pass : fetchPass.t).

(** ** The checks of a read *)

Definition canonicalRequestBytes (request : Body) : res ApiError slice :=
  match clearReqAuth request with
  | None => Err ErrNoOpForBody
  | Some cleared =>
      match Marshal cleared with Ok bs => Ok bs | Err err => Err (ErrOfLibrary err) end
  end.

Definition checkFetchShape pass : M (fetchPass.t * Reason) :=
  if negb (len (pFetchRequest.GroupId (fetchPass.request pass)) =? GroupIdBytes)
  then Return (pass, REASON_REJECTED)
  else if len (pFetchRequest.ReqAuth (fetchPass.request pass)) =? 0
  then Return (pass, REASON_REJECTED)
  else Return (pass, REASON_OK).

Definition checkFetchKnownGroup self pass : M (fetchPass.t * Reason) :=
  known ← Contains (Handler.knownGroups self) (pFetchRequest.GroupId (fetchPass.request pass));
  Return (pass, match known with
                | Err _ => REASON_INTERNAL
                | Ok false => REASON_REJECTED
                | Ok true => REASON_OK
                end).

Definition checkReadKey pass : M (fetchPass.t * Reason) :=
  let request := fetchPass.request pass in
  keys ← ask (StoreEpochKeys (pFetchRequest.GroupId request) (pFetchRequest.ReadEpoch request));
  match (keys : res Error EpochKeys.t) with
  | Err _ => Return (pass, REASON_REJECTED)
  | Ok keys =>
      if bool_decide (EpochKeys.ReadKey keys = None) then Return (pass, REASON_REJECTED)
      else Return (fetchPass.set_readKey (EpochKeys.ReadKey keys) pass, REASON_OK)
  end.

Definition checkRequestAuth pass : M (fetchPass.t * Reason) :=
  match canonicalRequestBytes (BodyFetch (fetchPass.request pass)) with
  | Err _ => Return (pass, REASON_REJECTED)
  | Ok canonical =>
      if negb (VerifyRequestAuth (fetchPass.readKey pass)
                 (ApiConnection.ServerNonce (fetchPass.conn pass)) (fetchPass.op pass) canonical
                 (pFetchRequest.ReqAuth (fetchPass.request pass)))
      then Return (pass, REASON_REJECTED)
      else Return (pass, REASON_OK)
  end.

Definition fetchStages self : list (Z * (fetchPass.t → M (fetchPass.t * Reason))) :=
  [(3, checkFetchShape); (5, checkFetchKnownGroup self); (6, checkReadKey); (7, checkRequestAuth)].

Fixpoint runReadStages (stages : list (Z * (fetchPass.t → M (fetchPass.t * Reason)))) pass :
    M (fetchPass.t * Reason) :=
  match stages with
  | [] => Return (pass, REASON_OK)
  | (_, run) :: rest =>
      '(pass, reason) ← run pass;
      if decide (reason = REASON_OK) then runReadStages rest pass else Return (pass, reason)
  end.

(** ** Fetch *)

(** [fetchLimit]: what is advertised bounds what is asked for. *)
Definition fetchLimit self (requested : Z) : Z :=
  if (requested =? 0) || (u32 (Handler.maxRecordsPerFetch self) <? requested)
  then u32 (Handler.maxRecordsPerFetch self) else requested.

Fixpoint rebuildAll (groupId : slice) (headsOnly : bool) (records : list Rec.t) :
    res ApiError (list pRecord.t) :=
  match records with
  | [] => Ok []
  | record :: rest =>
      match rebuildRecord groupId record headsOnly with
      | Err err => Err err
      | Ok rebuilt => res_bind (rebuildAll groupId headsOnly rest) (λ l, Ok (rebuilt :: l))
      end
  end.

(** What [Fetch] does with a request that passed the front checks. *)
Definition serveFetch self ctx (started : time) (conn : ApiConnection.t)
    (request : pFetchRequest.t) (op : Z) : M (reply pFetchResponse.t) :=
  '(_, reason) ← runReadStages (fetchStages self) (fetchPass.mk conn request op None);
  if negb (bool_decide (reason = REASON_OK)) then padded self ctx started reason
  else
    result ← ask (StoreFetch (FetchRequest.mk (pFetchRequest.GroupId request)
      (pFetchRequest.SinceRecordId request) (fetchLimit self (pFetchRequest.Limit request))
      (pFetchRequest.HeadsOnly request) (pFetchRequest.ClassMask request)
      (pFetchRequest.ReadEpoch request)));
    match (result : res Error FetchResult.t) with
    | Err _ => padded self ctx started REASON_REJECTED
    | Ok result =>
        match rebuildAll (pFetchRequest.GroupId request) (pFetchRequest.HeadsOnly request)
                (FetchResult.Records result) with
        | Err err => Return (Reply REASON_INTERNAL None (Some err))
        | Ok records =>
            Return (Reply REASON_OK (Some (pFetchResponse.mk records (FetchResult.NextRecordId result)
              (FetchResult.HighWaterRecordId result) (FetchResult.Complete result))) None)
        end
    end.

Definition Fetch self ctx (conn : option ApiConnection.t) (request : option pFetchRequest.t) :
    M (reply pFetchResponse.t) :=
  opening self ctx conn request BodyFetch (serveFetch self ctx).

(** ** Subscribe *)

(** What [Subscribe] does with a request that passed the front checks. *)
Definition serveSubscribe self ctx (started : time) (conn : ApiConnection.t)
    (request : pSubscribeRequest.t) (op : Z) : M (reply (list pSubscriptionAck.t)) :=
  let reject := padded self ctx started REASON_REJECTED in
  if negb (Handler.subscriptions self) then Return (Reply REASON_INTERNAL None None)
  else match pSubscribeRequest.Subscriptions request with
  | [wanted] =>
      let groupId := pSubscription.GroupId wanted in
      if negb (len groupId =? GroupIdBytes) || (len (pSubscribeRequest.ReqAuth request) =? 0)
      then reject
      else
        known ← Contains (Handler.knownGroups self) groupId;
        match known with
        | Err _ => Return (Reply REASON_INTERNAL None None)
        | Ok false => reject
        | Ok true =>
            keys ← ask (StoreEpochKeys groupId (pSubscribeRequest.ReadEpoch request));
            match (keys : res Error EpochKeys.t) with
            | Err _ => reject
            | Ok keys =>
                if bool_decide (EpochKeys.ReadKey keys = None) then reject
                else match canonicalRequestBytes (BodySubscribe request) with
                | Err _ => reject
                | Ok canonical =>
                    if negb (VerifyRequestAuth (EpochKeys.ReadKey keys)
                               (ApiConnection.ServerNonce conn) op canonical
                               (pSubscribeRequest.ReqAuth request))
                    then reject
                    else
                      result ← ask (StoreFetch (FetchRequest.mk groupId
                        (pSubscription.SinceRecordId wanted) 1 true 0
                        (pSubscribeRequest.ReadEpoch request)));
                      match (result : res Error FetchResult.t) with
                      | Err _ => reject
                      | Ok result =>
                          let snapshot := FetchResult.HighWaterRecordId result in
                          full ← ask (Api.Subscribe (Some (ApiConnection.ClientId conn))
                            (ApiConnection.ServerNonce conn) groupId
                            (pSubscribeRequest.ReadEpoch request) snapshot
                            (pSubscribeRequest.Replace request));
                          if (full : bool) then reject
                          else Return (Reply REASON_OK
                                 (Some [pSubscriptionAck.mk (bytes_Clone groupId) snapshot REASON_OK]) None)
                      end
                end
            end
        end
  | _ => reject
  end.

Definition Subscribe self ctx (conn : option ApiConnection.t)
    (request : option pSubscribeRequest.t) : M (reply (list pSubscriptionAck.t)) :=
  opening self ctx conn request BodySubscribe (serveSubscribe self ctx).

(** [Unsubscribe] takes no clock reading and pads nothing. *)
Definition Unsubscribe self ctx (conn : option ApiConnection.t)
    (request : option pUnsubscribeRequest.t) : M (reply unit) :=
  match conn with
  | None => Return (Reply REASON_INTERNAL None (Some ErrNoConnection))
  | Some conn =>
      match request with
      | None => Return (Reply REASON_REJECTED None None)
      | Some request =>
          match opOf (BodyUnsubscribe request) with
          | Err err => Return (Reply REASON_INTERNAL None (Some err))
          | Ok op =>
              reason ← frontChecks ctx conn op;
              if negb (bool_decide (reason = REASON_OK)) then Return (Reply reason None None)
              else if negb (Handler.subscriptions self) then Return (Reply REASON_INTERNAL None None)
              else if pUnsubscribeRequest.All request &&
                      (0 <? Z.of_nat (length (pUnsubscribeRequest.GroupIds request)))
              then Return (Reply REASON_REJECTED None None)
              else
                _ ← ask (Api.Unsubscribe (Some (ApiConnection.ClientId conn))
                  (ApiConnection.ServerNonce conn) (pUnsubscribeRequest.GroupIds request)
                  (pUnsubscribeRequest.All request));
                Return (Reply REASON_OK None None)
          end
      end
  end.
End Fetch.
