(* ===== verification/ApiRendezvous.v ===== *)
(** * The five rendezvous arms ([api/rendezvous.go])

    Register, Open, Deposit, Collect and Retire of the link box, over the link-box store.  Each
    arm runs the shape check, reads the box, verifies the arm's signature under the key the box is
    pinned to, and only then writes; Register's signature is under the key it carries. *)

From S2P Require Import Prelude StoreTypes LinkBox Connections Message Prog Api.

Section Rendezvous.
Context `{Library}.

Implicit Types (self : Handler.t) (ctx : Context.t).

(** ** What the arms share *)

Definition RendezvousServed self : bool :=
  Handler.linkBoxes self && negb (Handler.rejectFloor self <=? 0).

Definition RendezvousKinds self : Z :=
  if negb (RendezvousServed self) then 0 else Z.shiftl 1 LinkBoxKind.

Definition RendezvousDepositSizes self : list Z :=
  if negb (RendezvousServed self) then [] else [LinkDepositBytes].

(** [liveLinkBox]: one answer for every box the caller may not use. *)
Definition liveLinkBox (rendezvousId : slice) (now : time) :
    M (res (Reason * option ApiError) LinkBox.t) :=
  box ← ask (BoxRead rendezvousId);
  match (box : res Error LinkBox.t) with
  | Err ErrLinkBoxUnknown => Return (Err (REASON_CARD_RETIRED, None))
  | Err err => Return (Err (REASON_INTERNAL, Some (ErrOfStore err)))
  | Ok box =>
      if negb (Live box now) then Return (Err (REASON_CARD_RETIRED, None)) else Return (Ok box)
  end.

(** The lines that follow it in each arm: an error, a padded refusal, or the box. *)
Definition withLiveBox {B} self ctx (started : time) (rendezvousId : slice) (now : time)
    (use : LinkBox.t → M (reply B)) : M (reply B) :=
  found ← liveLinkBox rendezvousId now;
  match found with
  | Err (_, Some err) => Return (Reply REASON_INTERNAL None (Some err))
  | Err (reason, None) => padded self ctx started reason
  | Ok box => use box
  end.

(** The lines every arm opens with. *)
Definition servedArm {R B} self ctx (conn : option ApiConnection.t) (request : option R)
    (body : R → Body) (serve : time → ApiConnection.t → R → M (reply B)) : M (reply B) :=
  opening self ctx conn request body (λ started conn request _,
    if negb (RendezvousServed self) then Return (Reply REASON_INTERNAL None None)
    else serve started conn request).

Definition linkBoxRegistrationShaped (request : pRegisterRequest.t) : bool :=
  (pRegisterRequest.Kind request =? LinkBoxKind) &&
  (len (pRegisterRequest.CardXwingPub request) =? 0) &&
  (pRegisterRequest.AlgId request =? LinkBoxAlgId) &&
  (len (pRegisterRequest.RendezvousId request) =? RendezvousIdBytes) &&
  (len (pRegisterRequest.DepositVerifyPub request) =? VerifyPubBytes) &&
  (len (pRegisterRequest.CollectVerifyPub request) =? VerifyPubBytes) &&
  (len (pRegisterRequest.PublicCt request) =? LinkCardBytes) &&
  RendezvousKeyIsAcceptable (pRegisterRequest.DepositVerifyPub request) &&
  RendezvousKeyIsAcceptable (pRegisterRequest.CollectVerifyPub request).

(** ** Register *)

(** The write, once the id is free or stands and the cap is not full. *)
Definition insertBox self ctx (started now : time) (request : pRegisterRequest.t) :
    M (reply pRegisterResponse.t) :=
  registered ← ask (BoxRegister
    (LinkBoxRegistration.mk (pRegisterRequest.RendezvousId request)
       (pRegisterRequest.DepositVerifyPub request) (pRegisterRequest.CollectVerifyPub request)
       (pRegisterRequest.PublicCt request)) now (Handler.linkBoxTtl self) (Handler.linkBoxLiveCap self));
  match (registered : res Error LinkBoxRegistered.t) with
  | Err err => Return (Reply REASON_INTERNAL None (Some (ErrOfStore err)))
  | Ok registered =>
      if negb (bool_decide (LinkBoxRegistered.reason registered = REASON_OK))
      then padded self ctx started (LinkBoxRegistered.reason registered)
      else Return (Reply REASON_OK
             (Some (pRegisterResponse.mk (u64 (UnixMilli (LinkBoxRegistered.ExpireTime registered)))
                      (LinkBoxRegistered.MailboxDepth registered))) None)
  end.

Definition serveRegister self ctx (started : time) (conn : ApiConnection.t)
    (request : pRegisterRequest.t) : M (reply pRegisterResponse.t) :=
  if negb (linkBoxRegistrationShaped request) then padded self ctx started REASON_REJECTED
  else
    let registration :=
      RendezvousRegistration.mk (pRegisterRequest.RendezvousId request)
        (pRegisterRequest.DepositVerifyPub request) (pRegisterRequest.CollectVerifyPub request)
        (pRegisterRequest.CardXwingPub request) (pRegisterRequest.AlgId request mod 2 ^ 16)
        (pRegisterRequest.Kind request) (pRegisterRequest.PublicCt request) in
    if negb (VerifyRendezvousRegister registration (ApiConnection.ServerNonce conn)
               (pRegisterRequest.RegisterAuth request))
    then padded self ctx started REASON_REJECTED
    else
      now ← ask Now;
      standing ← ask (BoxRead (pRegisterRequest.RendezvousId request));
      match (standing : res Error LinkBox.t) with
      | Ok _ => insertBox self ctx started now request
      | Err ErrLinkBoxUnknown =>
          live ← ask (BoxCount now);
          match (live : res Error Z) with
          | Err _ => padded self ctx started REASON_CARD_RATE_LIMITED
          | Ok live =>
              if Handler.linkBoxLiveCap self <=? live
              then padded self ctx started REASON_CARD_RATE_LIMITED
              else insertBox self ctx started now request
          end
      | Err err => Return (Reply REASON_INTERNAL None (Some (ErrOfStore err)))
      end.

Definition RendezvousRegister self ctx conn (request : option pRegisterRequest.t) :
    M (reply pRegisterResponse.t) :=
  servedArm self ctx conn request BodyRegister (serveRegister self ctx).

(** ** Open *)

Definition serveOpen self ctx (started : time) (conn : ApiConnection.t)
    (request : pOpenRequest.t) : M (reply pOpenResponse.t) :=
  if negb (len (pOpenRequest.RendezvousId request) =? RendezvousIdBytes)
  then padded self ctx started REASON_REJECTED
  else
    now ← ask Now;
    withLiveBox self ctx started (pOpenRequest.RendezvousId request) now (λ box,
      if negb (VerifyRendezvousOpen (LinkBox.DepositVerifyPub box) (ApiConnection.ServerNonce conn)
                 (pOpenRequest.RendezvousId request) (pOpenRequest.OpenAuth request))
      then padded self ctx started REASON_CARD_RETIRED
      else Return (Reply REASON_OK (Some (pOpenResponse.mk LinkBoxAlgId LinkDepositBytes
             (LinkBox.PublicCt box) [LinkDepositBytes])) None)).

Definition RendezvousOpen self ctx conn (request : option pOpenRequest.t) :
    M (reply pOpenResponse.t) :=
  servedArm self ctx conn request BodyOpen (serveOpen self ctx).

(** ** Deposit *)

Definition serveDeposit self ctx (started : time) (conn : ApiConnection.t)
    (request : pDepositRequest.t) : M (reply pDepositResponse.t) :=
  let rendezvousId := pDepositRequest.RendezvousId request in
  if negb (len rendezvousId =? RendezvousIdBytes) ||
     negb (len (pDepositRequest.DepositCt request) =? LinkDepositBytes)
  then padded self ctx started REASON_REJECTED
  else
    now ← ask Now;
    withLiveBox self ctx started rendezvousId now (λ box,
      if negb (VerifyRendezvousDeposit (LinkBox.DepositVerifyPub box)
                 (ApiConnection.ServerNonce conn) rendezvousId (pDepositRequest.DepositCt request)
                 (pDepositRequest.DepositAuth request))
      then padded self ctx started REASON_CARD_RETIRED
      else
        deposited ← ask (BoxDeposit rendezvousId (LinkBox.DepositVerifyPub box)
          (pDepositRequest.DepositCt request) now);
        match (deposited : res Error LinkBoxDeposited.t) with
        | Err err => Return (Reply REASON_INTERNAL None (Some (ErrOfStore err)))
        | Ok deposited =>
            if negb (bool_decide (LinkBoxDeposited.reason deposited = REASON_OK))
            then padded self ctx started (LinkBoxDeposited.reason deposited)
            else
              _ ← (if Handler.subscriptions self && negb (LinkBoxDeposited.Replayed deposited)
                   then ask (DepositedRendezvous rendezvousId
                          (LinkBoxDeposited.PendingCount deposited) now)
                   else Return tt);
              Return (Reply REASON_OK (Some (pDepositResponse.mk (LinkBoxDeposited.DepositId deposited)
                        (LinkBoxDeposited.DepositHash deposited))) None)
        end).

Definition RendezvousDeposit self ctx conn (request : option pDepositRequest.t) :
    M (reply pDepositResponse.t) :=
  servedArm self ctx conn request BodyDeposit (serveDeposit self ctx).

(** ** Collect *)

(** The write, the claim's settlement, and the answer.  [claimed] is the subscription this Collect
    holds a claim on, if it made or found one. *)
Definition collectBox self ctx (started now : time) (conn : ApiConnection.t)
    (request : pCollectRequest.t) (box : LinkBox.t) (claimed : option nat) :
    M (reply pCollectResponse.t) :=
  let rendezvousId := pCollectRequest.RendezvousId request in
  collected ← ask (BoxCollect
    (LinkBoxCollectRequest.mk rendezvousId (pCollectRequest.SinceDepositId request)
       (pCollectRequest.AckThroughDepositId request) (pCollectRequest.Limit request)
       (LinkBox.CollectVerifyPub box)) now);
  let taken := match (collected : res Error LinkBoxCollected.t) with
               | Ok c => bool_decide (LinkBoxCollected.reason c = REASON_OK)
               | Err _ => false
               end in
  _ ← (match claimed with
       | Some claim =>
           ask (SettleRendezvous (Some (ApiConnection.ClientId conn))
             (ApiConnection.ServerNonce conn) rendezvousId claim taken)
       | None => Return tt
       end);
  match (collected : res Error LinkBoxCollected.t) with
  | Err err => Return (Reply REASON_INTERNAL None (Some (ErrOfStore err)))
  | Ok collected =>
      if negb (bool_decide (LinkBoxCollected.reason collected = REASON_OK))
      then padded self ctx started (LinkBoxCollected.reason collected)
      else Return (Reply REASON_OK (Some (pCollectResponse.mk
             ((λ deposit, pRendezvousDeposit.mk (LinkBoxDeposit.DepositId deposit)
                 (LinkBoxDeposit.DepositCt deposit)
                 (u64 (UnixMilli (LinkBoxDeposit.CreateTime deposit))))
              <$> LinkBoxCollected.Deposits collected)
             (LinkBoxCollected.PendingCount collected) (LinkBoxCollected.RefusedCount collected)
             (u64 (UnixMilli (LinkBoxCollected.ExpireTime collected)))
             (LinkBoxCollected.Complete collected))) None)
  end.

Definition serveCollect self ctx (started : time) (conn : ApiConnection.t)
    (request : pCollectRequest.t) : M (reply pCollectResponse.t) :=
  let rendezvousId := pCollectRequest.RendezvousId request in
  if negb (len rendezvousId =? RendezvousIdBytes) then padded self ctx started REASON_REJECTED
  else
    now ← ask Now;
    withLiveBox self ctx started rendezvousId now (λ box,
      if negb (VerifyRendezvousCollect (LinkBox.CollectVerifyPub box)
                 (ApiConnection.ServerNonce conn)
                 (RendezvousCollectParams.mk rendezvousId (pCollectRequest.SinceDepositId request)
                    (pCollectRequest.AckThroughDepositId request) (pCollectRequest.Limit request)
                    (pCollectRequest.Subscribe request))
                 (pCollectRequest.CollectAuth request))
      then padded self ctx started REASON_CARD_RETIRED
      else if pCollectRequest.Subscribe request && Handler.subscriptions self then
        subscription ← ask (SubscribeRendezvous (Some (ApiConnection.ClientId conn))
          (ApiConnection.ServerNonce conn) rendezvousId (LinkBox.ExpireTime box) now);
        match (subscription : option (option nat)) with
        | None => padded self ctx started REASON_CARD_RATE_LIMITED
        | Some claimed => collectBox self ctx started now conn request box claimed
        end
      else collectBox self ctx started now conn request box None).

Definition RendezvousCollect self ctx conn (request : option pCollectRequest.t) :
    M (reply pCollectResponse.t) :=
  servedArm self ctx conn request BodyCollect (serveCollect self ctx).

(** ** Retire *)

Definition serveRetire self ctx (started : time) (conn : ApiConnection.t)
    (request : pRetireRequest.t) : M (reply pRetireResponse.t) :=
  let rendezvousId := pRetireRequest.RendezvousId request in
  if negb (len rendezvousId =? RendezvousIdBytes) then padded self ctx started REASON_REJECTED
  else
    now ← ask Now;
    withLiveBox self ctx started rendezvousId now (λ box,
      if negb (VerifyRendezvousRetire (LinkBox.CollectVerifyPub box)
                 (ApiConnection.ServerNonce conn) rendezvousId (pRetireRequest.RetireAuth request))
      then padded self ctx started REASON_CARD_RETIRED
      else
        retired ← ask (BoxRetire rendezvousId (LinkBox.CollectVerifyPub box) now);
        match (retired : res Error LinkBoxRetired.t) with
        | Err err => Return (Reply REASON_INTERNAL None (Some (ErrOfStore err)))
        | Ok retired =>
            if negb (bool_decide (LinkBoxRetired.reason retired = REASON_OK))
            then padded self ctx started (LinkBoxRetired.reason retired)
            else
              _ ← (if Handler.subscriptions self then ask (RetiredRendezvous rendezvousId)
                   else Return tt);
              Return (Reply REASON_OK
                (Some (pRetireResponse.mk (LinkBoxRetired.DiscardedDeposits retired))) None)
        end).

Definition RendezvousRetire self ctx conn (request : option pRetireRequest.t) :
    M (reply pRetireResponse.t) :=
  servedArm self ctx conn request BodyRetire (serveRetire self ctx).
End Rendezvous.
