(* ===== verification/SubmitChecks.v ===== *)
(** * What each check of the submit path establishes

    One lemma per check of [ApiSubmit], over every trace: it does not panic, what it makes true of
    each record when it lets the submission through, and the reason it refuses with otherwise.  The
    section is generic in which calls a handler may make. *)

From S2P Require Import Prelude Sha256 StoreTypes MemoryStore Connections Message Prog Api ApiRecord.
From S2P Require Import ApiSubmit.

Section Facts.
Context `{Library} `{!LibraryLaws}.

(** ** What the checks establish of a record *)

Definition windowed (h : RecordHeader.t) : Prop :=
  RecordHeader.EphWindow h <> 0 →
  RecordHeader.RetentionClass h = RetentionEph ∧ 1 <= RecordHeader.EphBucket h <= 5 ∧
  RecordHeader.EphWindow h <= EphWindowMax.

(** Check 3 let the record through. *)
Record shaped (groupId : slice) (p : recordPass.t) (parsed : Parsed.t) (att : ServerAttachment.t)
    (sent : pRecord.t) : Prop := Shaped {
  sh_sent : recordPass.projection p = Some sent;
  sh_parse : ParseRecord (pRecord.RecordBytes sent) = Ok parsed;
  sh_parsed : recordPass.parsed p = Some parsed;
  sh_group : RecordHeader.GroupId (Parsed.Header parsed) = octets groupId;
  sh_head : len (Parsed.CtHead parsed) ≠ 0;
  sh_window : windowed (Parsed.Header parsed);
  sh_door : parseServerAttachment (RecordHeader.ServerAttachment (Parsed.Header parsed)) = Ok att;
  sh_attachment : recordPass.attachment p = Some att;
  sh_iff : ApiRecord.isEpochAttachmentKind (ServerAttachment.Kind att) =
           RecordHeader.IsCommit (Parsed.Header parsed);
  sh_projection : ∃ implied, projectionOf parsed (Some att) = Some implied ∧
    sameMessage implied (pRecord.set_RecordId 0 (pRecord.set_RecordBytes None sent)) }.

(** The two doors both answer a well-formed attachment. *)
Lemma parseServerAttachment_wf bs a :
  parseServerAttachment bs = Ok a → attachmentWellFormed a.
Proof.
  unfold parseServerAttachment. intros Hp.
  destruct (ParseServerAttachment bs) as [b|e] eqn:E; simplify_eq; [by eapply parse_attachment|].
  case_bool_decide; [|done]. destruct (ParseEpochDigestAttachment bs); simplify_eq. by eexists.
Qed.

(** The attachment's copy, which a well-formed attachment never panics on. *)
Lemma attachmentOf_wf a :
  attachmentWellFormed a → ∃ x, attachmentOf (Some a) = Return x ∧
    (∀ r, Rec.Attachment r = x → validateAttachment r = None).
Proof.
  unfold attachmentWellFormed, attachmentOf, validateAttachment, attachmentKindOf.
  destruct (ServerAttachment.Kind a) eqn:Hk; intros Hw.
  - eexists; split; [done|]. by intros r ->.
  - destruct Hw as [e ->]. eexists; split; [done|]. by intros r ->.
  - destruct Hw as (w & -> & Hl). eexists; split; [done|]. intros r ->. simpl.
    unfold checkLength, bytes_Clone. by rewrite Hl.
  - destruct Hw as (t & -> & Hl1 & Hl2). eexists; split; [done|]. intros r ->. simpl.
    unfold checkLength, bytes_Clone. by rewrite Hl1, Hl2.
  - destruct Hw as [c ->]. eexists; split; [done|]. by intros r ->.
  - destruct Hw as [d ->]. eexists; split; [done|]. by intros r ->.
  - eexists; split; [done|]. by intros r ->.
Qed.

Lemma len_Some n l : length l = n → len (Some l) = Z.of_nat n.
Proof. by intros <-. Qed.

(** The columns of a record check 3 let through, of a kind this build serves, are the store's. *)
Definition built (parsed : Parsed.t) : Prop :=
  ¬ (RecordHeader.RetentionClass (Parsed.Header parsed) = RetentionEph ∧
     RecordHeader.EphBucket (Parsed.Header parsed) = 0) ∧
  RecordHeader.SizeBucket (Parsed.Header parsed) ≠ SizeBucketBlob.

Lemma columns_valid groupId p parsed att sent :
  shaped groupId p parsed att sent → built parsed →
  ∃ r, columnsOf p = Return (Ok r) ∧ validateRecord r = None ∧
       Rec.IsCommit r = RecordHeader.IsCommit (Parsed.Header parsed) ∧
       Rec.Epoch r = RecordHeader.Epoch (Parsed.Header parsed).
Proof.
  intros [Hs Hp Hq Hg Hh Hw Hd Ha Hi _] [Hb1 Hb2].
  destruct (parse_arrays _ _ Hp) as (_ & Hsh & Hbh).
  destruct (parse_bucket _ _ Hp) as (Hsb & Hblob).
  destruct (parse_class _ _ Hp) as (w & Hwire & _).
  destruct (attachmentOf_wf att (parseServerAttachment_wf _ _ Hd)) as (x & Hx & Hval).
  unfold columnsOf. rewrite Hq, Ha. cbn -[attachmentOf]. rewrite Hwire, Hx. cbn.
  eexists; split; [done|]. split; [|done].
  assert (RecordHeader.BlobId (Parsed.Header parsed) = None) as Hnb.
  { destruct (RecordHeader.BlobId _) eqn:E; [|done]. destruct Hb2. apply Hblob. done. }
  pose proof (class_wire _ _ _ Hwire) as Hcw.
  unfold validateRecord. rewrite !first_error_None.
  repeat split; try done; cbn [Rec.SenderHandle Rec.BodyHash Rec.CtHead Rec.SizeBucket
    Rec.RetentionClass Rec.EphWindow Rec.CtBody Rec.BlobId Rec.Attachment bytes_Clone];
    unfold bytes_Clone; rewrite ?Hnb.
  - unfold checkLength. by rewrite (len_Some 16).
  - unfold checkLength. by rewrite (len_Some 32).
  - by rewrite (proj2 (Z.eqb_neq _ _) Hh).
  - unfold u8. rewrite Z.mod_small by lia. destruct (5 <? _) eqn:E; [reflect_bools; lia|done].
  - unfold ClassMedia, ClassEphBase, ClassEphMax in *.
    destruct (w <=? 2) eqn:E1; [done|]. destruct ((16 <=? w) && (w <=? 21)) eqn:E2; [done|].
    reflect_bools. apply andb_false_iff in E2 as [E2|E2]; reflect_bools; lia.
  - unfold ClassMedia, ClassEphBase in *. destruct (w =? 16) eqn:E; [|done]. reflect_bools.
    destruct Hcw as [(? & ? & ?)|[? ?] ]; [|lia]. destruct Hb1. split; [done|lia].
  - destruct (EphWindowMax <? _) eqn:E; [|done]. reflect_bools.
    destruct Hw as (_ & _ & Hw); [|lia]. unfold EphWindowMax in E. intros Hz. rewrite Hz in E. done.
  - destruct (negb (_ =? 0)) eqn:E; [|done]. reflect_bools. destruct (Hw E) as (Hc & Hr & _).
    destruct Hcw as [(_ & _ & Hcw)|[Hn _] ]; [|done]. unfold ephWindowClassAllows, ClassEphBase, ClassEphMax in *.
    destruct ((_ <? _) && _) eqn:E2; [done|]. apply andb_false_iff in E2 as [E2|E2]; reflect_bools; lia.
  - by rewrite andb_false_r.
  - done.
  - by apply Hval.
Qed.

(** The arrival window of a clock reading fits far below the column's bound. *)
Lemma UnixMilli_range t : UnixMilli t < two63.
Proof.
  unfold UnixMilli, i64.
  pose proof (Z.mod_pos_bound ((t - unixToInternal * Second) / Millisecond + two63) two64 eq_refl).
  unfold two63, two64 in *. lia.
Qed.

Lemma arrival_range seconds millis :
  0 < seconds < two32 → 0 <= millis < two63 →
  u64 (u64 seconds * 1000) = seconds * 1000 ∧ seconds * 1000 ≠ 0 ∧
  0 <= u64 millis / (seconds * 1000) < 2 ^ 62.
Proof.
  intros Hs Hm. unfold two32, two63 in *. rewrite (u64_small seconds), (u64_small millis), u64_small
    by (unfold two64; lia). repeat split; [lia|apply Z.div_pos; lia|].
  apply Z.div_lt_upper_bound; lia.
Qed.

(** ** The checks, one by one *)

(** The calls any stage may make: they read nothing of a group and write nothing. *)
Definition quiet (c : op) : bool :=
  match c with
  | Now | Sleep _ | Defer _ | FrontFrame _ _ | FrontConnection _ _ | FrontRate _ _
  | IdsRead _ => true
  | _ => false
  end.

(** What a run did between two points is quiet, but for a look at whether the group exists and the
    known-group map's write. *)
Definition silent (c : op) : bool :=
  match c with StoreGroupState _ | IdsWrite _ => true | _ => quiet c end.

Definition quietly (tr tr' : list (event answer)) : Prop :=
  ∃ l, tr' = tr ++ l ∧ Forall (λ e, silent (did e) = true) l.

#[export] Instance quietly_preorder : PreOrder quietly.
Proof.
  split.
  - intros tr. exists []. split; [by rewrite app_nil_r|constructor].
  - intros a b c (l & -> & Hl) (l' & -> & Hl'). exists (l ++ l'). split; [by rewrite app_assoc|].
    by apply Forall_app.
Qed.

Lemma quietly_snoc tr e : silent (did e) = true → quietly tr (tr ++ [e]).
Proof. intros He. exists [e]. split; [done|]. by constructor. Qed.

(** The reasons a check refuses with. *)
Definition plain (r : Reason) : Prop :=
  r = REASON_REJECTED ∨ r = REASON_OVERSIZE ∨ r = REASON_INTERNAL.

Lemma plain_not_OK r : plain r → r ≠ REASON_OK.
Proof. by intros [->|[->| ->]]. Qed.

Section Checks.
Context (may : list (event answer) → op → Prop).
Context (Hquiet : ∀ tr c, quiet c = true → may tr c).

Abbreviation every := (wp (λ _, True) may).

Lemma every_quiet {A} c (k : answer c → M A) Q tr :
  quiet c = true → (∀ r, every (k r) Q (tr ++ [Event c r])) → every (Do c k) Q tr.
Proof. intros Hc Hk. split; [by apply Hquiet|]. auto. Qed.

(** Between two points of a run there are so many quiet events. *)
Ltac quiet_step := repeat first [done | by apply quietly_snoc | etrans; [|by apply quietly_snoc] ].

Lemma every_ephWindow h Q tr :
  0 <= RecordHeader.EphWindow h < two64 →
  (∀ tr' r, quietly tr tr' → (r = REASON_OK ∧ windowed h) ∨ plain r → Q tr' r) →
  every (ephWindow h) Q tr.
Proof.
  intros Hw HQ. unfold ephWindow. destruct (ladder (RecordHeader.EphBucket h)) as [Hl Hu].
  destruct (negb _ || _) eqn:Hc.
  - destruct (negb (RecordHeader.EphWindow h =? 0)) eqn:E; cbn; apply HQ; try done;
      unfold plain; [tauto|]. left. reflect_bools. split; [done|]. by intros ?.
  - reflect_bools. assert (0 < EphBucketSeconds (RecordHeader.EphBucket h)) as Hs by lia.
    apply every_quiet; [done|]. intros now. cbn [answer] in now |- *.
    assert (quietly tr (tr ++ [Event Now now])) as Hpre by by apply quietly_snoc.
    destruct (UnixMilli now <? 0) eqn:Hm; [apply HQ; [done|unfold plain; tauto]|].
    pose proof (UnixMilli_range now) as Hr. reflect_bools.
    destruct (arrival_range (EphBucketSeconds (RecordHeader.EphBucket h)) (UnixMilli now)) as (Hd & Ha & Hb);
      [lia..|]. rewrite Hd, (proj2 (Z.eqb_neq _ _) Ha).
    destruct (1 <? _) eqn:Hdist; apply HQ; try done; [unfold plain; tauto|]. left. split; [done|].
    intros _. split; [done|]. split; [by apply Hl|]. reflect_bools.
    set (arrival := _ / _) in *. unfold EphWindowMax, two63, two64 in *.
    destruct (arrival <? RecordHeader.EphWindow h) eqn:Hlt; reflect_bools; [|lia].
    rewrite u64_small in Hdist by (unfold two64; lia). lia.
Qed.

(** The pass a stage leaves still carries the projection the request sent. *)
Definition carries (p p' : recordPass.t) : Prop :=
  recordPass.projection p' = recordPass.projection p.

Lemma every_staticShape self groupId p Q tr :
  (∀ tr' p' r, quietly tr tr' → carries p p' →
     (r = REASON_OK ∧ ∃ parsed att sent, shaped groupId p' parsed att sent) ∨ plain r →
     Q tr' (p', r)) →
  every (staticShape self groupId p) Q tr.
Proof.
  intros HQ. unfold staticShape.
  assert (∀ tr' p' r, quietly tr tr' → carries p p' → plain r → Q tr' (p', r)) as Href
    by (intros; apply HQ; auto).
  assert (plain REASON_REJECTED ∧ plain REASON_OVERSIZE) as [Hrej Hov] by (unfold plain; tauto).
  destruct (recordPass.projection p) as [sent|] eqn:Hs; [|by apply Href].
  destruct (ParseRecord _) as [parsed|] eqn:Hp; [|by apply Href].
  destruct (negb (bytes_Equal _ _)) eqn:Hg; [by apply Href|]. reflect_bools.
  apply bytes_Equal_spec in Hg. destruct (len (Parsed.CtHead parsed) =? 0) eqn:Hh; [by apply Href|].
  destruct (_ <? len (Parsed.CtHead parsed)); [by apply Href|].
  destruct (negb _ && _); [by apply Href|]. apply wp_bind, every_ephWindow.
  { apply (parse_widths _ _ Hp). }
  intros tr' r Hpre Hr. destruct (negb (bool_decide (r = REASON_OK))) eqn:Hr'; reflect_bools.
  { apply Href; [done|done|]. destruct Hr as [ [? _]|Hr]; [done|exact Hr]. }
  destruct Hr as [ [_ Hw]|Hr]; [|by apply plain_not_OK in Hr].
  destruct (parseServerAttachment _) as [att|] eqn:Hd; [|by apply Href].
  destruct (negb (Bool.eqb _ _)) eqn:Hi; [by apply Href|].
  destruct (projectionOf _ _) as [implied|] eqn:Hpr; [|by apply Href].
  destruct (protoEqual _ _) eqn:He; [|by apply Href].
  apply HQ; [done|done|]. left. split; [done|]. exists parsed, att, sent.
  reflect_bools. apply Bool.eqb_prop in Hi.
  split; try done. exists implied. split; [done|]. by apply proto_equal.
Qed.

(** A loop over the records of a pass: what the body establishes of each, it does of all. *)
Lemma every_eachRecord check (P G : recordPass.t → Prop) p Q tr :
  (∀ a tr', P a → every (check a) (λ tr2 out, quietly tr' tr2 ∧ carries a out.1 ∧
      ((out.2 = REASON_OK ∧ G out.1) ∨ plain out.2)) tr') →
  (∀ tr' records refused, quietly tr tr' →
     recordPass.projection <$> records = recordPass.projection <$> submitPass.records p →
     (refused = refusal.passed ∧ Forall G records) ∨ plain (refusal.reason refused) →
     Q tr' (submitPass.set_records records p, refused)) →
  Forall P (submitPass.records p) →
  every (eachRecord check p) Q tr.
Proof.
  intros Hb HQ HP. unfold eachRecord. apply wp_bind.
  enough (∀ l index tr0, quietly tr tr0 → Forall P l →
    every (forEach (λ index (_ : unit) record,
      '(record, reason) ← check record;
      Return (tt, record, if decide (reason = REASON_OK) then None
                          else Some (refusal.mk reason (Z.of_nat index)))) index tt l)
      (λ tr' out, quietly tr tr' ∧
         recordPass.projection <$> out.1.2 = recordPass.projection <$> l ∧
         match out.2 with None => Forall G out.1.2 | Some r => plain (refusal.reason r) end) tr0) as HL.
  { eapply wp_mono; [|apply HL; [done|exact HP] ]. intros tr' [ [ [] records] refused] (Hp & Hc & Hr).
    cbn in *. apply HQ; [done|done|]. destruct refused as [r|]; cbn; auto. }
  induction l as [|a l IH]; intros index tr0 Hpre Hl; cbn; [done|].
  apply Forall_cons in Hl as [Ha Hl]. apply wp_bind, wp_bind. eapply wp_mono; [|by apply Hb].
  intros tr1 [a1 r1] (Hp1 & Hc1 & Hr1). cbn in *. destruct (decide (r1 = REASON_OK)) as [->|Hne].
  - destruct Hr1 as [ [_ HG]|Hr]; [|by apply plain_not_OK in Hr]. cbn. apply wp_bind.
    eapply wp_mono; [|apply IH; [by etrans|done] ]. intros tr2 [ [ [] l2] r2] (Hp2 & Hc2 & Hr2).
    cbn in *. split; [done|]. split; [by rewrite Hc1, Hc2|]. destruct r2; [done|by constructor].
  - destruct Hr1 as [ [? _]|Hr]; [done|]. cbn. split; [by etrans|]. split; [by rewrite Hc1|done].
Qed.

Definition isShaped (groupId : slice) (p : recordPass.t) : Prop :=
  ∃ parsed att sent, shaped groupId p parsed att sent.

Definition commitPass (p : recordPass.t) : bool :=
  match recordPass.parsed p with Some x => RecordHeader.IsCommit (Parsed.Header x) | None => false end.

Lemma countCommits_shaped groupId records :
  Forall (isShaped groupId) records →
  countCommits records = Return (length (filter (λ p, commitPass p = true) records)).
Proof.
  induction 1 as [|p l (parsed & att & sent & Hp) _ IH]; [done|].
  assert (isCommitPass p = Return (commitPass p)) as Hc.
  { unfold isCommitPass, commitPass. by rewrite (sh_parsed _ _ _ _ _ Hp). }
  rewrite filter_cons. cbn [countCommits]. rewrite Hc, IH. cbn [mbind prog_mbind prog_bind].
  destruct (commitPass p); [rewrite decide_True by done|rewrite decide_False by done]; done.
Qed.

(** The delivery the alignment rule answers sits opposite a record of the submission. *)
Lemma alignLoop_shaped groupId deliveries index records wanted :
  Forall (isShaped groupId) records →
  (wanted.1 ≠ None → 0 <= wanted.2 < Z.of_nat index) →
  ∃ out, alignLoop deliveries index records wanted = Return out ∧
    match out with
    | Err _ => True
    | Ok (keys, i) => keys ≠ None → 0 <= i < Z.of_nat (index + length records)
    end.
Proof.
  intros Hl. revert index wanted. induction Hl as [|p l (parsed & att & sent & Hp) _ IH];
    intros index wanted Hw; cbn.
  - eexists; split; [done|]. destruct wanted as [k i]. cbn in *. by rewrite Nat.add_0_r.
  - rewrite (sh_parsed _ _ _ _ _ Hp). cbn. destruct (alignOne _ _ _); [by eexists|].
    destruct (IH (S index) (match mjoin (deliveries !! index) with
      | Some d => (Some d, Z.of_nat index) | None => wanted end)) as (out & -> & Ho).
    + destruct (mjoin _); cbn; intros H1; [lia|specialize (Hw H1); lia].
    + exists out. split; [done|]. by rewrite Nat.add_succ_comm in Ho.
Qed.

Lemma epochKeyAlignment_shaped groupId records deliveries :
  Forall (isShaped groupId) records →
  ∃ out, epochKeyAlignment records deliveries = Return out ∧
    match out with
    | Err _ => True
    | Ok (keys, i) => keys ≠ None → 0 <= i < Z.of_nat (length records)
    end.
Proof.
  intros Hl. unfold epochKeyAlignment. destruct (negb _ && _); [by eexists|].
  by apply (alignLoop_shaped groupId deliveries 0 records (None, wholeSubmission)).
Qed.

(** What a submission's pass keeps from stage to stage. *)
Record same_request (p p' : submitPass.t) : Prop := SameRequest {
  sr_conn : submitPass.conn p' = submitPass.conn p;
  sr_group : submitPass.groupId p' = submitPass.groupId p;
  sr_records : recordPass.projection <$> submitPass.records p' =
               recordPass.projection <$> submitPass.records p;
  sr_response : submitPass.response p' = submitPass.response p }.

Lemma every_checkEpochKeys p Q tr :
  Forall (isShaped (submitPass.groupId p)) (submitPass.records p) →
  (∀ p' refused, same_request p p' → submitPass.records p' = submitPass.records p →
     refused = refusal.passed ∨ refusal.reason refused = REASON_REJECTED → Q tr (p', refused)) →
  every (checkEpochKeys p) Q tr.
Proof.
  intros Hs HQ. unfold checkEpochKeys.
  destruct (epochKeyAlignment_shaped _ _ (submitPass.deliveries p) Hs) as (out & -> & Ho). cbn.
  destruct out as [ [keys i]|[i err] ]; [|by apply HQ; [split|..|right] ].
  destruct keys as [k|]; [|by apply HQ; [split|..|left] ]. cbn.
  destruct Ho as [Hi1 Hi2]; [done|]. destruct (i <? 0) eqn:E; [reflect_bools; lia|].
  destruct (lookup_lt_is_Some_2 (submitPass.records p) (Z.to_nat i)) as [r ->]; [lia|]. cbn.
  destruct (checkEpochKeysDigest _ _ _); apply HQ; try (by split); auto.
Qed.

(** Check 3 as a whole. *)
Lemma every_checkStaticShape self p Q tr :
  (∀ tr' p' refused, quietly tr tr' → same_request p p' →
     (refused = refusal.passed ∧ len (submitPass.groupId p) = GroupIdBytes ∧
      submitPass.records p' ≠ [] ∧
      Forall (isShaped (submitPass.groupId p)) (submitPass.records p') ∧
      (length (filter (λ p, commitPass p = true) (submitPass.records p')) = 0%nat ∨
       length (submitPass.records p') = 1%nat)) ∨ plain (refusal.reason refused) →
     Q tr' (p', refused)) →
  every (checkStaticShape self p) Q tr.
Proof.
  intros HQ. unfold checkStaticShape.
  assert (plain REASON_REJECTED ∧ plain REASON_OVERSIZE) as [Hrej Hov] by (unfold plain; tauto).
  destruct (negb (len _ =? _)) eqn:Hg; [apply HQ; [done|by split|by right] |].
  destruct (Z.of_nat _ =? 0) eqn:Hn; [apply HQ; [done|by split|by right] |].
  destruct (_ <? Z.of_nat _); [apply HQ; [done|by split|by right] |]. reflect_bools.
  apply wp_bind, (every_eachRecord _ (λ _, True) (isShaped (submitPass.groupId p))).
  { intros a tr' _. apply every_staticShape. intros tr2 p' r Hp Hc Hr. cbn. auto. }
  2:{ by apply Forall_forall. }
  intros tr' records refused Hpre Hproj Hr. cbn. destruct (decide _) as [HOK|Hne].
  2:{ destruct Hr as [ [-> _]|Hr]; [done|]. apply HQ; [done|by split|by right]. }
  destruct Hr as [ [-> HG]|Hr]; [|by apply plain_not_OK in Hr].
  rewrite (countCommits_shaped _ _ HG). cbn.
  assert (length records = length (submitPass.records p)) as Hlen.
  { apply (f_equal length) in Hproj. by rewrite !length_fmap in Hproj. }
  assert (records ≠ []) as Hne by (intros ->; cbn in Hlen; lia).
  destruct (negb _ && _) eqn:Hcm; [apply HQ; [done|by split|by right] |].
  apply every_checkEpochKeys; [done|]. intros p' refused [Hs1 Hs2 Hs3 Hs4] Hrec Href. cbn in *.
  apply HQ; [done|split; cbn; congruence|]. rewrite Hrec. destruct Href as [->|Href]; [left|right].
  - repeat split; try done. apply andb_false_iff in Hcm as [Hcm|Hcm]; reflect_bools;
      apply Nat.eqb_eq in Hcm; auto.
  - by rewrite Href.
Qed.

(** The store has answered that a group exists. *)
Definition exists_in (tr : list (event answer)) (groupId : slice) : Prop :=
  ∃ state, Event (StoreGroupState groupId) (Ok state) ∈ tr.

Lemma every_Contains known groupId Q tr :
  (∀ tr', quietly tr tr' → may tr' (StoreGroupState groupId)) →
  (∀ tr', quietly tr tr' → exists_in tr' groupId → may tr' (IdsWrite groupId)) →
  (∀ tr' r, quietly tr tr' → Q tr' r) →
  every (Contains known groupId) Q tr.
Proof.
  intros Hm Hw HQ. assert (∀ tr' e, quietly tr tr' → silent (did e) = true → quietly tr (tr' ++ [e])) as Hs.
  { intros tr' e H1 H2. etrans; [done|by apply quietly_snoc]. }
  unfold Contains. destruct known; (apply every_quiet; [done|]; intros cached); cbn.
  { apply HQ. by apply Hs. }
  destruct cached; cbn; [apply HQ; by apply Hs|]. split; [apply Hm; by apply Hs|].
  intros r _. assert (quietly tr ((tr ++ [Event (IdsRead groupId) false]) ++
    [Event (StoreGroupState groupId) r])) as Hq by (apply Hs; [by apply Hs|done]).
  destruct r as [g|e]; cbn.
  - split; [|intros u _; apply HQ; by apply Hs]. apply Hw; [done|]. exists g.
    apply elem_of_app. right. by apply list_elem_of_singleton.
  - destruct e; by apply HQ.
Qed.

Lemma every_checkKnownGroup self p Q tr :
  (∀ tr', quietly tr tr' → may tr' (StoreGroupState (submitPass.groupId p))) →
  (∀ tr', quietly tr tr' → exists_in tr' (submitPass.groupId p) →
     may tr' (IdsWrite (submitPass.groupId p))) →
  (∀ tr' refused, quietly tr tr' →
     refused = refusal.passed ∨ plain (refusal.reason refused) → Q tr' (p, refused)) →
  every (checkKnownGroup self p) Q tr.
Proof.
  intros Hm Hw HQ. unfold checkKnownGroup. apply wp_bind, every_Contains; [done..|].
  intros tr' r Hq. unfold plain in HQ. destruct r as [ []|e]; apply HQ; cbn; auto.
Qed.

(** ** The keys *)

(** The trace shows where a record's write key came from. *)
Definition keyRead (groupId : slice) (tr : list (event answer)) (epoch : Z) (key : slice) : Prop :=
  ∃ keys, Event (StoreEpochKeys groupId epoch) (Ok keys) ∈ tr ∧
    EpochKeys.WriteKey keys = key ∧ key ≠ None.

Lemma keyRead_mono groupId tr tr' epoch key :
  tr `prefix_of` tr' → keyRead groupId tr epoch key → keyRead groupId tr' epoch key.
Proof. intros [l ->] (keys & Hin & Hk). exists keys. split; [apply elem_of_app; by left|done]. Qed.

Definition keyed (groupId : slice) (tr : list (event answer)) (p : recordPass.t) : Prop :=
  ∃ parsed att sent, shaped groupId p parsed att sent ∧
    keyRead groupId tr (RecordHeader.Epoch (Parsed.Header parsed)) (recordPass.writeKey p).

(** The map of keys looked up so far, and the trace: each has what the other has. *)
Definition memo (groupId : slice) (tr : list (event answer)) (seen : gmap Z slice) : Prop :=
  (∀ e k, seen !! e = Some k → keyRead groupId tr e k) ∧
  (∀ e r, Event (StoreEpochKeys groupId e) r ∈ tr → is_Some (seen !! e)).

Definition unread (groupId : slice) (tr : list (event answer)) (e : Z) : Prop :=
  ∀ r, Event (StoreEpochKeys groupId e) r ∉ tr.

Lemma shaped_writeKey groupId p parsed att sent k :
  shaped groupId p parsed att sent → shaped groupId (recordPass.set_writeKey k p) parsed att sent.
Proof. intros []. by split. Qed.

Lemma every_checkEpochKey p Q tr :
  let groupId := submitPass.groupId p in
  (∀ tr' e, tr `prefix_of` tr' → unread groupId tr' e →
     (∃ r parsed, r ∈ submitPass.records p ∧ recordPass.parsed r = Some parsed ∧
        RecordHeader.Epoch (Parsed.Header parsed) = e) → may tr' (StoreEpochKeys groupId e)) →
  (∀ e, unread groupId tr e) →
  Forall (isShaped groupId) (submitPass.records p) →
  (∀ tr' records refused, tr `prefix_of` tr' →
     length records = length (submitPass.records p) →
     (refused = refusal.passed ∧ Forall (keyed groupId tr') records ∧
      recordPass.projection <$> records = recordPass.projection <$> submitPass.records p ∧
      recordPass.parsed <$> records = recordPass.parsed <$> submitPass.records p) ∨
     plain (refusal.reason refused) →
     Q tr' (submitPass.set_records records p, refused)) →
  every (checkEpochKey p) Q tr.
Proof.
  intros groupId Hm Hun Hs HQ. unfold checkEpochKey. apply wp_bind. fold groupId.
  enough (∀ l index seen tr0, tr `prefix_of` tr0 → l ⊆ submitPass.records p →
    Forall (isShaped groupId) l → memo groupId tr0 seen →
    every (forEach (lookupKey groupId) index seen l)
      (λ tr' out, tr0 `prefix_of` tr' ∧ length out.1.2 = length l ∧
         match out.2 with
         | None => Forall (keyed groupId tr') out.1.2 ∧
                   recordPass.projection <$> out.1.2 = recordPass.projection <$> l ∧
                   recordPass.parsed <$> out.1.2 = recordPass.parsed <$> l
         | Some r => refusal.reason r = REASON_REJECTED
         end) tr0) as HL.
  { eapply wp_mono; [|apply (HL _ _ _ tr); [done|done|exact Hs|] ].
    - intros tr' [ [seen records] refused] (Hp & Hl & Hr). cbn in *. apply HQ; [done|done|].
      destruct refused as [r|]; cbn; [right; left; done|left]. split; [done|exact Hr].
    - split; [by intros e k|]. intros e r Hin. by apply Hun in Hin. }
  induction l as [|a l IH]; intros index seen tr0 Hpre Hin Hl Hmemo; [done|]. cbn [forEach].
  apply Forall_cons in Hl as [ (parsed & att & sent & Ha) Hl].
  assert (l ⊆ submitPass.records p) as Hin' by (intros x Hx; apply Hin; by right).
  apply wp_bind. unfold lookupKey at 1. rewrite (sh_parsed _ _ _ _ _ Ha).
  cbn [deref mbind prog_mbind prog_bind].
  set (epoch := RecordHeader.Epoch (Parsed.Header parsed)).
  assert (∀ tr1 seen1 k, tr0 `prefix_of` tr1 → memo groupId tr1 seen1 → seen1 !! epoch = Some k →
    every ('(s, l', refused) ← forEach (lookupKey groupId) (S index) seen1 l;
           Return (s, recordPass.set_writeKey k a :: l', refused))
      (λ tr' out, tr0 `prefix_of` tr' ∧ length out.1.2 = S (length l) ∧
         match out.2 with
         | None => Forall (keyed groupId tr') out.1.2 ∧
                   recordPass.projection <$> out.1.2 = recordPass.projection <$> a :: l ∧
                   recordPass.parsed <$> out.1.2 = recordPass.parsed <$> a :: l
         | Some r => refusal.reason r = REASON_REJECTED
         end) tr1) as Hnext.
  { intros tr1 seen1 k Hp1 Hm1 Hk. apply wp_bind. eapply wp_mono; [|apply IH; [by etrans|done..] ].
    intros tr2 [ [s2 l2] r2] (Hp2 & Hl2 & Hr2). cbn in *. split; [by etrans|]. split; [by rewrite Hl2|].
    destruct r2 as [r|]; [done|]. destruct Hr2 as (Hf & Hpr & Hpa). split; [|by rewrite Hpr, Hpa].
    constructor; [|done]. exists parsed, att, sent. split; [by apply shaped_writeKey|].
    eapply keyRead_mono; [exact Hp2|]. by apply Hm1. }
  destruct (seen !! epoch) as [k|] eqn:Hk; [by apply (Hnext _ _ k)|].
  split.
  { apply Hm; [done| |by exists a, parsed; split; [apply Hin; left|split; [apply Ha|] ] ].
    intros r Hr. apply Hmemo in Hr as [? Hr]. congruence. }
  intros keys _. destruct keys as [keys|e]; [|split; [by eexists|done] ]. cbn [prog_mbind prog_bind].
  case_bool_decide as Hnil; [split; [by eexists|done] |].
  apply (Hnext _ _ (EpochKeys.WriteKey keys)); [by eexists| |by rewrite lookup_insert_eq].
  split.
  - intros e k. rewrite lookup_insert_Some. intros [ [<- <-]|[_ He] ].
    + exists keys. split; [apply elem_of_app; right; by apply list_elem_of_singleton|done].
    + eapply keyRead_mono; [|by apply Hmemo]. by eexists.
  - intros e r Hr. apply elem_of_app in Hr as [Hr|Hr].
    + rewrite lookup_insert_is_Some'. right. by apply Hmemo in Hr.
    + apply list_elem_of_singleton in Hr. simplify_eq. by rewrite lookup_insert_eq.
Qed.

(** ** The authenticators and the bodies *)

Definition authed (conn : ApiConnection.t) (groupId : slice) (tr : list (event answer))
    (p : recordPass.t) : Prop :=
  ∃ parsed att sent, shaped groupId p parsed att sent ∧
    keyRead groupId tr (RecordHeader.Epoch (Parsed.Header parsed)) (recordPass.writeKey p) ∧
    VerifyWriteAuth (recordPass.writeKey p) (ApiConnection.ServerNonce conn) parsed = true.

Lemma every_checkWriteAuth p Q tr :
  Forall (keyed (submitPass.groupId p) tr) (submitPass.records p) →
  (∀ records refused,
     recordPass.projection <$> records = recordPass.projection <$> submitPass.records p →
     (refused = refusal.passed ∧
      Forall (authed (submitPass.conn p) (submitPass.groupId p) tr) records) ∨
     plain (refusal.reason refused) →
     ∀ tr', quietly tr tr' → Q tr' (submitPass.set_records records p, refused)) →
  every (checkWriteAuth p) Q tr.
Proof.
  intros Hk HQ. unfold checkWriteAuth.
  apply (every_eachRecord _ (keyed (submitPass.groupId p) tr)
    (authed (submitPass.conn p) (submitPass.groupId p) tr)); [|eauto|done].
  intros a tr' (parsed & att & sent & Ha & Hr). unfold writeAuth.
  rewrite (sh_parsed _ _ _ _ _ Ha). cbn. split; [done|]. split; [done|].
  destruct (VerifyWriteAuth _ _ _) eqn:Hv; [left|right; by left]. split; [done|].
  by exists parsed, att, sent.
Qed.

Definition hashed (conn : ApiConnection.t) (groupId : slice) (tr : list (event answer))
    (p : recordPass.t) : Prop :=
  ∃ parsed att sent, shaped groupId p parsed att sent ∧
    keyRead groupId tr (RecordHeader.Epoch (Parsed.Header parsed)) (recordPass.writeKey p) ∧
    VerifyWriteAuth (recordPass.writeKey p) (ApiConnection.ServerNonce conn) parsed = true ∧
    (RecordHeader.SizeBucket (Parsed.Header parsed) ≠ SizeBucketBlob →
     ContentHash (Parsed.CtBody parsed) = RecordHeader.BodyHash (Parsed.Header parsed)).

Lemma bodyHash_shaped groupId p parsed att sent :
  shaped groupId p parsed att sent →
  ∃ r, bodyHash p = Return r ∧
    ((r = REASON_OK ∧ (RecordHeader.SizeBucket (Parsed.Header parsed) ≠ SizeBucketBlob →
        ContentHash (Parsed.CtBody parsed) = RecordHeader.BodyHash (Parsed.Header parsed))) ∨
     r = REASON_REJECTED).
Proof.
  intros Hp. unfold bodyHash. rewrite (sh_parsed _ _ _ _ _ Hp). cbn [deref mbind prog_mbind prog_bind].
  destruct (_ =? SizeBucketBlob) eqn:Hb; reflect_bools; [eexists; split; [done|]; by left|].
  case_bool_decide as Hh; cbn [negb]; eexists; (split; [done|]); auto.
Qed.

Lemma every_checkBodyHash p tr0 Q tr :
  Forall (authed (submitPass.conn p) (submitPass.groupId p) tr0) (submitPass.records p) →
  (∀ records refused,
     recordPass.projection <$> records = recordPass.projection <$> submitPass.records p →
     (refused = refusal.passed ∧
      Forall (hashed (submitPass.conn p) (submitPass.groupId p) tr0) records) ∨
     plain (refusal.reason refused) →
     ∀ tr', quietly tr tr' → Q tr' (submitPass.set_records records p, refused)) →
  every (checkBodyHash p) Q tr.
Proof.
  intros Hk HQ. unfold checkBodyHash.
  apply (every_eachRecord _ (authed (submitPass.conn p) (submitPass.groupId p) tr0)
    (hashed (submitPass.conn p) (submitPass.groupId p) tr0)); [|eauto|done].
  intros a tr' (parsed & att & sent & Ha & Hr & Hv).
  destruct (bodyHash_shaped _ _ _ _ _ Ha) as (r & -> & Hh). cbn. split; [done|]. split; [done|].
  destruct Hh as [ [-> Hh]| ->]; [left|right; by left]. split; [done|].
  by exists parsed, att, sent.
Qed.

(** ** The transaction *)

Lemma recordKindIsBuilt_shaped groupId p parsed att sent :
  shaped groupId p parsed att sent →
  ∃ r, recordKindIsBuilt p = Return r ∧ ((r = REASON_OK ∧ built parsed) ∨ r = REASON_INTERNAL).
Proof.
  intros Hp. unfold recordKindIsBuilt, built. rewrite (sh_parsed _ _ _ _ _ Hp).
  cbn [deref mbind prog_mbind prog_bind].
  destruct (_ && _) eqn:H1; [eexists; split; [done|]; by right|].
  destruct (_ =? SizeBucketBlob) eqn:H2; (eexists; split; [done|]); [by right|left].
  apply andb_false_iff in H1. split; [done|]. reflect_bools. split; [|done].
  intros [? ?]. destruct H1; reflect_bools; done.
Qed.

(** What the store is handed of one record, and why it may be. *)
Definition justified (conn : ApiConnection.t) (groupId : slice) (sents : list (option pRecord.t))
    (tr : list (event answer)) (c : Rec.t) : Prop :=
  ∃ p parsed att sent key, shaped groupId p parsed att sent ∧ Some sent ∈ sents ∧
    columnsOf p = Return (Ok c) ∧ Rec.Epoch c = RecordHeader.Epoch (Parsed.Header parsed) ∧
    keyRead groupId tr (Rec.Epoch c) key ∧
    VerifyWriteAuth key (ApiConnection.ServerNonce conn) parsed = true ∧
    ContentHash (Parsed.CtBody parsed) = RecordHeader.BodyHash (Parsed.Header parsed).

Lemma gather_all conn groupId tr0 sents records index acc tr (Q : list (event answer) → _ → Prop) :
  Forall (hashed conn groupId tr0) records →
  recordPass.projection <$> records ⊆ sents →
  (∀ columns, Forall (justified conn groupId sents tr0) columns →
     Forall (λ c, validateRecord c = None) columns →
     (λ c, Rec.IsCommit c) <$> columns = commitPass <$> records →
     Q tr (acc ++ columns, records, None)) →
  (∀ columns l r, recordPass.projection <$> l = recordPass.projection <$> records →
     plain (refusal.reason r) → Q tr (columns, l, Some r)) →
  every (forEach gatherColumns index acc records) Q tr.
Proof.
  intros Hall. revert index acc Q. induction Hall as [|p l Hp Hl IH]; intros index acc Q Hs Hok Href.
  { cbn. specialize (Hok []). rewrite app_nil_r in Hok. by apply Hok. }
  destruct Hp as (parsed & att & sent & Hp & Hk & Hv & Hh). cbn [forEach]. apply wp_bind.
  unfold gatherColumns at 1. destruct (recordKindIsBuilt_shaped _ _ _ _ _ Hp) as (r & -> & Hr).
  cbn [mbind prog_mbind prog_bind]. case_bool_decide as HrOK; cbn [negb].
  2:{ cbn. apply Href; [done|]. destruct Hr as [ [? _]| ->]; [done|unfold plain; cbn; tauto]. }
  destruct Hr as [ [_ Hb]| ->]; [|done].
  destruct (columns_valid _ _ _ _ _ Hp Hb) as (c & Hc & Hval & Hcc & Hce). rewrite Hc.
  change (every ('(s, l', refused) ← forEach gatherColumns (S index) (acc ++ [c]) l;
                 Return (s, p :: l', refused)) Q tr).
  apply wp_bind, IH.
  - intros x Hx. apply Hs. by right.
  - intros columns Hj Hvs Hcm. cbn. rewrite <- app_assoc. apply (Hok (c :: columns)).
    + constructor; [|done]. exists p, parsed, att, sent, (recordPass.writeKey p).
      rewrite Hce. repeat (split; [done|]). split; [apply Hs; rewrite <- (sh_sent _ _ _ _ _ Hp); left|].
      repeat (split; [done|]). apply Hh, Hb.
    + by constructor.
    + cbn. rewrite Hcm. f_equal. unfold commitPass. by rewrite (sh_parsed _ _ _ _ _ Hp).
  - intros columns l' r' Hl' Hr'. cbn. apply Href; [cbn; by rewrite Hl'|done].
Qed.

(** The request the transaction hands the store. *)
Definition storeRequest (p : submitPass.t) (columns : list Rec.t) : SubmitRequest.t :=
  SubmitRequest.mk (submitPass.groupId p) columns (deliveryOf (submitPass.keys p)).

Lemma every_runTransaction p sents tr0 Q tr :
  Forall (hashed (submitPass.conn p) (submitPass.groupId p) tr0) (submitPass.records p) →
  recordPass.projection <$> submitPass.records p ⊆ sents →
  (∀ columns, Forall (justified (submitPass.conn p) (submitPass.groupId p) sents tr0) columns →
     Forall (λ c, validateRecord c = None) columns →
     (λ c, Rec.IsCommit c) <$> columns = commitPass <$> submitPass.records p →
     may tr (StoreSubmit (storeRequest p columns)) ∧
     (∀ results, Q (tr ++ [Event (StoreSubmit (storeRequest p columns)) (Ok results)])
        (submitPass.set_response (resultOf (submitPass.groupId p) <$> results) p, refusal.passed)) ∧
     (∀ e, Q (tr ++ [Event (StoreSubmit (storeRequest p columns)) (Err e)])
        (p, refusal.mk REASON_INTERNAL wholeSubmission))) →
  (∀ l r, recordPass.projection <$> l = recordPass.projection <$> submitPass.records p →
     plain (refusal.reason r) → Q tr (submitPass.set_records l p, r)) →
  every (runTransaction p) Q tr.
Proof.
  intros Hh Hs Hok Href. unfold runTransaction. apply wp_bind. eapply gather_all; [done|done|..].
  - intros columns Hj Hv Hc. destruct (Hok columns Hj Hv Hc) as (Hm & Hq & He). cbn.
    split; [destruct p; exact Hm|]. intros [results|e] _; cbn; destruct p; [apply Hq|apply He].
  - intros columns l r Hl Hr. cbn. by apply Href.
Qed.

(** ** The front of a handler *)

Lemma every_frontChecks ctx conn op Q tr :
  (∀ tr' r, quietly tr tr' → Q tr' r) → every (frontChecks ctx conn op) Q tr.
Proof.
  intros HQ. unfold frontChecks. apply every_quiet; [done|]. intros r1. cbn.
  destruct (decide _); cbn; [|apply HQ; quiet_step]. split; [by apply Hquiet|]. intros r2 _. cbn.
  destruct (decide _); cbn; [|apply HQ; quiet_step].
  split; [by apply Hquiet|]. intros r3 _. apply HQ. quiet_step.
Qed.

Lemma every_pad self ctx started Q tr :
  (∀ tr', quietly tr tr' → Q tr' tt) → every (pad self ctx started) Q tr.
Proof.
  intros HQ. unfold pad. destruct (_ <=? 0); cbn; [by apply HQ|]. split; [by apply Hquiet|].
  intros now _. destruct (Context.deferring ctx); cbn; (split; [by apply Hquiet|]); intros [] _;
    apply HQ; quiet_step.
Qed.

Lemma every_padded {B} self ctx started reason (Q : _ → reply B → Prop) tr :
  (∀ tr', quietly tr tr' → Q tr' (Reply reason None None)) →
  every (padded self ctx started reason) Q tr.
Proof. intros HQ. unfold padded. by apply wp_bind, every_pad. Qed.

Lemma every_opening {R B} self ctx conn (request : option R) body
    (serve : time → ApiConnection.t → R → Z → M (reply B)) Q tr :
  (∀ tr' reason err, quietly tr tr' → Q tr' (Reply reason None err)) →
  (∀ started conn' request' op tr', quietly tr tr' → conn = Some conn' → request = Some request' →
     opOf (body request') = Ok op → every (serve started conn' request' op) Q tr') →
  every (opening self ctx conn request body serve) Q tr.
Proof.
  intros Hr Hs. unfold opening. apply every_quiet; [done|]. intros started.
  cbn [mbind prog_mbind prog_bind].
  assert (quietly tr (tr ++ [Event Now started])) as Hq by by apply quietly_snoc.
  destruct conn as [conn|]; [|by apply Hr]. destruct request as [request|]; [|by apply Hr].
  destruct (opOf _) as [op|err] eqn:Ho; [|by apply Hr]. apply wp_bind, every_frontChecks.
  intros tr' r Hq'. destruct (decide _); [apply Hs; [by etrans|done..]|].
  apply every_padded. intros tr2 Hq2. apply Hr. etrans; [done|by etrans].
Qed.
End Checks.
End Facts.
