(* ===== verification/ApiSubmitProps.v ===== *)
(** * What the submit path asks of the store

    A proof over every trace of [Submit] and [CreateGroup]: no run panics, the store is called only
    with a request its own validation accepts, after the keys of every record's epoch were read and
    every record's authenticator was verified under them, and a refusal answered before that says
    nothing about the group. *)

From S2P Require Import Prelude Sha256 StoreTypes MemoryStore Connections Message Prog Api ApiRecord.
From S2P Require Import ApiSubmit SubmitChecks.

Section Props.
Context `{Library} `{!LibraryLaws}.

(** ** What Submit may call *)

Definition wellShaped (groupId : slice) (sents : list (option pRecord.t)) : Prop :=
  len groupId = GroupIdBytes ∧ sents ≠ [] ∧
  ∀ sent, sent ∈ sents → ∃ p, recordPass.projection p = sent ∧ isShaped groupId p.

Definition names (sents : list (option pRecord.t)) (epoch : Z) : Prop :=
  ∃ sent parsed, Some sent ∈ sents ∧ ParseRecord (pRecord.RecordBytes sent) = Ok parsed ∧
    RecordHeader.Epoch (Parsed.Header parsed) = epoch.

(** The store answered a submission. *)
Definition submitted (tr : list (event answer)) (r : SubmitRequest.t)
    (results : list SubmitResult.t) : Prop :=
  Event (StoreSubmit r) (Ok results) ∈ tr.

Definition maySubmit (conn : ApiConnection.t) (request : pSubmitRequest.t)
    (tr : list (event answer)) (c : op) : Prop :=
  let groupId := pSubmitRequest.GroupId request in
  let sents := pSubmitRequest.Records request in
  match c with
  | StoreGroupState g => g = groupId ∧ wellShaped groupId sents
  | IdsWrite g => g = groupId ∧ exists_in tr groupId
  | StoreEpochKeys g e => g = groupId ∧ wellShaped groupId sents ∧ names sents e ∧ unread groupId tr e
  | StoreSubmit r =>
      SubmitRequest.GroupId r = groupId ∧ validateSubmit None r = None ∧ wellShaped groupId sents ∧
      Forall (justified conn groupId sents tr) (SubmitRequest.Records r)
  | Published g _ => g = groupId ∧ ∃ r results, submitted tr r results
  | c => quiet c = true
  end.

(** What a reply is allowed to say: the store's own answers, or nothing. *)
Definition saysNothing (request : pSubmitRequest.t) (r : reply (list pSubmitResult.t)) : Prop :=
  match reply_body r with
  | None => True
  | Some results => length results = length (pSubmitRequest.Records request) ∧ Forall (λ x, plain (pSubmitResult.reason x) ∧ pSubmitResult.RecordId x = 0 ∧
      pSubmitResult.CurrentEpoch x = 0 ∧ pSubmitResult.WinningCommit x = None ∧
      pSubmitResult.Applied x = None) results
  end.

Definition submitReply (request : pSubmitRequest.t) (tr : list (event answer))
    (r : reply (list pSubmitResult.t)) : Prop :=
  saysNothing request r ∨
  ∃ req (results : list SubmitResult.t),
    submitted tr req results ∧ reply_reason r = REASON_OK ∧
    reply_body r = Some (resultOf (pSubmitRequest.GroupId request) <$> results).

Lemma quiet_may conn request tr c : quiet c = true → maySubmit conn request tr c.
Proof. by destruct c. Qed.

Lemma refuseBatch_plain request count refused :
  plain (refusal.reason refused) → count = length (pSubmitRequest.Records request) →
  saysNothing request (Reply REASON_OK (Some (refuseBatch count refused)) None).
Proof.
  intros Hp Hl. unfold saysNothing, refuseBatch. cbn. rewrite length_fmap, length_seq. split; [done|].
  rewrite Forall_fmap. apply Forall_forall.
  intros i _. cbn. repeat split; try done. destruct (_ || _); [done|]. unfold plain; tauto.
Qed.

Lemma shaped_wellShaped groupId records sents :
  len groupId = GroupIdBytes → records ≠ [] → Forall (isShaped groupId) records →
  recordPass.projection <$> records = sents → wellShaped groupId sents.
Proof.
  intros Hl Hne Hs <-. split; [done|]. split; [by destruct records|].
  intros sent (p & -> & Hp)%list_elem_of_fmap. exists p. split; [done|].
  by eapply Forall_forall in Hs.
Qed.

Lemma quietly_unread groupId tr e : quietly [] tr → unread groupId tr e.
Proof.
  intros (l & -> & Hl) r Hin. eapply Forall_forall in Hl; [|exact Hin]. done.
Qed.

Lemma quietly_prefix tr tr' : quietly tr tr' → tr `prefix_of` tr'.
Proof. intros (l & -> & _). by eexists. Qed.

(** The columns of a whole batch make a request the store's own validation accepts. *)
Lemma batch_valid groupId columns keys (records : list recordPass.t) :
  len groupId = GroupIdBytes → records ≠ [] →
  Forall (λ c, validateRecord c = None) columns →
  (λ c, Rec.IsCommit c) <$> columns = commitPass <$> records →
  (length (filter (λ p, commitPass p = true) records) = 0%nat ∨ length records = 1%nat) →
  validateSubmit None (SubmitRequest.mk groupId columns keys) = None.
Proof.
  intros Hl Hne Hv Hc Hone.
  assert (length columns = length records) as Hlen by by (apply (f_equal length) in Hc; by rewrite !length_fmap in Hc).
  assert (length (filter (λ r, Rec.IsCommit r = true) columns) =
          length (filter (λ p, commitPass p = true) records)) as Hf.
  { clear -Hc. revert columns Hc. induction records as [|p l IH]; intros [|c columns] Hc; try done.
    cbn in Hc. injection Hc as Hc1 Hc2. rewrite !filter_cons, Hc1.
    destruct (commitPass p); [rewrite !decide_True by done|rewrite !decide_False by done]; cbn; auto. }
  unfold validateSubmit. rewrite !first_error_None. cbn [SubmitRequest.GroupId SubmitRequest.Records].
  rewrite Hf, Hlen. repeat split.
  - unfold checkLength. by rewrite Hl.
  - destruct columns; [|done]. by destruct records.
  - clear -Hv. induction Hv as [|c l Hc Hl IH]; [done|]. cbn. by rewrite Hc.
  - destruct Hone as [-> | ->]; [done|]. by rewrite andb_false_r.
Qed.

(** Whether a record is a commit is settled by what was sent. *)
Definition commitSent (o : option pRecord.t) : bool :=
  match o with
  | Some sent =>
      match ParseRecord (pRecord.RecordBytes sent) with
      | Ok parsed => RecordHeader.IsCommit (Parsed.Header parsed)
      | Err _ => false
      end
  | None => false
  end.

Lemma commits_sent groupId records :
  Forall (isShaped groupId) records →
  commitPass <$> records = commitSent <$> (recordPass.projection <$> records).
Proof.
  induction 1 as [|p l (parsed & att & sent & Hp) _ IH]; [done|]. cbn. rewrite IH. f_equal.
  unfold commitPass, commitSent.
  by rewrite (sh_parsed _ _ _ _ _ Hp), (sh_sent _ _ _ _ _ Hp), (sh_parse _ _ _ _ _ Hp).
Qed.

Lemma count_commits (records : list recordPass.t) :
  length (filter (λ p, commitPass p = true) records) =
  length (filter (λ b, b = true) (commitPass <$> records)).
Proof.
  induction records as [|p l IH]; [done|]. rewrite fmap_cons, !filter_cons.
  destruct (commitPass p); [rewrite !decide_True by done|rewrite !decide_False by done]; cbn; auto.
Qed.

Lemma hashed_shaped conn groupId tr p : hashed conn groupId tr p → isShaped groupId p.
Proof. intros (parsed & att & sent & Hp & _). by exists parsed, att, sent. Qed.

Lemma justified_mono conn groupId sents tr tr' c :
  tr `prefix_of` tr' → justified conn groupId sents tr c → justified conn groupId sents tr' c.
Proof.
  intros Hp (p & parsed & att & sent & key & H1 & H2 & H3 & H4 & H5 & H6).
  exists p, parsed, att, sent, key. repeat (split; [done|]). split; [|done]. by eapply keyRead_mono.
Qed.

(** The stages in order: a refusal says nothing, and behind the last stage is the store's answer. *)
Definition stagesEnd (request : pSubmitRequest.t) (tr : list (event answer))
    (out : submitPass.t * option refusal.t) : Prop :=
  match out.2 with
  | Some r => plain (refusal.reason r) ∧
      length (submitPass.records out.1) = length (pSubmitRequest.Records request)
  | None => submitPass.groupId out.1 = pSubmitRequest.GroupId request ∧
      ∃ req (results : list SubmitResult.t), submitted tr req results ∧
        submitPass.response out.1 = Some (resultOf (pSubmitRequest.GroupId request) <$> results)
  end.

(** One stage in front of the others. *)
Lemma every_stage may (p : submitPass.t) n run rest Q tr :
  wp (λ _, True) may (run p) (λ tr' out,
    match out with (p', refused) =>
      (refused = refusal.passed ∧ wp (λ _, True) may (runStages rest p') Q tr') ∨
      (plain (refusal.reason refused) ∧ Q tr' (p', Some refused))
    end) tr →
  wp (λ _, True) may (runStages ((n, run) :: rest) p) Q tr.
Proof.
  intros Hw. cbn [runStages]. apply wp_bind. eapply wp_mono; [|exact Hw].
  intros tr' [p' refused] [ [-> Hr]|[Hp Hq] ]; [by rewrite decide_True|].
  rewrite decide_False by (by apply plain_not_OK). exact Hq.
Qed.

Ltac cbn_pass :=
  cbn [submitPass.groupId submitPass.conn submitPass.records submitPass.keys submitPass.response
       submitPass.set_records submitPass.set_response].

Lemma every_stages self conn request tr :
  quietly [] tr →
  wp (λ _, True) (maySubmit conn request) (runStages (submitStages self) (startPass conn request))
    (stagesEnd request) tr.
Proof.
  intros Hq0. set (may := maySubmit conn request).
  assert (∀ tr c, quiet c = true → may tr c) as Hquiet by (intros; by apply quiet_may).
  set (groupId := pSubmitRequest.GroupId request). set (sents := pSubmitRequest.Records request).
  assert (∀ (l : list recordPass.t), recordPass.projection <$> l = sents → length l = length sents) as Hlen0.
  { intros l E. apply (f_equal length) in E. by rewrite length_fmap in E. }
  apply every_stage, every_checkStaticShape; [done|].
  intros tr1 p1 refused Hq1 [Hc1 Hg1 Hr1 _] [ (-> & Hlen & Hne & Hs & Hcm)|Hp];
    [left|right; split; [done|split; [done|] ] ].
  2:{ apply Hlen0. cbn [fst]. rewrite Hr1. cbn. rewrite <- list_fmap_compose. apply list_fmap_id. }
  split; [done|]. cbn in Hc1, Hg1. fold groupId in Hg1, Hs, Hlen.
  assert (recordPass.projection <$> submitPass.records p1 = sents) as Hproj.
  { rewrite Hr1. cbn. rewrite <- list_fmap_compose. apply list_fmap_id. }
  assert (wellShaped groupId sents) as Hws by (by eapply shaped_wellShaped).
  apply every_stage, every_checkKnownGroup; [done|by intros tr' _; rewrite Hg1|by intros tr' _; rewrite Hg1|].
  intros tr2 refused Hq2 [->|Hp]; [left|right; split; [done|split; [done|by apply Hlen0] ] ]. split; [done|].
  assert (quietly [] tr2) as Hq02 by (etrans; [done|by etrans]).
  apply every_stage, every_checkEpochKey; rewrite ?Hg1.
  { intros tr' e Hpre Hun (r & parsed & Hr & Hparsed & He). split; [done|]. split; [done|].
    split; [|done]. eapply Forall_forall in Hs as (x & att & sent & Hx); [|exact Hr].
    rewrite (sh_parsed _ _ _ _ _ Hx) in Hparsed. injection Hparsed as <-. exists sent, x.
    split; [|split; [apply Hx|done] ]. change (Some sent ∈ sents). rewrite <- Hproj, <- (sh_sent _ _ _ _ _ Hx). by apply list_elem_of_fmap_2. }
  { intros e. by apply quietly_unread. }
  { done. }
  intros tr3 l3 refused Hp3 Hl3 [ (-> & Hk & Hproj3 & Hparsed3)|Hp];
    [left|right; split; [done|split; [done|cbn; rewrite Hl3; by apply Hlen0] ] ].
  split; [done|]. rewrite Hproj in Hproj3.
  apply every_stage, every_checkWriteAuth; cbn_pass; rewrite ?Hg1, ?Hc1; [done|].
  intros l4 refused Hproj4. rewrite Hproj3 in Hproj4. intros [ (-> & Ha)|Hp] tr4 Hq4;
    [left|right; split; [done|split; [done|by apply Hlen0] ] ]. split; [done|].
  apply every_stage, (every_checkBodyHash _ _ tr3); cbn_pass; rewrite ?Hg1, ?Hc1; [done|].
  intros l5 refused Hproj5. rewrite Hproj4 in Hproj5. intros [ (-> & Hh)|Hp] tr5 Hq5;
    [left|right; split; [done|split; [done|by apply Hlen0] ] ]. split; [done|].
  apply every_stage, (every_runTransaction _ _ sents tr3); cbn_pass; rewrite ?Hg1, ?Hc1; [done|by rewrite Hproj5|..].
  - intros columns Hj Hv Hc. unfold storeRequest. cbn. rewrite ?Hg1. split; [|split].
    + split; [done|]. assert (Forall (isShaped groupId) l5) as Hs5 by (eapply Forall_impl; [done|apply hashed_shaped]).
      split; [eapply (batch_valid _ _ (deliveryOf (submitPass.keys p1)) l5); [done| |done|done|] |].
      * intros E. rewrite E in Hproj5. destruct Hws as (_ & Hn & _). by apply Hn.
      * apply (f_equal length) in Hproj5 as Hlen5. rewrite <- Hproj, !length_fmap in Hlen5. rewrite Hlen5.
        rewrite count_commits, (commits_sent _ _ Hs5), Hproj5, <- Hproj, <- (commits_sent _ _ Hs), <- count_commits.
        done.
      * split; [exact Hws|]. eapply Forall_impl; [exact Hj|]. intros c. apply justified_mono.
        etrans; by apply quietly_prefix.
    + intros results. left. split; [done|]. cbn. split; [done|]. eexists _, results. split; [|done].
      apply elem_of_app. right. by apply list_elem_of_singleton.
    + intros e. right. split; [unfold plain; cbn; tauto|]. split; [unfold plain; cbn; tauto|].
      by apply Hlen0.
  - intros l r Hl Hr. right. split; [done|]. split; [done|]. apply Hlen0. cbn. by rewrite Hl.
Qed.

Lemma every_publishAccepted self conn request p req (results : list SubmitResult.t) Q tr :
  submitted tr req results → submitPass.groupId p = pSubmitRequest.GroupId request →
  (∀ tr', tr `prefix_of` tr' → Q tr' tt) →
  wp (λ _, True) (maySubmit conn request) (publishAccepted self p) Q tr.
Proof.
  intros Hs Hg HQ. unfold publishAccepted. destruct (submitPass.response p); [|by apply HQ].
  destruct (Handler.subscriptions self); cbn; [|by apply HQ].
  split; [split; [done|by eexists _, _]|]. intros [] _. apply HQ. by eexists.
Qed.

Lemma every_serveSubmit self ctx started conn request op tr :
  quietly [] tr →
  wp (λ _, True) (maySubmit conn request) (serveSubmit self ctx started conn request op)
    (submitReply request) tr.
Proof.
  intros Hq. unfold serveSubmit. apply wp_bind. eapply wp_mono; [|by apply every_stages].
  intros tr1 [p [r|] ]; cbn [stagesEnd fst snd].
  - intros [Hp Hl]. apply wp_bind, every_pad; [intros; by apply quiet_may|]. intros tr2 _.
    destruct (_ =? 0)%nat; [by left|]. left. by apply refuseBatch_plain.
  - intros (Hg & req & results & Hs & Hr). rewrite Hr. apply wp_bind.
    assert (∀ tr2, tr1 `prefix_of` tr2 → submitted tr2 req results) as Hs'.
    { intros tr2 [l ->]. apply elem_of_app. by left. }
    assert (∀ tr2, tr1 `prefix_of` tr2 → wp (λ _, True) (maySubmit conn request)
      (_ ← publishAccepted self p;
       Return (Reply REASON_OK (Some (resultOf (pSubmitRequest.GroupId request) <$> results)) None))
      (submitReply request) tr2) as Hpub.
    { intros tr2 Hp. apply wp_bind. eapply every_publishAccepted; [by apply Hs'|done|].
      intros tr3 Hp3. right. exists req, results. split; [apply Hs'; by etrans|done]. }
    destruct (everyResultAccepted _); [by apply Hpub|].
    apply every_pad; [intros; by apply quiet_may|]. intros tr2 Hq2. by apply Hpub, quietly_prefix.
Qed.

(** Every trace of [Submit]. *)
Lemma every_Submit self ctx conn request :
  wp (λ _, True) (maySubmit conn request) (Submit self ctx (Some conn) (Some request))
    (submitReply request) [].
Proof.
  apply every_opening; [intros; by apply quiet_may|intros; by left|].
  intros started conn' request' op tr Hq [= <-] [= <-] _. by apply every_serveSubmit.
Qed.

Lemma submit_trace self ctx conn request tr out :
  runs (Submit self ctx (Some conn) (Some request)) tr out →
  (∃ r, out = Returned r ∧ submitReply request tr r) ∧
  ∀ i e, tr !! i = Some e → maySubmit conn request (take i tr) (did e).
Proof.
  intros Hr. assert (Forall (λ _ : event answer, True) tr) as Hc by by apply Forall_forall.
  split; [exact (wp_runs _ _ _ _ _ _ _ (every_Submit self ctx conn request) Hr Hc)|].
  intros i e Hi. exact (wp_calls _ _ _ _ _ _ _ _ _ (every_Submit self ctx conn request) Hr Hc Hi).
Qed.

(** ** CreateGroup *)

(** The store has accepted the group. *)
Definition created (tr : list (event answer)) (groupId : slice) : Prop :=
  ∃ r (result : CreateGroupResult.t), CreateGroupRequest.GroupId r = groupId ∧
    accepted (CreateGroupResult.reason result) = true ∧
    Event (StoreCreateGroup r) (Ok result) ∈ tr.

(** The founding commit the store is handed, certified under the key the request carries. *)
Definition certified (conn : ApiConnection.t) (request : pCreateGroupRequest.t)
    (r : CreateGroupRequest.t) : Prop :=
  CreateGroupRequest.GroupId r = pCreateGroupRequest.GroupId request ∧
  CreateGroupRequest.BootstrapWriteKey r = pCreateGroupRequest.BootstrapWriteKey request ∧
  ∃ p parsed att sent c, shaped (pCreateGroupRequest.GroupId request) p parsed att sent ∧
    pCreateGroupRequest.InitialCommit request = Some sent ∧ columnsOf p = Return (Ok c) ∧
    CreateGroupRequest.InitialCommit r = Some c ∧ Rec.IsCommit c = true ∧ Rec.Epoch c = 0 ∧
    VerifyWriteAuth (CreateGroupRequest.BootstrapWriteKey r) (ApiConnection.ServerNonce conn) parsed = true ∧
    ContentHash (Parsed.CtBody parsed) = RecordHeader.BodyHash (Parsed.Header parsed) ∧
    validateCreate None r = Ok c.

Definition mayCreate (conn : ApiConnection.t) (request : pCreateGroupRequest.t)
    (tr : list (event answer)) (c : op) : Prop :=
  match c with
  | StoreCreateGroup r => certified conn request r
  | IdsWrite g => g = pCreateGroupRequest.GroupId request ∧ created tr g
  | c => quiet c = true
  end.

(** The reply: nothing, or what the store accepted. *)
Definition createReply (tr : list (event answer)) (r : reply pCreateGroupResponse.t) : Prop :=
  match reply_body r with
  | None => True
  | Some body => ∃ req result, Event (StoreCreateGroup req) (Ok result) ∈ tr ∧
      reply_reason r = CreateGroupResult.reason result ∧
      pCreateGroupResponse.RecordId body = CreateGroupResult.RecordId result ∧
      pCreateGroupResponse.CurrentEpoch body = CreateGroupResult.CurrentEpoch result ∧
      accepted (CreateGroupResult.reason result) = true
  end.

Lemma acceptance_accepted r : acceptance r = accepted r.
Proof. by destruct r. Qed.

Lemma every_serveCreateGroup self ctx started conn request op tr :
  wp (λ _, True) (mayCreate conn request) (serveCreateGroup self ctx started conn request op)
    createReply tr.
Proof.
  set (may := mayCreate conn request).
  assert (∀ tr c, quiet c = true → may tr c) as Hquiet by (intros ? [] ; done).
  set (gid := pCreateGroupRequest.GroupId request).
  assert (∀ tr reason, wp (λ _, True) may (padded self ctx started reason) createReply tr) as Hpad.
  { intros. by apply every_padded. }
  unfold serveCreateGroup. fold gid.
  destruct (negb (len (pCreateGroupRequest.BootstrapWriteKey request) =? _)) eqn:Hk; [by apply Hpad|].
  apply wp_bind, every_staticShape; [done|]. intros tr1 p r _ Hc Hr.
  case_bool_decide as HOK; cbn [negb]; [|by apply Hpad].
  destruct Hr as [ (_ & parsed & att & sent & Hp)|Hr]; [|by apply plain_not_OK in Hr].
  rewrite (sh_parsed _ _ _ _ _ Hp). cbn [deref mbind prog_mbind prog_bind].
  destruct (negb _ || _) eqn:Hcommit; [by apply Hpad|].
  destruct (negb (bool_decide (opensEpochOf _ = _))); [by apply Hpad|].
  destruct (epochKeyAlignment_shaped gid [p] [pCreateGroupRequest.EpochKeys request]) as (al & -> & _).
  { constructor; [by exists parsed, att, sent|done]. }
  cbn [mbind prog_mbind prog_bind]. destruct al as [ [keys i]|e]; [|by apply Hpad].
  match goal with |- context [if ?b then _ else _] => destruct b end; [by apply Hpad|].
  destruct (VerifyWriteAuth _ _ _) eqn:Hv; [|by apply Hpad]. cbn [negb].
  destruct (bodyHash_shaped _ _ _ _ _ Hp) as (rh & -> & Hh). cbn [mbind prog_mbind prog_bind].
  case_bool_decide as HhOK; cbn [negb]; [|by apply Hpad].
  destruct Hh as [ [_ Hh]| ->]; [|done].
  destruct (recordKindIsBuilt_shaped _ _ _ _ _ Hp) as (rk & -> & Hb). cbn [mbind prog_mbind prog_bind].
  case_bool_decide as HkOK; cbn [negb]; [|done]. destruct Hb as [ [_ Hb]| ->]; [|done].
  destruct (columns_valid _ _ _ _ _ Hp Hb) as (c & Hcol & Hval & Hcc & Hce). rewrite Hcol.
  cbn [mbind prog_mbind prog_bind].
  set (req := CreateGroupRequest.mk _ _ _ _). reflect_bools.
  assert (certified conn request req) as Hcert.
  { split; [done|]. split; [done|]. exists p, parsed, att, sent, c. split; [done|]. repeat split; try done.
    - rewrite <- (sh_sent _ _ _ _ _ Hp). by rewrite Hc.
    - congruence.
    - congruence.
    - by apply Hh, Hb.
    - unfold validateCreate, req. cbn. unfold checkLength.
      assert (len gid = GroupIdBytes) as ->.
      { unfold len. rewrite <- (sh_group _ _ _ _ _ Hp). by destruct (parse_arrays _ _ (sh_parse _ _ _ _ _ Hp)) as [-> _]. }
      rewrite Hk. cbn. by rewrite Hval. }
  split; [exact Hcert|]. intros [result|err] _; cbn [mbind prog_mbind prog_bind]; [|done].
  destruct (acceptance (CreateGroupResult.reason result)) eqn:Hacc; cbn [negb]; [|by apply Hpad].
  rewrite acceptance_accepted in Hacc.
  assert (Event (StoreCreateGroup req) (Ok result) ∈ tr1 ++ [Event (StoreCreateGroup req) (Ok result)]) as Hin.
  { apply elem_of_app. right. by apply list_elem_of_singleton. }
  split; [split; [done|by exists req, result]|]. intros [] _. cbn. exists req, result.
  split; [apply elem_of_app; by left|done].
Qed.

Lemma every_CreateGroup self ctx conn request :
  wp (λ _, True) (mayCreate conn request) (CreateGroup self ctx (Some conn) (Some request))
    createReply [].
Proof.
  apply every_opening; [by intros ? []|done|].
  intros started conn' request' op tr' _ [= <-] [= <-] _. by apply every_serveCreateGroup.
Qed.

(** Every trace of [CreateGroup]. *)
Lemma create_trace self ctx conn request tr out :
  runs (CreateGroup self ctx (Some conn) (Some request)) tr out →
  (∃ r, out = Returned r ∧ createReply tr r) ∧
  ∀ i e, tr !! i = Some e → mayCreate conn request (take i tr) (did e).
Proof.
  intros Hr. assert (Forall (λ _ : event answer, True) tr) as Hc by by apply Forall_forall.
  pose proof (every_CreateGroup self ctx conn request) as Hw.
  split; [exact (wp_runs _ _ _ _ _ _ _ Hw Hr Hc)|].
  intros i e Hi. exact (wp_calls _ _ _ _ _ _ _ _ _ Hw Hr Hc Hi).
Qed.

(** ** The properties *)

(** A call a run made, and what it had done before. *)
Lemma call_may {A} (p : M A) Q may tr out e :
  wp (λ _, True) may p Q [] → runs p tr out → e ∈ tr →
  ∃ i, tr !! i = Some e ∧ may (take i tr) (did e).
Proof.
  intros Hw Hr [i Hi]%list_elem_of_lookup_1. exists i. split; [done|].
  refine (wp_calls _ _ _ _ _ _ _ _ _ Hw Hr _ Hi). by apply Forall_forall.
Qed.

Lemma never_panics {A} (p : M A) Q may tr out :
  wp (λ _, True) may p Q [] → runs p tr out → out ≠ Panicked.
Proof.
  intros Hw Hr. destruct (wp_runs _ _ _ _ _ _ _ Hw Hr) as (a & -> & _); [by apply Forall_forall|done].
Qed.

(** C16: THE HANDLERS ARE WELL TYPED TOWARDS THE STORE.  No run of [Submit] or [CreateGroup] panics,
    whatever the request holds and the collaborators answer, and every request they hand the store
    passes the store's own validation: none of its caller's-fault errors can be reached from the
    wire. *)
Theorem store_requests_valid self ctx conn submit create :
  (∀ tr out, runs (Submit self ctx (Some conn) (Some submit)) tr out →
     out ≠ Panicked ∧
     ∀ r a, Event (StoreSubmit r) a ∈ tr → validateSubmit None r = None) ∧
  (∀ tr out, runs (CreateGroup self ctx (Some conn) (Some create)) tr out →
     out ≠ Panicked ∧
     ∀ r a, Event (StoreCreateGroup r) a ∈ tr →
       ∃ c, validateCreate None r = Ok c ∧ Rec.IsCommit c = true ∧ Rec.Epoch c = 0).
Proof.
  split; intros tr out Hr.
  - pose proof (every_Submit self ctx conn submit) as Hw. split; [by eapply never_panics|].
    intros r a Hin. destruct (call_may _ _ _ _ _ _ Hw Hr Hin) as (i & _ & _ & Hv & _ & _). exact Hv.
  - pose proof (every_CreateGroup self ctx conn create) as Hw. split; [by eapply never_panics|].
    intros r a Hin. destruct (call_may _ _ _ _ _ _ Hw Hr Hin) as (i & _ & _ & _ & Hc).
    destruct Hc as (p & parsed & att & sent & c & _ & _ & _ & _ & Hcm & He & _ & _ & Hv).
    by exists c.
Qed.

(** C20: A REFUSAL SAYS NOTHING.  If the store did not answer the submission, every result carries a
    refusal's reason and nothing else (no id, no current epoch, no winner), and a reply all of whose
    reasons are REASON_REJECTED is the same whichever check refused and whichever record it was
    about: an unknown group, a missing key and a bad authenticator cannot be told apart. *)
Theorem refusals_say_nothing self ctx conn request tr r results :
  runs (Submit self ctx (Some conn) (Some request)) tr (Returned r) →
  (∀ req answers, ¬ submitted tr req answers) → reply_body r = Some results →
  Forall (λ x, accepted (pSubmitResult.reason x) = false ∧ pSubmitResult.RecordId x = 0 ∧
    pSubmitResult.CurrentEpoch x = 0 ∧ pSubmitResult.WinningCommit x = None ∧
    pSubmitResult.Applied x = None) results ∧
  (Forall (λ x, pSubmitResult.reason x = REASON_REJECTED) results →
   results = replicate (length (pSubmitRequest.Records request))
               (pSubmitResult.mk REASON_REJECTED 0 0 None None)).
Proof.
  intros Hr Hn Hb. destruct (submit_trace self ctx conn request tr _ Hr) as [(r' & E & Hs) _].
  injection E as <-. destruct Hs as [Hs|(req & answers & Hs & _)]; [|by apply Hn in Hs].
  unfold saysNothing in Hs. rewrite Hb in Hs. destruct Hs as [Hl Hs]. split.
  - eapply Forall_impl; [exact Hs|]. intros x ([-> |[-> | ->] ] & ?); done.
  - intros Hrej. rewrite <- Hl. symmetry. apply replicate_as_Forall. split; [done|].
    apply Forall_forall. intros x Hx. eapply Forall_forall in Hs; [|exact Hx].
    eapply Forall_forall in Hrej; [|exact Hx]. destruct x, Hs as (_ & ? & ? & ? & ?). by simplify_eq/=.
Qed.

(** The calls on the store. *)
Definition asksStore (c : op) : bool :=
  match c with
  | StoreGroupState _ | StoreEpochKeys _ _ | StoreSubmit _ | StoreCreateGroup _ | StoreFetch _ => true
  | _ => false
  end.

(** The epochs whose keys a run read, in order. *)
Definition epochRead (e : event answer) : option Z :=
  match did e with StoreEpochKeys _ epoch => Some epoch | _ => None end.
Definition epochsRead (tr : list (event answer)) : list Z := omap epochRead tr.

Lemma epochsRead_NoDup conn request tr :
  (∀ i e, tr !! i = Some e → maySubmit conn request (take i tr) (did e)) → NoDup (epochsRead tr).
Proof.
  induction tr as [|e tr IH] using rev_ind; intros Hm; [constructor|].
  assert (∀ i x, tr !! i = Some x → maySubmit conn request (take i tr) (did x)) as Hm'.
  { intros i x Hx. assert (i < length tr)%nat by (by eapply lookup_lt_Some).
    specialize (Hm i x). rewrite lookup_app_l, take_app_le in Hm by lia. by apply Hm. }
  specialize (Hm (length tr) e). rewrite list_lookup_middle, take_app_length in Hm by done.
  specialize (Hm eq_refl). specialize (IH Hm'). unfold epochsRead, epochRead in *.
  rewrite omap_app. cbn. destruct (did e) eqn:He; try (by rewrite app_nil_r).
  destruct Hm as (-> & _ & _ & Hun). apply NoDup_app. split; [done|]. split; [|apply NoDup_singleton].
  intros x Hx Hin. apply list_elem_of_singleton in Hin as ->.
  apply list_elem_of_omap in Hx as (e' & Hin & Hx).
  apply list_elem_of_lookup_1 in Hin as [i Hi]. specialize (Hm' i e' Hi).
  destruct e' as [c a]. destruct c; try done. cbn in Hx, Hm'. injection Hx as ->.
  destruct Hm' as (-> & _). apply (Hun a). by eapply list_elem_of_lookup_2.
Qed.

Definition epochOf (o : option pRecord.t) : option Z :=
  match o with
  | Some sent =>
      match ParseRecord (pRecord.RecordBytes sent) with
      | Ok parsed => Some (RecordHeader.Epoch (Parsed.Header parsed))
      | Err _ => None
      end
  | None => None
  end.

(** C19: NOTHING THAT COSTS A READ COMES BEFORE WHAT COSTS A HASH.  A run of [Submit] asks the store
    anything only once check 3 holds of the whole batch, asks it only about the group of the
    request, reads the keys of an epoch at most once and only of an epoch a record names, so at most
    as many as there are records, and submits only after every record's authenticator verified under
    a key so read. *)
Theorem reads_follow_checks self ctx conn request tr out :
  runs (Submit self ctx (Some conn) (Some request)) tr out →
  (∀ c a, Event c a ∈ tr → asksStore c = true →
     wellShaped (pSubmitRequest.GroupId request) (pSubmitRequest.Records request) ∧
     match c with
     | StoreGroupState g | StoreEpochKeys g _ => g = pSubmitRequest.GroupId request
     | StoreSubmit r => SubmitRequest.GroupId r = pSubmitRequest.GroupId request
     | _ => False
     end) ∧
  NoDup (epochsRead tr) ∧ epochsRead tr ⊆ omap epochOf (pSubmitRequest.Records request) ∧
  (length (epochsRead tr) <= length (pSubmitRequest.Records request))%nat ∧
  (∀ i r a, tr !! i = Some (Event (StoreSubmit r) a) →
     Forall (justified conn (pSubmitRequest.GroupId request) (pSubmitRequest.Records request)
               (take i tr)) (SubmitRequest.Records r)).
Proof.
  intros Hr. destruct (submit_trace self ctx conn request tr _ Hr) as [_ Hm].
  assert (NoDup (epochsRead tr)) as Hnd by (by eapply epochsRead_NoDup).
  assert (epochsRead tr ⊆ omap epochOf (pSubmitRequest.Records request)) as Hsub.
  { intros ep Hep. apply list_elem_of_omap in Hep as (e & Hin & He).
    apply list_elem_of_lookup_1 in Hin as [i Hi]. specialize (Hm i e Hi). destruct e as [c a].
    destruct c; try done. cbn in He, Hm. injection He as ->.
    destruct Hm as (_ & _ & (sent & parsed & Hs & Hp & Hep) & _).
    apply list_elem_of_omap. exists (Some sent). split; [done|]. cbn. by rewrite Hp, Hep. }
  split; [|split; [done|split; [done|split] ] ].
  - intros c a Hin Hc. apply list_elem_of_lookup_1 in Hin as [i Hi]. specialize (Hm i _ Hi). cbn in Hm.
    destruct c; try done; [by destruct Hm|by destruct Hm as (? & ? & _)|].
    destruct Hm as (? & _ & ? & _). done.
  - etrans; [by apply submseteq_length, NoDup_submseteq|]. apply length_omap_le.
  - intros i r a Hi. specialize (Hm i _ Hi). cbn in Hm. by destruct Hm as (_ & _ & _ & ?).
Qed.
End Props.
