(* ===== verification/Server.v ===== *)
(** * The handlers over the store, interleaved

    Requests arrive at any moment and every handler runs on its own goroutine.  A configuration is
    the store, every store there has been, and one thread per request received: what it has done, and
    the program left or, between the two phases of the store's [Submit], the submission in flight.
    The store's calls are answered by [MemoryStore]; every other call is answered by anything. *)

From S2P Require Import Prelude StoreTypes MemoryStore GroupInv Submission Interleaving Connections.
From S2P Require Import Message Prog Api ApiRecord ApiSubmit ApiFetch ApiRendezvous SubmitChecks.
From S2P Require Import ApiSubmitProps.

(** A request, on the connection it arrived on if any. *)
Inductive received : Type :=
  | GotSubmit (conn : option ApiConnection.t) (request : option pSubmitRequest.t)
  | GotCreateGroup (conn : option ApiConnection.t) (request : option pCreateGroupRequest.t)
  | GotFetch (conn : option ApiConnection.t) (request : option pFetchRequest.t)
  | GotSubscribe (conn : option ApiConnection.t) (request : option pSubscribeRequest.t)
  | GotUnsubscribe (conn : option ApiConnection.t) (request : option pUnsubscribeRequest.t)
  | GotRegister (conn : option ApiConnection.t) (request : option pRegisterRequest.t)
  | GotOpen (conn : option ApiConnection.t) (request : option pOpenRequest.t)
  | GotDeposit (conn : option ApiConnection.t) (request : option pDepositRequest.t)
  | GotCollect (conn : option ApiConnection.t) (request : option pCollectRequest.t)
  | GotRetire (conn : option ApiConnection.t) (request : option pRetireRequest.t).

(** What a thread has left to do. *)
Inductive rest : Type :=
  | Serving (p : M unit)
  | Holding (f : inflight.t) (k : res Error (list SubmitResult.t) → M unit).

Module thread.
Record t := mk { what : received; did : list (event answer); left : rest }.
End thread.

Module world.
Record t := mk { store : MemoryStore.t; past : list MemoryStore.t; threads : list thread.t }.
End world.

Section Server.
Context `{Library}.
Context (self : Handler.t).

Definition answerThen {B} (p : M B) : M unit := _ ← p; Return tt.

(** The handler of a request, its reply sent. *)
Definition handle (ctx : Context.t) (r : received) : M unit :=
  match r with
  | GotSubmit conn request => answerThen (Submit self ctx conn request)
  | GotCreateGroup conn request => answerThen (CreateGroup self ctx conn request)
  | GotFetch conn request => answerThen (Fetch self ctx conn request)
  | GotSubscribe conn request => answerThen (ApiFetch.Subscribe self ctx conn request)
  | GotUnsubscribe conn request => answerThen (ApiFetch.Unsubscribe self ctx conn request)
  | GotRegister conn request => answerThen (RendezvousRegister self ctx conn request)
  | GotOpen conn request => answerThen (RendezvousOpen self ctx conn request)
  | GotDeposit conn request => answerThen (RendezvousDeposit self ctx conn request)
  | GotCollect conn request => answerThen (RendezvousCollect self ctx conn request)
  | GotRetire conn request => answerThen (RendezvousRetire self ctx conn request)
  end.

(** The store's calls, but for the submission, whose two phases are two steps. *)
Definition storeAnswers (ctx : option Error) (now : time) (s : MemoryStore.t) (c : op) :
    option (MemoryStore.t * answer c) :=
  match c return option (MemoryStore.t * answer c) with
  | StoreGroupState g => Some (s, GroupStateOf ctx s g)
  | StoreEpochKeys g e => Some (s, EpochKeysOf ctx s g e)
  | StoreCreateGroup r => Some (MemoryStore.CreateGroup ctx now s r)
  | StoreFetch r => Some (s, MemoryStore.Fetch ctx s r)
  | _ => None
  end.

Definition onStore (c : op) : bool :=
  match c with
  | StoreGroupState _ | StoreEpochKeys _ _ | StoreCreateGroup _ | StoreFetch _ | StoreSubmit _ => true
  | _ => false
  end.

(** One step of one thread. *)
Inductive thread_step : MemoryStore.t → thread.t → MemoryStore.t → thread.t → Prop :=
  | step_elsewhere s r tr c k a :
      onStore c = false →
      thread_step s (thread.mk r tr (Serving (Do c k)))
        s (thread.mk r (tr ++ [Event c a]) (Serving (k a)))
  | step_store ctx now s s' r tr c k a :
      storeAnswers ctx now s c = Some (s', a) →
      thread_step s (thread.mk r tr (Serving (Do c k)))
        s' (thread.mk r (tr ++ [Event c a]) (Serving (k a)))
  | step_invalid ctx s r tr request k e :
      validateSubmit ctx request = Some e →
      thread_step s (thread.mk r tr (Serving (Do (StoreSubmit request) k)))
        s (thread.mk r (tr ++ [Event (StoreSubmit request) (Err e)]) (Serving (k (Err e))))
  | step_probe ctx s r tr request k :
      validateSubmit ctx request = None →
      thread_step s (thread.mk r tr (Serving (Do (StoreSubmit request) k)))
        s (thread.mk r tr (Holding (start s request) k))
  | step_lock now s r tr f k :
      thread_step s (thread.mk r tr (Holding f k))
        (finish now s f).1
        (thread.mk r (tr ++ [Event (StoreSubmit (inflight.request f)) (Ok (finish now s f).2)])
           (Serving (k (Ok (finish now s f).2)))).

Inductive step : world.t → world.t → Prop :=
  | step_receive ctx r s past ts :
      step (world.mk s past ts) (world.mk s past (ts ++ [thread.mk r [] (Serving (handle ctx r))]))
  | step_thread s past ts1 t ts2 s' t' :
      thread_step s t s' t' →
      step (world.mk s past (ts1 ++ t :: ts2)) (world.mk s' (s' :: past) (ts1 ++ t' :: ts2))
  | step_closing ctx now groupId s past ts :
      step (world.mk s past ts)
        (world.mk (CloseGroup ctx now s groupId).1 ((CloseGroup ctx now s groupId).1 :: past) ts).

Definition initial (limits : Limits.t) : world.t :=
  world.mk (NewMemoryStore limits) [NewMemoryStore limits] [].

Definition reachable (limits : Limits.t) (w : world.t) : Prop := rtc step (initial limits) w.
End Server.
