(* ===== verification/ServerProps.v ===== *)
(** * Every record in a log was authenticated

    The invariant of the interleaved server: the store's configuration is reachable in
    [Interleaving], every thread stays within the calls its handler may make, the keys a thread was
    told are keys the store held, and each row of each log is some request's. *)

From S2P Require Import Prelude Sha256 StoreTypes MemoryStore GroupInv Submission Interleaving.
From S2P Require Import Connections Message Prog Api ApiRecord ApiSubmit ApiFetch ApiRendezvous.
From S2P Require Import SubmitChecks ApiSubmitProps Server.

Section Props.
Context `{Library} `{!LibraryLaws}.
Context (self : Handler.t).

(** ** Handlers that write nothing *)

Definition noWrites (tr : list (event answer)) (c : op) : Prop :=
  match c with StoreSubmit _ | StoreCreateGroup _ => False | _ => True end.

Definition harmless {A} (p : M A) : Prop := ∀ tr, wp (λ _, True) noWrites p (λ _ _, True) tr.

Lemma harmless_return {A} (a : A) : harmless (Return a).
Proof. done. Qed.

Lemma harmless_bind {A B} (f : A → M B) p :
  harmless p → (∀ a, harmless (f a)) → harmless (p ≫= f).
Proof.
  intros Hp Hf tr. apply wp_bind. eapply wp_mono; [|apply Hp]. intros tr' a _. apply Hf.
Qed.

Lemma harmless_ask c : noWrites [] c → harmless (ask c).
Proof. intros Hc tr. split; [by destruct c|done]. Qed.

Create HintDb harmless.
Hint Resolve harmless_return : harmless.

Ltac harmless_step :=
  first [ apply harmless_return
        | apply harmless_ask; exact I
        | apply harmless_bind; [|intros ?]
        | progress case_match
        | solve [auto with harmless] ].
Ltac harmless := repeat harmless_step.

Lemma harmless_pad ctx started : harmless (pad self ctx started).
Proof. unfold pad. harmless. Qed.
Lemma harmless_padded {B} ctx started r : harmless (padded (B := B) self ctx started r).
Proof. unfold padded. apply harmless_bind; [apply harmless_pad|harmless]. Qed.
Lemma harmless_Contains k g : harmless (Contains k g).
Proof. unfold Contains. harmless. Qed.
Lemma harmless_frontChecks ctx conn op : harmless (frontChecks ctx conn op).
Proof. unfold frontChecks. harmless. Qed.
Hint Resolve harmless_pad harmless_padded harmless_Contains harmless_frontChecks : harmless.

Lemma harmless_opening {R B} ctx conn request body (serve : time → ApiConnection.t → R → Z → M (reply B)) :
  (∀ started conn request op, harmless (serve started conn request op)) →
  harmless (opening self ctx conn request body serve).
Proof. intros Hs. unfold opening. harmless. Qed.

Lemma harmless_servedArm {R B} ctx conn (request : option R) body
    (serve : time → ApiConnection.t → R → M (reply B)) :
  (∀ started conn request, harmless (serve started conn request)) →
  harmless (servedArm self ctx conn request body serve).
Proof. intros Hs. apply harmless_opening. intros. harmless. Qed.

Lemma harmless_Fetch ctx conn request : harmless (Fetch self ctx conn request).
Proof.
  apply harmless_opening. intros. unfold serveFetch. apply harmless_bind; [|intros [? ?]; harmless].
  unfold fetchStages, runReadStages, checkFetchShape, checkFetchKnownGroup, checkReadKey, checkRequestAuth.
  harmless.
Qed.

Lemma harmless_Subscribe ctx conn request : harmless (ApiFetch.Subscribe self ctx conn request).
Proof. apply harmless_opening. intros. unfold serveSubscribe. harmless. Qed.
Lemma harmless_Unsubscribe ctx conn request : harmless (ApiFetch.Unsubscribe self ctx conn request).
Proof. unfold ApiFetch.Unsubscribe. harmless. Qed.

Lemma harmless_Register ctx conn request : harmless (RendezvousRegister self ctx conn request).
Proof. apply harmless_servedArm. intros. unfold serveRegister, insertBox. harmless. Qed.
Lemma harmless_Open ctx conn request : harmless (RendezvousOpen self ctx conn request).
Proof.
  apply harmless_servedArm. intros. unfold serveOpen. harmless.
Qed.
Lemma harmless_Deposit ctx conn request : harmless (RendezvousDeposit self ctx conn request).
Proof.
  apply harmless_servedArm. intros. unfold serveDeposit. harmless.
Qed.
Lemma harmless_Collect ctx conn request : harmless (RendezvousCollect self ctx conn request).
Proof.
  apply harmless_servedArm. intros. unfold serveCollect. unfold collectBox. harmless.
Qed.
Lemma harmless_Retire ctx conn request : harmless (RendezvousRetire self ctx conn request).
Proof.
  apply harmless_servedArm. intros. unfold serveRetire. harmless.
Qed.

(** ** What a thread may call *)

Definition mayOf (r : received) : list (event answer) → op → Prop :=
  match r with
  | GotSubmit (Some conn) (Some request) => maySubmit conn request
  | GotCreateGroup (Some conn) (Some request) => mayCreate conn request
  | _ => noWrites
  end.

Definition stays (r : received) (p : M unit) (tr : list (event answer)) : Prop :=
  wp (λ _, True) (mayOf r) p (λ _ _, True) tr.

Lemma answerThen_stays {B} may (p : M B) Q :
  wp (λ _, True) may p Q [] → wp (λ _, True) may (answerThen p) (λ _ _, True) [].
Proof. intros Hp. apply wp_bind. eapply wp_mono; [|exact Hp]. done. Qed.

Lemma handle_stays ctx r : stays r (handle self ctx r) [].
Proof.
  unfold stays.
  destruct r as [conn request|conn request|conn request|conn request|conn request|conn request
                |conn request|conn request|conn request|conn request]; cbn [mayOf handle];
    [| |eapply answerThen_stays; first [apply harmless_Fetch|apply harmless_Subscribe
         |apply harmless_Unsubscribe|apply harmless_Register|apply harmless_Open
         |apply harmless_Deposit|apply harmless_Collect|apply harmless_Retire]..].
  - assert (∀ request', harmless (opening self ctx None request' BodySubmit (serveSubmit self ctx))) as Hn.
    { intros request' tr. split; [done|]. by intros. }
    destruct conn as [conn|]; [|eapply answerThen_stays, Hn].
    destruct request as [request|]; [|eapply answerThen_stays].
    + eapply answerThen_stays, every_Submit.
    + instantiate (1 := λ _ _, True). split; [done|]. by intros.
  - assert (∀ request', harmless (opening self ctx None request' BodyCreateGroup (serveCreateGroup self ctx))) as Hn.
    { intros request' tr. split; [done|]. by intros. }
    destruct conn as [conn|]; [|eapply answerThen_stays, Hn].
    destruct request as [request|]; [|eapply answerThen_stays].
    + eapply answerThen_stays, every_CreateGroup.
    + instantiate (1 := λ _ _, True). split; [done|]. by intros.
Qed.

(** ** The invariant *)

(** A key a thread was told is one the store held. *)
Definition told (past : list MemoryStore.t) (tr : list (event answer)) : Prop :=
  ∀ g e keys, Event (StoreEpochKeys g e) (Ok keys) ∈ tr →
    ∃ s, s ∈ past ∧ EpochKeysOf None s g e = Ok keys.

Definition thread_ok (past : list MemoryStore.t) (t : thread.t) : Prop :=
  told past (thread.did t) ∧
  match thread.left t with
  | Serving p => stays (thread.what t) p (thread.did t)
  | Holding f k => mayOf (thread.what t) (thread.did t) (StoreSubmit (inflight.request f)) ∧
      ∀ a, stays (thread.what t) (k a) (thread.did t ++ [Event (StoreSubmit (inflight.request f)) a])
  end.

Definition flight (t : thread.t) : option inflight.t :=
  match thread.left t with Holding f _ => Some f | Serving _ => None end.
Definition flights (ts : list thread.t) : list inflight.t := omap flight ts.

(** The founding row of a group is some CreateGroup's. *)
Definition founding (ts : list thread.t) (groupId : list Z) (r : Rec.t) : Prop :=
  ∃ conn request c req, (∃ t, t ∈ ts ∧ thread.what t = GotCreateGroup (Some conn) (Some request)) ∧
    octets (pCreateGroupRequest.GroupId request) = groupId ∧ certified conn request req ∧
    CreateGroupRequest.InitialCommit req = Some c ∧ r = stamp (Rec.RecordId r) c.

(** Every other row is a record of some Submit, verified under the key the store held for its
    epoch. *)
Definition authentic (past : list MemoryStore.t) (ts : list thread.t) (groupId : list Z)
    (r : Rec.t) : Prop :=
  ∃ conn request p parsed att sent c keys s,
    (∃ t, t ∈ ts ∧ thread.what t = GotSubmit (Some conn) (Some request)) ∧
    octets (pSubmitRequest.GroupId request) = groupId ∧
    shaped (pSubmitRequest.GroupId request) p parsed att sent ∧
    Some sent ∈ pSubmitRequest.Records request ∧
    columnsOf p = Return (Ok c) ∧ r = stamp (Rec.RecordId r) c ∧
    s ∈ past ∧ EpochKeysOf None s (pSubmitRequest.GroupId request) (Rec.Epoch r) = Ok keys ∧
    EpochKeys.WriteKey keys ≠ None ∧
    VerifyWriteAuth (EpochKeys.WriteKey keys) (ApiConnection.ServerNonce conn) parsed = true ∧
    ContentHash (Parsed.CtBody parsed) = RecordHeader.BodyHash (Parsed.Header parsed).

Definition attributed (past : list MemoryStore.t) (ts : list thread.t) (s : MemoryStore.t) : Prop :=
  ∀ id g i row, MemoryStore.groups s !! id = Some g → memoryGroup.records g !! i = Some row →
    if decide (i = 0%nat) then founding ts id (recordRow.record row)
    else authentic past ts id (recordRow.record row).

Record world_ok (limits : Limits.t) (w : world.t) : Prop := WorldOk {
  wo_store : ∃ fl, Interleaving.reachable limits (world.store w, fl) ∧
    fl ≡ₚ flights (world.threads w);
  wo_now : world.store w ∈ world.past w;
  wo_threads : Forall (thread_ok (world.past w)) (world.threads w);
  wo_rows : attributed (world.past w) (world.threads w) (world.store w) }.

(** More stores and more threads take nothing back. *)
Lemma told_more s past tr : told past tr → told (s :: past) tr.
Proof. intros Ht g e keys Hin. destruct (Ht _ _ _ Hin) as (s0 & ? & ?). exists s0. split; [by right|done]. Qed.

Lemma thread_ok_more s past t : thread_ok past t → thread_ok (s :: past) t.
Proof. intros [Ht Hl]. split; [by apply told_more|done]. Qed.

(** The requests received only grow. *)
Definition same_whats (ts ts' : list thread.t) : Prop :=
  ∀ t, t ∈ ts → ∃ t', t' ∈ ts' ∧ thread.what t' = thread.what t.

Lemma founding_more ts ts' id r : same_whats ts ts' → founding ts id r → founding ts' id r.
Proof.
  intros Hs (conn & request & c & req & (t & Ht & Hw) & Hf). destruct (Hs _ Ht) as (t' & Ht' & Hw').
  exists conn, request, c, req. split; [|done]. exists t'. by rewrite Hw'.
Qed.

Lemma authentic_more past past' ts ts' id r :
  past ⊆ past' → same_whats ts ts' → authentic past ts id r → authentic past' ts' id r.
Proof.
  intros Hp Hs (conn & request & p & parsed & att & sent & c & keys & s & (t & Ht & Hw) & Ha).
  destruct (Hs _ Ht) as (t' & Ht' & Hw'). exists conn, request, p, parsed, att, sent, c, keys, s.
  split; [exists t'; by rewrite Hw'|]. destruct Ha as (?&?&?&?&?&?&?). repeat (split; [done|]).
  split; [by apply Hp|done].
Qed.

Lemma attributed_more past past' ts ts' s :
  past ⊆ past' → same_whats ts ts' → attributed past ts s → attributed past' ts' s.
Proof.
  intros Hp Hs Ha id g i row Hg Hr. specialize (Ha id g i row Hg Hr). case_decide.
  - by eapply founding_more.
  - by eapply authentic_more.
Qed.

(** A store whose groups have the same rows is attributed the same. *)
Lemma attributed_same past ts s s' :
  (∀ id g', MemoryStore.groups s' !! id = Some g' →
     ∃ g, MemoryStore.groups s !! id = Some g ∧ memoryGroup.records g' = memoryGroup.records g) →
  attributed past ts s → attributed past ts s'.
Proof.
  intros Hs Ha id g' i row Hg Hr. destruct (Hs _ _ Hg) as (g & Hg1 & Hr1). rewrite Hr1 in Hr.
  exact (Ha id g i row Hg1 Hr).
Qed.

(** ** Each step keeps it *)

Lemma flights_middle ts1 t ts2 :
  flights (ts1 ++ t :: ts2) ≡ₚ option_list (flight t) ++ flights (ts1 ++ ts2).
Proof.
  unfold flights. rewrite !omap_app. cbn. destruct (flight t) as [f|]; cbn; [|done].
  by rewrite Permutation_middle.
Qed.

(** A thread's step is a step of the store's own transition system. *)
Lemma thread_step_steps s t s' t' fl others :
  thread_step s t s' t' → fl ≡ₚ option_list (flight t) ++ others →
  ∃ fl', Interleaving.steps (s, fl) (s', fl') ∧ fl' ≡ₚ option_list (flight t') ++ others.
Proof.
  intros Hs Hf. destruct Hs as [s r tr c k a|ctx now s s' r tr c k a Ha|ctx s r tr request k e
    |ctx s r tr request k Hv|now s r tr f k]; cbn in *.
  - by exists fl.
  - exists fl. split; [|done]. destruct c; cbn in Ha; simplify_eq; try done.
    apply rtc_once. destruct (MemoryStore.CreateGroup ctx now s request) as [s2 a2] eqn:E.
    simplify_eq. replace s' with (MemoryStore.CreateGroup ctx now s request).1 by (by rewrite E).
    constructor.
  - by exists fl.
  - exists (start s request :: fl). split; [|by rewrite Hf]. by eapply rtc_once, Interleaving.step_start.
  - assert (f ∈ fl) as Hin by (rewrite Hf; left). apply list_elem_of_split in Hin as (fl1 & fl2 & ->).
    exists (fl1 ++ fl2). split; [apply rtc_once; constructor|].
    apply (Permutation_cons_inv (a := f)). by rewrite Permutation_middle.
Qed.

Lemma EpochKeysOf_None ctx s g e keys : EpochKeysOf ctx s g e = Ok keys → EpochKeysOf None s g e = Ok keys.
Proof. unfold EpochKeysOf. by destruct ctx. Qed.

(** What an event tells of an epoch's keys. *)
Definition keysTold (e : event answer) : option (slice * Z * res Error EpochKeys.t) :=
  match e with
  | Event c a =>
      match c return answer c → option (slice * Z * res Error EpochKeys.t) with
      | StoreEpochKeys g ep => λ a, Some (g, ep, a)
      | _ => λ _, None
      end a
  end.

(** One event more in a thread's history. *)
Lemma told_snoc past tr e :
  told past tr →
  (∀ g ep keys, e = Event (StoreEpochKeys g ep) (Ok keys) →
     ∃ s, s ∈ past ∧ EpochKeysOf None s g ep = Ok keys) →
  told past (tr ++ [e]).
Proof.
  intros Ht He g ep keys [Hin|Hin]%elem_of_app; [by apply Ht|].
  apply list_elem_of_singleton in Hin. by apply He.
Qed.

Lemma thread_step_ok past s t s' t' :
  s ∈ past → thread_step s t s' t' → thread_ok past t → thread_ok (s' :: past) t'.
Proof.
  intros Hin Hs [Ht Hl]. apply thread_ok_more.
  destruct Hs as [s r tr c k a Hc|ctx now s s' r tr c k a Ha|ctx s r tr request k e He
    |ctx s r tr request k Hv|now s r tr f k]; cbn in *.
  - split; [|by apply Hl]. apply told_snoc; [done|]. intros g ep keys E.
    apply (f_equal did) in E. cbn in E. by subst c.
  - split; [|by apply Hl]. apply told_snoc; [done|]. intros g ep keys E.
    apply (f_equal keysTold) in E. destruct c; cbn in Ha, E; try done.
    injection Ha as <- <-. injection E as <- <- E. exists s. split; [done|].
    by eapply EpochKeysOf_None.
  - split; [|by apply Hl]. apply told_snoc; [done|]. intros g ep keys E.
    by apply (f_equal did) in E.
  - split; [done|]. destruct Hl as [Hm Hk]. split; [done|]. intros a. by apply Hk.
  - split; [|by apply Hl]. apply told_snoc; [done|]. intros g ep keys E.
    by apply (f_equal did) in E.
Qed.

(** ** The rows *)

Lemma what_middle ts1 t ts2 t' :
  thread.what t' = thread.what t → same_whats (ts1 ++ t :: ts2) (ts1 ++ t' :: ts2).
Proof.
  intros Hw x Hx. apply elem_of_app in Hx as [Hx|Hx].
  - exists x. split; [apply elem_of_app; by left|done].
  - apply elem_of_cons in Hx as [->|Hx].
    + exists t'. split; [apply elem_of_app; right; left|done].
    + exists x. split; [apply elem_of_app; right; by right|done].
Qed.

Lemma step_what s t s' t' : thread_step s t s' t' → thread.what t' = thread.what t.
Proof. by destruct 1. Qed.

(** A group put back with rows of its own keeps every other group's. *)
Lemma attributed_put past ts s gid g' :
  attributed past ts s →
  (∀ i row, memoryGroup.records g' !! i = Some row →
     (∃ g, group s gid = Some g ∧ memoryGroup.records g !! i = Some row) ∨
     if decide (i = 0%nat) then founding ts (octets gid) (recordRow.record row)
     else authentic past ts (octets gid) (recordRow.record row)) →
  attributed past ts (put_group s gid (Some g')).
Proof.
  intros Ha Hn id g i row Hg Hr. simpl in Hg. apply lookup_insert_Some in Hg as [ [<- <-]|[_ Hg] ].
  - destruct (Hn i row Hr) as [(g & Hg & Hr')|Hx]; [|exact Hx]. exact (Ha _ _ _ _ Hg Hr').
  - exact (Ha _ _ _ _ Hg Hr).
Qed.

Lemma inv_rows_nonempty g : group_inv g → memoryGroup.records g ≠ [].
Proof.
  intros Hi E. apply (inv_founded _ _ Hi).
  change (memoryGroup.commits g) with (GroupLog.view.commits (view_at (memoryGroup.nextRecordId g) g)).
  rewrite (inv_view _ _ Hi), E. done.
Qed.

(** A Submit's rows: what the submission in flight carries was justified. *)
Lemma admitted_authentic past ts t f now g g' results i row :
  t ∈ ts → told past (thread.did t) →
  mayOf (thread.what t) (thread.did t) (StoreSubmit (inflight.request f)) →
  pending.record <$> inflight.batch f = SubmitRequest.Records (inflight.request f) →
  group_inv g → admitted now (inflight.request f) (inflight.batch f) g g' results →
  memoryGroup.records g' !! i = Some row →
  memoryGroup.records g !! i = Some row ∨
  (i ≠ 0%nat ∧
   authentic past ts (octets (SubmitRequest.GroupId (inflight.request f))) (recordRow.record row)).
Proof.
  intros Hin Htold Hm Hrec Hi Ha Hrow. destruct (ad_rows _ _ _ _ _ _ Ha) as (rows & Hr & Hmap & _).
  rewrite Hr in Hrow. apply lookup_app_Some in Hrow as [Hrow|[Hle Hrow] ]; [by left|right].
  pose proof (inv_rows_nonempty g Hi) as Hne. split.
  { intros ->. destruct (memoryGroup.records g); [done|cbn in Hle; lia]. }
  apply (f_equal (fmap recordRow.record)) in Hrow. rewrite <- list_lookup_fmap, Hmap in Hrow.
  cbn in Hrow. rewrite list_lookup_imap in Hrow. apply fmap_Some in Hrow as (c & Hc & Hst).
  assert (c ∈ SubmitRequest.Records (inflight.request f)) as Hcin.
  { rewrite <- Hrec. apply list_elem_of_lookup_2 in Hc. apply list_elem_of_fmap in Hc as (q & -> & Hq).
    apply list_elem_of_filter in Hq as [_ Hq]. by apply list_elem_of_fmap_2. }
  destruct (thread.what t) as [ [conn|] [request|]|[conn|] [request|]| | | | | | | |] eqn:Hw; try done.
  destruct Hm as (Hg & _ & _ & Hj). eapply Forall_forall in Hj; [|exact Hcin].
  destruct Hj as (p & parsed & att & sent & key & Hp & Hs & Hcol & He & (keys & Hkin & Hkey & Hnn) & Hv & Hh).
  destruct (Htold _ _ _ Hkin) as (s0 & Hs0 & Hk0).
  exists conn, request, p, parsed, att, sent, c, keys, s0. rewrite Hg, Hst. subst key.
  split; [by exists t|]. by repeat (split; [done|]).
Qed.

Lemma thread_step_rows limits past ts t s s' t' fl :
  t ∈ ts → thread_step s t s' t' → thread_ok past t → attributed past ts s →
  Interleaving.reachable limits (s, fl) → (∀ f, flight t = Some f → f ∈ fl) →
  attributed past ts s'.
Proof.
  intros Hin Hs Hok Ha Hreach Hfl. apply reachable_ok in Hreach as [Hst Hfs]. cbn in Hst, Hfs.
  destruct Hs as [s r tr c k a|ctx now s s' r tr c k a Hans|ctx s r tr request k e
    |ctx s r tr request k Hv|now s r tr f k]; try exact Ha.
  - destruct c; cbn in Hans; try done; try (injection Hans as <- _; exact Ha).
    destruct (CreateGroup_cases ctx now s request) as
      [ [E _]|(c & o & media & durable & applied & Hini & _ & _ & _ & _ & _ & _ & Hn & E & _)];
      destruct (MemoryStore.CreateGroup ctx now s request) as [s2 a2]; cbn in E; injection Hans as -> _;
      subst s'; [exact Ha|].
    apply attributed_put; [done|]. intros i row Hrow. right. cbn in Hrow.
    destruct i as [|i]; [|done]. cbn in Hrow. injection Hrow as <-. cbn.
    destruct Hok as [_ [Hm _] ]. cbn in Hm.
    destruct r as [ [conn|] [rq|]|[conn|] [rq|]| | | | | | | |]; try done. cbn in Hm.
    exists conn, rq, c, request. split; [by eexists|]. destruct Hm as (Hg & Hrest). rewrite Hg.
    split; [done|]. split; [by split|]. split; done.
  - assert (inflight_ok s f) as Hf by (eapply Forall_forall in Hfs; [exact Hfs|by apply Hfl]).
    destruct (finish_outcome now s f Hst Hf) as [_ [ [-> _]|(g & g' & Hg & _ & -> & Had)] ]; [exact Ha|].
    destruct (Hst _ _ Hg) as [Hi _]. destruct Hok as [Ht [Hm _] ].
    apply attributed_put; [done|]. intros i row Hrow.
    destruct (admitted_authentic past ts _ f now g g' _ i row Hin Ht Hm
      (ready_records _ _ _ (proj1 Hf)) Hi Had Hrow) as [Hold|[Hne Hau] ].
    + left. by exists g.
    + right. by rewrite decide_False.
Qed.

Lemma CloseGroup_rows ctx now s gid id g' :
  MemoryStore.groups (CloseGroup ctx now s gid).1 !! id = Some g' →
  ∃ g, MemoryStore.groups s !! id = Some g ∧ memoryGroup.records g' = memoryGroup.records g.
Proof.
  unfold CloseGroup. destruct (first_error _ _); [by exists g'|].
  destruct (group s gid) as [g|] eqn:Hg; [|by exists g'].
  destruct (memoryGroup.closed g); [by exists g'|]. cbn. rewrite lookup_insert_Some.
  intros [ [<- <-]|[_ H1] ]; [by exists g|by exists g'].
Qed.

Lemma step_world_ok limits w w' : world_ok limits w → step self w w' → world_ok limits w'.
Proof.
  intros [ (fl & Hreach & Hfl) Hnow Hts Hrows] Hs.
  destruct Hs as [ctx r s past ts|s past ts1 t ts2 s' t' Hs|ctx now gid s past ts]; cbn in *.
  - assert (same_whats ts (ts ++ [thread.mk r [] (Serving (handle self ctx r))])) as Hsw.
    { intros x Hx. exists x. split; [apply elem_of_app; by left|done]. }
    split; cbn; [|done| |by eapply attributed_more].
    + exists fl. split; [done|]. unfold flights. rewrite omap_app. cbn. by rewrite app_nil_r.
    + apply Forall_app. split; [done|]. constructor; [|done]. split; [|by apply handle_stays].
      intros g e keys Hin. by apply elem_of_nil in Hin.
  - rewrite flights_middle in Hfl.
    assert (thread_ok past t) as Hok by (apply Forall_app in Hts as [_ Hts]; by apply Forall_cons in Hts as [Hts _]).
    split; cbn.
    + destruct (thread_step_steps _ _ _ _ _ _ Hs Hfl) as (fl' & Hsteps & Hfl').
      exists fl'. split; [unfold Interleaving.reachable in *; by etrans|]. by rewrite flights_middle.
    + left.
    + apply Forall_app in Hts as [H1 H2]. apply Forall_cons in H2 as [_ H2]. apply Forall_app.
      split; [eapply Forall_impl; [exact H1|intros; by apply thread_ok_more]|].
      constructor; [by eapply thread_step_ok|].
      eapply Forall_impl; [exact H2|intros; by apply thread_ok_more].
    + eapply (attributed_more past); [by right|by apply what_middle, (step_what _ _ _ _ Hs)|].
      eapply thread_step_rows; [|exact Hs|done|done|exact Hreach|].
      * apply elem_of_app. right. left.
      * intros f Hf. rewrite Hfl, Hf. left.
  - split; cbn; [|left| |].
    + exists fl. split; [|done]. eapply rtc_r; [exact Hreach|]. constructor.
    + eapply Forall_impl; [exact Hts|intros; by apply thread_ok_more].
    + eapply (attributed_more past); [by right|by intros x Hx; exists x|].
      eapply attributed_same; [apply CloseGroup_rows|done].
Qed.

Lemma initial_world_ok limits : world_ok limits (initial limits).
Proof.
  split; cbn.
  - exists []. split; [apply rtc_refl|done].
  - left.
  - constructor.
  - intros id g i row Hg. cbn in Hg. by rewrite lookup_empty in Hg.
Qed.

Lemma reachable_world_ok limits w : Server.reachable self limits w → world_ok limits w.
Proof.
  intros Hr. unfold Server.reachable in Hr. pose proof (initial_world_ok limits) as Hi.
  induction Hr as [|x y z Hxy Hyz IH]; [done|]. apply IH. by eapply step_world_ok.
Qed.

(** ** The properties *)

(** C11: EVERY RECORD IN EVERY LOG WAS AUTHENTICATED.  However the handlers' calls interleave, and
    whatever the clock, the registry and the other collaborators answer: the first row of a group is
    the founding commit of some [CreateGroup] request received, certified under the bootstrap key
    that request carried, and every later row is a record of some [Submit] request received for that
    group, whose [write_auth] verified, over the nonce of the connection it arrived on, under the
    write key the store held for the record's epoch, whose body hashes to what it claims, and whose
    columns are the columns of the bytes that were sent. *)
Theorem every_record_authenticated limits w id g i row :
  Server.reachable self limits w →
  MemoryStore.groups (world.store w) !! id = Some g → memoryGroup.records g !! i = Some row →
  if decide (i = 0%nat) then founding (world.threads w) id (recordRow.record row)
  else authentic (world.past w) (world.threads w) id (recordRow.record row).
Proof. intros Hr Hg Hrow. exact (wo_rows _ _ (reachable_world_ok _ _ Hr) _ _ _ _ Hg Hrow). Qed.

End Props.
