(* ===== verification/ApiFetchProps.v ===== *)
(** * What the read path serves

    A proof over every trace of [Fetch]: the store is read only after the shape, the group and the
    reader's authenticator were checked, with exactly the cursor, mask and ceiling the authenticator
    covers; and the projection a reader is handed is the one the submitter's was checked against. *)

From S2P Require Import Prelude StoreTypes MemoryStore GroupInv Interleaving StoreProps FetchProps.
From S2P Require Import Connections Message Prog Api ApiRecord ApiSubmit ApiFetch SubmitChecks.

Section Props.
Context `{Library} `{!LibraryLaws}.

(** ** Authorisation *)

(** The read key of the request's epoch was read, and the request's authenticator verified under
    it, over its canonical bytes and the connection's nonce. *)
Definition authorised (conn : ApiConnection.t) (request : pFetchRequest.t)
    (tr : list (event answer)) : Prop :=
  ∃ keys op canonical,
    Event (StoreEpochKeys (pFetchRequest.GroupId request) (pFetchRequest.ReadEpoch request)) (Ok keys) ∈ tr ∧
    EpochKeys.ReadKey keys ≠ None ∧
    opOf (BodyFetch request) = Ok op ∧
    canonicalRequestBytes (BodyFetch request) = Ok canonical ∧
    VerifyRequestAuth (EpochKeys.ReadKey keys) (ApiConnection.ServerNonce conn) op canonical
      (pFetchRequest.ReqAuth request) = true.

Definition readable (request : pFetchRequest.t) : Prop :=
  len (pFetchRequest.GroupId request) = GroupIdBytes ∧ len (pFetchRequest.ReqAuth request) ≠ 0.

(** The store's request, out of the authenticated one. *)
Definition storeFetch (self : Handler.t) (request : pFetchRequest.t) : FetchRequest.t :=
  FetchRequest.mk (pFetchRequest.GroupId request) (pFetchRequest.SinceRecordId request)
    (fetchLimit self (pFetchRequest.Limit request)) (pFetchRequest.HeadsOnly request)
    (pFetchRequest.ClassMask request) (pFetchRequest.ReadEpoch request).

Definition mayFetch (self : Handler.t) (conn : ApiConnection.t) (request : pFetchRequest.t)
    (tr : list (event answer)) (c : op) : Prop :=
  let groupId := pFetchRequest.GroupId request in
  match c with
  | StoreGroupState g => g = groupId ∧ readable request
  | IdsWrite g => g = groupId ∧ exists_in tr groupId
  | StoreEpochKeys g e => g = groupId ∧ e = pFetchRequest.ReadEpoch request ∧ readable request
  | StoreFetch r => r = storeFetch self request ∧ authorised conn request tr
  | c => quiet c = true
  end.

(** A body is exactly what the store answered, record for record. *)
Definition fetchReply (self : Handler.t) (conn : ApiConnection.t) (request : pFetchRequest.t)
    (tr : list (event answer)) (r : reply pFetchResponse.t) : Prop :=
  match reply_body r with
  | None => True
  | Some body =>
      authorised conn request tr ∧ reply_reason r = REASON_OK ∧
      ∃ result : FetchResult.t,
        Event (StoreFetch (storeFetch self request)) (Ok result) ∈ tr ∧
        rebuildAll (pFetchRequest.GroupId request) (pFetchRequest.HeadsOnly request)
          (FetchResult.Records result) = Ok (pFetchResponse.Records body) ∧
        pFetchResponse.NextRecordId body = FetchResult.NextRecordId result ∧
        pFetchResponse.HighWaterRecordId body = FetchResult.HighWaterRecordId result ∧
        pFetchResponse.Complete body = FetchResult.Complete result
  end.

Lemma quiet_mayFetch self conn request tr c : quiet c = true → mayFetch self conn request tr c.
Proof. by destruct c. Qed.

Lemma every_serveFetch self ctx started conn request op tr :
  opOf (BodyFetch request) = Ok op →
  wp (λ _, True) (mayFetch self conn request) (serveFetch self ctx started conn request op)
    (fetchReply self conn request) tr.
Proof.
  intros Hop. set (may := mayFetch self conn request).
  assert (∀ tr c, quiet c = true → may tr c) as Hq by (intros; by apply quiet_mayFetch).
  assert (∀ tr reason, wp (λ _, True) may (padded self ctx started reason)
    (fetchReply self conn request) tr) as Hpad by (intros; by apply every_padded).
  unfold serveFetch, fetchStages, runReadStages, checkFetchShape. cbn [fetchPass.request].
  destruct (negb (len (pFetchRequest.GroupId request) =? _)) eqn:Hg; [by apply Hpad|].
  destruct (len (pFetchRequest.ReqAuth request) =? 0) eqn:Ha; [by apply Hpad|]. reflect_bools.
  cbn [mbind prog_mbind prog_bind]. rewrite decide_True by done.
  apply wp_bind, wp_bind. unfold checkFetchKnownGroup. apply wp_bind, every_Contains; [done| | |].
  { intros tr' _. by split. } { intros tr' _ He. by split. }
  intros tr1 known _. destruct known as [ []|e]; [|by apply Hpad|by apply Hpad].
  cbn [wp mbind prog_mbind prog_bind]. rewrite decide_True by done.
  apply wp_bind. unfold checkReadKey. cbn [fetchPass.request].
  split; [done|]. intros keys _. set (tr2 := tr1 ++ _).
  destruct keys as [keys|e]; [|by apply Hpad]. cbn [mbind prog_mbind prog_bind].
  case_bool_decide as Hnil; [by apply Hpad|]. cbn [wp mbind prog_mbind prog_bind].
  rewrite decide_True by done. unfold checkRequestAuth. cbn [fetchPass.request fetchPass.set_readKey
    fetchPass.readKey fetchPass.conn fetchPass.op].
  destruct (canonicalRequestBytes _) as [canonical|e] eqn:Hcan; [|by apply Hpad].
  destruct (VerifyRequestAuth _ _ _ _ _) eqn:Hv; [|by apply Hpad].
  assert (authorised conn request tr2) as Hauth.
  { exists keys, op, canonical. split; [apply elem_of_app; right; by apply list_elem_of_singleton|done]. }
  split; [by split|]. intros result _. destruct result as [result|e]; [|by apply Hpad].
  cbn [mbind prog_mbind prog_bind]. destruct (rebuildAll _ _ _) as [records|e] eqn:Hr; [|done].
  split; [|split; [done|] ].
  - destruct Hauth as (k & o & c & Hin & Hk). exists k, o, c. split; [apply elem_of_app; by left|done].
  - exists result. split; [apply elem_of_app; right; by apply list_elem_of_singleton|done].
Qed.

Lemma fetch_trace self ctx conn request tr out :
  runs (Fetch self ctx (Some conn) (Some request)) tr out →
  (∃ r, out = Returned r ∧ fetchReply self conn request tr r) ∧
  ∀ i e, tr !! i = Some e → mayFetch self conn request (take i tr) (did e).
Proof.
  intros Hr. assert (Forall (λ _ : event answer, True) tr) as Hc by by apply Forall_forall.
  assert (wp (λ _, True) (mayFetch self conn request) (Fetch self ctx (Some conn) (Some request))
    (fetchReply self conn request) []) as Hw.
  { apply every_opening; [by intros ? []|done|].
    intros started conn' request' op tr' _ [= <-] [= <-] Hop. by apply every_serveFetch. }
  split; [exact (wp_runs _ _ _ _ _ _ _ Hw Hr Hc)|].
  intros i e Hi. exact (wp_calls _ _ _ _ _ _ _ _ _ Hw Hr Hc Hi).
Qed.

(** ** What the store answers a fetch *)

Lemma fetchLoop_under request rows page next page' next' complete :
  fetchLoop request rows page next = (page', next', complete) →
  ∀ r, r ∈ page' → r ∈ page ∨
    ∃ row, row ∈ rows ∧ r = read row (FetchRequest.HeadsOnly request) ∧
      Rec.Epoch r <= FetchRequest.ReadEpoch request ∧
      FetchRequest.SinceRecordId request < Rec.RecordId r.
Proof.
  revert page next. induction rows as [|row rows IH]; intros page next; cbn [fetchLoop].
  { intros [= <- _ _]. auto. }
  intros E r Hr. assert (∀ pg nx, fetchLoop request rows pg nx = (page', next', complete) →
    (r ∈ pg → r ∈ page ∨ (r = read row (FetchRequest.HeadsOnly request) ∧
       Rec.Epoch r <= FetchRequest.ReadEpoch request ∧
       FetchRequest.SinceRecordId request < Rec.RecordId r)) →
    r ∈ page ∨ ∃ row', row' ∈ row :: rows ∧ r = read row' (FetchRequest.HeadsOnly request) ∧
      Rec.Epoch r <= FetchRequest.ReadEpoch request ∧
      FetchRequest.SinceRecordId request < Rec.RecordId r) as Hstep.
  { intros pg nx Epg Hin. destruct (IH _ _ Epg r Hr) as [H1|(row' & H1 & H2)].
    - destruct (Hin H1) as [?|H2]; [by left|right]. exists row. split; [left|done].
    - right. exists row'. split; [by right|done]. }
  destruct (_ <? Rec.Epoch _) eqn:He; [eapply Hstep; eauto|].
  destruct (Rec.RecordId _ <=? _) eqn:Hs; [eapply Hstep; eauto|].
  destruct (negb (classIncluded _ _)); [eapply Hstep; eauto|].
  destruct (_ && _); [simplify_eq; by left|].
  eapply Hstep; [exact E|]. intros [Hin|Hin]%elem_of_app; [by left|right].
  apply list_elem_of_singleton in Hin as ->. reflect_bools. split; [done|].
  unfold read. destruct (FetchRequest.HeadsOnly request), (recordRow.pruneAfter row); cbn; lia.
Qed.

Lemma Fetch_under ctx s request result :
  MemoryStore.Fetch ctx s request = Ok result →
  ∀ r, r ∈ FetchResult.Records result →
    Rec.Epoch r <= FetchRequest.ReadEpoch request ∧ FetchRequest.SinceRecordId request < Rec.RecordId r.
Proof.
  unfold MemoryStore.Fetch. intros E. destruct (first_error _ _); [done|].
  destruct (open_group _ _) as [g|]; [|done].
  destruct (fetchLoop _ _ _ _) as [ [page next] complete] eqn:Hl. injection E as <-. cbn.
  intros r Hr. destruct (fetchLoop_under _ _ _ _ _ _ _ Hl r Hr) as [Hn|(row & _ & _ & H1)]; [|done].
  by apply elem_of_nil in Hn.
Qed.

(** ** The rebuilt record *)

Lemma rebuildRecord_fields gid r heads q :
  rebuildRecord gid r heads = Ok q →
  pRecord.Epoch q = Rec.Epoch r ∧ pRecord.RecordId q = Rec.RecordId r.
Proof.
  unfold rebuildRecord, projectionOf. intros E.
  destruct (RetentionClassOf _) as [ [class bucket]|]; [|done]. destruct (_ || _); [done|].
  destruct (EncodeRecord _); [|done]. destruct (parseServerAttachment _); [|done].
  destruct (RetentionClassWire _ _); [|done]. by injection E as <-.
Qed.

Lemma rebuildAll_Forall2 gid heads records l :
  rebuildAll gid heads records = Ok l → Forall2 (λ r q, rebuildRecord gid r heads = Ok q) records l.
Proof.
  revert l. induction records as [|r records IH]; intros l E; cbn in E; [by simplify_eq|].
  destruct (rebuildRecord gid r heads) as [q|] eqn:Hq; [|done].
  destruct (rebuildAll gid heads records) as [l'|]; [|done]. cbn in E. simplify_eq.
  constructor; [done|by apply IH].
Qed.

(** The fields a projection is compared by: not the bytes, not the id the server assigns. *)
Definition blank (r : pRecord.t) : pRecord.t := pRecord.set_RecordId 0 (pRecord.set_RecordBytes None r).

(** What is left of a record once the store has it: no [write_auth], and no body for heads only. *)
Definition kept (parsed : Parsed.t) (headsOnly : bool) : Parsed.t :=
  Parsed.mk (Parsed.Header parsed) (Parsed.CtHead parsed)
    (if headsOnly then None else Parsed.CtBody parsed) noWriteAuth.

Lemma columnsOf_rebuilt gid p parsed att sent :
  shaped gid p parsed att sent →
  ∃ c w, columnsOf p = Return (Ok c) ∧ Rec.RetentionClass c = w ∧
    RetentionClassOf w = Ok (RecordHeader.RetentionClass (Parsed.Header parsed),
                             RecordHeader.EphBucket (Parsed.Header parsed)) ∧
    ∀ id heads, rebuiltOf gid (stamp id c) (RecordHeader.RetentionClass (Parsed.Header parsed))
      (RecordHeader.EphBucket (Parsed.Header parsed)) heads = kept parsed heads ∧
      Rec.SenderHandle (stamp id c) = Some (RecordHeader.SenderHandle (Parsed.Header parsed)) ∧
      Rec.BodyHash (stamp id c) = Some (RecordHeader.BodyHash (Parsed.Header parsed)).
Proof.
  intros [Hs Hp Hq Hg Hh Hw Hd Ha Hi _].
  destruct (parse_bucket _ _ Hp) as (Hsb & _). destruct (parse_class _ _ Hp) as (w & Hwire & Hof).
  destruct (attachmentOf_wf att (parseServerAttachment_wf _ _ Hd)) as (x & Hx & _).
  unfold columnsOf. rewrite Hq, Ha. cbn -[attachmentOf]. rewrite Hwire, Hx. cbn.
  eexists _, w. repeat (split; [done|]). intros id heads. split; [|done].
  unfold rebuiltOf, kept, stamp, bytes_Clone, u8. cbn. rewrite Z.mod_small by lia.
  rewrite <- Hg. by destruct parsed as [ [] ? ? ?].
Qed.

(** C17: A FETCH SERVES ONLY WHAT ITS AUTHENTICATOR COVERS.  Whatever the collaborators answer, a
    reply with a body means that the read key of the request's own epoch was read from the store and
    the request's [req_auth] verified under it over the canonical request and the connection's
    nonce; and then every record handed out is at or below that epoch and above the cursor. *)
Theorem fetch_authorised self ctx conn request tr r body :
  runs (Fetch self ctx (Some conn) (Some request)) tr (Returned r) →
  reply_body r = Some body →
  (∀ req result, Event (StoreFetch req) (Ok result) ∈ tr →
     ∃ s, MemoryStore.Fetch None s req = Ok result) →
  authorised conn request tr ∧
  Forall (λ q, pRecord.Epoch q <= pFetchRequest.ReadEpoch request ∧
               pFetchRequest.SinceRecordId request < pRecord.RecordId q) (pFetchResponse.Records body).
Proof.
  intros Hr Hb Hs. destruct (fetch_trace self ctx conn request tr _ Hr) as [(r' & E & Hf) _].
  injection E as <-. unfold fetchReply in Hf. rewrite Hb in Hf.
  destruct Hf as (Ha & _ & result & Hin & Hall & _). split; [done|].
  destruct (Hs _ _ Hin) as (s & Hfs). apply rebuildAll_Forall2 in Hall.
  apply Forall_forall. intros q Hq. apply list_elem_of_lookup_1 in Hq as [i Hi].
  destruct (Forall2_lookup_r _ _ _ _ _ Hall Hi) as (rec & Hrec & Hq).
  destruct (rebuildRecord_fields _ _ _ _ Hq) as [-> ->].
  apply (Fetch_under None s _ _ Hfs). by eapply list_elem_of_lookup_2.
Qed.

(** C18: WHAT WAS CHECKED ON THE WAY IN IS WHAT IS SERVED ON THE WAY OUT.  If check 3 lets a record
    through, its columns, stamped with whatever id, are rebuilt into the very record that was sent,
    less its [write_auth] (and its body, for heads only): the bytes are the encoding of that parse,
    and every field the server indexes agrees with the field the client sent. *)
Theorem served_as_submitted self gid sent tr p :
  runs (staticShape self gid (recordPass.start (Some sent))) tr (Returned (p, REASON_OK)) →
  len gid = GroupIdBytes →
  ∃ parsed c, ParseRecord (pRecord.RecordBytes sent) = Ok parsed ∧ columnsOf p = Return (Ok c) ∧
    ∀ id heads bytes, EncodeRecord (kept parsed heads) = Ok bytes →
      ∃ q, rebuildRecord gid (stamp id c) heads = Ok q ∧
        pRecord.RecordId q = id ∧ pRecord.RecordBytes q = bytes ∧ sameMessage (blank q) (blank sent).
Proof.
  intros Hr Hg.
  assert (wp (λ _, True) (λ _ _, True) (staticShape self gid (recordPass.start (Some sent)))
    (λ _ out, out.2 = REASON_OK → ∃ parsed att, shaped gid out.1 parsed att sent) []) as Hw.
  { apply every_staticShape; [done|]. intros tr' p' r _ Hc [ (_ & parsed & att & sent' & Hp)|Hp] HOK.
    - exists parsed, att. pose proof (sh_sent _ _ _ _ _ Hp) as E. rewrite Hc in E. injection E as <-. done.
    - by apply plain_not_OK in Hp. }
  destruct (wp_runs _ _ _ _ _ _ _ Hw Hr) as (out & E & Hsh); [by apply Forall_forall|].
  injection E as <-. destruct (Hsh eq_refl) as (parsed & att & Hp). cbn in Hp.
  destruct (columnsOf_rebuilt _ _ _ _ _ Hp) as (c & w & Hc & Hcw & Hof & Hreb).
  exists parsed, c. split; [apply Hp|]. split; [done|]. intros id heads bytes He.
  destruct (Hreb id heads) as (Hk & Hsh1 & Hbh). destruct (parse_arrays _ _ (sh_parse _ _ _ _ _ Hp)) as (_ & H1 & H2).
  destruct (sh_projection _ _ _ _ _ Hp) as (implied & Hi & Hsame).
  exists (pRecord.set_RecordId id (pRecord.set_RecordBytes bytes implied)).
  split.
  - unfold rebuildRecord. replace (Rec.RetentionClass (stamp id c)) with w by done. rewrite Hof, Hg, Hsh1, Hbh.
    rewrite (len_Some 16), (len_Some 32) by done. cbn [Z.eqb negb orb]. rewrite Hk, He.
    replace (RecordHeader.ServerAttachment (Parsed.Header (kept parsed heads)))
      with (RecordHeader.ServerAttachment (Parsed.Header parsed)) by done.
    rewrite (sh_door _ _ _ _ _ Hp). change (projectionOf (kept parsed heads) (Some att)) with (projectionOf parsed (Some att)). by rewrite Hi.
  - split; [done|]. split; [done|]. unfold projectionOf in Hi.
    destruct (RetentionClassWire _ _); [|done]. injection Hi as <-. exact Hsame.
Qed.
End Props.
