(* ===== verification/ApiScenario.v ===== *)
(** * Worked runs of the server

    A small record layer in which every law of [LibraryLaws] holds: four records are known by a
    one-octet encoding, and an authenticator verifies when it is the key's own octets.  Over it a
    group is created, its fan-out closes and a text is submitted, through the handlers; the
    witnesses of the pipeline's theorems are taken there. *)

From S2P Require Import Prelude Sha256 StoreTypes Retention MemoryStore GroupInv Interleaving StoreProps Scenario Connections.
From S2P Require Import Message Prog Api ApiRecord ApiSubmit ApiFetch SubmitChecks ApiSubmitProps.
From S2P Require Import Server ServerProps ApiFetchProps.

(** ** A record layer *)

Definition demoHeader (sender : list Z) (epoch index : Z) (commit : bool) (body att : list Z) :
    RecordHeader.t :=
  RecordHeader.mk (replicate 32 7) sender epoch index commit 0 0 0 1 0 (Sha256.Sum256 body) None (Some att).

Definition demoRecord (sender : list Z) (epoch index : Z) (commit : bool) (att auth : list Z) : Parsed.t :=
  Parsed.mk (demoHeader sender epoch index commit [index; 2] att) (Some [index]) (Some [index; 2]) auth.

(** A founding commit, the marker that closes its fan-out, a text, and the text under a key that
    is not the epoch's. *)
Definition demoParsed (code : list Z) : option Parsed.t :=
  match code with
  | [1] => Some (demoRecord (replicate 16 1) 0 1 true [1] (replicate 32 50))
  | [2] => Some (demoRecord (replicate 16 1) 1 2 false [2] (replicate 32 1))
  | [3] => Some (demoRecord (replicate 16 2) 1 3 false [] (replicate 32 1))
  | [4] => Some (demoRecord (replicate 16 2) 1 4 false [] (replicate 32 99))
  | _ => None
  end.

Definition demoAttachment (code : list Z) : option ServerAttachment.t :=
  match code with
  | [] => Some (ServerAttachment.mk MessageAttachmentNone None None None None None)
  | [1] => Some (ServerAttachment.mk MessageAttachmentEpoch
             (Some (EpochAttachment.mk 1 (key 1) (key 101) 1 0 86400 None 1)) None None None None)
  | [2] => Some (ServerAttachment.mk MessageAttachmentComplete None None None
             (Some (EpochCompleteTag.mk 1 1)) None)
  | _ => None
  end.

Definition answerOf {A} (o : option A) : res LibError A :=
  match o with Some a => Ok a | None => Err (ErrLibrary 1) end.

#[export] Instance demo : Library := {|
  RetentionEph := 4;
  SizeBucketBlob := 5;
  SizeBucket64KBytes := 65536;
  ParseRecord bs := answerOf (demoParsed (octets bs));
  EncodeRecord r := Ok (Some [RecordHeader.StreamIndex (Parsed.Header r)]);
  ParseServerAttachment bs := answerOf (demoAttachment (octets bs));
  ParseEpochDigestAttachment _ := Err (ErrLibrary 2);
  CheckEpochKeysDigest _ _ _ _ := None;
  VerifyWriteAuth key _ r := bool_decide (Parsed.WriteAuth r = octets key);
  VerifyRequestAuth key _ _ _ auth := bool_decide (octets auth = octets key);
  RetentionClassWire c b :=
    if (c =? 4) && (0 <=? b) && (b <=? 5) then Ok (ClassEphBase + b)
    else if negb (c =? 4) && (0 <=? c) && (c <=? ClassMedia) then Ok c else Err ErrRetentionClassUnknown;
  RetentionClassOf w := if ClassEphBase <=? w then Ok (4, w - ClassEphBase) else Ok (w, 0);
  EphBucketSeconds b := if (1 <=? b) && (b <=? 5) then 60 * b else 0;
  SizeBucketCtBodyBytes b := if b =? 1 then 2 else -1;
  RendezvousKeyIsAcceptable _ := true;
  VerifyRendezvousRegister _ _ _ := true;
  VerifyRendezvousOpen _ _ _ _ := true;
  VerifyRendezvousDeposit _ _ _ _ _ := true;
  VerifyRendezvousCollect _ _ _ _ := true;
  VerifyRendezvousRetire _ _ _ _ := true;
  protoEqual a b := bool_decide (sameMessage a b);
  FullName body :=
    match body with BodySubmit _ => "submit" | BodyCreateGroup _ => "create"
                  | BodyFetch _ => "fetch" | BodySubscribe _ => "subscribe" | _ => "other" end;
  requestFields := [FieldDescriptor.mk 10 (Some "submit") true; FieldDescriptor.mk 11 (Some "create") true;
                    FieldDescriptor.mk 12 (Some "fetch") true; FieldDescriptor.mk 14 (Some "subscribe") true];
  Marshal _ := Ok (Some []) |}.

Definition codes : list (list Z) := [ [1]; [2]; [3]; [4] ].

Lemma demo_parse (P : Parsed.t → Prop) :
  Forall P (omap demoParsed codes) → ∀ bs r, ParseRecord bs = Ok r → P r.
Proof.
  intros HP bs r E. cbn in E. eapply Forall_forall; [exact HP|].
  apply list_elem_of_omap. exists (octets bs).
  destruct (octets bs) as [|n [|] ]; try discriminate E; cbn in E;
    repeat (match type of E with context [match ?x with _ => _ end] => destruct x end; try discriminate E);
    injection E as <-; (split; [|reflexivity]); unfold codes; set_solver.
Qed.

Lemma demo_attachment bs a : ParseServerAttachment bs = Ok a → attachmentWellFormed a.
Proof.
  cbn. intros E.
  destruct (octets bs) as [|n [|] ]; try discriminate E; cbn in E;
    repeat (match type of E with context [match ?x with _ => _ end] => destruct x end; try discriminate E);
    injection E as <-; cbn; eauto.
Qed.

#[export] Instance demo_laws : LibraryLaws.
Proof.
  split.
  - apply demo_parse. repeat (constructor; [vm_compute; done|]). constructor.
  - apply demo_parse. repeat (constructor; [vm_compute; done|]). constructor.
  - apply demo_parse. repeat (constructor; [split; [vm_compute; done|split; done]|]). constructor.
  - cbn. intros c b w. destruct (c =? 4) eqn:Ec; cbn; intros E.
    + destruct ((0 <=? b) && (b <=? 5)) eqn:Eb; [|done]. apply andb_prop in Eb as [? ?].
      reflect_bools. injection E as <-. left. lia.
    + destruct ((0 <=? c) && (c <=? ClassMedia)) eqn:Eb; [|done]. apply andb_prop in Eb as [? ?].
      reflect_bools. injection E as <-. right. lia.
  - apply (demo_parse (λ r, ∃ w, RetentionClassWire (RecordHeader.RetentionClass (Parsed.Header r))
           (RecordHeader.EphBucket (Parsed.Header r)) = Ok w ∧ _)).
    repeat (constructor; [exists 0; done|]). constructor.
  - cbn. intros b. destruct ((1 <=? b) && (b <=? 5)) eqn:E; [apply andb_prop in E as [? ?]|apply andb_false_iff in E as [?|?] ];
      reflect_bools; unfold two32; lia.
  - exact demo_attachment.
  - intros a b. apply bool_decide_eq_true.
Qed.

(** ** Requests *)

Definition demoHandler : Handler.t := Handler.mk memoryKnownGroups 65536 256 512 0 false false 0 0.
Definition demoConn : ApiConnection.t := ApiConnection.mk (Some (replicate 32 9)) (replicate 16 5).
Definition noContext : Context.t := Context.mk false None.

(** The projection a client sends beside the bytes: what the bytes imply. *)
Definition sentOf (code : Z) : option pRecord.t :=
  parsed ← demoParsed [code];
  attachment ← demoAttachment (octets (RecordHeader.ServerAttachment (Parsed.Header parsed)));
  pRecord.set_RecordBytes (Some [code]) <$> projectionOf parsed (Some attachment).

Definition createRequest : pCreateGroupRequest.t :=
  pCreateGroupRequest.mk gid (sentOf 1) (key 50) None.
Definition submitRequest (code : Z) : pSubmitRequest.t := pSubmitRequest.mk gid [sentOf code] [].
Definition fetchRequest : pFetchRequest.t := pFetchRequest.mk gid 0 10 false 0 1 (key 101).

(** ** The machine: the store answers for itself, everything else at its plainest *)

Definition plainAnswer (c : op) : answer c :=
  match c with
  | Now => 1000
  | Sleep _ | Defer _ | IdsWrite _ | Api.Unsubscribe _ _ _ _ | Published _ _
  | SettleRendezvous _ _ _ _ _ | DepositedRendezvous _ _ _ | RetiredRendezvous _ => tt
  | FrontFrame _ _ | FrontConnection _ _ | FrontRate _ _ => REASON_OK
  | IdsRead _ => true
  | StoreGroupState _ | StoreEpochKeys _ _ | StoreSubmit _ | StoreCreateGroup _ | StoreFetch _
  | BoxRead _ | BoxCount _ | BoxRegister _ _ _ _ | BoxDeposit _ _ _ _ | BoxCollect _ _
  | BoxRetire _ _ _ => Err ErrGroupUnavailable
  | Api.Subscribe _ _ _ _ _ _ => false
  | SubscribeRendezvous _ _ _ _ _ => None
  end.

Definition machine (c : op) (s : MemoryStore.t) : MemoryStore.t * answer c :=
  match c return MemoryStore.t * answer c with
  | StoreSubmit r => MemoryStore.Submit None 1000 s r
  | c => default (s, plainAnswer c) (storeAnswers None 1000 s c)
  end.

Definition serve (s : MemoryStore.t) (r : received) :
    MemoryStore.t * list (event answer) * outcome unit :=
  exec machine (handle demoHandler noContext r) s.

Definition created : MemoryStore.t :=
  (serve (NewMemoryStore DefaultLimits) (GotCreateGroup (Some demoConn) (Some createRequest))).1.1.
Definition opened : MemoryStore.t :=
  (serve created (GotSubmit (Some demoConn) (Some (submitRequest 2)))).1.1.
Definition texted : MemoryStore.t :=
  (serve opened (GotSubmit (Some demoConn) (Some (submitRequest 3)))).1.1.

Example texted_summary :
  (λ g, (length (memoryGroup.records g), memoryGroup.currentEpoch g, memoryGroup.epochComplete g)) <$>
    group texted gid = Some (3%nat, 1, true).
Proof. vm_compute. reflexivity. Qed.

(** ** A handler run to its end is steps of the server *)

Lemma machine_step s what tr c (k : answer c → M unit) past ts :
  ∃ past', rtc (step demoHandler)
    (world.mk s past (ts ++ [thread.mk what tr (Serving (Do c k))]))
    (world.mk (machine c s).1 past'
       (ts ++ [thread.mk what (tr ++ [Event c (machine c s).2]) (Serving (k (machine c s).2))])).
Proof.
  assert (∀ s' t', thread_step s (thread.mk what tr (Serving (Do c k))) s' t' →
    ∃ past', rtc (step demoHandler) (world.mk s past (ts ++ [thread.mk what tr (Serving (Do c k))]))
      (world.mk s' past' (ts ++ [t']))) as Hone.
  { intros s' t' Hs. eexists. eapply rtc_once, step_thread, Hs. }
  destruct (onStore c) eqn:Ho.
  - destruct c; try discriminate Ho;
      try (apply Hone; eapply (step_store None 1000); reflexivity);
      [|apply Hone; eapply (step_store None 1000); cbn;
        destruct (MemoryStore.CreateGroup None 1000 s request); reflexivity].
    cbn [machine]. rewrite Submit_phases. destruct (validateSubmit None request) as [e|] eqn:Hv.
    + apply Hone. by eapply step_invalid.
    + pose proof (step_lock 1000 s what tr (start s request) k) as Hl.
      destruct (finish 1000 s (start s request)) as [s' results]. cbn in *.
      eexists. eapply rtc_l; [eapply step_thread; by eapply (step_probe None)|].
      eapply rtc_once, step_thread, Hl.
  - assert (machine c s = (s, plainAnswer c)) as -> by (by destruct c). apply Hone.
    by constructor.
Qed.

Lemma exec_steps p s what tr past ts :
  ∃ past' q, rtc (step demoHandler) (world.mk s past (ts ++ [thread.mk what tr (Serving p)]))
    (world.mk (exec machine p s).1.1 past'
       (ts ++ [thread.mk what (tr ++ (exec machine p s).1.2) (Serving q)])).
Proof.
  revert s tr past. induction p as [a| |c k IH]; intros s tr past; cbn [exec].
  1, 2: by eexists past, _; rewrite app_nil_r; apply rtc_refl.
  destruct (machine_step s what tr c k past ts) as (past1 & H1).
  destruct (machine c s) as [s1 a]. cbn [fst snd] in H1.
  destruct (IH a s1 (tr ++ [Event c a]) past1) as (past2 & q & H2).
  destruct (exec machine (k a) s1) as [ [s2 tr2] out]. cbn [fst snd] in *.
  exists past2, q. rewrite <- app_assoc in H2. by etrans.
Qed.

Lemma serve_reachable limits s past ts what :
  Server.reachable demoHandler limits (world.mk s past ts) →
  ∃ past' t, Server.reachable demoHandler limits (world.mk (serve s what).1.1 past' (ts ++ [t])).
Proof.
  intros Hr. destruct (exec_steps (handle demoHandler noContext what) s what [] past ts) as (past' & q & Hs).
  eexists past', _. unfold Server.reachable in *. etrans; [exact Hr|].
  eapply rtc_l; [apply (step_receive _ noContext what)|exact Hs].
Qed.

Lemma texted_reachable : ∃ past ts, Server.reachable demoHandler DefaultLimits (world.mk texted past ts).
Proof.
  destruct (serve_reachable DefaultLimits (NewMemoryStore DefaultLimits) [NewMemoryStore DefaultLimits] []
    (GotCreateGroup (Some demoConn) (Some createRequest))) as (p1 & t1 & H1); [apply rtc_refl|].
  destruct (serve_reachable _ _ _ _ (GotSubmit (Some demoConn) (Some (submitRequest 2))) H1) as (p2 & t2 & H2).
  destruct (serve_reachable _ _ _ _ (GotSubmit (Some demoConn) (Some (submitRequest 3))) H2) as (p3 & t3 & H3).
  by eexists _, _.
Qed.

(** ** Witnesses *)

#[local] Opaque exec.

(** The trace of a run of [Submit], of [Fetch] and of check 3. *)
Definition submitRun (s : MemoryStore.t) (code : Z) :
    MemoryStore.t * list (event answer) * outcome (reply (list pSubmitResult.t)) :=
  exec machine (ApiSubmit.Submit demoHandler noContext (Some demoConn) (Some (submitRequest code))) s.
Definition fetchRun : MemoryStore.t * list (event answer) * outcome (reply pFetchResponse.t) :=
  exec machine (ApiFetch.Fetch demoHandler noContext (Some demoConn) (Some fetchRequest)) texted.
Definition shapeRun : MemoryStore.t * list (event answer) * outcome (recordPass.t * Reason) :=
  exec machine (staticShape demoHandler gid (recordPass.start (sentOf 3))) opened.

Lemma submitRun_runs s code :
  runs (ApiSubmit.Submit demoHandler noContext (Some demoConn) (Some (submitRequest code)))
    (submitRun s code).1.2 (submitRun s code).2.
Proof. exact (exec_runs machine _ s). Qed.
Lemma fetchRun_runs :
  runs (ApiFetch.Fetch demoHandler noContext (Some demoConn) (Some fetchRequest)) fetchRun.1.2 fetchRun.2.
Proof. exact (exec_runs machine _ texted). Qed.
Lemma shapeRun_runs :
  runs (staticShape demoHandler gid (recordPass.start (sentOf 3))) shapeRun.1.2 shapeRun.2.
Proof. exact (exec_runs machine _ opened). Qed.

#[local] Opaque submitRun fetchRun shapeRun texted opened created.

Definition isSubmit (e : event answer) : bool :=
  match e with Event (StoreSubmit _) (Ok _) => true | _ => false end.

Lemma submit_found tr : existsb isSubmit tr = true → ∃ r results, submitted tr r results.
Proof.
  intros (e & Hin%list_elem_of_In & He)%existsb_exists.
  destruct e as [ [] a]; try discriminate He. destruct a as [results|]; [|discriminate He].
  by exists request, results.
Qed.

Lemma submit_not_found tr : existsb isSubmit tr = false → ∀ r results, ¬ submitted tr r results.
Proof.
  intros Hn r results Hin. apply not_true_iff_false in Hn. apply Hn, existsb_exists.
  eexists. split; [by apply list_elem_of_In|done].
Qed.

Lemma store_requests_valid_witness :
  ∃ r results, submitted (submitRun opened 3).1.2 r results ∧ validateSubmit None r = None.
Proof.
  destruct (submit_found (submitRun opened 3).1.2) as (r & results & Hin); [vm_compute; reflexivity|].
  exists r, results. split; [exact Hin|].
  exact (proj2 (proj1 (store_requests_valid demoHandler noContext demoConn (submitRequest 3) createRequest)
    _ _ (submitRun_runs opened 3)) r _ Hin).
Defined.

Lemma refusals_say_nothing_witness :
  ∃ r, (submitRun opened 4).2 = Returned r ∧
    reply_body r = Some [pSubmitResult.mk REASON_REJECTED 0 0 None None].
Proof.
  destruct (submitRun opened 4).2 as [r|] eqn:E; [|exfalso; revert E; vm_compute; discriminate].
  exists r. split; [reflexivity|].
  assert (Returned r = Returned (Reply REASON_OK (Some [pSubmitResult.mk REASON_REJECTED 0 0 None None]) None))
    as Er by (rewrite <- E; vm_compute; reflexivity).
  injection Er as ->. cbn [reply_body].
  refine (f_equal Some (proj2 (refusals_say_nothing demoHandler noContext demoConn (submitRequest 4)
    (submitRun opened 4).1.2 (Reply REASON_OK (Some _) None) _ _ _ eq_refl) _)).
  - rewrite <- E. exact (submitRun_runs opened 4).
  - apply submit_not_found. vm_compute. reflexivity.
  - repeat constructor.
Defined.

Lemma reads_follow_checks_witness :
  epochsRead (submitRun opened 3).1.2 = [1] ∧ NoDup (epochsRead (submitRun opened 3).1.2).
Proof.
  split; [vm_compute; reflexivity|].
  exact (proj1 (proj2 (reads_follow_checks demoHandler noContext demoConn (submitRequest 3)
    (submitRun opened 3).1.2 (submitRun opened 3).2 (submitRun_runs opened 3)))).
Defined.

Lemma texted_row : ∃ g row, MemoryStore.groups texted !! octets gid = Some g ∧
  memoryGroup.records g !! 2%nat = Some row.
Proof.
  destruct (MemoryStore.groups texted !! octets gid) as [g|] eqn:E; [|exfalso; revert E; vm_compute; discriminate].
  assert (length (memoryGroup.records g) = 3%nat) as Hl.
  { assert ((λ g, length (memoryGroup.records g)) <$> MemoryStore.groups texted !! octets gid = Some 3%nat) as H
      by (vm_compute; reflexivity). rewrite E in H. by injection H. }
  destruct (memoryGroup.records g !! 2%nat) as [row|] eqn:Er; [exists g, row; split; [reflexivity|exact Er]|].
  apply lookup_ge_None in Er. rewrite Hl in Er. exfalso. clear -Er. lia.
Qed.

Lemma every_record_authenticated_witness :
  ∃ w g row, MemoryStore.groups (world.store w) !! octets gid = Some g ∧
    memoryGroup.records g !! 2%nat = Some row ∧
    authentic (world.past w) (world.threads w) (octets gid) (recordRow.record row).
Proof.
  destruct texted_reachable as (past & ts & Hr), texted_row as (g & row & Hg & Hrow).
  exists (world.mk texted past ts), g, row. split; [exact Hg|]. split; [exact Hrow|].
  exact (every_record_authenticated demoHandler DefaultLimits _ (octets gid) g 2%nat row Hr Hg Hrow).
Defined.


Definition bodyOf {B} (out : outcome (reply B)) : option B :=
  match out with Returned r => reply_body r | Panicked => None end.

(** What the store answered in [fetchRun]. *)
Definition fetchEvent (e : event answer) : option (FetchRequest.t * FetchResult.t) :=
  match e with Event (StoreFetch r) (Ok result) => Some (r, result) | _ => None end.

Lemma events_fetched (P : FetchRequest.t → res Error FetchResult.t) (tr : list (event answer)) req result :
  (λ x, P x.1) <$> omap fetchEvent tr = (λ x, Ok x.2) <$> omap fetchEvent tr →
  Event (StoreFetch req) (Ok result) ∈ tr → P req = Ok result.
Proof.
  intros E Hin. assert ((req, result) ∈ omap fetchEvent tr) as Hx.
  { apply list_elem_of_omap. eexists. split; [exact Hin|reflexivity]. }
  revert E Hx. generalize (omap fetchEvent tr). intros l E Hx.
  induction l as [|x l IH]; [by apply elem_of_nil in Hx|]. cbn in E. injection E as E1 E2.
  apply elem_of_cons in Hx as [<-|Hx]; [exact E1|by apply IH].
Qed.

Lemma fetchRun_store req result :
  Event (StoreFetch req) (Ok result) ∈ fetchRun.1.2 → MemoryStore.Fetch None texted req = Ok result.
Proof. apply (events_fetched (MemoryStore.Fetch None texted)). vm_compute. reflexivity. Qed.

Lemma fetchRun_body : ∃ r body, fetchRun.2 = Returned r ∧ reply_body r = Some body ∧
  pRecord.RecordId <$> pFetchResponse.Records body = [1; 2; 3].
Proof.
  assert ((λ body, pRecord.RecordId <$> pFetchResponse.Records body) <$> bodyOf fetchRun.2 = Some [1; 2; 3]) as H
    by (vm_compute; reflexivity).
  unfold bodyOf in H. destruct fetchRun.2 as [r|]; [|discriminate H].
  destruct (reply_body r) as [body|] eqn:E; [|discriminate H]. injection H as H. by exists r, body.
Qed.

Lemma fetch_authorised_witness :
  ∃ body, pRecord.RecordId <$> pFetchResponse.Records body = [1; 2; 3] ∧
    authorised demoConn fetchRequest fetchRun.1.2 ∧
    Forall (λ q, pRecord.Epoch q <= 1 ∧ 0 < pRecord.RecordId q) (pFetchResponse.Records body).
Proof.
  destruct fetchRun_body as (r & body & Hr & Hb & Hids). exists body. split; [exact Hids|].
  apply (fetch_authorised demoHandler noContext demoConn fetchRequest fetchRun.1.2 r body).
  - rewrite <- Hr. exact fetchRun_runs.
  - exact Hb.
  - intros req result Hin. exists texted. exact (fetchRun_store req result Hin).
Defined.

Lemma served_as_submitted_witness :
  ∃ sent c q, sentOf 3 = Some sent ∧ rebuildRecord gid (stamp 7 c) false = Ok q ∧
    pRecord.RecordId q = 7 ∧ sameMessage (blank q) (blank sent).
Proof.
  destruct (sentOf 3) as [sent|] eqn:Es; [|exfalso; revert Es; vm_compute; discriminate].
  exists sent.
  assert (∃ p, shapeRun.2 = Returned (p, REASON_OK)) as [p Hp].
  { assert (match shapeRun.2 with Returned (_, r) => Some r | _ => None end = Some REASON_OK) as H
      by (vm_compute; reflexivity).
    destruct shapeRun.2 as [ [p r]|]; [|discriminate H]. injection H as ->. by exists p. }
  destruct (served_as_submitted demoHandler gid sent shapeRun.1.2 p) as (parsed & c & _ & _ & Hq).
  - rewrite <- Hp, <- Es. exact shapeRun_runs.
  - reflexivity.
  - destruct (Hq 7 false (Some [RecordHeader.StreamIndex (Parsed.Header (kept parsed false))]) eq_refl)
      as (q & H1 & H2 & _ & H3).
    exists c, q. exact (conj eq_refl (conj H1 (conj H2 H3))).
Defined.
