(* ===== verification/Subscriptions.v ===== *)
(** * Group subscriptions ([api/subscribe.go])

    The registry's group half: who subscribed to what at which ceiling, what each is owed, and which
    are marked for the delivery goroutine.  Each function is what its method does while it holds the
    mutex.  A subscription is an object the delivery goroutine compares by address; it is reached
    from its map entry only, so it is kept there, with the address it was allocated at. *)

From S2P Require Import Prelude.

(** [append([]byte(nil), b...)]: nil if there is nothing to append. *)
Definition appended (b : slice) : slice := match octets b with [] => None | l => Some l end.

(** [connectionKeyOf] *)
Definition connectionKeyOf (clientId serverNonce : slice) : list Z :=
  octets clientId ++ 0 :: octets serverNonce.

(** [subscriptionKey]: the connection and the group. *)
Abbreviation subscriptionKey := (list Z * list Z)%type.

Module subscription.
Record t := mk {
  clientId : slice;
  serverNonce : slice;
  groupId : slice;
  readEpoch : Z;
  owed : Z;
  notified : Z;
  address : nat }.
Definition set_owed (x : Z) (s : t) : t :=
  mk (clientId s) (serverNonce s) (groupId s) (readEpoch s) x (notified s) (address s).
Definition set_notified (x : Z) (s : t) : t :=
  mk (clientId s) (serverNonce s) (groupId s) (readEpoch s) (owed s) x (address s).
End subscription.

Module Subscriptions.
Record t := mk {
  maxPerConnection : Z;
  byKey : gmap subscriptionKey subscription.t;
  byConnection : gmap (list Z) (gset (list Z));
  ready : gset subscriptionKey;
  allocated : nat }.
Definition set_maps (x : gmap subscriptionKey subscription.t) (y : gmap (list Z) (gset (list Z)))
    (s : t) : t := mk (maxPerConnection s) x y (ready s) (allocated s).
Definition set_byKey (x : gmap subscriptionKey subscription.t) (s : t) : t :=
  mk (maxPerConnection s) x (byConnection s) (ready s) (allocated s).
Definition set_ready (x : gset subscriptionKey) (s : t) : t :=
  mk (maxPerConnection s) (byKey s) (byConnection s) x (allocated s).
Definition set_allocated (x : nat) (s : t) : t :=
  mk (maxPerConnection s) (byKey s) (byConnection s) (ready s) x.
End Subscriptions.

Definition DefaultMaxSubscriptionsPerConnection : Z := 32.

Definition NewSubscriptions : Subscriptions.t :=
  Subscriptions.mk DefaultMaxSubscriptionsPerConnection ∅ ∅ ∅ 0.

Implicit Types self : Subscriptions.t.

(** [self.byConnection[connection]]: nil reads as empty. *)
Definition groupsOf self (connection : list Z) : gset (list Z) :=
  default ∅ (Subscriptions.byConnection self !! connection).

(** [for group := range groups { delete(self.byKey, ...) }; delete(self.byConnection, connection)] *)
Definition forgetConnection self (connection : list Z) : Subscriptions.t :=
  Subscriptions.set_maps
    (set_fold (λ group m, delete (connection, group) m) (Subscriptions.byKey self)
       (groupsOf self connection))
    (delete connection (Subscriptions.byConnection self)) self.

(** The groups of a connection, an empty one removed. *)
Definition settleGroups self (connection : list Z) (groups : gset (list Z)) :
    gmap (list Z) (gset (list Z)) :=
  if bool_decide (groups = ∅) then delete connection (Subscriptions.byConnection self)
  else <[connection := groups]> (Subscriptions.byConnection self).

(** [subscribe]: [true] is [ErrSubscriptionsFull]. *)
Definition subscribe self (clientId serverNonce groupId : slice) (readEpoch snapshot : Z)
    (replace : bool) : Subscriptions.t * bool :=
  let connection := connectionKeyOf clientId serverNonce in
  let self := if replace then forgetConnection self connection else self in
  let key := (connection, octets groupId) in
  let groups := groupsOf self connection in
  if bool_decide (Subscriptions.byKey self !! key = None) &&
     (Subscriptions.maxPerConnection self <=? Z.of_nat (size groups))
  then (self, true)
  else
    (Subscriptions.set_allocated (S (Subscriptions.allocated self))
       (Subscriptions.set_maps
          (<[key := subscription.mk (appended clientId) (appended serverNonce) (appended groupId)
                      readEpoch snapshot snapshot (Subscriptions.allocated self)]>
             (Subscriptions.byKey self))
          (<[connection := {[octets groupId]} ∪ groups]> (Subscriptions.byConnection self)) self),
     false).

(** [unsubscribe] *)
Definition unsubscribe self (clientId serverNonce : slice) (groupIds : list slice) (all : bool) :
    Subscriptions.t :=
  let connection := connectionKeyOf clientId serverNonce in
  if all then forgetConnection self connection
  else
    let named : gset (list Z) := list_to_set (octets <$> groupIds) in
    Subscriptions.set_maps
      (foldl (λ m groupId, delete (connection, octets groupId) m) (Subscriptions.byKey self) groupIds)
      (settleGroups self connection (groupsOf self connection ∖ named)) self.

(** What one subscription is owed of the published records ([(recordId, epoch)] each). *)
Definition owe (readEpoch : Z) (records : list (Z * Z)) (owed : Z) : Z :=
  foldl (λ owed record,
    if (record.2 <=? readEpoch) && (owed <? record.1) then record.1 else owed) owed records.

Definition oweOne (records : list (Z * Z)) (sub : subscription.t) : subscription.t :=
  subscription.set_owed (owe (subscription.readEpoch sub) records (subscription.owed sub)) sub.

Definition isOwed (sub : subscription.t) : Prop := subscription.notified sub < subscription.owed sub.
#[global] Instance isOwed_dec sub : Decision (isOwed sub).
Proof. apply Z_lt_dec. Defined.

(** [published]: the state it leaves, and whether it marked any subscription. *)
Definition published self (groupId : slice) (records : list (Z * Z)) : Subscriptions.t * bool :=
  match records with
  | [] => (self, false)
  | _ =>
      let byKey := map_imap (λ key sub, Some (if bool_decide (key.2 = octets groupId)
                                              then oweOne records sub else sub))
                     (Subscriptions.byKey self) in
      let marked : gset subscriptionKey :=
        dom (filter (λ p, p.1.2 = octets groupId ∧ isOwed p.2) byKey) in
      (Subscriptions.set_ready (marked ∪ Subscriptions.ready self) (Subscriptions.set_byKey byKey self),
       bool_decide (marked ≠ ∅))
  end.

(** ** The delivery goroutine's parts *)

(** [for candidate := range self.ready]: the marks taken off in the order the map yields them, to
    the first whose subscription still stands. *)
Fixpoint nextOwed (order : list subscriptionKey) self :
    Subscriptions.t * option (subscriptionKey * subscription.t) :=
  match order with
  | [] => (self, None)
  | candidate :: order =>
      let self := Subscriptions.set_ready (Subscriptions.ready self ∖ {[candidate]}) self in
      match Subscriptions.byKey self !! candidate with
      | Some current => (self, Some (candidate, current))
      | None => nextOwed order self
      end
  end.

(** What follows a push of [owed] to the subscription at [address]: the state, and whether it was
    counted as pushed or as dropped. *)
Definition afterPush self (key : subscriptionKey) (address : nat) (owed : Z) (delivered : bool) :
    Subscriptions.t * option bool :=
  match Subscriptions.byKey self !! key with
  | None => (self, None)
  | Some current =>
      if negb (subscription.address current =? address)%nat then (self, None)
      else if delivered then
        let sub := if subscription.notified current <? owed
                   then subscription.set_notified owed current else current in
        let self := Subscriptions.set_byKey (<[key := sub]> (Subscriptions.byKey self)) self in
        (if subscription.notified sub <? subscription.owed sub
         then Subscriptions.set_ready ({[key]} ∪ Subscriptions.ready self) self else self, Some true)
      else
        (Subscriptions.set_maps (delete key (Subscriptions.byKey self))
           (match Subscriptions.byConnection self !! key.1 with
            | None => Subscriptions.byConnection self
            | Some groups => settleGroups self key.1 (groups ∖ {[key.2]})
            end) self, Some false)
  end.
