(* ===== verification/RendezvousPush.v ===== *)
(** * Rendezvous subscriptions ([api/rendezvous_push.go])

    The registry's rendezvous half: the boxes with their subscribers and expiry, how many
    subscriptions each connection holds and in all, the expiry heap, and the claims by which the
    Collects that share a subscription keep or undo it.  As in [Subscriptions], each function is what
    its method does while it holds the mutex, and a subscription carries its address. *)

From S2P Require Import Prelude Subscriptions.

(** [rendezvousKey]: the connection and the box. *)
Abbreviation rendezvousKey := (list Z * list Z)%type.

Module rendezvousSubscription.
Record t := mk {
  clientId : slice;
  serverNonce : slice;
  rendezvousId : slice;
  pending : Z;
  claims : Z;
  kept : bool;
  address : nat }.
Definition set_pending (x : Z) (s : t) : t :=
  mk (clientId s) (serverNonce s) (rendezvousId s) x (claims s) (kept s) (address s).
Definition set_claims (x : Z) (s : t) : t :=
  mk (clientId s) (serverNonce s) (rendezvousId s) (pending s) x (kept s) (address s).
Definition set_kept (x : bool) (s : t) : t :=
  mk (clientId s) (serverNonce s) (rendezvousId s) (pending s) (claims s) x (address s).
End rendezvousSubscription.

Module rendezvousBox.
Record t := mk { expireTime : time; subscribers : gmap (list Z) rendezvousSubscription.t }.
Definition set_subscribers (x : gmap (list Z) rendezvousSubscription.t) (b : t) : t :=
  mk (expireTime b) x.
End rendezvousBox.

(** [rendezvousExpiryEntry] *)
Abbreviation rendezvousExpiryEntry := (time * list Z)%type.

Module Rendezvous.
Record t := mk {
  maxPerConnection : Z;
  boxes : gmap (list Z) rendezvousBox.t;
  held : gmap (list Z) Z;
  count : Z;
  expiry : list rendezvousExpiryEntry;
  ready : gset rendezvousKey;
  visited : Z;
  allocated : nat }.
Definition set_boxes (x : gmap (list Z) rendezvousBox.t) (s : t) : t :=
  mk (maxPerConnection s) x (held s) (count s) (expiry s) (ready s) (visited s) (allocated s).
Definition set_counts (x : gmap (list Z) Z) (n : Z) (s : t) : t :=
  mk (maxPerConnection s) (boxes s) x n (expiry s) (ready s) (visited s) (allocated s).
Definition set_expiry (x : list rendezvousExpiryEntry) (s : t) : t :=
  mk (maxPerConnection s) (boxes s) (held s) (count s) x (ready s) (visited s) (allocated s).
Definition set_ready (x : gset rendezvousKey) (s : t) : t :=
  mk (maxPerConnection s) (boxes s) (held s) (count s) (expiry s) x (visited s) (allocated s).
Definition set_visited (x : Z) (s : t) : t :=
  mk (maxPerConnection s) (boxes s) (held s) (count s) (expiry s) (ready s) x (allocated s).
Definition set_allocated (x : nat) (s : t) : t :=
  mk (maxPerConnection s) (boxes s) (held s) (count s) (expiry s) (ready s) (visited s) x.
End Rendezvous.

Definition DefaultMaxRendezvousSubscriptionsPerConnection : Z := DefaultMaxSubscriptionsPerConnection.

Definition NewRendezvous : Rendezvous.t :=
  Rendezvous.mk DefaultMaxRendezvousSubscriptionsPerConnection ∅ ∅ 0 [] ∅ 0 0.

Implicit Types self : Rendezvous.t.

(** ** The expiry heap

    [container/heap]: the first entry is an earliest one.  Kept in expiry order, an entry behind
    those of its own expiry. *)
Fixpoint heapPush (entry : rendezvousExpiryEntry) (l : list rendezvousExpiryEntry) :
    list rendezvousExpiryEntry :=
  match l with
  | [] => [entry]
  | first :: rest => if Before entry.1 first.1 then entry :: l else first :: heapPush entry rest
  end.

(** ** Ending subscriptions *)

(** The subscription of a connection to a box. *)
Definition subscriberOf self (box connection : list Z) : option rendezvousSubscription.t :=
  record ← Rendezvous.boxes self !! box; rendezvousBox.subscribers record !! connection.

(** [releaseRendezvous] *)
Definition releaseRendezvous self (connection : list Z) : Rendezvous.t :=
  let held := default 0 (Rendezvous.held self !! connection) in
  Rendezvous.set_counts
    (if held <=? 1 then delete connection (Rendezvous.held self)
     else <[connection := held - 1]> (Rendezvous.held self)) (Rendezvous.count self - 1) self.

(** [removeRendezvous] *)
Definition removeRendezvous self (box connection : list Z) : Rendezvous.t :=
  match Rendezvous.boxes self !! box with
  | None => self
  | Some record =>
      if bool_decide (rendezvousBox.subscribers record !! connection = None) then self
      else
        let subscribers := delete connection (rendezvousBox.subscribers record) in
        let self := Rendezvous.set_ready (Rendezvous.ready self ∖ {[ (connection, box) ]}) self in
        let self := releaseRendezvous self connection in
        Rendezvous.set_boxes
          (if bool_decide (subscribers = ∅) then delete box (Rendezvous.boxes self)
           else <[box := rendezvousBox.set_subscribers subscribers record]> (Rendezvous.boxes self)) self
  end.

(** One iteration of [dropRendezvousBox]'s loop. *)
Definition dropSubscriber (box : list Z) self (connection : list Z) : Rendezvous.t :=
  releaseRendezvous
    (Rendezvous.set_ready (Rendezvous.ready self ∖ {[ (connection, box) ]})
       (Rendezvous.set_visited (u64 (Rendezvous.visited self + 1)) self)) connection.

(** [dropRendezvousBox] *)
Definition dropRendezvousBox self (box : list Z) : Rendezvous.t :=
  match Rendezvous.boxes self !! box with
  | None => self
  | Some record =>
      let self := foldl (dropSubscriber box) self (map_to_list (rendezvousBox.subscribers record)).*1 in
      Rendezvous.set_boxes (delete box (Rendezvous.boxes self)) self
  end.

(** One entry off the heap: its box is dropped if what stands at the id is past its expiry. *)
Definition pruneEntry (now : time) self (entry : rendezvousExpiryEntry) : Rendezvous.t :=
  match Rendezvous.boxes self !! entry.2 with
  | Some record => if negb (Before now (rendezvousBox.expireTime record))
                   then dropRendezvousBox self entry.2 else self
  | None => self
  end.

(** The entries that come up at [now], and those that stay. *)
Fixpoint due (now : time) (l : list rendezvousExpiryEntry) :
    list rendezvousExpiryEntry * list rendezvousExpiryEntry :=
  match l with
  | [] => ([], [])
  | entry :: rest =>
      if Before now entry.1 then ([], l) else let '(popped, kept) := due now rest in (entry :: popped, kept)
  end.

(** [pruneRendezvous] *)
Definition pruneRendezvous self (now : time) : Rendezvous.t :=
  let '(popped, kept) := due now (Rendezvous.expiry self) in
  foldl (pruneEntry now) (Rendezvous.set_expiry kept self) popped.

(** ** The calls *)

(** What [subscribeRendezvous] answers. *)
Inductive subscribed : Type :=
  | SubscribedFull                      (* ErrRendezvousSubscriptionsFull *)
  | SubscribedNothing                   (* no subscription and no error *)
  | Claimed (address : nat) (made : bool).

(** The subscription is made, in the box that stands or a new one. *)
Definition makeSubscription self (clientId serverNonce rendezvousId : slice) (expireTime : time) :
    Rendezvous.t * subscribed :=
  let connection := connectionKeyOf clientId serverNonce in
  let id := octets rendezvousId in
  let made := rendezvousSubscription.mk clientId serverNonce rendezvousId 0 1 false
                (Rendezvous.allocated self) in
  let '(box, expiry) :=
    match Rendezvous.boxes self !! id with
    | Some box => (box, Rendezvous.expiry self)
    | None => (rendezvousBox.mk expireTime ∅, heapPush (expireTime, id) (Rendezvous.expiry self))
    end in
  let box := rendezvousBox.set_subscribers (<[connection := made]> (rendezvousBox.subscribers box)) box in
  let held := default 0 (Rendezvous.held self !! connection) in
  (Rendezvous.set_allocated (S (Rendezvous.allocated self))
     (Rendezvous.set_counts (<[connection := held + 1]> (Rendezvous.held self)) (Rendezvous.count self + 1)
        (Rendezvous.set_expiry expiry
           (Rendezvous.set_boxes (<[id := box]> (Rendezvous.boxes self)) self))),
   Claimed (Rendezvous.allocated self) true).

(** [subscribeRendezvous] behind its prune and its look at a box of another expiry. *)
Definition joinOrMake self (clientId serverNonce rendezvousId : slice) (expireTime : time) :
    Rendezvous.t * subscribed :=
  let connection := connectionKeyOf clientId serverNonce in
  let id := octets rendezvousId in
  match Rendezvous.boxes self !! id ≫= λ box, (box,.) <$> rendezvousBox.subscribers box !! connection with
  | Some (box, present) =>
      let present := rendezvousSubscription.set_claims (rendezvousSubscription.claims present + 1) present in
      (Rendezvous.set_boxes
         (<[id := rendezvousBox.set_subscribers
                    (<[connection := present]> (rendezvousBox.subscribers box)) box]>
            (Rendezvous.boxes self)) self,
       Claimed (rendezvousSubscription.address present) false)
  | None =>
      if Rendezvous.maxPerConnection self <=? default 0 (Rendezvous.held self !! connection)
      then (self, SubscribedFull)
      else makeSubscription self clientId serverNonce rendezvousId expireTime
  end.

(** [subscribeRendezvous] *)
Definition subscribeRendezvous self (clientId serverNonce rendezvousId : slice) (expireTime now : time) :
    Rendezvous.t * subscribed :=
  let self := pruneRendezvous self now in
  let id := octets rendezvousId in
  match rendezvousBox.expireTime <$> Rendezvous.boxes self !! id with
  | Some standing =>
      if Before expireTime standing then (self, SubscribedNothing)
      else
        let self := if Before standing expireTime then dropRendezvousBox self id else self in
        joinOrMake self clientId serverNonce rendezvousId expireTime
  | None => joinOrMake self clientId serverNonce rendezvousId expireTime
  end.

(** [settleRendezvous] *)
Definition settleRendezvous self (clientId serverNonce rendezvousId : slice) (claimed : nat)
    (taken : bool) : Rendezvous.t :=
  let connection := connectionKeyOf clientId serverNonce in
  let id := octets rendezvousId in
  match Rendezvous.boxes self !! id ≫= λ box, (box,.) <$> rendezvousBox.subscribers box !! connection with
  | None => self
  | Some (box, current) =>
      if negb (rendezvousSubscription.address current =? claimed)%nat then self
      else
        let current := rendezvousSubscription.set_claims (rendezvousSubscription.claims current - 1) current in
        let current := if taken then rendezvousSubscription.set_kept true current else current in
        let self := Rendezvous.set_boxes
          (<[id := rendezvousBox.set_subscribers
                     (<[connection := current]> (rendezvousBox.subscribers box)) box]>
             (Rendezvous.boxes self)) self in
        if taken then self
        else if negb (rendezvousSubscription.kept current) && (rendezvousSubscription.claims current =? 0)
        then removeRendezvous self id connection
        else self
  end.

(** [depositedRendezvous]: the state it leaves, and whether it marked any subscription. *)
Definition depositedRendezvous self (rendezvousId : slice) (pending : Z) (now : time) :
    Rendezvous.t * bool :=
  let self := pruneRendezvous self now in
  let id := octets rendezvousId in
  match Rendezvous.boxes self !! id with
  | None => (self, false)
  | Some record =>
      let subscribers := rendezvousSubscription.set_pending pending <$> rendezvousBox.subscribers record in
      let marked : gset rendezvousKey := set_map (λ connection, (connection, id)) (dom subscribers) in
      (Rendezvous.set_visited (u64 (Rendezvous.visited self + Z.of_nat (size subscribers)))
         (Rendezvous.set_ready (marked ∪ Rendezvous.ready self)
            (Rendezvous.set_boxes
               (<[id := rendezvousBox.set_subscribers subscribers record]> (Rendezvous.boxes self)) self)),
       bool_decide (subscribers ≠ ∅))
  end.

(** [retiredRendezvous] *)
Definition retiredRendezvous self (rendezvousId : slice) : Rendezvous.t :=
  dropRendezvousBox self (octets rendezvousId).

(** [RendezvousSubscriptions] *)
Definition RendezvousSubscriptions self : Z := Rendezvous.count self.

(** ** The delivery goroutine's parts *)

(** The marks taken off in the order the map yields them, to the first whose subscription stands. *)
Fixpoint nextRendezvous (order : list rendezvousKey) self :
    Rendezvous.t * option (rendezvousKey * rendezvousSubscription.t) :=
  match order with
  | [] => (self, None)
  | candidate :: order =>
      let self := Rendezvous.set_ready (Rendezvous.ready self ∖ {[candidate]}) self in
      match subscriberOf self candidate.2 candidate.1 with
      | Some current => (self, Some (candidate, current))
      | None => nextRendezvous order self
      end
  end.

(** What follows a push: the state, and whether it was counted as pushed or as dropped. *)
Definition afterRendezvousPush self (key : rendezvousKey) (address : nat) (delivered : bool) :
    Rendezvous.t * option bool :=
  match subscriberOf self key.2 key.1 with
  | None => (self, None)
  | Some current =>
      if negb (rendezvousSubscription.address current =? address)%nat then (self, None)
      else if delivered then (self, Some true)
      else (removeRendezvous self key.2 key.1, Some false)
  end.
