(* ===== verification/Registry.v ===== *)
(** * The subscription registry and its delivery goroutine

    [api.Subscriptions] whole: the group half and the rendezvous half under one mutex, the one-place
    signal channel, and the goroutine [deliver].  Handlers call it from their own goroutines, and a
    call that marked something wakes the goroutine after it has left the mutex; so a configuration
    counts the wake-ups still to come and holds the point [deliver] is at. *)

From S2P Require Import Prelude Subscriptions RendezvousPush.

(** What a push carries, and to whom. *)
Module push.
Record t := mk { clientId : slice; serverNonce : slice; body : (slice * Z) + (slice * Z) }.
(** [MessageServerPush_Records] of a group and its high water; [MessageServerPush_Rendezvous] of a
    box and its pending count. *)
Definition ofGroup (clientId serverNonce groupId : slice) (highWater : Z) : t :=
  mk clientId serverNonce (inl (groupId, highWater)).
Definition ofBox (clientId serverNonce rendezvousId : slice) (pending : Z) : t :=
  mk clientId serverNonce (inr (rendezvousId, pending)).
End push.

Module Registry.
Record t := mk {
  groups : Subscriptions.t;
  boxes : Rendezvous.t;
  pusher : bool;
  signal : bool;
  closed : bool;
  pushed : Z;
  dropped : Z }.
Definition set_groups (x : Subscriptions.t) (r : t) : t :=
  mk x (boxes r) (pusher r) (signal r) (closed r) (pushed r) (dropped r).
Definition set_boxes (x : Rendezvous.t) (r : t) : t :=
  mk (groups r) x (pusher r) (signal r) (closed r) (pushed r) (dropped r).
Definition set_pusher (x : bool) (r : t) : t :=
  mk (groups r) (boxes r) x (signal r) (closed r) (pushed r) (dropped r).
Definition set_signal (x : bool) (r : t) : t :=
  mk (groups r) (boxes r) (pusher r) x (closed r) (pushed r) (dropped r).
Definition set_closed (x : bool) (r : t) : t :=
  mk (groups r) (boxes r) (pusher r) (signal r) x (pushed r) (dropped r).
Definition count (x : option bool) (r : t) : t :=
  match x with
  | Some true => mk (groups r) (boxes r) (pusher r) (signal r) (closed r) (u64 (pushed r + 1)) (dropped r)
  | Some false => mk (groups r) (boxes r) (pusher r) (signal r) (closed r) (pushed r) (u64 (dropped r + 1))
  | None => r
  end.
End Registry.

Definition NewRegistry : Registry.t := Registry.mk NewSubscriptions NewRendezvous false false false 0 0.

(** [Stats] *)
Module SubscriptionStats.
Record t := mk { Subscriptions : Z; Connections : Z; Pushed : Z; Dropped : Z }.
End SubscriptionStats.

Definition Stats (r : Registry.t) : SubscriptionStats.t :=
  SubscriptionStats.mk
    (Z.of_nat (size (Subscriptions.byKey (Registry.groups r))))
    (Z.of_nat (size (Subscriptions.byConnection (Registry.groups r))))
    (Registry.pushed r) (Registry.dropped r).

(** Where [deliver] is: blocked in its select, in [deliverRendezvous], or in its own loop; in either
    loop, picking under the mutex or handing out a push off it.  What it holds while it pushes is
    what it read under the mutex: whether there was a pusher, the key, the subscription's address
    and the push. *)
Inductive place : Type :=
  | Selecting
  | PickingBox
  | PushingBox (pusher : bool) (key : rendezvousKey) (address : nat) (p : push.t)
  | PickingGroup
  | PushingGroup (pusher : bool) (key : subscriptionKey) (address : nat) (owed : Z) (p : push.t)
  | Stopped.

Module config.
Record t := mk { registry : Registry.t; waking : nat; at_ : place; sent : list push.t }.
End config.

(** ** The callers *)

Inductive request : Type :=
  | ToSetPusher
  | ToSubscribe (clientId serverNonce groupId : slice) (readEpoch snapshot : Z) (replace : bool)
  | ToUnsubscribe (clientId serverNonce : slice) (groupIds : list slice) (all : bool)
  | ToPublish (groupId : slice) (records : list (Z * Z))
  | ToSubscribeRendezvous (clientId serverNonce rendezvousId : slice) (expireTime now : time)
  | ToSettleRendezvous (clientId serverNonce rendezvousId : slice) (claimed : nat) (taken : bool)
  | ToDeposit (rendezvousId : slice) (pending : Z) (now : time)
  | ToRetire (rendezvousId : slice)
  | ToClose.

(** What a call does under the mutex, and whether it goes on to wake the goroutine. *)
Definition callOn (r : Registry.t) (q : request) : Registry.t * bool :=
  match q with
  | ToSetPusher => (Registry.set_pusher true r, false)
  | ToSubscribe clientId serverNonce groupId readEpoch snapshot replace =>
      (Registry.set_groups
         (subscribe (Registry.groups r) clientId serverNonce groupId readEpoch snapshot replace).1 r, false)
  | ToUnsubscribe clientId serverNonce groupIds all =>
      (Registry.set_groups (unsubscribe (Registry.groups r) clientId serverNonce groupIds all) r, false)
  | ToPublish groupId records =>
      let '(groups, woke) := published (Registry.groups r) groupId records in
      (Registry.set_groups groups r, woke)
  | ToSubscribeRendezvous clientId serverNonce rendezvousId expireTime now =>
      (Registry.set_boxes
         (subscribeRendezvous (Registry.boxes r) clientId serverNonce rendezvousId expireTime now).1 r, false)
  | ToSettleRendezvous clientId serverNonce rendezvousId claimed taken =>
      (Registry.set_boxes
         (settleRendezvous (Registry.boxes r) clientId serverNonce rendezvousId claimed taken) r, false)
  | ToDeposit rendezvousId pending now =>
      let '(boxes, marked) := depositedRendezvous (Registry.boxes r) rendezvousId pending now in
      (Registry.set_boxes boxes r, marked)
  | ToRetire rendezvousId =>
      (Registry.set_boxes (retiredRendezvous (Registry.boxes r) rendezvousId) r, false)
  | ToClose => (Registry.set_closed true r, false)
  end.

(** ** The delivery goroutine *)

(** [deliver] takes the signal and goes into [deliverRendezvous]. *)
Definition takeSignal (r : Registry.t) : Registry.t * place := (Registry.set_signal false r, PickingBox).

(** One pick of [deliverRendezvous], with the map yielding its keys in [order]. *)
Definition pickBox (order : list rendezvousKey) (r : Registry.t) : Registry.t * place :=
  let '(boxes, picked) := nextRendezvous order (Registry.boxes r) in
  (Registry.set_boxes boxes r,
   match picked with
   | None => PickingGroup
   | Some (key, owed) =>
       PushingBox (Registry.pusher r) key (rendezvousSubscription.address owed)
         (push.ofBox (rendezvousSubscription.clientId owed) (rendezvousSubscription.serverNonce owed)
            (rendezvousSubscription.rendezvousId owed) (rendezvousSubscription.pending owed))
   end).

Definition pickGroup (order : list subscriptionKey) (r : Registry.t) : Registry.t * place :=
  let '(groups, picked) := nextOwed order (Registry.groups r) in
  (Registry.set_groups groups r,
   match picked with
   | None => Selecting
   | Some (key, sub) =>
       PushingGroup (Registry.pusher r) key (subscription.address sub) (subscription.owed sub)
         (push.ofGroup (subscription.clientId sub) (subscription.serverNonce sub)
            (subscription.groupId sub) (subscription.owed sub))
   end).

Definition donePushingBox (key : rendezvousKey) (address : nat) (delivered : bool) (r : Registry.t) :
    Registry.t :=
  let '(boxes, counted) := afterRendezvousPush (Registry.boxes r) key address delivered in
  Registry.count counted (Registry.set_boxes boxes r).

Definition donePushingGroup (key : subscriptionKey) (address : nat) (owed : Z) (delivered : bool)
    (r : Registry.t) : Registry.t :=
  let '(groups, counted) := afterPush (Registry.groups r) key address owed delivered in
  Registry.count counted (Registry.set_groups groups r).

(** With no pusher nothing is handed out. *)
Definition handedOut (pusher : bool) (p : push.t) (sent : list push.t) : list push.t :=
  if pusher then sent ++ [p] else sent.

(** The goroutine's own steps, and the wake-ups on their way to it.  A willing pusher takes every
    push; one that is not answers anything. *)
Inductive own_step (willing : bool) : config.t → config.t → Prop :=
  | step_wake r n at_ sent :
      own_step willing (config.mk r (S n) at_ sent) (config.mk (Registry.set_signal true r) n at_ sent)
  | step_signal r n sent :
      Registry.signal r = true →
      own_step willing (config.mk r n Selecting sent) (config.mk (takeSignal r).1 n (takeSignal r).2 sent)
  | step_stop r n sent :
      Registry.closed r = true →
      own_step willing (config.mk r n Selecting sent) (config.mk r n Stopped sent)
  | step_pick_box order r n sent :
      order ≡ₚ elements (Rendezvous.ready (Registry.boxes r)) →
      own_step willing (config.mk r n PickingBox sent) (config.mk (pickBox order r).1 n (pickBox order r).2 sent)
  | step_push_box pusher key address p answer r n sent :
      (willing = true → answer = true) →
      own_step willing (config.mk r n (PushingBox pusher key address p) sent)
        (config.mk (donePushingBox key address (pusher && answer) r) n PickingBox (handedOut pusher p sent))
  | step_pick_group order r n sent :
      order ≡ₚ elements (Subscriptions.ready (Registry.groups r)) →
      own_step willing (config.mk r n PickingGroup sent)
        (config.mk (pickGroup order r).1 n (pickGroup order r).2 sent)
  | step_push_group pusher key address owed p answer r n sent :
      (willing = true → answer = true) →
      own_step willing (config.mk r n (PushingGroup pusher key address owed p) sent)
        (config.mk (donePushingGroup key address owed (pusher && answer) r) n PickingGroup
           (handedOut pusher p sent)).

(** A call by a handler, labelled with what it was. *)
Definition call_step (q : request) (c c' : config.t) : Prop :=
  let '(r, woke) := callOn (config.registry c) q in
  c' = config.mk r (if woke then S (config.waking c) else config.waking c) (config.at_ c) (config.sent c).

(** The calls made so far, in order, and the configuration they and the goroutine's steps led to. *)
Inductive reached : list request → config.t → Prop :=
  | reached_new : reached [] (config.mk NewRegistry 0 Selecting [])
  | reached_call h q c c' : reached h c → call_step q c c' → reached (h ++ [q]) c'
  | reached_own h c c' : reached h c → own_step false c c' → reached h c'.
