(* ===== verification/SubscriptionsProps.v ===== *)
(** * The group half of the registry: its invariant

    Every operation of [Subscriptions] keeps the two maps indexes of one another, each connection
    within its bound, and every subscription under the key its own fields spell. *)

From S2P Require Import Prelude Subscriptions.

Lemma octets_appended b : octets (appended b) = octets b.
Proof. unfold appended. by destruct (octets b). Qed.

(** [connectionKeyOf] tells connections apart: a client id has one width. *)
Lemma connectionKeyOf_inj c1 n1 c2 n2 :
  length (octets c1) = length (octets c2) → connectionKeyOf c1 n1 = connectionKeyOf c2 n2 →
  octets c1 = octets c2 ∧ octets n1 = octets n2.
Proof. unfold connectionKeyOf. intros Hl [H1 H2]%app_inj_1; [|done]. by injection H2. Qed.

(** ** Lookups *)

Lemma set_fold_delete (c : list Z) (gs : gset (list Z)) (m : gmap subscriptionKey subscription.t) k :
  set_fold (λ group m, delete (c, group) m) m gs !! k =
  if decide (k.1 = c ∧ k.2 ∈ gs) then None else m !! k.
Proof.
  revert k. refine (set_fold_ind_L (λ m' (gs : gset (list Z)), ∀ k, m' !! k =
    if decide (k.1 = c ∧ k.2 ∈ gs) then None else m !! k) _ _ _ _ gs); cbn beta.
  - intros k. rewrite decide_False by set_solver. done.
  - intros g gs' m' Hg IH k. rewrite lookup_delete. case_decide as E.
    + subst k. rewrite decide_True by set_solver. done.
    + rewrite IH. destruct k as [k1 k2]. cbn in *. repeat case_decide; try done; set_solver.
Qed.

Lemma foldl_delete (c : list Z) (ids : list slice) (m : gmap subscriptionKey subscription.t) k :
  foldl (λ m groupId, delete (c, octets groupId) m) m ids !! k =
  if decide (k.1 = c ∧ k.2 ∈ octets <$> ids) then None else m !! k.
Proof.
  revert m. induction ids as [|g ids IH]; intros m; cbn [foldl].
  { rewrite decide_False; [done|]. intros [_ H]. by apply elem_of_nil in H. }
  rewrite IH, lookup_delete. destruct k as [k1 k2]. cbn.
  repeat case_decide; simplify_eq/=; try done; set_solver.
Qed.

Lemma forget_groupsOf s c c' :
  groupsOf (forgetConnection s c) c' = if decide (c' = c) then ∅ else groupsOf s c'.
Proof.
  unfold groupsOf, forgetConnection. cbn. rewrite lookup_delete.
  repeat case_decide; simplify_eq; done.
Qed.

Lemma default_insert (m : gmap (list Z) (gset (list Z))) c gs c' :
  default ∅ (<[c := gs]> m !! c') = if decide (c' = c) then gs else default ∅ (m !! c').
Proof. rewrite lookup_insert. repeat case_decide; simplify_eq; done. Qed.

Lemma settle_lookup s c gs c' :
  default ∅ (settleGroups s c gs !! c') = if decide (c' = c) then gs else groupsOf s c'.
Proof.
  unfold settleGroups, groupsOf. case_bool_decide as E.
  - rewrite lookup_delete. repeat case_decide; simplify_eq; done.
  - apply default_insert.
Qed.

(** ** The invariant *)

Record groups_ok (s : Subscriptions.t) : Prop := GroupsOk {
  go_index c g : is_Some (Subscriptions.byKey s !! (c, g)) ↔ g ∈ groupsOf s c;
  go_nonempty c gs : Subscriptions.byConnection s !! c = Some gs → gs ≠ ∅;
  go_bound c : Z.of_nat (size (groupsOf s c)) <= Subscriptions.maxPerConnection s;
  go_keyed k sub : Subscriptions.byKey s !! k = Some sub →
    k = (connectionKeyOf (subscription.clientId sub) (subscription.serverNonce sub),
         octets (subscription.groupId sub)) ∧
    subscription.notified sub <= subscription.owed sub ∧
    (subscription.address sub < Subscriptions.allocated s)%nat }.

Lemma groups_ok_new : groups_ok NewSubscriptions.
Proof.
  split; unfold groupsOf; cbn; intros.
  - rewrite !lookup_empty. cbn. split; [by intros []|set_solver].
  - by rewrite lookup_empty in *.
  - rewrite lookup_empty. done.
  - by rewrite lookup_empty in *.
Qed.

Lemma forget_ok s c : groups_ok s → groups_ok (forgetConnection s c).
Proof.
  intros [Hi Hn Hb Hk]. split; cbn.
  - intros c' g. rewrite forget_groupsOf, set_fold_delete. cbn. specialize (Hi c' g).
    repeat case_decide; simplify_eq; try set_solver.
  - intros c' gs [_ ?]%lookup_delete_Some. by eapply Hn.
  - intros c'. rewrite forget_groupsOf. specialize (Hb c'). case_decide; [|done].
    rewrite size_empty. lia.
  - intros k sub. rewrite set_fold_delete. case_decide; [done|]. apply Hk.
Qed.

Lemma set_ready_ok s r : groups_ok s → groups_ok (Subscriptions.set_ready r s).
Proof. by intros []. Qed.
Hint Resolve forget_ok set_ready_ok : server.

Lemma subscribe_ok s c n g e snapshot replace :
  groups_ok s → groups_ok (subscribe s c n g e snapshot replace).1.
Proof.
  intros Hok. unfold subscribe. set (conn := connectionKeyOf c n).
  set (s1 := if replace then _ else s).
  assert (groups_ok s1) as Hok1 by (subst s1; destruct replace; auto with server). clearbody s1.
  destruct (_ && _) eqn:Hfull; [done|]. destruct Hok1 as [Hi Hn Hb Hk].
  assert (∀ c', default ∅ (<[conn := {[octets g]} ∪ groupsOf s1 conn]> (Subscriptions.byConnection s1) !! c') =
    if decide (c' = conn) then {[octets g]} ∪ groupsOf s1 conn else groupsOf s1 c') as Hg
    by (intros; apply default_insert).
  split; cbn.
  - intros c' g'. unfold groupsOf at 1. cbn. rewrite Hg, lookup_insert. specialize (Hi c' g').
    repeat case_decide; simplify_eq; set_solver.
  - intros c' gs [ [_ <-]|[_ H] ]%lookup_insert_Some; [set_solver|by eapply Hn].
  - intros c'. unfold groupsOf at 1. cbn. rewrite Hg. specialize (Hb c'). case_decide; [|done]. subst c'. apply andb_false_iff in Hfull as [H1|H1].
    + apply bool_decide_eq_false in H1. assert (octets g ∈ groupsOf s1 conn) as Hin.
      { apply Hi. by destruct (Subscriptions.byKey s1 !! (conn, octets g)). }
      by replace ({[octets g]} ∪ groupsOf s1 conn) with (groupsOf s1 conn) by set_solver.
    + reflect_bools. pose proof (size_union_alt {[octets g]} (groupsOf s1 conn)) as Hsz.
      rewrite size_singleton in Hsz.
      assert (size (groupsOf s1 conn ∖ {[octets g]}) ≤ size (groupsOf s1 conn))%nat
        by (apply subseteq_size; set_solver). lia.
  - intros k sub [ [<- <-]|[_ H] ]%lookup_insert_Some.
    + cbn. unfold conn, connectionKeyOf. rewrite !octets_appended. split; [done|]. split; [done|lia].
    + destruct (Hk _ _ H) as (? & ? & ?). split; [done|]. cbn. split; [done|lia].
Qed.

Lemma unsubscribe_ok s c n ids all : groups_ok s → groups_ok (unsubscribe s c n ids all).
Proof.
  intros Hok. unfold unsubscribe. set (conn := connectionKeyOf c n). destruct all; [auto with server|].
  destruct Hok as [Hi Hn Hb Hk]. set (named := list_to_set _).
  assert (∀ x, x ∈ named ↔ x ∈ octets <$> ids) as Hnamed by (intros; apply elem_of_list_to_set).
  split; cbn.
  - intros c' g. unfold groupsOf at 1. cbn. rewrite settle_lookup, foldl_delete. cbn. specialize (Hi c' g).
    repeat case_decide; simplify_eq; set_solver.
  - intros c' gs. unfold settleGroups. case_bool_decide as E.
    + intros [_ ?]%lookup_delete_Some. by eapply Hn.
    + intros [ [_ <-]|[_ H] ]%lookup_insert_Some; [done|by eapply Hn].
  - intros c'. unfold groupsOf at 1. cbn. rewrite settle_lookup. specialize (Hb c').
    case_decide; [|done]. subst c'.
    assert (size (groupsOf s conn ∖ named) ≤ size (groupsOf s conn))%nat
      by (apply subseteq_size; set_solver). lia.
  - intros k sub. rewrite foldl_delete. case_decide; [done|]. apply Hk.
Qed.

(** ** What is owed *)

Lemma owe_cons e r records owed :
  owe e (r :: records) owed = owe e records (if (r.2 <=? e) && (owed <? r.1) then r.1 else owed).
Proof. done. Qed.

(** The greatest of what was owed and the published ids under the ceiling. *)
Lemma owe_spec e records owed :
  owed <= owe e records owed ∧
  (∀ id ep, (id, ep) ∈ records → ep <= e → id <= owe e records owed) ∧
  (owe e records owed = owed ∨ ∃ ep, (owe e records owed, ep) ∈ records ∧ ep <= e).
Proof.
  revert owed. induction records as [|r records IH]; intros owed.
  { split; [done|]. split; [|by left]. intros id ep H. by apply elem_of_nil in H. }
  rewrite owe_cons. destruct (IH (if (r.2 <=? e) && (owed <? r.1) then r.1 else owed)) as (H1 & H2 & H3).
  destruct ((r.2 <=? e) && (owed <? r.1)) eqn:E.
  - reflect_bools. split; [lia|]. split.
    + intros id ep [<-|Hin]%elem_of_cons He; [done|by eapply H2].
    + right. destruct H3 as [->|(ep & Hin & He)].
      * exists r.2. split; [rewrite <- surjective_pairing; left|done].
      * exists ep. split; [by right|done].
  - split; [done|]. split.
    + intros id ep [Er|Hin]%elem_of_cons He; [|by eapply H2]. subst r. cbn in E.
      apply andb_false_iff in E as [E|E]; reflect_bools; lia.
    + destruct H3 as [->|(ep & Hin & He)]; [by left|]. right. exists ep. split; [by right|done].
Qed.

Lemma published_lookup s g records k :
  records ≠ [] →
  Subscriptions.byKey (published s g records).1 !! k =
  (λ sub, if bool_decide (k.2 = octets g) then oweOne records sub else sub) <$> Subscriptions.byKey s !! k.
Proof.
  intros Hr. unfold published. destruct records; [done|]. cbn. rewrite map_lookup_imap.
  by destruct (Subscriptions.byKey s !! k).
Qed.

Lemma published_ok s g records : groups_ok s → groups_ok (published s g records).1.
Proof.
  intros Hok. destruct (decide (records = [])) as [->|Hr]; [done|]. pose proof Hok as [Hi Hn Hb Hk].
  assert (Subscriptions.byConnection (published s g records).1 = Subscriptions.byConnection s ∧
    Subscriptions.maxPerConnection (published s g records).1 = Subscriptions.maxPerConnection s ∧
    Subscriptions.allocated (published s g records).1 = Subscriptions.allocated s) as (E1 & E2 & E3)
    by (by unfold published; destruct records).
  split; unfold groupsOf; rewrite ?E1, ?E2.
  - intros c g'. rewrite published_lookup by done. rewrite fmap_is_Some. apply Hi.
  - exact Hn.
  - exact Hb.
  - intros k sub. rewrite published_lookup by done. intros (sub0 & Hs & ->)%fmap_Some.
    destruct (Hk _ _ Hs) as (H1 & H2 & H3). rewrite E3. case_bool_decide; [|done]. split; [done|]. cbn.
    pose proof (owe_spec (subscription.readEpoch sub0) records (subscription.owed sub0)). lia.
Qed.

(** Whatever a publish left owed is marked, and marks wake. *)
Lemma published_marks s g records k sub :
  Subscriptions.byKey (published s g records).1 !! k = Some sub → isOwed sub →
  (∀ sub0, Subscriptions.byKey s !! k = Some sub0 → isOwed sub0 → k ∈ Subscriptions.ready s) →
  k ∈ Subscriptions.ready (published s g records).1.
Proof.
  intros Hs Ho Hold. destruct (decide (records = [])) as [->|Hr]; [by eapply Hold|].
  pose proof Hs as Hs'. rewrite published_lookup in Hs by done. apply fmap_Some in Hs as (sub0 & Hs0 & Es).
  unfold published in *. destruct records as [|r records]; [done|]. cbn [fst] in *. set (marked := dom _).
  cbn. apply elem_of_union. case_bool_decide as Hg; [left|right].
  - apply elem_of_dom. exists sub. apply map_lookup_filter_Some. done.
  - subst sub. by eapply Hold.
Qed.

Lemma published_wakes s g records :
  (published s g records).2 = false →
  Subscriptions.ready (published s g records).1 = Subscriptions.ready s.
Proof.
  unfold published. destruct records; [done|]. cbn.
  intros E%bool_decide_eq_false%dec_stable. rewrite E. set_solver.
Qed.

(** ** The delivery goroutine's parts *)

Lemma nextOwed_spec order s s' picked :
  nextOwed order s = (s', picked) →
  s' = Subscriptions.set_ready (Subscriptions.ready s') s ∧
  Subscriptions.ready s' ⊆ Subscriptions.ready s ∧
  (∀ k, k ∈ Subscriptions.ready s → is_Some (Subscriptions.byKey s !! k) →
     k ∈ Subscriptions.ready s' ∨ ∃ sub, picked = Some (k, sub)) ∧
  match picked with
  | None => Subscriptions.ready s' = Subscriptions.ready s ∖ list_to_set order
  | Some (k, sub) =>
      Subscriptions.byKey s !! k = Some sub ∧ k ∈ order ∧ k ∉ Subscriptions.ready s'
  end.
Proof.
  revert s. induction order as [|k order IH]; intros s; cbn [nextOwed].
  { intros [= <- <-]. split; [by destruct s|]. split; [done|]. split; [auto|]. set_solver. }
  set (s1 := Subscriptions.set_ready _ s).
  assert (Subscriptions.ready s1 = Subscriptions.ready s ∖ {[k]}) as Er by done.
  change (Subscriptions.byKey s1) with (Subscriptions.byKey s).
  destruct (Subscriptions.byKey s !! k) as [sub|] eqn:Hk.
  - intros [= <- <-]. rewrite Er. split; [done|]. split; [set_solver|]. split; [|set_solver].
    intros k' Hk' _. destruct (decide (k' = k)) as [->|]; [by right; eauto|left; set_solver].
  - intros Hn. destruct (IH s1 Hn) as (H1 & H2 & H3 & H4). rewrite Er in H2, H3, H4.
    change (Subscriptions.byKey s1) with (Subscriptions.byKey s) in H3, H4.
    split; [by rewrite H1|]. split; [set_solver|]. split.
    + intros k' Hin Hs. apply H3; [|done]. apply elem_of_difference. split; [done|].
      intros ->%elem_of_singleton. rewrite Hk in Hs. by destruct Hs.
    + destruct picked as [ [k' sub]|]; [|set_solver]. destruct H4 as (? & ? & ?). set_solver.
Qed.

Lemma elem_of_order {K} `{Countable K} (order : list K) (ready : gset K) k :
  order ≡ₚ elements ready → k ∈ order ↔ k ∈ ready.
Proof. intros ->. apply elem_of_elements. Qed.

Lemma nextOwed_order order s s' picked :
  order ≡ₚ elements (Subscriptions.ready s) → nextOwed order s = (s', picked) →
  match picked with
  | None => Subscriptions.ready s' = ∅
  | Some (k, _) => (size (Subscriptions.ready s') < size (Subscriptions.ready s))%nat
  end.
Proof.
  intros Ho Hn. destruct (nextOwed_spec _ _ _ _ Hn) as (_ & Hsub & _ & Hp).
  destruct picked as [ [k sub]|].
  - destruct Hp as (_ & Hin & Hnot). apply (elem_of_order _ _ _ Ho) in Hin.
    apply subset_size. set_solver.
  - rewrite Hp. apply leibniz_equiv. intros k. rewrite elem_of_difference, elem_of_list_to_set.
    rewrite (elem_of_order _ _ _ Ho). set_solver.
Qed.

Lemma nextOwed_ok order s : groups_ok s → groups_ok (nextOwed order s).1.
Proof.
  intros Hok. destruct (nextOwed order s) as [s' picked] eqn:E.
  destruct (nextOwed_spec _ _ _ _ E) as (-> & _). by apply set_ready_ok.
Qed.

(** What a push under way still knows of the subscription it was read from. *)
Definition pushed_for (s : Subscriptions.t) (k : subscriptionKey) (address : nat) (owed : Z) : Prop :=
  (address < Subscriptions.allocated s)%nat ∧
  ∀ current, Subscriptions.byKey s !! k = Some current → subscription.address current = address →
    owed <= subscription.owed current.

Lemma afterPush_ok s k a o ok :
  groups_ok s → pushed_for s k a o → groups_ok (afterPush s k a o ok).1.
Proof.
  intros Hok [_ Hp]. unfold afterPush. destruct (Subscriptions.byKey s !! k) as [cur|] eqn:Hk; [|done].
  destruct (negb _) eqn:Ha; [done|]. apply negb_false_iff, Nat.eqb_eq in Ha.
  specialize (Hp _ eq_refl Ha). pose proof Hok as [Hi Hn Hb Hkeyed]. destruct ok.
  - set (sub := if subscription.notified cur <? o then _ else _). assert (groups_ok (Subscriptions.set_byKey
      (<[k := sub]> (Subscriptions.byKey s)) s)) as H; [|clearbody sub; destruct (subscription.notified sub <? _); [by apply set_ready_ok|done] ].
    split; cbn; [|done|done|].
    + intros c g. change (groupsOf _ c) with (groupsOf s c). rewrite <- Hi, lookup_insert.
      case_decide as E; [|done]. rewrite <- E, Hk. by split; eauto.
    + intros k' sub' [ [<- <-]|[_ H] ]%lookup_insert_Some; [|by apply Hkeyed].
      destruct (Hkeyed _ _ Hk) as (H1 & H2 & H3). subst sub.
      destruct (subscription.notified cur <? o) eqn:E; cbn; [split; [done|lia]|done].
  - destruct k as [c g]. cbn [fst snd]. set (conns := match _ with Some _ => _ | None => _ end).
    assert (∀ c', default ∅ (conns !! c') = if decide (c' = c) then groupsOf s c ∖ {[g]} else groupsOf s c') as Hc.
    { intros c'. subst conns. destruct (Subscriptions.byConnection s !! c) as [gs|] eqn:Ec.
      - unfold groupsOf at 1. rewrite Ec. cbn. apply settle_lookup.
      - case_decide as E; [|done]. rewrite E. unfold groupsOf. rewrite Ec. cbn. set_solver. }
    split; cbn.
    + intros c' g'. unfold groupsOf at 1. cbn. rewrite Hc, lookup_delete. specialize (Hi c' g').
      repeat case_decide; simplify_eq; set_solver.
    + intros c' gs. subst conns. destruct (Subscriptions.byConnection s !! c) as [gs0|] eqn:Ec; [|by apply Hn].
      unfold settleGroups. case_bool_decide as E.
      * intros [_ ?]%lookup_delete_Some. by eapply Hn.
      * intros [ [_ <-]|[_ H] ]%lookup_insert_Some; [done|by eapply Hn].
    + intros c'. unfold groupsOf at 1. cbn. rewrite Hc. specialize (Hb c').
      case_decide; [|done]. subst c'.
      assert (size (groupsOf s c ∖ {[g]}) ≤ size (groupsOf s c))%nat by (apply subseteq_size; set_solver). lia.
    + intros k' sub' [_ H]%lookup_delete_Some. by apply Hkeyed.
Qed.

#[export] Hint Resolve groups_ok_new subscribe_ok unsubscribe_ok published_ok nextOwed_ok : server.
