(* ===== verification/RendezvousPushProps.v ===== *)
(** * The rendezvous half of the registry: its invariant

    The nested maps of boxes and subscribers as one flat map [standing], what each operation does to
    it, and the invariant that keeps the counts exact, each connection within its bound, and every
    box under the expiry heap. *)

From stdpp Require Import sorting.
From S2P Require Import Prelude Subscriptions SubscriptionsProps RendezvousPush.

(** ** The flat view *)

(** Every subscription, under its box and its connection. *)
Definition standing (s : Rendezvous.t) : gmap (list Z * list Z) rendezvousSubscription.t :=
  map_uncurry (rendezvousBox.subscribers <$> Rendezvous.boxes s).

Lemma lookup_standing s id c : standing s !! (id, c) = subscriberOf s id c.
Proof.
  unfold standing, subscriberOf. rewrite lookup_map_uncurry, lookup_fmap.
  by destruct (Rendezvous.boxes s !! id).
Qed.

(** How many subscriptions of a set of them a connection holds. *)
Definition heldIn (c : list Z) (P : gset (list Z * list Z)) : nat := size (filter (λ p, p.2 = c) P).

(** The two counts a registry keeps are exact of a set of subscriptions. *)
Definition counted (held : gmap (list Z) Z) (count : Z) (P : gset (list Z * list Z)) : Prop :=
  count = Z.of_nat (size P) ∧
  ∀ c, held !! c = if (heldIn c P =? 0)%nat then None else Some (Z.of_nat (heldIn c P)).

Lemma heldIn_insert c k P : k ∉ P →
  heldIn c ({[k]} ∪ P) = (if decide (k.2 = c) then S (heldIn c P) else heldIn c P).
Proof.
  intros Hk. unfold heldIn. case_decide as E.
  - replace (filter (λ p, p.2 = c) ({[k]} ∪ P)) with ({[k]} ∪ filter (λ p, p.2 = c) P) by set_solver.
    rewrite size_union, size_singleton; [done|set_solver].
  - f_equal. set_solver.
Qed.

Lemma heldIn_remove c k P : k ∈ P →
  heldIn c P = (if decide (k.2 = c) then S (heldIn c (P ∖ {[k]})) else heldIn c (P ∖ {[k]})).
Proof.
  intros Hk. rewrite <- heldIn_insert by set_solver. f_equal. by apply union_difference_singleton_L.
Qed.

Lemma counted_held held count P c : counted held count P → default 0 (held !! c) = Z.of_nat (heldIn c P).
Proof. intros [_ ->]. by destruct (heldIn c P). Qed.

Lemma counted_insert held count P k :
  counted held count P → k ∉ P →
  counted (<[k.2 := default 0 (held !! k.2) + 1]> held) (count + 1) ({[k]} ∪ P).
Proof.
  intros Hc Hk. pose proof (counted_held _ _ _ k.2 Hc) as Hd. destruct Hc as [-> Hh]. split.
  - rewrite size_union, size_singleton by set_solver. lia.
  - intros c. rewrite lookup_insert, Hd, heldIn_insert by done. case_decide; [|apply Hh].
    subst c. cbn [Nat.eqb]. f_equal. lia.
Qed.

Lemma counted_release s P k :
  counted (Rendezvous.held s) (Rendezvous.count s) P → k ∈ P →
  counted (Rendezvous.held (releaseRendezvous s k.2)) (Rendezvous.count (releaseRendezvous s k.2)) (P ∖ {[k]}).
Proof.
  intros Hc Hk. pose proof (counted_held _ _ _ k.2 Hc) as Hd. destruct Hc as [Hn Hh]. split.
  - cbn. rewrite Hn, (union_difference_singleton_L k P Hk) at 1.
    rewrite size_union, size_singleton by set_solver. lia.
  - intros c. unfold releaseRendezvous. rewrite Hd. cbn. specialize (Hh c).
    rewrite (heldIn_remove c k P Hk) in Hh. pose proof (heldIn_remove k.2 k P Hk) as H2.
    rewrite decide_True in H2 by done. rewrite H2. destruct (heldIn k.2 (P ∖ {[k]})) as [|n] eqn:E.
    + rewrite (proj2 (Z.leb_le _ _)) by lia. rewrite lookup_delete.
      case_decide as Ec; [subst c; by rewrite E|exact Hh].
    + rewrite (proj2 (Z.leb_gt _ _)) by lia. rewrite lookup_insert.
      case_decide as Ec; [subst c; rewrite E; cbn; f_equal; lia|exact Hh].
Qed.

(** ** The invariant *)

Record counts_ok (s : Rendezvous.t) : Prop := CountsOk {
  ck_counted : counted (Rendezvous.held s) (Rendezvous.count s) (dom (standing s));
  ck_bound c : Z.of_nat (heldIn c (dom (standing s))) <= Rendezvous.maxPerConnection s;
  ck_nonempty id b : Rendezvous.boxes s !! id = Some b → rendezvousBox.subscribers b ≠ ∅;
  ck_keyed id c sub : standing s !! (id, c) = Some sub →
    c = connectionKeyOf (rendezvousSubscription.clientId sub) (rendezvousSubscription.serverNonce sub) ∧
    id = octets (rendezvousSubscription.rendezvousId sub) ∧
    (rendezvousSubscription.address sub < Rendezvous.allocated s)%nat }.

(** Every box is under the heap, which is in expiry order. *)
Definition heaped (s : Rendezvous.t) : Prop :=
  StronglySorted (λ a b : rendezvousExpiryEntry, a.1 <= b.1) (Rendezvous.expiry s) ∧
  ∀ id b, Rendezvous.boxes s !! id = Some b → (rendezvousBox.expireTime b, id) ∈ Rendezvous.expiry s.

Definition boxes_ok (s : Rendezvous.t) : Prop := counts_ok s ∧ heaped s.

(** ** Dropping *)

Lemma lookup_update s b id id' c (f : rendezvousBox.t) :
  b = Rendezvous.set_boxes (<[id := f]> (Rendezvous.boxes s)) s →
  standing b !! (id', c) =
    if decide (id' = id) then rendezvousBox.subscribers f !! c else standing s !! (id', c).
Proof.
  intros ->. rewrite !lookup_standing. unfold subscriberOf. cbn. rewrite lookup_insert.
  repeat case_decide; simplify_eq; done.
Qed.

(** What the loop of a drop leaves alone. *)
Lemma drop_fold id l s P :
  NoDup l → (∀ c, c ∈ l → (id, c) ∈ P) → counted (Rendezvous.held s) (Rendezvous.count s) P →
  let s' := foldl (dropSubscriber id) s l in
  counted (Rendezvous.held s') (Rendezvous.count s') (P ∖ set_map (λ c, (id, c)) (list_to_set l : gset (list Z))) ∧
  Rendezvous.boxes s' = Rendezvous.boxes s ∧ Rendezvous.expiry s' = Rendezvous.expiry s ∧
  Rendezvous.maxPerConnection s' = Rendezvous.maxPerConnection s ∧
  Rendezvous.allocated s' = Rendezvous.allocated s ∧
  Rendezvous.ready s' ⊆ Rendezvous.ready s.
Proof.
  revert s P. induction l as [|c l IH]; intros s P Hnd Hin Hc; cbn [foldl].
  { cbn. rewrite set_map_empty, difference_empty_L. done. }
  apply NoDup_cons in Hnd as [Hn Hnd].
  pose proof (counted_release (Rendezvous.set_ready (Rendezvous.ready s ∖ {[ (c, id) ]})
    (Rendezvous.set_visited (u64 (Rendezvous.visited s + 1)) s)) P (id, c) Hc (Hin c (list_elem_of_here _ _))) as Hr.
  change (releaseRendezvous _ _) with (dropSubscriber id s c) in Hr.
  assert (∀ c', c' ∈ l → (id, c') ∈ P ∖ {[ (id, c) ]}) as Hin'.
  { intros c' Hc'. apply elem_of_difference. split; [apply Hin; by right|].
    intros [= ->]%elem_of_singleton. done. }
  destruct (IH (dropSubscriber id s c) _ Hnd Hin' Hr) as (H1 & H2 & H3 & H4 & H5 & H6).
  split; [|split; [done|split; [done|split; [done|split; [done|] ] ] ] ].
  - cbn [list_to_set]. rewrite set_map_union_L, set_map_singleton_L, <- difference_difference_l_L. exact H1.
  - etrans; [exact H6|]. cbn. set_solver.
Qed.

Lemma drop_fold_boxes id l s : Rendezvous.boxes (foldl (dropSubscriber id) s l) = Rendezvous.boxes s.
Proof. revert s. induction l as [|c l IH]; intros s; [done|]. cbn [foldl]. by rewrite IH. Qed.

(** [dropRendezvousBox] takes the box's subscriptions out of the flat map, and nothing else. *)
Lemma drop_standing s box id c :
  standing (dropRendezvousBox s box) !! (id, c) = if decide (id = box) then None else standing s !! (id, c).
Proof.
  rewrite !lookup_standing. unfold dropRendezvousBox, subscriberOf.
  destruct (Rendezvous.boxes s !! box) as [record|] eqn:Hb.
  - cbn. case_decide; [subst; by rewrite lookup_delete_eq|]. rewrite lookup_delete_ne by done.
    by rewrite drop_fold_boxes.
  - case_decide; [subst; by rewrite Hb|done].
Qed.

Record dropping (s s' : Rendezvous.t) (box : list Z) : Prop := Dropping {
  dr_boxes : Rendezvous.boxes s' = delete box (Rendezvous.boxes s);
  dr_expiry : Rendezvous.expiry s' = Rendezvous.expiry s;
  dr_max : Rendezvous.maxPerConnection s' = Rendezvous.maxPerConnection s;
  dr_allocated : Rendezvous.allocated s' = Rendezvous.allocated s;
  dr_ready : Rendezvous.ready s' ⊆ Rendezvous.ready s }.

Lemma drop_spec s box :
  counts_ok s → counts_ok (dropRendezvousBox s box) ∧ dropping s (dropRendezvousBox s box) box.
Proof.
  intros [Hc Hb Hn Hk].
  assert (dom (standing (dropRendezvousBox s box)) ⊆ dom (standing s)) as Hsub.
  { intros [id c]. rewrite !elem_of_dom, drop_standing. case_decide; [by intros []|done]. }
  assert (counted (Rendezvous.held (dropRendezvousBox s box)) (Rendezvous.count (dropRendezvousBox s box))
      (dom (standing (dropRendezvousBox s box))) ∧ dropping s (dropRendezvousBox s box) box) as [H1 H2].
  { pose proof (drop_standing s box) as Hst. unfold dropRendezvousBox in *.
    destruct (Rendezvous.boxes s !! box) as [record|] eqn:Hbox.
    2:{ split; [done|]. split; try done. by rewrite delete_id. }
    set (l := (map_to_list (rendezvousBox.subscribers record)).*1) in *.
    assert (∀ c, c ∈ l ↔ is_Some (standing s !! (box, c))) as Hl.
    { intros c. rewrite lookup_standing. unfold subscriberOf. rewrite Hbox. cbn. subst l.
      rewrite list_elem_of_fmap. split.
      - intros ([c' x] & -> & Hin%elem_of_map_to_list). by eexists.
      - intros [x Hx]. exists (c, x). split; [done|]. by apply elem_of_map_to_list. }
    destruct (drop_fold box l s (dom (standing s))) as (H1 & H2 & H3 & H4 & H5 & H6).
    { apply NoDup_fst_map_to_list. } { intros c Hin. by apply elem_of_dom, Hl. } { done. }
    split; [|split; cbn; try done; by rewrite H2].
    cbn [Rendezvous.set_boxes Rendezvous.held Rendezvous.count].
    replace (dom (standing (Rendezvous.set_boxes _ _)))
      with (dom (standing s) ∖ set_map (λ c, (box, c)) (list_to_set l : gset (list Z))); [exact H1|].
    apply leibniz_equiv. intros [id c]. rewrite elem_of_difference, !elem_of_dom, Hst, elem_of_map.
    split.
    - intros [Hs Hnot]. rewrite decide_False; [done|]. intros ->. apply Hnot. exists c.
      split; [done|]. by apply elem_of_list_to_set, Hl.
    - case_decide as E; [by intros []|]. intros Hs. split; [done|]. intros (c' & [= -> ->] & _). done. }
  split; [|done]. destruct H2 as [Hboxes _ Hmax Halloc _]. split; [done| | |].
  - intros c. rewrite Hmax. specialize (Hb c).
    assert (heldIn c (dom (standing (dropRendezvousBox s box))) ≤ heldIn c (dom (standing s)))%nat
      by (apply subseteq_size; set_solver). lia.
  - intros id b. rewrite Hboxes. intros [_ ?]%lookup_delete_Some. by eapply Hn.
  - intros id c sub. rewrite Halloc, drop_standing. case_decide; [done|]. apply Hk.
Qed.

Lemma drop_ok s box : boxes_ok s → boxes_ok (dropRendezvousBox s box).
Proof.
  intros [Hc [Hs He] ]. destruct (drop_spec s box Hc) as [Hc' [Hb Hx _ _ _] ]. split; [done|]. split.
  - by rewrite Hx.
  - intros id b. rewrite Hb, Hx. intros [_ ?]%lookup_delete_Some. by apply He.
Qed.

(** ** Pruning *)

Lemma due_spec now l popped kept :
  due now l = (popped, kept) → l = popped ++ kept ∧ Forall (λ e, e.1 <= now) popped ∧
  match kept with e :: _ => now < e.1 | [] => True end.
Proof.
  revert popped kept. induction l as [|e l IH]; intros popped kept; cbn.
  { by intros [= <- <-]. }
  unfold Before. destruct (now <? e.1) eqn:E.
  - intros [= <- <-]. by reflect_bools.
  - destruct (due now l) as [p k]. intros [= <- <-]. destruct (IH p k eq_refl) as (-> & Hp & Hk).
    reflect_bools. auto.
Qed.

(** What a prune leaves of what stood. *)
Definition pruned (now : time) (s s' : Rendezvous.t) (ids : list (list Z)) : Prop :=
  counts_ok s' ∧ Rendezvous.expiry s' = Rendezvous.expiry s ∧
  Rendezvous.maxPerConnection s' = Rendezvous.maxPerConnection s ∧
  Rendezvous.allocated s' = Rendezvous.allocated s ∧ Rendezvous.ready s' ⊆ Rendezvous.ready s ∧
  ∀ id b, Rendezvous.boxes s' !! id = Some b ↔
    Rendezvous.boxes s !! id = Some b ∧ (id ∈ ids → now < rendezvousBox.expireTime b).

Lemma pruneEntry_spec now s e : counts_ok s → pruned now s (pruneEntry now s e) [e.2].
Proof.
  intros Hc. unfold pruneEntry. destruct (Rendezvous.boxes s !! e.2) as [record|] eqn:Hb.
  - unfold Before. destruct (negb _) eqn:E; reflect_bools.
    + destruct (drop_spec s e.2 Hc) as [Hc' [H1 H2 H3 H4 H5] ]. repeat (split; [done|]).
      intros id b. rewrite H1, lookup_delete_Some. split.
      * intros [Hne ?]. split; [done|]. intros Hid%list_elem_of_singleton. by rewrite Hid in Hne.
      * intros [Hs Hin]. split; [|done]. intros Hid. rewrite Hid, Hs in Hb. injection Hb as <-.
        assert (now < rendezvousBox.expireTime b); [|lia].
        by apply Hin, list_elem_of_singleton.
    + repeat (split; [done|]). intros id b. split; [|by intros [? _] ]. intros H. split; [done|].
      intros Hid%list_elem_of_singleton. rewrite <- Hid, H in Hb. by injection Hb as <-.
  - repeat (split; [done|]). intros id b. split; [|by intros [? _] ]. intros H. split; [done|].
    intros Hid%list_elem_of_singleton. by rewrite <- Hid, H in Hb.
Qed.

Lemma prune_fold now l s : counts_ok s → pruned now s (foldl (pruneEntry now) s l) l.*2.
Proof.
  revert s. induction l as [|e l IH]; intros s Hc; cbn [foldl].
  { repeat (split; [done|]). intros id b. split; [|by intros [? _] ]. intros H. split; [done|].
    intros Hin. by apply elem_of_nil in Hin. }
  destruct (pruneEntry_spec now s e Hc) as (Hc1 & H1 & H2 & H3 & H4 & H5).
  destruct (IH _ Hc1) as (Hc2 & K1 & K2 & K3 & K4 & K5).
  split; [done|]. split; [congruence|]. split; [congruence|]. split; [congruence|]. split; [by etrans|].
  intros id b. rewrite K5, H5, list_elem_of_singleton, fmap_cons, elem_of_cons. tauto.
Qed.

Lemma prune_ok s now :
  boxes_ok s → boxes_ok (pruneRendezvous s now) ∧
  (∀ id b, Rendezvous.boxes (pruneRendezvous s now) !! id = Some b ↔
     Rendezvous.boxes s !! id = Some b ∧ now < rendezvousBox.expireTime b) ∧
  Rendezvous.allocated (pruneRendezvous s now) = Rendezvous.allocated s ∧
  Rendezvous.maxPerConnection (pruneRendezvous s now) = Rendezvous.maxPerConnection s ∧
  Rendezvous.ready (pruneRendezvous s now) ⊆ Rendezvous.ready s.
Proof.
  intros [Hc [Hs He] ]. unfold pruneRendezvous. destruct (due now _) as [popped kept] eqn:Hd.
  destruct (due_spec _ _ _ _ Hd) as (Hx & Hp & Hk). rewrite Hx in Hs, He.
  assert (counts_ok (Rendezvous.set_expiry kept s)) as Hc' by (by destruct Hc).
  destruct (prune_fold now popped _ Hc') as (H0 & H1 & H2 & H3 & H4 & H5). cbn in *.
  assert (∀ id b, Rendezvous.boxes s !! id = Some b → (id ∈ popped.*2 → now < rendezvousBox.expireTime b) →
    (rendezvousBox.expireTime b, id) ∈ kept) as Hkept.
  { intros id b Hb Hin. specialize (He _ _ Hb). apply elem_of_app in He as [He|He]; [|done].
    eapply Forall_forall in Hp; [|exact He]. cbn in Hp.
    assert (now < rendezvousBox.expireTime b); [|lia]. apply Hin. apply (list_elem_of_fmap_2 snd _ _ He). }
  assert (∀ e, e ∈ kept → now < e.1) as Hlive.
  { apply StronglySorted_app_1_r in Hs. destruct kept as [|k kept]; [intros e H; by apply elem_of_nil in H|].
    intros e [->|Hin]%elem_of_cons; [done|]. apply StronglySorted_inv in Hs as [_ Hs].
    eapply Forall_forall in Hs; [|exact Hin]. lia. }
  split; [|split; [|done] ].
  - split; [done|]. rewrite <- H1 in *. split; [rewrite H1; by eapply StronglySorted_app_1_r|].
    intros id b [Hb Hin]%H5. rewrite H1. by apply Hkept.
  - intros id b. rewrite H5. split; [|by intros [? ?] ]. intros [Hb Hin]. split; [done|].
    by apply (Hlive (_, id)), Hkept.
Qed.

(** ** One subscription at a time *)

Lemma heapPush_elem e l x : x ∈ heapPush e l ↔ x = e ∨ x ∈ l.
Proof.
  induction l as [|y l IH]; cbn; [set_solver|]. destruct (Before _ _); [set_solver|].
  rewrite !elem_of_cons, IH. tauto.
Qed.

Lemma heapPush_sorted e l :
  StronglySorted (λ a b : rendezvousExpiryEntry, a.1 <= b.1) l →
  StronglySorted (λ a b : rendezvousExpiryEntry, a.1 <= b.1) (heapPush e l).
Proof.
  induction 1 as [|y l Hs IH Hy]; cbn; [repeat constructor|]. unfold Before. destruct (_ <? _) eqn:E; reflect_bools.
  - constructor; [by constructor|]. constructor; [lia|].
    eapply Forall_impl; [exact Hy|]. cbn. lia.
  - constructor; [done|]. apply Forall_forall. intros x [->|Hin]%heapPush_elem; [lia|].
    by eapply Forall_forall in Hy.
Qed.

(** The flat map after one box was written. *)
Lemma standing_insert s id b c k :
  standing (Rendezvous.set_boxes
    (<[id := rendezvousBox.set_subscribers (<[c := k]> (rendezvousBox.subscribers b)) b]> (Rendezvous.boxes s)) s) =
  <[(id, c) := k]> (standing (Rendezvous.set_boxes (<[id := b]> (Rendezvous.boxes s)) s)).
Proof.
  apply map_eq. intros [id' c']. rewrite lookup_insert, !lookup_standing. unfold subscriberOf. cbn.
  rewrite !lookup_insert. repeat case_decide; simplify_eq; cbn; rewrite ?lookup_insert_eq, ?lookup_insert_ne by congruence; done.
Qed.

Lemma standing_same s id b :
  Rendezvous.boxes s !! id = Some b →
  standing (Rendezvous.set_boxes (<[id := b]> (Rendezvous.boxes s)) s) = standing s.
Proof. intros H. unfold standing. cbn. by rewrite insert_id. Qed.

Lemma subscriberOf_box s id c sub :
  subscriberOf s id c = Some sub →
  ∃ b, Rendezvous.boxes s !! id = Some b ∧ rendezvousBox.subscribers b !! c = Some sub.
Proof. unfold subscriberOf. intros H. by apply bind_Some in H. Qed.

(** The same subscription with another count, another number of claims or kept. *)
Definition same_subscription (a b : rendezvousSubscription.t) : Prop :=
  rendezvousSubscription.clientId a = rendezvousSubscription.clientId b ∧
  rendezvousSubscription.serverNonce a = rendezvousSubscription.serverNonce b ∧
  rendezvousSubscription.rendezvousId a = rendezvousSubscription.rendezvousId b ∧
  rendezvousSubscription.address a = rendezvousSubscription.address b.

(** A state with the same boxes, each with the same subscribers. *)
Lemma rewritten_ok s boxes :
  boxes_ok s →
  (∀ id b', boxes !! id = Some b' → ∃ b, Rendezvous.boxes s !! id = Some b ∧
     rendezvousBox.expireTime b' = rendezvousBox.expireTime b ∧
     dom (rendezvousBox.subscribers b') = dom (rendezvousBox.subscribers b) ∧
     ∀ c x y, rendezvousBox.subscribers b' !! c = Some x → rendezvousBox.subscribers b !! c = Some y →
       same_subscription x y) →
  dom boxes = dom (Rendezvous.boxes s) →
  boxes_ok (Rendezvous.set_boxes boxes s).
Proof.
  intros [ [Hc Hb Hn Hk] [Hs He] ] Hold Hd.
  assert (∀ id c, is_Some (standing (Rendezvous.set_boxes boxes s) !! (id, c)) ↔ is_Some (standing s !! (id, c))) as Hdom.
  { intros id c. rewrite !lookup_standing. unfold subscriberOf. cbn.
    destruct (boxes !! id) as [b'|] eqn:E.
    - destruct (Hold _ _ E) as (b & -> & _ & Hdd & _). cbn. by rewrite <- !elem_of_dom, Hdd.
    - assert (Rendezvous.boxes s !! id = None) as ->; [|done]. apply not_elem_of_dom. rewrite <- Hd.
      by apply not_elem_of_dom. }
  assert (dom (standing (Rendezvous.set_boxes boxes s)) = dom (standing s)) as Heq.
  { apply leibniz_equiv. intros [id c]. rewrite !elem_of_dom. apply Hdom. }
  split; [split|split]; cbn; rewrite ?Heq; try done.
  - intros id b' Hb'. destruct (Hold _ _ Hb') as (b & Hbox & _ & Hdd & _). specialize (Hn _ _ Hbox).
    intros E. apply Hn. rewrite E, dom_empty_L in Hdd. symmetry in Hdd. by apply dom_empty_inv_L in Hdd.
  - intros id c sub Hsub. destruct (proj1 (Hdom id c)) as [sub0 Hsub0]; [by rewrite Hsub|].
    specialize (Hk _ _ _ Hsub0). rewrite lookup_standing in Hsub, Hsub0.
    apply subscriberOf_box in Hsub as (b' & Hb' & Hx). apply subscriberOf_box in Hsub0 as (b0 & Hb0 & Hy).
    destruct (Hold _ _ Hb') as (b & Hbb & _ & _ & Hsame). simplify_eq.
    destruct (Hsame _ _ _ Hx Hy) as (-> & -> & -> & ->). exact Hk.
  - intros id b' Hb'. destruct (Hold _ _ Hb') as (b & Hbox & -> & _). by apply He.
Qed.

(** [set_subscribers] on one box, one subscription rewritten. *)
Lemma rewrite_one_ok s id b c sub sub' :
  boxes_ok s → Rendezvous.boxes s !! id = Some b → rendezvousBox.subscribers b !! c = Some sub →
  same_subscription sub' sub →
  boxes_ok (Rendezvous.set_boxes
    (<[id := rendezvousBox.set_subscribers (<[c := sub']> (rendezvousBox.subscribers b)) b]> (Rendezvous.boxes s)) s).
Proof.
  intros Hok Hb Hc Hsame. apply rewritten_ok; [done| |].
  - intros id' b' [ [<- <-]|[_ Hb'] ]%lookup_insert_Some.
    + exists b. split; [done|]. split; [done|]. cbn. split; [rewrite dom_insert_L; apply elem_of_dom_2 in Hc; set_solver|].
      intros c' x y [ [<- <-]|[_ Hx] ]%lookup_insert_Some Hy; [by simplify_eq|]. by simplify_eq.
    + exists b'. repeat split; try done; by simplify_eq.
  - apply elem_of_dom_2 in Hb. rewrite dom_insert_L. set_solver.
Qed.

Lemma remove_standing s box c :
  standing (removeRendezvous s box c) = delete (box, c) (standing s).
Proof.
  apply map_eq. intros [id' c']. rewrite lookup_delete, !lookup_standing. unfold removeRendezvous, subscriberOf.
  destruct (Rendezvous.boxes s !! box) as [record|] eqn:Hb.
  2:{ case_decide; [simplify_eq; by rewrite Hb|done]. }
  case_bool_decide as Hc; [case_decide; [simplify_eq; by rewrite Hb|done]|]. cbn.
  case_bool_decide as He.
  - rewrite lookup_delete. repeat case_decide; simplify_eq; try done. rewrite Hb. cbn.
    assert (delete c (rendezvousBox.subscribers record) !! c' = None) as Hd by by rewrite He, lookup_empty.
    rewrite lookup_delete_ne in Hd by congruence. by rewrite Hd.
  - rewrite lookup_insert. repeat case_decide; simplify_eq; try done; cbn.
    + by rewrite lookup_delete_eq.
    + rewrite Hb. cbn. by rewrite lookup_delete_ne by congruence.
Qed.

Lemma remove_ok s box c : boxes_ok s → boxes_ok (removeRendezvous s box c).
Proof.
  intros [ [Hc Hb Hn Hk] [Hs He] ]. pose proof (remove_standing s box c) as Hst.
  unfold removeRendezvous in *. destruct (Rendezvous.boxes s !! box) as [record|] eqn:Hbox; [|done].
  case_bool_decide as Hcon; [done|]. set (s' := Rendezvous.set_boxes _ _) in *.
  assert ((box, c) ∈ dom (standing s)) as Hin.
  { apply elem_of_dom. rewrite lookup_standing. unfold subscriberOf. rewrite Hbox. cbn.
    by destruct (_ !! c). }
  split; [split|split]; rewrite ?Hst.
  - rewrite dom_delete_L. exact (counted_release (Rendezvous.set_ready _ s) _ (box, c) Hc Hin).
  - intros c'. rewrite dom_delete_L. specialize (Hb c').
    assert (heldIn c' (dom (standing s) ∖ {[(box, c)]}) ≤ heldIn c' (dom (standing s)))%nat
      by (apply subseteq_size; set_solver). exact (Z.le_trans _ _ _ (inj_le _ _ H) Hb).
  - intros id b. subst s'. cbn. case_bool_decide as E.
    + intros [_ ?]%lookup_delete_Some. by eapply Hn.
    + intros [ [_ <-]|[_ ?] ]%lookup_insert_Some; [done|by eapply Hn].
  - intros id c' sub [_ H]%lookup_delete_Some. exact (Hk _ _ _ H).
  - exact Hs.
  - intros id b. subst s'. cbn. case_bool_decide as E.
    + intros [_ ?]%lookup_delete_Some. by eapply He.
    + intros [ [<- <-]|[_ ?] ]%lookup_insert_Some; [cbn; by apply He|by apply He].
Qed.

(** ** The calls *)

(** The subscription a Collect makes. *)
Definition made (s : Rendezvous.t) (clientId serverNonce rendezvousId : slice) : rendezvousSubscription.t :=
  rendezvousSubscription.mk clientId serverNonce rendezvousId 0 1 false (Rendezvous.allocated s).

Lemma make_standing s c n r e :
  standing (makeSubscription s c n r e).1 =
  <[(octets r, connectionKeyOf c n) := made s c n r]> (standing s).
Proof.
  apply map_eq. intros [id' c']. rewrite lookup_insert, !lookup_standing. unfold makeSubscription, subscriberOf.
  destruct (Rendezvous.boxes s !! octets r) as [b|] eqn:Hb; cbn; rewrite lookup_insert;
    repeat case_decide; simplify_eq; cbn; try done; rewrite ?lookup_insert_eq, ?lookup_insert_ne by congruence;
    rewrite ?Hb; done.
Qed.

Lemma make_ok s c n r e :
  boxes_ok s → subscriberOf s (octets r) (connectionKeyOf c n) = None →
  (∀ b, Rendezvous.boxes s !! octets r = Some b → rendezvousBox.expireTime b = e) →
  default 0 (Rendezvous.held s !! connectionKeyOf c n) < Rendezvous.maxPerConnection s →
  boxes_ok (makeSubscription s c n r e).1.
Proof.
  intros [ [Hc Hb Hn Hk] [Hs He] ] Hnew Hexp Hlt. pose proof (make_standing s c n r e) as Hst.
  set (k := (octets r, connectionKeyOf c n)) in *.
  assert (k ∉ dom (standing s)) as Hnot.
  { apply not_elem_of_dom. subst k. by rewrite lookup_standing. }
  rewrite (counted_held _ _ _ _ Hc) in Hlt.
  pose proof (counted_insert _ _ _ _ Hc Hnot) as Hc'.
  unfold makeSubscription in *. destruct (Rendezvous.boxes s !! octets r) as [b|] eqn:Hbox; cbn [fst] in *;
    (split; [split|split]; rewrite ?Hst, ?dom_insert_L; cbn [Rendezvous.held Rendezvous.count
       Rendezvous.boxes Rendezvous.expiry Rendezvous.maxPerConnection Rendezvous.allocated
       Rendezvous.set_allocated Rendezvous.set_counts Rendezvous.set_expiry Rendezvous.set_boxes]).
  1, 7: exact Hc'.
  1, 6: intros c'; rewrite heldIn_insert by done; specialize (Hb c'); subst k; cbn [snd];
        case_decide; [subst c'; lia|done].
  1, 5: intros id x [ [_ <-]|[_ ?] ]%lookup_insert_Some; [cbn; apply insert_non_empty|by eapply Hn].
  1, 4: intros id c' sub [ [Ek <-]|[_ Hsub] ]%lookup_insert_Some;
        [subst k; injection Ek as <- <-; cbn; split; [done|split; [done|lia] ]
        |destruct (Hk _ _ _ Hsub) as (? & ? & ?); split; [done|split; [done|lia] ] ].
  - exact Hs.
  - intros id x [ [<- <-]|[_ ?] ]%lookup_insert_Some; cbn; by apply He.
  - by apply heapPush_sorted.
  - intros id x [ [<- <-]|[_ ?] ]%lookup_insert_Some; cbn; apply heapPush_elem; [by left|right; by apply He].
Qed.

(** What a registered Collect finds or makes. *)
Lemma join_ok s c n r e :
  boxes_ok s → (∀ b, Rendezvous.boxes s !! octets r = Some b → rendezvousBox.expireTime b = e) →
  boxes_ok (joinOrMake s c n r e).1.
Proof.
  intros Hok Hexp. unfold joinOrMake. set (conn := connectionKeyOf c n).
  destruct (Rendezvous.boxes s !! octets r ≫= _) as [ [b present]|] eqn:Hp.
  - apply bind_Some in Hp as (b' & Hb & Hp). apply fmap_Some in Hp as (p & Hc & [= -> ->]). cbn.
    by eapply rewrite_one_ok.
  - destruct (_ <=? _) eqn:Hfull; [done|]. apply make_ok; [done| |done|by reflect_bools].
    unfold subscriberOf. destruct (Rendezvous.boxes s !! octets r) as [b|]; [|done]. cbn in *.
    fold conn. by destruct (rendezvousBox.subscribers b !! conn).
Qed.

Lemma subscribeRendezvous_ok s c n r e now : boxes_ok s → boxes_ok (subscribeRendezvous s c n r e now).1.
Proof.
  intros Hok. unfold subscribeRendezvous. destruct (prune_ok s now Hok) as [Hp _].
  set (s1 := pruneRendezvous s now) in *. clearbody s1.
  destruct (Rendezvous.boxes s1 !! octets r) as [b|] eqn:Hb; cbn [fmap option_fmap option_map];
    [|apply join_ok; [done|by intros ? H; rewrite Hb in H] ].
  unfold Before. destruct (e <? _) eqn:H1; [done|]. destruct (_ <? e) eqn:H2; reflect_bools.
  - apply join_ok; [by apply drop_ok|]. intros b'. destruct (drop_spec s1 (octets r) (proj1 Hp)) as [_ [-> _ _ _ _] ].
    by rewrite lookup_delete_eq.
  - apply join_ok; [done|]. intros b' H. simplify_eq. lia.
Qed.

Lemma settle_ok s c n r a taken : boxes_ok s → boxes_ok (settleRendezvous s c n r a taken).
Proof.
  intros Hok. unfold settleRendezvous.
  destruct (Rendezvous.boxes s !! octets r ≫= _) as [ [b cur]|] eqn:Hp; [|done].
  destruct (negb _); [done|]. apply bind_Some in Hp as (b' & Hb & Hp).
  apply fmap_Some in Hp as (p & Hc & [= -> ->]). destruct taken.
  - by eapply rewrite_one_ok.
  - destruct (_ && _); [apply remove_ok|]; by eapply rewrite_one_ok.
Qed.

Lemma set_ready_boxes_ok s x : boxes_ok s → boxes_ok (Rendezvous.set_ready x s).
Proof. by intros [ [] ?]. Qed.
Lemma set_visited_ok s x : boxes_ok s → boxes_ok (Rendezvous.set_visited x s).
Proof. by intros [ [] ?]. Qed.

Lemma deposited_ok s r pending now : boxes_ok s → boxes_ok (depositedRendezvous s r pending now).1.
Proof.
  intros Hok. unfold depositedRendezvous. destruct (prune_ok s now Hok) as [Hp _].
  set (s1 := pruneRendezvous s now) in *. clearbody s1.
  destruct (Rendezvous.boxes s1 !! octets r) as [b|] eqn:Hb; [|done]. cbn [fst].
  change (boxes_ok (Rendezvous.set_visited (u64 (Rendezvous.visited s1 +
      Z.of_nat (size (rendezvousSubscription.set_pending pending <$> rendezvousBox.subscribers b))))
    (Rendezvous.set_ready (set_map (λ connection, (connection, octets r))
       (dom (rendezvousSubscription.set_pending pending <$> rendezvousBox.subscribers b)) ∪ Rendezvous.ready s1)
    (Rendezvous.set_boxes (<[octets r := rendezvousBox.set_subscribers
       (rendezvousSubscription.set_pending pending <$> rendezvousBox.subscribers b) b]> (Rendezvous.boxes s1)) s1)))).
  apply set_visited_ok, set_ready_boxes_ok, rewritten_ok; [done| |].
  - intros id x [ [<- <-]|[_ Hx] ]%lookup_insert_Some.
    + exists b. split; [done|]. split; [done|]. cbn. split; [by rewrite dom_fmap_L|].
      intros c y z (y' & Hy & ->)%lookup_fmap_Some Hz. by simplify_eq.
    + exists x. repeat split; try done; by simplify_eq.
  - apply elem_of_dom_2 in Hb. rewrite dom_insert_L. set_solver.
Qed.

Lemma nextRendezvous_spec order s s' picked :
  nextRendezvous order s = (s', picked) →
  s' = Rendezvous.set_ready (Rendezvous.ready s') s ∧
  Rendezvous.ready s' ⊆ Rendezvous.ready s ∧
  match picked with
  | None => Rendezvous.ready s' = Rendezvous.ready s ∖ list_to_set order
  | Some (k, sub) => subscriberOf s k.2 k.1 = Some sub ∧ k ∈ order ∧ k ∉ Rendezvous.ready s'
  end.
Proof.
  revert s. induction order as [|k order IH]; intros s; cbn [nextRendezvous].
  { intros [= <- <-]. split; [by destruct s|]. set_solver. }
  set (s1 := Rendezvous.set_ready _ s).
  assert (Rendezvous.ready s1 = Rendezvous.ready s ∖ {[k]}) as Er by done.
  change (subscriberOf s1 k.2 k.1) with (subscriberOf s k.2 k.1).
  destruct (subscriberOf s k.2 k.1) as [sub|] eqn:Hk.
  - intros [= <- <-]. rewrite Er. split; [done|]. set_solver.
  - intros Hn. destruct (IH s1 Hn) as (H1 & H2 & H3). rewrite Er in H2, H3.
    split; [by rewrite H1|]. split; [set_solver|].
    destruct picked as [ [k' sub]|]; [|set_solver]. destruct H3 as (? & ? & ?). set_solver.
Qed.

Lemma nextRendezvous_order order s s' picked :
  order ≡ₚ elements (Rendezvous.ready s) → nextRendezvous order s = (s', picked) →
  match picked with
  | None => Rendezvous.ready s' = ∅
  | Some (k, _) => (size (Rendezvous.ready s') < size (Rendezvous.ready s))%nat
  end.
Proof.
  intros Ho Hn. destruct (nextRendezvous_spec _ _ _ _ Hn) as (_ & Hsub & Hp).
  destruct picked as [ [k sub]|].
  - destruct Hp as (_ & Hin & Hnot). apply (elem_of_order _ _ _ Ho) in Hin.
    apply subset_size. set_solver.
  - rewrite Hp. apply leibniz_equiv. intros k. rewrite elem_of_difference, elem_of_list_to_set.
    rewrite (elem_of_order _ _ _ Ho). set_solver.
Qed.

Lemma nextRendezvous_ok order s : boxes_ok s → boxes_ok (nextRendezvous order s).1.
Proof.
  intros Hok. destruct (nextRendezvous order s) as [s' picked] eqn:E.
  destruct (nextRendezvous_spec _ _ _ _ E) as (-> & _). by apply set_ready_boxes_ok.
Qed.

Lemma afterRendezvousPush_ok s k a ok : boxes_ok s → boxes_ok (afterRendezvousPush s k a ok).1.
Proof.
  intros Hok. unfold afterRendezvousPush. destruct (subscriberOf s k.2 k.1); [|done].
  destruct (negb _); [done|]. destruct ok; [done|by apply remove_ok].
Qed.

Lemma boxes_ok_new : boxes_ok NewRendezvous.
Proof.
  assert (standing NewRendezvous = ∅) as E.
  { apply map_eq. intros [id c]. rewrite lookup_standing. reflexivity. }
  split; [split|split]; rewrite ?E, ?dom_empty_L; try done; cbn.
  - by constructor.
Qed.
