(* ===== verification/RegistryProps.v ===== *)
(** * What the registry promises

    Over every history of calls and every interleaving with the delivery goroutine: the maps and the
    counts stay consistent and bounded; a subscription that is owed a push gets it, since no wake-up
    is lost and the goroutine's own steps come to an end; and no push goes above its subscriber's
    ceiling. *)

From S2P Require Import Prelude Subscriptions RendezvousPush Registry SubscriptionsProps RendezvousPushProps.

(** ** The invariant *)

(** [deliver] is between its signal and its select. *)
Definition delivering (p : place) : Prop :=
  match p with PickingBox | PushingBox _ _ _ _ | PickingGroup | PushingGroup _ _ _ _ _ => True | _ => False end.
Definition inBoxes (p : place) : Prop :=
  match p with PickingBox | PushingBox _ _ _ _ => True | _ => False end.

(** A wake-up is on its way. *)
Definition woken (c : config.t) : Prop :=
  Registry.signal (config.registry c) = true ∨ (0 < config.waking c)%nat.

Definition pushingGroup (p : place) (key : subscriptionKey) (address : nat) : Prop :=
  match p with PushingGroup _ k a _ _ => k = key ∧ a = address | _ => False end.

Record config_ok (c : config.t) : Prop := ConfigOk {
  co_groups : groups_ok (Registry.groups (config.registry c));
  co_boxes : boxes_ok (Registry.boxes (config.registry c));
  co_maxes : Subscriptions.maxPerConnection (Registry.groups (config.registry c)) = 32 ∧
             Rendezvous.maxPerConnection (Registry.boxes (config.registry c)) = 32;
  co_owed key sub : Subscriptions.byKey (Registry.groups (config.registry c)) !! key = Some sub →
    isOwed sub → key ∈ Subscriptions.ready (Registry.groups (config.registry c)) ∨
                 pushingGroup (config.at_ c) key (subscription.address sub);
  co_pushing pusher key address owed p : config.at_ c = PushingGroup pusher key address owed p →
    pushed_for (Registry.groups (config.registry c)) key address owed;
  co_push pusher key address owed p sub : config.at_ c = PushingGroup pusher key address owed p →
    Subscriptions.byKey (Registry.groups (config.registry c)) !! key = Some sub →
    subscription.address sub = address →
    p = push.ofGroup (subscription.clientId sub) (subscription.serverNonce sub)
          (subscription.groupId sub) owed;
  co_marked : Subscriptions.ready (Registry.groups (config.registry c)) ≠ ∅ →
    woken c ∨ delivering (config.at_ c);
  co_markedBoxes : Rendezvous.ready (Registry.boxes (config.registry c)) ≠ ∅ →
    woken c ∨ inBoxes (config.at_ c);
  co_stopped : config.at_ c = Stopped → Registry.closed (config.registry c) = true }.

(** What a call on the group half does to what is owed: it leaves a subscription, owes it more and
    marks it, or puts one in its place that is owed nothing. *)
Definition owes_after (s s' : Subscriptions.t) : Prop :=
  Subscriptions.maxPerConnection s' = Subscriptions.maxPerConnection s ∧
  Subscriptions.ready s ⊆ Subscriptions.ready s' ∧
  (Subscriptions.allocated s ≤ Subscriptions.allocated s')%nat ∧
  ∀ key sub', Subscriptions.byKey s' !! key = Some sub' →
    (∃ sub, Subscriptions.byKey s !! key = Some sub ∧
       sub' = subscription.set_owed (subscription.owed sub') sub ∧
       subscription.owed sub <= subscription.owed sub' ∧
       (isOwed sub' → isOwed sub ∨ key ∈ Subscriptions.ready s')) ∨
    (subscription.address sub' = Subscriptions.allocated s ∧ ¬ isOwed sub').

Lemma set_owed_id sub : sub = subscription.set_owed (subscription.owed sub) sub.
Proof. by destruct sub. Qed.

(** A subscription a call left as it was. *)
Ltac left_alone := left; eexists; split; [eassumption|split; [apply set_owed_id|split; [lia|auto] ] ].

Lemma owes_after_refl s : owes_after s s.
Proof. repeat split; try done. intros key sub H. left_alone. Qed.

Lemma owes_after_less s m n :
  (∀ key sub, m !! key = Some sub → Subscriptions.byKey s !! key = Some sub) →
  owes_after s (Subscriptions.set_maps m n s).
Proof. intros Hm. repeat split; try done. intros key sub H%Hm. left_alone. Qed.

Lemma forget_less s c key sub :
  Subscriptions.byKey (forgetConnection s c) !! key = Some sub → Subscriptions.byKey s !! key = Some sub.
Proof. cbn. rewrite set_fold_delete. by case_decide. Qed.

Lemma subscribe_owes s c n g e snapshot replace :
  owes_after s (subscribe s c n g e snapshot replace).1.
Proof.
  unfold subscribe. set (conn := connectionKeyOf c n).
  set (s1 := if replace then _ else s).
  assert (owes_after s s1 ∧ Subscriptions.ready s1 = Subscriptions.ready s ∧
          Subscriptions.allocated s1 = Subscriptions.allocated s ∧
          ∀ key sub, Subscriptions.byKey s1 !! key = Some sub → Subscriptions.byKey s !! key = Some sub) as (Ho & Hr & Ha & Hl).
  { subst s1. destruct replace; [|split; [apply owes_after_refl|auto] ].
    split; [apply owes_after_less; intros key sub; apply (forget_less s conn)|].
    split; [done|]. split; [done|]. intros key sub. apply forget_less. }
  destruct (_ && _); [done|]. destruct Ho as (Hm & _ & _ & _).
  split; [done|]. split; [cbn; by rewrite Hr|]. split; [cbn; lia|]. intros key sub'. cbn.
  intros [ [<- <-]|[_ H] ]%lookup_insert_Some.
  - right. cbn. split; [done|]. unfold isOwed. cbn. lia.
  - apply Hl in H. left_alone.
Qed.

Lemma unsubscribe_owes s c n ids all : owes_after s (unsubscribe s c n ids all).
Proof.
  unfold unsubscribe. destruct all; apply owes_after_less; intros key sub.
  - apply (forget_less s (connectionKeyOf c n)).
  - rewrite foldl_delete. by case_decide.
Qed.

Lemma published_owes s g records : owes_after s (published s g records).1.
Proof.
  destruct (decide (records = [])) as [->|Hr]; [apply owes_after_refl|].
  assert (Subscriptions.maxPerConnection (published s g records).1 = Subscriptions.maxPerConnection s ∧
    Subscriptions.allocated (published s g records).1 = Subscriptions.allocated s ∧
    Subscriptions.ready s ⊆ Subscriptions.ready (published s g records).1) as (E1 & E2 & E3).
  { unfold published. destruct records; [done|]. cbn. repeat split; try done. set_solver. }
  split; [done|]. split; [done|]. split; [by rewrite E2|]. intros key sub' Hs.
  pose proof Hs as Hs'. rewrite published_lookup in Hs by done. apply fmap_Some in Hs as (sub & Hsub & Es).
  left. exists sub. split; [done|].
  assert (sub' = subscription.set_owed (subscription.owed sub') sub ∧
          subscription.owed sub <= subscription.owed sub') as [Ea Eo].
  { rewrite Es. case_bool_decide; [|split; [apply set_owed_id|done] ]. split; [done|]. cbn.
    pose proof (owe_spec (subscription.readEpoch sub) records (subscription.owed sub)). lia. }
  split; [done|]. split; [done|]. intros Ho. destruct (decide (isOwed sub)) as [|Hn]; [by left|right].
  eapply published_marks; [done|done|]. intros sub0 H0 H1. by simplify_eq.
Qed.

(** The calls on the rendezvous half mark nothing, a deposit apart. *)
Definition keeps (s s' : Rendezvous.t) : Prop :=
  Rendezvous.maxPerConnection s' = Rendezvous.maxPerConnection s ∧ Rendezvous.ready s' ⊆ Rendezvous.ready s.

#[local] Instance keeps_preorder : PreOrder keeps.
Proof. split; [by intros s|]. intros a b c [? ?] [? ?]. split; [congruence|by etrans]. Qed.

Lemma keeps_prune s now : boxes_ok s → keeps s (pruneRendezvous s now).
Proof. intros Hok. by destruct (prune_ok s now Hok) as (_ & _ & _ & ? & ?). Qed.
Lemma keeps_drop s box : boxes_ok s → keeps s (dropRendezvousBox s box).
Proof. intros [Hok _]. by destruct (drop_spec s box Hok) as [_ [_ _ ? _ ?] ]. Qed.
Lemma keeps_remove s box c : keeps s (removeRendezvous s box c).
Proof.
  unfold removeRendezvous. destruct (Rendezvous.boxes s !! box); [|done]. case_bool_decide; [done|].
  split; [done|]. cbn. set_solver.
Qed.
Lemma keeps_join s c n r e : keeps s (joinOrMake s c n r e).1.
Proof.
  unfold joinOrMake. destruct (_ ≫= _) as [ [b p]|]; [done|]. destruct (_ <=? _); [done|].
  unfold makeSubscription. by destruct (Rendezvous.boxes s !! octets r).
Qed.

Lemma keeps_subscribe s c n r e now : boxes_ok s → keeps s (subscribeRendezvous s c n r e now).1.
Proof.
  intros Hok. pose proof (keeps_prune s now Hok) as Hk. destruct (prune_ok s now Hok) as [Hp _].
  unfold subscribeRendezvous. set (s1 := pruneRendezvous s now) in *.
  destruct (Rendezvous.boxes s1 !! octets r) as [b|]; cbn [fmap option_fmap option_map].
  - destruct (Before e _); [done|]. etrans; [exact Hk|].
    destruct (Before _ e); [etrans; [by apply keeps_drop|apply keeps_join]|apply keeps_join].
  - etrans; [exact Hk|apply keeps_join].
Qed.

Lemma keeps_settle s c n r a taken : keeps s (settleRendezvous s c n r a taken).
Proof.
  unfold settleRendezvous. destruct (_ ≫= _) as [ [b p]|]; [|done]. destruct (negb _); [done|].
  destruct taken; [done|]. destruct (_ && _); [|done].
  match goal with |- keeps _ (removeRendezvous ?s1 _ _) => assert (keeps s s1) as Hk by done end.
  etrans; [exact Hk|apply keeps_remove].
Qed.

Lemma keeps_deposit s r pending now :
  boxes_ok s → (depositedRendezvous s r pending now).2 = false → keeps s (depositedRendezvous s r pending now).1.
Proof.
  intros Hok. pose proof (keeps_prune s now Hok) as Hk. unfold depositedRendezvous.
  set (s1 := pruneRendezvous s now) in *. destruct (Rendezvous.boxes s1 !! octets r) as [b|]; [|done].
  cbn. intros E%bool_decide_eq_false%dec_stable. etrans; [exact Hk|]. split; [done|]. cbn.
  rewrite E, dom_empty_L, set_map_empty. set_solver.
Qed.

Lemma max_deposit s r pending now :
  boxes_ok s → Rendezvous.maxPerConnection (depositedRendezvous s r pending now).1 = Rendezvous.maxPerConnection s.
Proof.
  intros Hok. pose proof (keeps_prune s now Hok) as [Hk _]. unfold depositedRendezvous.
  by destruct (Rendezvous.boxes _ !! octets r).
Qed.

Lemma callOn_groups r q r' woke :
  groups_ok (Registry.groups r) → callOn r q = (r', woke) →
  groups_ok (Registry.groups r') ∧ owes_after (Registry.groups r) (Registry.groups r') ∧
  (woke = true ∨ Subscriptions.ready (Registry.groups r') = Subscriptions.ready (Registry.groups r)).
Proof.
  intros Hok. destruct q; cbn [callOn]; intros E.
  4: { destruct (published _ _ _) as [g w] eqn:Ep. simplify_eq. cbn.
       pose proof (published_ok (Registry.groups r) groupId records Hok) as H1.
       pose proof (published_owes (Registry.groups r) groupId records) as H2.
       pose proof (published_wakes (Registry.groups r) groupId records) as H3. rewrite Ep in *. cbn in *.
       split; [done|]. split; [done|]. destruct woke; auto. }
  6: { destruct (depositedRendezvous _ _ _ _) as [b w]. simplify_eq. cbn.
       split; [done|]. split; [apply owes_after_refl|by right]. }
  all: simplify_eq; cbn; (split; [auto with server|]); (split; [|right; try done]);
    try apply owes_after_refl; try apply subscribe_owes; try apply unsubscribe_owes.
  - unfold subscribe. destruct replace, (_ && _); reflexivity.
  - unfold unsubscribe. by destruct all.
Qed.

Lemma callOn_boxes r q r' woke :
  boxes_ok (Registry.boxes r) → callOn r q = (r', woke) →
  boxes_ok (Registry.boxes r') ∧
  Rendezvous.maxPerConnection (Registry.boxes r') = Rendezvous.maxPerConnection (Registry.boxes r) ∧
  (woke = true ∨ Rendezvous.ready (Registry.boxes r') ⊆ Rendezvous.ready (Registry.boxes r)).
Proof.
  intros Hok. destruct q; cbn [callOn]; intros E.
  4: { destruct (published _ _ _) as [g w]. simplify_eq. cbn. auto. }
  6: { destruct (depositedRendezvous _ _ _ _) as [b w] eqn:Ed. simplify_eq. cbn.
       pose proof (deposited_ok (Registry.boxes r) rendezvousId pending now Hok) as H1.
       pose proof (max_deposit (Registry.boxes r) rendezvousId pending now Hok) as H2.
       pose proof (keeps_deposit (Registry.boxes r) rendezvousId pending now Hok) as H3. rewrite Ed in *. cbn in *.
       split; [done|]. split; [done|]. destruct woke; [by left|right]. by apply H3. }
  all: simplify_eq; cbn.
  1, 2, 3, 7: by auto.
  - destruct (keeps_subscribe (Registry.boxes r) clientId serverNonce rendezvousId expireTime now Hok).
    split; [by apply subscribeRendezvous_ok|auto].
  - destruct (keeps_settle (Registry.boxes r) clientId serverNonce rendezvousId claimed taken).
    split; [by apply settle_ok|auto].
  - destruct (keeps_drop (Registry.boxes r) (octets rendezvousId) Hok). split; [by apply drop_ok|auto].
Qed.

Lemma callOn_rest r q r' woke :
  callOn r q = (r', woke) →
  Registry.signal r' = Registry.signal r ∧ (Registry.closed r = true → Registry.closed r' = true).
Proof.
  destruct q; cbn; try (by intros [= <- <-]).
  - destruct (published _ _ _). by intros [= <- <-].
  - destruct (depositedRendezvous _ _ _ _). by intros [= <- <-].
Qed.

Lemma call_ok q c c' : config_ok c → call_step q c c' → config_ok c'.
Proof.
  intros [Hg Hb [Hm1 Hm2] Ho Hp Hpu Hr Hrb Hst]. unfold call_step.
  destruct (callOn (config.registry c) q) as [r woke] eqn:E. intros ->.
  destruct (callOn_groups _ _ _ _ Hg E) as (Hg' & (Hm & Hsub & Hal & Hkey) & Hw).
  destruct (callOn_boxes _ _ _ _ Hb E) as (Hb' & Hmb & Hwb).
  destruct (callOn_rest _ _ _ _ E) as [Hsig Hcl].
  assert (woke = true → woken (config.mk r (if woke then S (config.waking c) else config.waking c)
    (config.at_ c) (config.sent c))) as Hwoken by (intros ->; right; cbn; lia).
  assert (woken c → woken (config.mk r (if woke then S (config.waking c) else config.waking c)
    (config.at_ c) (config.sent c))) as Hwoken'.
  { unfold woken. cbn. rewrite Hsig. destruct woke; [|done]. intros _. right. lia. }
  split; cbn.
  - done.
  - done.
  - by rewrite Hm, Hmb.
  - intros key sub Hs Hi. destruct (Hkey _ _ Hs) as [(sub0 & Hs0 & Ha & _ & Hor)|[_ Hn] ]; [|done].
    destruct (Hor Hi) as [Hi0|]; [|by left]. destruct (Ho _ _ Hs0 Hi0); [left; by apply Hsub|right; by rewrite Ha].
  - intros pusher key address owed p Hat. destruct (Hp _ _ _ _ _ Hat) as [Hlt Hle]. split; [lia|].
    intros cur Hcur Ha. destruct (Hkey _ _ Hcur) as [(sub0 & Hs0 & Ha0 & Hoo & _)|[Hnew _] ]; [|lia].
    rewrite Ha0 in Ha. specialize (Hle _ Hs0 Ha). lia.
  - intros pusher key address owed p cur Hat Hcur Ha. destruct (Hp _ _ _ _ _ Hat) as [Hlt _].
    destruct (Hkey _ _ Hcur) as [(sub0 & Hs0 & Ha0 & _)|[Hnew _] ]; [|lia].
    rewrite Ha0 in Ha |- *. by apply (Hpu _ _ _ _ _ _ Hat Hs0).
  - intros Hne. destruct Hw as [Hw|Hw]; [left; by apply Hwoken|]. rewrite Hw in Hne.
    destruct (Hr Hne); [left; by apply Hwoken'|by right].
  - intros Hne. destruct Hwb as [Hx|Hx]; [left; by apply Hwoken|].
    assert (Rendezvous.ready (Registry.boxes (config.registry c)) ≠ ∅) as Hne' by set_solver.
    destruct (Hrb Hne'); [left; by apply Hwoken'|by right].
  - intros Hat. by apply Hcl, Hst.
Qed.

(** ** The delivery goroutine's steps *)

Lemma afterPush_owes s k a o ok :
  Subscriptions.maxPerConnection (afterPush s k a o ok).1 = Subscriptions.maxPerConnection s ∧
  Subscriptions.ready s ⊆ Subscriptions.ready (afterPush s k a o ok).1 ∧
  ∀ key sub, Subscriptions.byKey (afterPush s k a o ok).1 !! key = Some sub → isOwed sub →
    key ∈ Subscriptions.ready (afterPush s k a o ok).1 ∨
    (Subscriptions.byKey s !! key = Some sub ∧ ¬ (k = key ∧ a = subscription.address sub)).
Proof.
  unfold afterPush. destruct (Subscriptions.byKey s !! k) as [cur|] eqn:Hk.
  2:{ cbn. repeat split; try done. intros key sub H _. right. split; [done|]. intros [-> _]. by simplify_eq. }
  destruct (negb _) eqn:Ha.
  { apply negb_true_iff, Nat.eqb_neq in Ha. cbn. repeat split; try done. intros key sub H _. right.
    split; [done|]. intros [-> E]. rewrite Hk in H. injection H as ->. by apply Ha. }
  apply negb_false_iff, Nat.eqb_eq in Ha. destruct ok.
  - set (cur' := if subscription.notified cur <? o then _ else _). clearbody cur'.
    destruct (subscription.notified cur' <? subscription.owed cur') eqn:E; cbn; reflect_bools;
      (split; [done|]); (split; [set_solver|]); intros key sub [ [<- <-]|[Hne H] ]%lookup_insert_Some Hi.
    + left. set_solver.
    + right. split; [done|]. by intros [? _].
    + unfold isOwed in Hi. lia.
    + right. split; [done|]. by intros [? _].
  - cbn. repeat split; try done. intros key sub [Hne H]%lookup_delete_Some _. right. split; [done|]. by intros [? _].
Qed.

Lemma keeps_afterRendezvousPush s k a ok : keeps s (afterRendezvousPush s k a ok).1.
Proof.
  unfold afterRendezvousPush. destruct (subscriberOf _ _ _); [|done]. destruct (negb _); [done|].
  destruct ok; [done|apply keeps_remove].
Qed.

Lemma pickGroup_ok order r n sent :
  order ≡ₚ elements (Subscriptions.ready (Registry.groups r)) →
  config_ok (config.mk r n PickingGroup sent) →
  config_ok (config.mk (pickGroup order r).1 n (pickGroup order r).2 sent).
Proof.
  intros Hord [Hg Hb [Hm1 Hm2] Ho _ _ Hr Hrb _]; cbn in *. unfold pickGroup.
  destruct (nextOwed order (Registry.groups r)) as [s' picked] eqn:E.
  destruct (nextOwed_spec _ _ _ _ E) as (Hs & Hsub & Hkeep & Hp).
  pose proof (nextOwed_order _ _ _ _ Hord E) as Hsz.
  pose proof (nextOwed_ok order _ Hg) as Hg'. rewrite E in Hg'. cbn in Hg'.
  assert (Subscriptions.byKey s' = Subscriptions.byKey (Registry.groups r) ∧
    Subscriptions.maxPerConnection s' = Subscriptions.maxPerConnection (Registry.groups r)) as [Ek Em] by (by rewrite Hs).
  assert (∀ key sub, Subscriptions.byKey (Registry.groups r) !! key = Some sub → isOwed sub →
    key ∈ Subscriptions.ready s' ∨ ∃ x, picked = Some (key, x)) as Howed.
  { intros key sub Hsu Hi. destruct (Ho _ _ Hsu Hi) as [Hin|[] ]. apply Hkeep; [done|by eexists]. }
  destruct picked as [ [k sub]|]; cbn; split; cbn; try done; rewrite ?Ek, ?Em; try done; try (by auto).
  - intros key sub' Hsu Hi. destruct (Howed _ _ Hsu Hi) as [|(x & [= -> ->])]; [by left|right].
    destruct Hp as (Hx & _). rewrite Hsu in Hx. by injection Hx as ->.
  - intros pusher key address owed p [= <- <- <- <- _]. destruct Hp as (Hx & _).
    destruct (go_keyed _ Hg _ _ Hx) as (_ & _ & Hlt). split; [by rewrite Hs|]. rewrite Ek.
    intros cur Hcur _. rewrite Hx in Hcur. by injection Hcur as ->.
  - intros pusher key address owed p cur [= <- <- <- <- <-] Hcur _. destruct Hp as (Hx & _).
    rewrite Hx in Hcur. by injection Hcur as ->.
  - intros key sub' Hsu Hi. destruct (Howed _ _ Hsu Hi) as [|(x & ?)]; [by left|done].
Qed.

Lemma pushGroup_ok pusher k a o p ok r n sent sent' :
  config_ok (config.mk r n (PushingGroup pusher k a o p) sent) →
  config_ok (config.mk (donePushingGroup k a o ok r) n PickingGroup sent').
Proof.
  intros [Hg Hb [Hm1 Hm2] Ho Hp _ Hr Hrb _]; cbn in *. specialize (Hp _ _ _ _ _ eq_refl).
  unfold donePushingGroup. pose proof (afterPush_ok _ _ _ _ ok Hg Hp) as Hg'.
  destruct (afterPush_owes (Registry.groups r) k a o ok) as (Hm & Hsub & Hkey).
  destruct (afterPush _ _ _ _ _) as [s' counted]. cbn in *.
  destruct counted as [ []|]; split; cbn; try done; try (by rewrite Hm); try (by auto);
    intros key sub Hsu Hi; destruct (Hkey _ _ Hsu Hi) as [|[Hold Hne] ]; try (by left);
    destruct (Ho _ _ Hold Hi) as [|Hpush]; [by left; apply Hsub|done|by left; apply Hsub|done|by left; apply Hsub|done].
Qed.

Lemma pickBox_ok order r n sent :
  order ≡ₚ elements (Rendezvous.ready (Registry.boxes r)) →
  config_ok (config.mk r n PickingBox sent) →
  config_ok (config.mk (pickBox order r).1 n (pickBox order r).2 sent).
Proof.
  intros Hord [Hg Hb [Hm1 Hm2] Ho _ _ Hr Hrb _]; cbn in *. unfold pickBox.
  destruct (nextRendezvous order (Registry.boxes r)) as [s' picked] eqn:E.
  destruct (nextRendezvous_spec _ _ _ _ E) as (Hs & Hsub & Hp).
  pose proof (nextRendezvous_order _ _ _ _ Hord E) as Hsz.
  pose proof (nextRendezvous_ok order _ Hb) as Hb'. rewrite E in Hb'. cbn in Hb'.
  assert (Rendezvous.maxPerConnection s' = Rendezvous.maxPerConnection (Registry.boxes r)) as Em by (by rewrite Hs).
  assert (∀ key sub, Subscriptions.byKey (Registry.groups r) !! key = Some sub → isOwed sub →
    key ∈ Subscriptions.ready (Registry.groups r) ∨ False) as Ho' by exact Ho.
  destruct picked as [ [k sub]|]; cbn; split; cbn; try done; rewrite ?Em; try done; try (by auto).
Qed.

Lemma pushBox_ok pusher k a p ok r n sent sent' :
  config_ok (config.mk r n (PushingBox pusher k a p) sent) →
  config_ok (config.mk (donePushingBox k a ok r) n PickingBox sent').
Proof.
  intros [Hg Hb [Hm1 Hm2] Ho Hp _ Hr Hrb _]; cbn in *.
  unfold donePushingBox. pose proof (afterRendezvousPush_ok _ k a ok Hb) as Hb'.
  destruct (keeps_afterRendezvousPush (Registry.boxes r) k a ok) as [Hm Hsub].
  destruct (afterRendezvousPush _ _ _ _) as [s' counted]. cbn in *.
  destruct counted as [ []|]; split; cbn; try done; try (by rewrite Hm); try (by auto).
Qed.

Lemma own_ok willing c c' : config_ok c → own_step willing c c' → config_ok c'.
Proof.
  intros Hok Hs. destruct Hs.
  - destruct Hok as [Hg Hb Hm Ho Hp Hpu Hr Hrb Hst]. split; cbn in *; try done.
    + intros _. by left; left.
    + intros _. by left; left.
  - destruct Hok as [Hg Hb Hm Ho Hp Hpu Hr Hrb Hst]. split; cbn in *; try done; by auto.
  - destruct Hok as [Hg Hb Hm Ho Hp Hpu Hr Hrb Hst]. split; cbn in *; try done.
  - by apply pickBox_ok.
  - by eapply pushBox_ok.
  - by apply pickGroup_ok.
  - by eapply pushGroup_ok.
Qed.

Lemma reached_ok h c : reached h c → config_ok c.
Proof.
  induction 1 as [|h q c c' _ IH Hs|h c c' _ IH Hs].
  - split; cbn; try done.
    + apply groups_ok_new.
    + apply boxes_ok_new.
  - by eapply call_ok.
  - by eapply own_ok.
Qed.

(** ** The goroutine comes to rest *)

(** A push under way of less than its subscription is owed: it will be marked again. *)
Definition behind (s : Subscriptions.t) (key : subscriptionKey) (address : nat) (owed : Z) : bool :=
  match Subscriptions.byKey s !! key with
  | Some sub => (subscription.address sub =? address)%nat && (owed <? subscription.owed sub)
  | None => false
  end.

Definition placeCost (s : Subscriptions.t) (p : place) : nat :=
  match p with
  | Stopped => 0
  | Selecting => 1
  | PickingGroup => 2
  | PushingGroup _ key address owed _ => 3 + (if behind s key address owed then 2 else 0)
  | PickingBox => 3
  | PushingBox _ _ _ _ => 4
  end.

(** How many of its own steps are left at most. *)
Definition stepsLeft (c : config.t) : nat :=
  4 * config.waking c + (if Registry.signal (config.registry c) then 3 else 0) +
  placeCost (Registry.groups (config.registry c)) (config.at_ c) +
  2 * size (Subscriptions.ready (Registry.groups (config.registry c))) +
  2 * size (Rendezvous.ready (Registry.boxes (config.registry c))).

Lemma afterPush_cost s k a o ok :
  (2 * size (Subscriptions.ready (afterPush s k a o ok).1) <=
   2 * size (Subscriptions.ready s) + (if behind s k a o then 2 else 0))%nat.
Proof.
  unfold afterPush, behind. destruct (Subscriptions.byKey s !! k) as [cur|]; [|cbn; lia].
  destruct (subscription.address cur =? a)%nat; [|cbn; lia]. cbn [negb andb]. destruct ok; [|cbn; lia].
  destruct (subscription.notified cur <? o) eqn:E1; cbn [subscription.set_notified subscription.notified subscription.owed].
  - destruct (o <? subscription.owed cur); [|cbn; lia]. cbn.
    pose proof (size_union_alt {[k]} (Subscriptions.ready s)) as Hs. rewrite size_singleton in Hs.
    assert (size (Subscriptions.ready s ∖ {[k]}) ≤ size (Subscriptions.ready s))%nat by (apply subseteq_size; set_solver).
    lia.
  - destruct (subscription.notified cur <? subscription.owed cur) eqn:E2; [|cbn; lia]. reflect_bools.
    rewrite (proj2 (Z.ltb_lt o _)) by lia. cbn.
    pose proof (size_union_alt {[k]} (Subscriptions.ready s)) as Hs. rewrite size_singleton in Hs.
    assert (size (Subscriptions.ready s ∖ {[k]}) ≤ size (Subscriptions.ready s))%nat by (apply subseteq_size; set_solver).
    lia.
Qed.

Lemma own_costs willing c c' : own_step willing c c' → (stepsLeft c' < stepsLeft c)%nat.
Proof.
  intros Hs. destruct Hs as [r n at_ sent|r n sent Hsig|r n sent Hcl|order r n sent Ho
    |pusher key a p ok r n sent _|order r n sent Ho|pusher key a o p ok r n sent _]; unfold stepsLeft; cbn.
  - destruct (Registry.signal r); lia.
  - rewrite Hsig. lia.
  - lia.
  - unfold pickBox. destruct (nextRendezvous order (Registry.boxes r)) as [s' picked] eqn:E.
    pose proof (nextRendezvous_order _ _ _ _ Ho E) as Hsz.
    destruct (nextRendezvous_spec _ _ _ _ E) as (_ & Hsub & _).
    apply subseteq_size in Hsub. destruct picked as [ [k sub]|]; cbn; lia.
  - unfold donePushingBox. destruct (keeps_afterRendezvousPush (Registry.boxes r) key a (pusher && ok)) as [_ Hsub].
    destruct (afterRendezvousPush _ _ _ _) as [s' counted]. apply subseteq_size in Hsub. cbn in Hsub.
    destruct counted as [ []|]; cbn; lia.
  - unfold pickGroup. destruct (nextOwed order (Registry.groups r)) as [s' picked] eqn:E.
    pose proof (nextOwed_order _ _ _ _ Ho E) as Hsz.
    destruct (nextOwed_spec _ _ _ _ E) as (Hs & Hsub & _ & Hp).
    apply subseteq_size in Hsub. destruct picked as [ [k sub]|]; cbn; [|lia].
    assert (behind s' k (subscription.address sub) (subscription.owed sub) = false) as ->; [|lia].
    unfold behind. rewrite Hs. cbn. destruct Hp as (-> & _). by rewrite Z.ltb_irrefl, andb_false_r.
  - unfold donePushingGroup. pose proof (afterPush_cost (Registry.groups r) key a o (pusher && ok)) as Hc.
    destruct (afterPush _ _ _ _ _) as [s' counted]. cbn in Hc. destruct counted as [ []|]; cbn; lia.
Qed.

(** Where it can take no step, it waits in its select and no wake-up is coming. *)
Lemma at_rest willing c :
  config_ok c → Registry.closed (config.registry c) = false → (∀ c', ¬ own_step willing c c') →
  config.at_ c = Selecting ∧ ¬ woken c.
Proof.
  intros Hok Hcl Hno. destruct c as [r n p sent]. cbn in *.
  assert (n = 0%nat) as ->.
  { destruct n as [|n]; [done|]. destruct (Hno _ (step_wake _ r n p sent)). }
  destruct p as [| |pusher key a p| |pusher key a o p|].
  - split; [done|]. intros [Hs|Hs]; cbn in Hs; [|lia]. destruct (Hno _ (step_signal _ r 0 sent Hs)).
  - destruct (Hno _ (step_pick_box _ _ r 0 sent (Permutation_refl _))).
  - destruct (Hno _ (step_push_box willing pusher key a p true r 0 sent (λ _, eq_refl))).
  - destruct (Hno _ (step_pick_group _ _ r 0 sent (Permutation_refl _))).
  - destruct (Hno _ (step_push_group willing pusher key a o p true r 0 sent (λ _, eq_refl))).
  - specialize (co_stopped _ Hok eq_refl). cbn. by rewrite Hcl.
Qed.

Lemma rest_owes_nothing willing c :
  config_ok c → Registry.closed (config.registry c) = false → (∀ c', ¬ own_step willing c c') →
  (∀ key sub, Subscriptions.byKey (Registry.groups (config.registry c)) !! key = Some sub → ¬ isOwed sub) ∧
  Rendezvous.ready (Registry.boxes (config.registry c)) = ∅.
Proof.
  intros Hok Hcl Hno. destruct (at_rest _ _ Hok Hcl Hno) as [Hat Hw]. split.
  - intros key sub Hs Hi. destruct (co_owed _ Hok _ _ Hs Hi) as [Hin|Hp]; [|by rewrite Hat in Hp].
    destruct (co_marked _ Hok) as [|Hd]; [set_solver|done|by rewrite Hat in Hd].
  - destruct (decide (Rendezvous.ready (Registry.boxes (config.registry c)) = ∅)) as [|Hne]; [done|].
    destruct (co_markedBoxes _ Hok Hne) as [|Hd]; [done|by rewrite Hat in Hd].
Qed.

(** ** One subscription over the goroutine's steps *)

Definition pushOf (sub : subscription.t) (highWater : Z) : push.t :=
  push.ofGroup (subscription.clientId sub) (subscription.serverNonce sub) (subscription.groupId sub) highWater.

(** What the steps from [c0] have done to a subscription that stood there: it still stands and
    whatever it was notified of since was handed out, or it was dropped, which a willing pusher
    does not do. *)
Definition tracked (willing : bool) (key : subscriptionKey) (sub0 : subscription.t) (c : config.t) : Prop :=
  match Subscriptions.byKey (Registry.groups (config.registry c)) !! key with
  | None => willing = false
  | Some sub =>
      sub = subscription.set_notified (subscription.notified sub) sub0 ∧
      (subscription.notified sub = subscription.notified sub0 ∨
       pushOf sub0 (subscription.notified sub) ∈ config.sent c)
  end.

(** A pusher is set, and no push was begun without one. *)
Definition served (c : config.t) : Prop :=
  Registry.pusher (config.registry c) = true ∧
  match config.at_ c with PushingGroup pusher _ _ _ _ | PushingBox pusher _ _ _ => pusher = true | _ => True end.

Lemma tracked_same willing key sub0 r r' n n' p p' sent sent' :
  Subscriptions.byKey (Registry.groups r') = Subscriptions.byKey (Registry.groups r) →
  sent ⊆ sent' → tracked willing key sub0 (config.mk r n p sent) → tracked willing key sub0 (config.mk r' n' p' sent').
Proof.
  unfold tracked. cbn. intros -> Hsub. destruct (_ !! key); [|done].
  intros [? [?|?] ]; split; auto.
Qed.

Lemma handedOut_more pusher p sent : sent ⊆ handedOut pusher p sent.
Proof. destruct pusher; cbn; [|done]. intros x Hx. apply elem_of_app. by left. Qed.

Lemma afterPush_byKey s k a o ok :
  Subscriptions.byKey (afterPush s k a o ok).1 =
  match Subscriptions.byKey s !! k with
  | Some cur =>
      if (subscription.address cur =? a)%nat then
        if ok then <[k := if subscription.notified cur <? o then subscription.set_notified o cur else cur]>
                     (Subscriptions.byKey s)
        else delete k (Subscriptions.byKey s)
      else Subscriptions.byKey s
  | None => Subscriptions.byKey s
  end.
Proof.
  unfold afterPush. destruct (Subscriptions.byKey s !! k) as [cur|]; [|done].
  destruct (subscription.address cur =? a)%nat; [|done]. destruct ok; [|done]. cbn [negb fst].
  by destruct (subscription.notified (if _ <? o then _ else _) <? _).
Qed.

Lemma tracked_push willing pusher k a o p answer key sub0 r n sent :
  (willing = true → answer = true ∧ pusher = true) →
  config_ok (config.mk r n (PushingGroup pusher k a o p) sent) →
  tracked willing key sub0 (config.mk r n (PushingGroup pusher k a o p) sent) →
  tracked willing key sub0
    (config.mk (donePushingGroup k a o (pusher && answer) r) n PickingGroup (handedOut pusher p sent)).
Proof.
  intros Hans Hok. pose proof (co_push _ Hok pusher k a o p) as Hpush. cbn in Hpush.
  unfold tracked. cbn [config.registry config.sent]. unfold donePushingGroup.
  assert (Subscriptions.byKey (Registry.groups (let '(groups, counted) := afterPush (Registry.groups r) k a o (pusher && answer) in
    Registry.count counted (Registry.set_groups groups r))) =
    Subscriptions.byKey (afterPush (Registry.groups r) k a o (pusher && answer)).1) as ->.
  { destruct (afterPush _ _ _ _ _) as [s' [ []|] ]; done. }
  assert (∀ m : option subscription.t, m = Subscriptions.byKey (Registry.groups r) !! key →
    match m with
    | None => willing = false
    | Some sub => sub = subscription.set_notified (subscription.notified sub) sub0 ∧
        (subscription.notified sub = subscription.notified sub0 ∨ pushOf sub0 (subscription.notified sub) ∈ sent)
    end →
    match m with
    | None => willing = false
    | Some sub => sub = subscription.set_notified (subscription.notified sub) sub0 ∧
        (subscription.notified sub = subscription.notified sub0 ∨
         pushOf sub0 (subscription.notified sub) ∈ handedOut pusher p sent)
    end) as Hsame.
  { intros [sub|] _; [|done]. intros [? [?|?] ]; split; auto. right. by apply handedOut_more. }
  rewrite afterPush_byKey. destruct (Subscriptions.byKey (Registry.groups r) !! k) as [cur|] eqn:Hk; [|by apply Hsame].
  destruct (subscription.address cur =? a)%nat eqn:Ha; [|by apply Hsame].
  apply Nat.eqb_eq in Ha. specialize (Hpush cur eq_refl eq_refl Ha).
  destruct (pusher && answer) eqn:Hd.
  - apply andb_prop in Hd as [-> ->]. rewrite lookup_insert. case_decide as Ek; [|by apply Hsame].
    subst k. rewrite Hk. intros [Hcur Hor]. unfold handedOut.
    destruct (subscription.notified cur <? o) eqn:Eo; cbn [subscription.notified subscription.set_notified].
    + split; [by rewrite Hcur|]. right. apply elem_of_app. right. apply list_elem_of_singleton.
      rewrite Hpush, Hcur. done.
    + split; [done|]. destruct Hor; [by left|right; apply elem_of_app; by left].
  - rewrite lookup_delete. case_decide as Ek; [|by apply Hsame].
    intros _. destruct willing; [|done]. destruct Hans as [-> ->]; [done|]. done.
Qed.

Lemma tracked_step willing key sub0 c c' :
  config_ok c → (willing = true → served c) → own_step willing c c' →
  tracked willing key sub0 c → tracked willing key sub0 c' ∧ (willing = true → served c').
Proof.
  intros Hok Hsv Hs Ht. destruct Hs as [r n at_ sent|r n sent Hsig|r n sent Hcl|order r n sent Ho
    |pusher k a p ok r n sent Hw|order r n sent Ho|pusher k a o p ok r n sent Hw].
  - split; [refine (tracked_same _ _ _ _ _ _ _ _ _ _ _ _ _ Ht); done|]. exact Hsv.
  - split; [refine (tracked_same _ _ _ _ _ _ _ _ _ _ _ _ _ Ht); done|]. intros Hwl. destruct (Hsv Hwl) as [? _]. by split.
  - split; [refine (tracked_same _ _ _ _ _ _ _ _ _ _ _ _ _ Ht); done|]. intros Hwl. destruct (Hsv Hwl) as [? _]. by split.
  - unfold pickBox. destruct (nextRendezvous order (Registry.boxes r)) as [s' picked].
    split; [refine (tracked_same _ _ _ _ _ _ _ _ _ _ _ _ _ Ht); done|]. intros Hwl. destruct (Hsv Hwl) as [Hp _].
    split; [done|]. cbn. by destruct picked as [ [? ?]|].
  - unfold donePushingBox. destruct (afterRendezvousPush _ _ _ _) as [s' counted].
    split; [refine (tracked_same _ _ _ _ _ _ _ _ _ _ _ _ (handedOut_more _ _ _) Ht); by destruct counted as [ []|]|].
    intros Hwl. destruct (Hsv Hwl) as [? _]. split; [|done]. by destruct counted as [ []|].
  - unfold pickGroup. destruct (nextOwed order (Registry.groups r)) as [s' picked] eqn:E.
    destruct (nextOwed_spec _ _ _ _ E) as (Hs' & _).
    split; [refine (tracked_same _ _ _ _ _ _ _ _ _ _ _ _ _ Ht); [cbn; by rewrite Hs'|done]|]. intros Hwl. destruct (Hsv Hwl) as [Hp _].
    split; [done|]. cbn. by destruct picked as [ [? ?]|].
  - split.
    + apply tracked_push; [|done|done]. intros Hwl. split; [by apply Hw|]. by destruct (Hsv Hwl).
    + intros Hwl. destruct (Hsv Hwl) as [? _]. split; [|done]. cbn. unfold donePushingGroup.
      by destruct (afterPush _ _ _ _ _) as [s' [ []|] ].
Qed.

Lemma set_notified_id sub : sub = subscription.set_notified (subscription.notified sub) sub.
Proof. by destruct sub. Qed.

Lemma tracked_steps willing key sub0 c c' :
  config_ok c → rtc (own_step willing) c c' → tracked willing key sub0 c → (willing = true → served c) →
  tracked willing key sub0 c'.
Proof.
  intros Hok Hs. induction Hs as [|x y z Hxy _ IH]; [done|]. intros Ht Hsv.
  destruct (tracked_step _ _ _ _ _ Hok Hsv Hxy Ht). apply IH; [by eapply own_ok|done|done].
Qed.

Lemma own_closed willing c c' :
  rtc (own_step willing) c c' → Registry.closed (config.registry c) = false →
  Registry.closed (config.registry c') = false.
Proof.
  induction 1 as [|x y z Hxy _ IH]; [done|]. intros H. apply IH. destruct Hxy; try done; cbn in *.
  - unfold pickBox. by destruct (nextRendezvous _ _).
  - unfold donePushingBox. by destruct (afterRendezvousPush _ _ _ _) as [s' [ []|] ].
  - unfold pickGroup. by destruct (nextOwed _ _).
  - unfold donePushingGroup. by destruct (afterPush _ _ _ _ _) as [s' [ []|] ].
Qed.

(** ** The ceiling *)

(** What a connection subscribed to, at which ceiling and from which snapshot, and the high water it
    may be told of: that snapshot, or a record published to the group and sealed at or under the
    ceiling. *)
Definition entitled (h : list request) (clientId serverNonce groupId : list Z) (readEpoch highWater : Z) : Prop :=
  ∃ c n g snapshot replace,
    ToSubscribe c n g readEpoch snapshot replace ∈ h ∧
    octets c = clientId ∧ octets n = serverNonce ∧ octets g = groupId ∧
    (highWater = snapshot ∨
     ∃ g' records epoch, ToPublish g' records ∈ h ∧ octets g' = groupId ∧
       (highWater, epoch) ∈ records ∧ epoch <= readEpoch).

Definition entitledPush (h : list request) (p : push.t) : Prop :=
  match push.body p with
  | inl (groupId, highWater) =>
      ∃ readEpoch, entitled h (octets (push.clientId p)) (octets (push.serverNonce p)) (octets groupId)
                     readEpoch highWater
  | inr _ => True
  end.

Definition entitledSub (h : list request) (sub : subscription.t) : Prop :=
  entitled h (octets (subscription.clientId sub)) (octets (subscription.serverNonce sub))
    (octets (subscription.groupId sub)) (subscription.readEpoch sub) (subscription.owed sub).

Definition under_ceiling (h : list request) (c : config.t) : Prop :=
  (∀ key sub, Subscriptions.byKey (Registry.groups (config.registry c)) !! key = Some sub → entitledSub h sub) ∧
  match config.at_ c with PushingGroup _ _ _ _ p | PushingBox _ _ _ p => entitledPush h p | _ => True end ∧
  Forall (entitledPush h) (config.sent c).

Lemma entitled_more h (q : request) cl sn g e hw : entitled h cl sn g e hw → entitled (h ++ [q]) cl sn g e hw.
Proof.
  intros (c & n & g' & sna & rep & Hin & H1 & H2 & H3 & H4). exists c, n, g', sna, rep.
  split; [apply elem_of_app; by left|]. repeat (split; [done|]).
  destruct H4 as [|(g2 & records & ep & Hp & H5)]; [by left|right]. exists g2, records, ep.
  split; [apply elem_of_app; by left|done].
Qed.

Lemma entitledPush_more h (q : request) p : entitledPush h p → entitledPush (h ++ [q]) p.
Proof.
  unfold entitledPush. destruct (push.body p) as [ [g hw]|]; [|done]. intros [e He]. exists e.
  by apply entitled_more.
Qed.

Lemma less_entitled (h : list request) (q : request) (m m' : gmap subscriptionKey subscription.t) :
  (∀ key sub, m' !! key = Some sub → m !! key = Some sub) →
  (∀ key sub, m !! key = Some sub → entitledSub h sub) →
  ∀ key sub, m' !! key = Some sub → entitledSub (h ++ [q]) sub.
Proof. intros Hm Hs key sub H. eapply entitled_more, Hs, Hm, H. Qed.

Lemma call_entitled h q r r' woke :
  groups_ok (Registry.groups r) →
  (∀ key sub, Subscriptions.byKey (Registry.groups r) !! key = Some sub → entitledSub h sub) →
  callOn r q = (r', woke) →
  ∀ key sub, Subscriptions.byKey (Registry.groups r') !! key = Some sub → entitledSub (h ++ [q]) sub.
Proof.
  intros Hok Hs. destruct q; cbn [callOn]; intros E.
  4: { destruct (published _ _ _) as [g w] eqn:Ep. simplify_eq. cbn. intros key sub Hsub.
       destruct (decide (records = [])) as [->|Hne].
       { injection Ep as <- <-. by eapply less_entitled. }
       assert (Subscriptions.byKey (published (Registry.groups r) groupId records).1 !! key = Some sub) as H'
         by (by rewrite Ep).
       rewrite published_lookup in H' by done. apply fmap_Some in H' as (sub0 & H0 & ->).
       case_bool_decide as Eg; [|by eapply entitled_more, Hs].
       destruct (Hs _ _ H0) as (c & n & g' & sna & rep & Hin & H1 & H2 & H3 & H4).
       destruct (go_keyed _ Hok _ _ H0) as [Ek _]. rewrite Ek in Eg. cbn in Eg.
       exists c, n, g', sna, rep. split; [apply elem_of_app; by left|]. cbn. repeat (split; [done|]).
       destruct (owe_spec (subscription.readEpoch sub0) records (subscription.owed sub0)) as (_ & _ & [->|(ep & Hr & Hle)]).
       - destruct H4 as [|(g2 & rs & ep & Hp & H5)]; [by left|right]. exists g2, rs, ep.
         split; [apply elem_of_app; by left|done].
       - right. exists groupId, records, ep. split; [apply elem_of_app; right; by apply list_elem_of_singleton|done]. }
  6: { destruct (depositedRendezvous _ _ _ _) as [b w]. simplify_eq. cbn. by eapply less_entitled. }
  1, 4, 5, 6, 7: simplify_eq; cbn; by eapply less_entitled.
  - simplify_eq. cbn [Registry.groups Registry.set_groups]. unfold subscribe.
    set (s1 := if replace then _ else _). set (q := ToSubscribe _ _ _ _ _ _).
    assert (∀ key sub, Subscriptions.byKey s1 !! key = Some sub → entitledSub (h ++ [q]) sub) as Hs1.
    { eapply less_entitled; [|exact Hs]. intros key sub. subst s1. destruct replace; [apply forget_less|done]. }
    clearbody s1. destruct (_ && _); [exact Hs1|]. cbn. intros key sub [ [_ <-]|[_ H] ]%lookup_insert_Some; [|by eapply Hs1].
    exists clientId, serverNonce, groupId, snapshot, replace. cbn. rewrite !octets_appended.
    split; [apply elem_of_app; right; by apply list_elem_of_singleton|]. repeat (split; [done|]). by left.
  - simplify_eq. cbn [Registry.groups Registry.set_groups]. eapply less_entitled; [|exact Hs].
    intros key sub. unfold unsubscribe. destruct all; [apply forget_less|]. cbn. rewrite foldl_delete. by case_decide.
Qed.

Lemma own_entitled h willing c c' :
  config_ok c → own_step willing c c' → under_ceiling h c → under_ceiling h c'.
Proof.
  intros Hok Hs (Hsub & Hat & Hsent). destruct Hs as [r n at_ sent|r n sent Hsig|r n sent Hcl|order r n sent Ho
    |pusher k a p ok r n sent Hw|order r n sent Ho|pusher k a o p ok r n sent Hw]; try done.
  - unfold pickBox. destruct (nextRendezvous order (Registry.boxes r)) as [s' [ [k sub]|] ]; done.
  - unfold donePushingBox. destruct (afterRendezvousPush _ _ _ _) as [s' counted].
    split; [by destruct counted as [ []|]|]. split; [done|]. cbn in *. unfold handedOut.
    destruct pusher; [|done]. apply Forall_app. split; [done|by constructor].
  - unfold pickGroup. destruct (nextOwed order (Registry.groups r)) as [s' picked] eqn:E.
    destruct (nextOwed_spec _ _ _ _ E) as (Hs' & _ & _ & Hp).
    split; [cbn; by rewrite Hs'|]. split; [|done]. destruct picked as [ [k sub]|]; [|done]. cbn.
    destruct Hp as [Hp _]. exists (subscription.readEpoch sub). exact (Hsub _ _ Hp).
  - unfold donePushingGroup. split; [|split; [done|] ].
    + assert (∀ key sub, Subscriptions.byKey (afterPush (Registry.groups r) k a o (pusher && ok)).1 !! key = Some sub →
        entitledSub h sub) as H.
      { rewrite afterPush_byKey. cbn in Hsub. destruct (Subscriptions.byKey (Registry.groups r) !! k) as [cur|] eqn:Hk; [|exact Hsub].
        destruct (_ =? _)%nat; [|exact Hsub]. destruct (_ && _).
        - intros key sub [ [<- <-]|[_ H] ]%lookup_insert_Some; [|by eapply Hsub].
          specialize (Hsub _ _ Hk). by destruct (_ <? _).
        - intros key sub [_ H]%lookup_delete_Some. by eapply Hsub. }
      cbn. destruct (afterPush _ _ _ _ _) as [s' counted]. by destruct counted as [ []|].
    + cbn in *. unfold handedOut. destruct pusher; [|done]. apply Forall_app. split; [done|by constructor].
Qed.

Lemma reached_entitled h c : reached h c → under_ceiling h c.
Proof.
  induction 1 as [|h q c c' Hr IH Hs|h c c' Hr IH Hs].
  - split; [|by split]. intros key sub H. cbn in H. by rewrite lookup_empty in H.
  - apply reached_ok in Hr as Hok. destruct IH as (Hsub & Hat & Hsent). unfold call_step in Hs.
    destruct (callOn (config.registry c) q) as [r woke] eqn:E. subst c'. split; [|split; cbn].
    + by eapply call_entitled; [apply Hok| |].
    + by destruct (config.at_ c); try done; apply entitledPush_more.
    + eapply Forall_impl; [exact Hsent|]. intros. by apply entitledPush_more.
  - eapply own_entitled; [by eapply reached_ok|done|done].
Qed.

(** ** The properties *)

(** C22: THE REGISTRY'S BOOKS BALANCE.  Whatever handlers call and whatever the delivery goroutine has
    got to: the two group maps index one another and no connection holds more than its 32 groups;
    the counts of rendezvous subscriptions, in all and per connection, are those of the
    subscriptions that stand, none above its 32; no box stands without a subscriber or outside the
    expiry heap, so that the next call after its expiry drops it. *)
Theorem registry_consistent h c :
  reached h c →
  let groups := Registry.groups (config.registry c) in
  let boxes := Registry.boxes (config.registry c) in
  (∀ connection g, is_Some (Subscriptions.byKey groups !! (connection, g)) ↔ g ∈ groupsOf groups connection) ∧
  (∀ connection, Z.of_nat (size (groupsOf groups connection)) <= 32) ∧
  RendezvousSubscriptions boxes = Z.of_nat (size (standing boxes)) ∧
  (∀ connection,
     default 0 (Rendezvous.held boxes !! connection) = Z.of_nat (heldIn connection (dom (standing boxes))) ∧
     Z.of_nat (heldIn connection (dom (standing boxes))) <= 32) ∧
  (∀ now id b, Rendezvous.boxes boxes !! id = Some b →
     rendezvousBox.subscribers b ≠ ∅ ∧
     (Rendezvous.boxes (pruneRendezvous boxes now) !! id = Some b ↔ now < rendezvousBox.expireTime b)).
Proof.
  intros Hr groups boxes. destruct (reached_ok h c Hr) as [Hg Hb [Hm1 Hm2] _ _ _ _ _ _].
  destruct Hg as [Hi _ Hbound _]. pose proof Hb as [ [Hc Hbb Hn _] _].
  split; [exact Hi|]. split; [intros connection; rewrite <- Hm1; apply Hbound|].
  split; [unfold RendezvousSubscriptions; destruct Hc as [Hcount _]; subst boxes; by rewrite Hcount, size_dom|]. split.
  - intros connection. rewrite (counted_held _ _ _ _ Hc). split; [done|]. rewrite <- Hm2. apply Hbb.
  - intros now id b Hbox. split; [by eapply Hn|]. destruct (prune_ok boxes now Hb) as (_ & -> & _). by split; [intros [_ ?]|].
Qed.


(** NO PUSH GOES ABOVE ITS CEILING.  Every high water ever handed to a connection is of a group
    that connection subscribed to, and is the snapshot it subscribed with or the id of a record
    published to that group and sealed at or under the epoch that subscription was authorised at. *)
Lemma pushes_under_ceiling h c p groupId highWater :
  reached h c → p ∈ config.sent c → push.body p = inl (groupId, highWater) →
  ∃ readEpoch, entitled h (octets (push.clientId p)) (octets (push.serverNonce p)) (octets groupId)
                 readEpoch highWater.
Proof.
  intros Hr Hin Hb. destruct (reached_entitled h c Hr) as (_ & _ & Hs).
  eapply Forall_forall in Hs; [|exact Hin]. unfold entitledPush in Hs. by rewrite Hb in Hs.
Qed.
