(* ===== verification/RendezvousClaims.v ===== *)
(** * Collects that share a subscription

    A Collect with [subscribe] set takes a claim on its connection's subscription to the box before
    its write and settles it with the write's answer.  Collects of one connection interleave, and so
    do deposits, retires, expiries and refused pushes.  A configuration is the registry's rendezvous
    half, the claims not settled yet and the subscriptions a write kept. *)

From S2P Require Import Prelude Subscriptions SubscriptionsProps RendezvousPush RendezvousPushProps.

Module claim.
Record t := mk { clientId : slice; serverNonce : slice; rendezvousId : slice; address : nat }.
End claim.

Module claims.
Record t := mk { boxes : Rendezvous.t; unsettled : list claim.t; taken : list nat }.
End claims.

(** What happens to the registry. *)
Inductive happening : Type :=
  | Collected (clientId serverNonce rendezvousId : slice) (expireTime now : time)
  | Settled (x : claim.t) (taken : bool)
  | Deposited (rendezvousId : slice) (pending : Z) (now : time)
  | Retired (rendezvousId : slice)
  | Picked (order : list rendezvousKey)
  | Pushed (key : rendezvousKey) (address : nat) (delivered : bool).

Inductive claims_step : happening → claims.t → claims.t → Prop :=
  | step_collected c n r e now s l k :
      claims_step (Collected c n r e now) (claims.mk s l k)
        (claims.mk (subscribeRendezvous s c n r e now).1
           (match (subscribeRendezvous s c n r e now).2 with
            | Claimed address _ => claim.mk c n r address :: l
            | _ => l
            end) k)
  | step_settled s l1 x l2 taken k :
      claims_step (Settled x taken) (claims.mk s (l1 ++ x :: l2) k)
        (claims.mk (settleRendezvous s (claim.clientId x) (claim.serverNonce x) (claim.rendezvousId x)
                      (claim.address x) taken) (l1 ++ l2)
           (if taken then claim.address x :: k else k))
  | step_deposited r pending now s l k :
      claims_step (Deposited r pending now) (claims.mk s l k)
        (claims.mk (depositedRendezvous s r pending now).1 l k)
  | step_retired r s l k :
      claims_step (Retired r) (claims.mk s l k) (claims.mk (retiredRendezvous s r) l k)
  | step_picked order s l k :
      claims_step (Picked order) (claims.mk s l k) (claims.mk (nextRendezvous order s).1 l k)
  | step_pushed key a ok s l k :
      claims_step (Pushed key a ok) (claims.mk s l k)
        (claims.mk (afterRendezvousPush s key a ok).1 l k).

Inductive claimed : claims.t → Prop :=
  | claimed_new : claimed (claims.mk NewRendezvous [] [])
  | claimed_step q c c' : claimed c → claims_step q c c' → claimed c'.

(** ** The invariant *)

Definition claimsOn (l : list claim.t) (address : nat) : nat :=
  length (filter (λ x, claim.address x = address) l).
#[local] Arguments claimsOn : simpl never.

Record claims_ok (c : claims.t) : Prop := ClaimsOk {
  cl_boxes : boxes_ok (claims.boxes c);
  cl_old a : a ∈ claim.address <$> claims.unsettled c ∨ a ∈ claims.taken c →
    (a < Rendezvous.allocated (claims.boxes c))%nat;
  cl_unique k1 k2 sub1 sub2 : standing (claims.boxes c) !! k1 = Some sub1 →
    standing (claims.boxes c) !! k2 = Some sub2 →
    rendezvousSubscription.address sub1 = rendezvousSubscription.address sub2 → k1 = k2;
  cl_key x id con sub : x ∈ claims.unsettled c → standing (claims.boxes c) !! (id, con) = Some sub →
    rendezvousSubscription.address sub = claim.address x →
    id = octets (claim.rendezvousId x) ∧ con = connectionKeyOf (claim.clientId x) (claim.serverNonce x);
  cl_count k sub : standing (claims.boxes c) !! k = Some sub →
    rendezvousSubscription.claims sub =
      Z.of_nat (claimsOn (claims.unsettled c) (rendezvousSubscription.address sub)) ∧
    (rendezvousSubscription.kept sub = true ↔ rendezvousSubscription.address sub ∈ claims.taken c) ∧
    (rendezvousSubscription.kept sub = true ∨ 0 < rendezvousSubscription.claims sub) }.

(** ** Steps that only end subscriptions *)

(** The subscriptions of [s'] are subscriptions of [s] with another pending count. *)
Definition fewer (s s' : Rendezvous.t) : Prop :=
  Rendezvous.allocated s' = Rendezvous.allocated s ∧
  ∀ k sub', standing s' !! k = Some sub' → ∃ sub p, standing s !! k = Some sub ∧
    sub' = rendezvousSubscription.set_pending p sub.

Lemma set_pending_id sub : sub = rendezvousSubscription.set_pending (rendezvousSubscription.pending sub) sub.
Proof. by destruct sub. Qed.

#[local] Instance fewer_preorder : PreOrder fewer.
Proof.
  split.
  - intros s. split; [done|]. intros k sub H. eexists sub, _. split; [done|apply set_pending_id].
  - intros a b c [H1 H2] [H3 H4]. split; [congruence|]. intros k sub H.
    destruct (H4 _ _ H) as (sub1 & p1 & Hs1 & ->). destruct (H2 _ _ Hs1) as (sub2 & p2 & Hs2 & ->).
    by exists sub2, p1.
Qed.

Lemma fewer_lookup s s' :
  Rendezvous.allocated s' = Rendezvous.allocated s →
  (∀ k sub, standing s' !! k = Some sub → standing s !! k = Some sub) → fewer s s'.
Proof.
  intros Ha Hk. split; [done|]. intros k sub H. eexists sub, _. split; [by apply Hk|apply set_pending_id].
Qed.

Lemma fewer_ok s s' l k : claims_ok (claims.mk s l k) → boxes_ok s' → fewer s s' → claims_ok (claims.mk s' l k).
Proof.
  intros [Hb Ho Hu Hk Hc] Hb' [Ha Hf]; split; cbn in *; [done|by rewrite Ha|..].
  - intros k1 k2 s1 s2 H1 H2. destruct (Hf _ _ H1) as (t1 & p1 & T1 & ->), (Hf _ _ H2) as (t2 & p2 & T2 & ->).
    intros E. exact (Hu _ _ _ _ T1 T2 E).
  - intros x id con sub Hx Hs. destruct (Hf _ _ Hs) as (t & p & T & ->). exact (Hk _ _ _ _ Hx T).
  - intros key sub Hs. destruct (Hf _ _ Hs) as (t & p & T & ->). exact (Hc _ _ T).
Qed.

Lemma standing_prune s now id c sub :
  boxes_ok s → standing (pruneRendezvous s now) !! (id, c) = Some sub → standing s !! (id, c) = Some sub.
Proof.
  intros Hok. destruct (prune_ok s now Hok) as (_ & Hb & _). rewrite !lookup_standing.
  intros (b & H1 & H2)%subscriberOf_box. apply Hb in H1 as [H1 _]. unfold subscriberOf. by rewrite H1.
Qed.

Lemma fewer_prune s now : boxes_ok s → fewer s (pruneRendezvous s now).
Proof.
  intros Hok. apply fewer_lookup; [by destruct (prune_ok s now Hok) as (_ & _ & ? & _)|].
  intros [id c] sub. by apply standing_prune.
Qed.

Lemma fewer_drop s box : boxes_ok s → fewer s (dropRendezvousBox s box).
Proof.
  intros [Hok _]. apply fewer_lookup; [by destruct (drop_spec s box Hok) as [_ [] ]|].
  intros [id c] sub. rewrite drop_standing. by case_decide.
Qed.

Lemma fewer_remove s box c : fewer s (removeRendezvous s box c).
Proof.
  apply fewer_lookup.
  - unfold removeRendezvous. destruct (Rendezvous.boxes s !! box); [|done]. by case_bool_decide.
  - intros k sub. rewrite remove_standing. by intros [_ ?]%lookup_delete_Some.
Qed.

Lemma fewer_deposit s r pending now : boxes_ok s → fewer s (depositedRendezvous s r pending now).1.
Proof.
  intros Hok. etrans; [by apply (fewer_prune s now)|]. unfold depositedRendezvous.
  set (s1 := pruneRendezvous s now). destruct (Rendezvous.boxes s1 !! octets r) as [b|] eqn:Hb; [|done].
  cbn [fst]. split; [done|]. intros [id c] sub'. rewrite lookup_standing. unfold subscriberOf. cbn.
  rewrite lookup_insert. case_decide as E.
  - subst id. cbn. rewrite lookup_fmap. intros (sub & Hs & ->)%fmap_Some. exists sub, pending.
    rewrite lookup_standing. unfold subscriberOf. by rewrite Hb.
  - intros H. eexists sub', _. rewrite lookup_standing. split; [exact H|apply set_pending_id].
Qed.

Lemma fewer_next order s : fewer s (nextRendezvous order s).1.
Proof.
  destruct (nextRendezvous order s) as [s' picked] eqn:E.
  destruct (nextRendezvous_spec _ _ _ _ E) as (-> & _). by apply fewer_lookup.
Qed.

Lemma fewer_afterPush s k a ok : fewer s (afterRendezvousPush s k a ok).1.
Proof.
  unfold afterRendezvousPush. destruct (subscriberOf _ _ _); [|done]. destruct (negb _); [done|].
  destruct ok; [done|apply fewer_remove].
Qed.

(** ** Claiming and settling *)

(** The two ways a call finds the connection's subscription to the box. *)
Lemma found_subscriber s id c :
  (Rendezvous.boxes s !! id ≫= λ box, (box,.) <$> rendezvousBox.subscribers box !! c) =
  match Rendezvous.boxes s !! id with
  | Some box => (box,.) <$> subscriberOf s id c
  | None => None
  end.
Proof. unfold subscriberOf. by destruct (Rendezvous.boxes s !! id). Qed.

Lemma join_cases s c n r e :
  let id := octets r in let conn := connectionKeyOf c n in
  (∃ p, standing s !! (id, conn) = Some p ∧
     (joinOrMake s c n r e).2 = Claimed (rendezvousSubscription.address p) false ∧
     Rendezvous.allocated (joinOrMake s c n r e).1 = Rendezvous.allocated s ∧
     standing (joinOrMake s c n r e).1 =
       <[(id, conn) := rendezvousSubscription.set_claims (rendezvousSubscription.claims p + 1) p]> (standing s)) ∨
  ((joinOrMake s c n r e).2 = SubscribedFull ∧ (joinOrMake s c n r e).1 = s) ∨
  (standing s !! (id, conn) = None ∧
     (joinOrMake s c n r e).2 = Claimed (Rendezvous.allocated s) true ∧
     Rendezvous.allocated (joinOrMake s c n r e).1 = S (Rendezvous.allocated s) ∧
     standing (joinOrMake s c n r e).1 = <[(id, conn) := made s c n r]> (standing s)).
Proof.
  intros id conn. unfold joinOrMake. rewrite !lookup_standing, found_subscriber. fold id conn.
  destruct (Rendezvous.boxes s !! id) as [b|] eqn:Hb.
  - destruct (subscriberOf s id conn) as [p|] eqn:Hp; cbn [fmap option_fmap option_map].
    + left. exists p. repeat (split; [done|]). cbn [fst]. rewrite standing_insert. f_equal.
      by apply standing_same.
    + right. destruct (_ <=? _); [by left|right]. split; [done|].
      assert ((makeSubscription s c n r e).2 = Claimed (Rendezvous.allocated s) true ∧
        Rendezvous.allocated (makeSubscription s c n r e).1 = S (Rendezvous.allocated s)) as [-> ->]
        by (unfold makeSubscription; fold id; by rewrite Hb).
      repeat (split; [done|]). apply make_standing.
  - right. destruct (_ <=? _); [by left|right]. split; [unfold subscriberOf; by rewrite Hb|].
    assert ((makeSubscription s c n r e).2 = Claimed (Rendezvous.allocated s) true ∧
      Rendezvous.allocated (makeSubscription s c n r e).1 = S (Rendezvous.allocated s)) as [-> ->]
      by (unfold makeSubscription; fold id; by rewrite Hb).
    repeat (split; [done|]). apply make_standing.
Qed.

Lemma settle_cases s c n r a taken :
  let id := octets r in let conn := connectionKeyOf c n in
  (settleRendezvous s c n r a taken = s ∧
     ∀ cur, standing s !! (id, conn) = Some cur → rendezvousSubscription.address cur ≠ a) ∨
  ∃ cur, standing s !! (id, conn) = Some cur ∧ rendezvousSubscription.address cur = a ∧
    Rendezvous.allocated (settleRendezvous s c n r a taken) = Rendezvous.allocated s ∧
    let cur' := rendezvousSubscription.set_claims (rendezvousSubscription.claims cur - 1) cur in
    standing (settleRendezvous s c n r a taken) =
      if taken then <[(id, conn) := rendezvousSubscription.set_kept true cur']> (standing s)
      else if negb (rendezvousSubscription.kept cur) && (rendezvousSubscription.claims cur - 1 =? 0)
           then delete (id, conn) (standing s) else <[(id, conn) := cur']> (standing s).
Proof.
  intros id conn. unfold settleRendezvous. rewrite !lookup_standing, found_subscriber. fold id conn.
  destruct (subscriberOf s id conn) as [cur|] eqn:Hc; [|left; split; [by destruct (_ !! id)|done] ].
  destruct (subscriberOf_box _ _ _ _ Hc) as (b & Hb & _). rewrite Hb. cbn [fmap option_fmap option_map].
  destruct (rendezvousSubscription.address cur =? a)%nat eqn:Ha.
  2:{ left. split; [done|]. intros x [= <-]. by apply Nat.eqb_neq. }
  apply Nat.eqb_eq in Ha. right. exists cur. split; [done|]. split; [done|]. cbn [negb].
  destruct taken.
  - split; [done|]. etrans; [apply standing_insert|]. f_equal. by apply standing_same.
  - cbn [rendezvousSubscription.set_claims rendezvousSubscription.kept rendezvousSubscription.claims].
    set (s1 := Rendezvous.set_boxes _ s).
    assert (standing s1 = <[(id, conn) := rendezvousSubscription.set_claims (rendezvousSubscription.claims cur - 1) cur]>
      (standing s)) as E by (subst s1; rewrite standing_insert; f_equal; by apply standing_same).
    destruct (negb _ && _).
    + split; [by destruct (fewer_remove s1 id conn) as [-> _]|]. rewrite remove_standing, E. by rewrite delete_insert_eq.
    + by split.
Qed.

Lemma subscribe_cases s c n r e now :
  boxes_ok s → ∃ s1, fewer s s1 ∧ boxes_ok s1 ∧
    (subscribeRendezvous s c n r e now = (s1, SubscribedNothing) ∨
     subscribeRendezvous s c n r e now = joinOrMake s1 c n r e).
Proof.
  intros Hok. unfold subscribeRendezvous. destruct (prune_ok s now Hok) as [Hp _].
  pose proof (fewer_prune s now Hok) as Hf. set (s1 := pruneRendezvous s now) in *. clearbody s1.
  destruct (Rendezvous.boxes s1 !! octets r) as [b|]; cbn [fmap option_fmap option_map].
  - destruct (Before e _); [exists s1; auto|]. destruct (Before _ e); [|exists s1; auto].
    exists (dropRendezvousBox s1 (octets r)). split; [etrans; [exact Hf|by apply fewer_drop]|].
    split; [by apply drop_ok|auto].
  - exists s1. auto.
Qed.

Lemma claimsOn_cons x l a :
  claimsOn (x :: l) a = if decide (claim.address x = a) then S (claimsOn l a) else claimsOn l a.
Proof. unfold claimsOn. rewrite filter_cons. by case_decide. Qed.

Lemma claimsOn_middle l1 x l2 a : claimsOn (l1 ++ x :: l2) a = claimsOn (x :: l1 ++ l2) a.
Proof. unfold claimsOn. by rewrite <- Permutation_middle. Qed.

Lemma claimsOn_none l a : a ∉ claim.address <$> l → claimsOn l a = 0%nat.
Proof.
  induction l as [|x l IH]; intros Hn; [done|]. rewrite claimsOn_cons. rewrite fmap_cons in Hn.
  apply not_elem_of_cons in Hn as [? ?]. rewrite decide_False by congruence. by apply IH.
Qed.

Lemma claims_join s l k c n r e :
  claims_ok (claims.mk s l k) → boxes_ok (joinOrMake s c n r e).1 →
  claims_ok (claims.mk (joinOrMake s c n r e).1
    (match (joinOrMake s c n r e).2 with Claimed a _ => claim.mk c n r a :: l | _ => l end) k).
Proof.
  intros [Hb Ho Hu Hk Hc] Hb'; cbn in *.
  destruct (join_cases s c n r e) as [(p & Hp & -> & Ha & Hst)|[ [-> ->]|(Hnone & -> & Ha & Hst)] ]; [|by split|].
  - split; cbn; rewrite ?Hst, ?Ha; [done|..].
    + intros a [ [->|Hin]%elem_of_cons|Hin]; [|by apply Ho; left|by apply Ho; right].
      destruct Hb as [ [_ _ _ Hkey] _]. exact (proj2 (proj2 (Hkey _ _ _ Hp))).
    + intros k1 k2 s1 s2 [ [<- <-]|[_ H1] ]%lookup_insert_Some [ [<- <-]|[_ H2] ]%lookup_insert_Some E; cbn in E; eauto.
    + intros x id con sub [->|Hx]%elem_of_cons [ [Ek <-]|[Hne H] ]%lookup_insert_Some E; cbn in *.
      * injection Ek as <- <-. done.
      * destruct (Hu _ _ _ _ H Hp E). done.
      * injection Ek as <- <-. by eapply Hk.
      * by eapply Hk.
    + intros key sub [ [<- <-]|[Hne H] ]%lookup_insert_Some; rewrite claimsOn_cons; cbn.
      * rewrite decide_True by done. destruct (Hc _ _ Hp) as (H1 & H2 & _). split; [lia|]. split; [done|right; lia].
      * rewrite decide_False; [by apply (Hc key)|]. intros E. apply Hne. by eapply Hu.
  - assert (∀ key sub, standing s !! key = Some sub → (rendezvousSubscription.address sub < Rendezvous.allocated s)%nat) as Hold.
    { intros [id con] sub H. destruct Hb as [ [_ _ _ Hkey] _]. exact (proj2 (proj2 (Hkey _ _ _ H))). }
    split; cbn; rewrite ?Hst, ?Ha; [done|..].
    + intros a [ [->|Hin]%elem_of_cons|Hin]; [cbn; lia| |].
      * assert (a < Rendezvous.allocated s)%nat by (by apply Ho; left). lia.
      * assert (a < Rendezvous.allocated s)%nat by (by apply Ho; right). lia.
    + intros k1 k2 s1 s2 [ [<- <-]|[_ H1] ]%lookup_insert_Some [ [<- <-]|[_ H2] ]%lookup_insert_Some E; cbn in E; eauto.
      * specialize (Hold _ _ H2). lia.
      * specialize (Hold _ _ H1). lia.
    + intros x id con sub [->|Hx]%elem_of_cons [ [Ek <-]|[Hne H] ]%lookup_insert_Some E; cbn in *.
      * injection Ek as <- <-. done.
      * specialize (Hold _ _ H). lia.
      * assert (claim.address x < Rendezvous.allocated s)%nat by (apply Ho; left; by apply list_elem_of_fmap_2). lia.
      * by eapply Hk.
    + intros key sub [ [<- <-]|[Hne H] ]%lookup_insert_Some; rewrite claimsOn_cons; cbn.
      * rewrite decide_True by done. rewrite claimsOn_none.
        { split; [done|]. split; [|right; lia]. split; [done|]. intros Hin.
          assert (Rendezvous.allocated s < Rendezvous.allocated s)%nat by (by apply Ho; right). lia. }
        intros Hin. assert (Rendezvous.allocated s < Rendezvous.allocated s)%nat by (by apply Ho; left). lia.
      * rewrite decide_False; [by apply (Hc key)|]. specialize (Hold _ _ H). lia.
Qed.

Lemma claims_settle s l1 x l2 k taken :
  claims_ok (claims.mk s (l1 ++ x :: l2) k) →
  claims_ok (claims.mk (settleRendezvous s (claim.clientId x) (claim.serverNonce x) (claim.rendezvousId x)
                          (claim.address x) taken) (l1 ++ l2) (if taken then claim.address x :: k else k)).
Proof.
  intros [Hb Ho Hu Hk Hc]; cbn in *.
  pose proof (settle_ok s (claim.clientId x) (claim.serverNonce x) (claim.rendezvousId x) (claim.address x) taken Hb) as Hb'.
  assert (∀ y, y ∈ l1 ++ l2 → y ∈ l1 ++ x :: l2) as Hmore by (intros y; rewrite !elem_of_app, elem_of_cons; tauto).
  assert (x ∈ l1 ++ x :: l2) as Hx by (apply elem_of_app; right; left).
  assert (∀ a, a ∈ claim.address <$> l1 ++ l2 ∨ a ∈ (if taken then claim.address x :: k else k) →
    (a < Rendezvous.allocated s)%nat) as Ho'.
  { intros a [ (y & -> & Hy)%list_elem_of_fmap|Hin]; [apply Ho; left; by apply list_elem_of_fmap_2, Hmore|].
    destruct taken; [apply elem_of_cons in Hin as [->|Hin]|]; apply Ho; auto.
    left. by apply list_elem_of_fmap_2. }
  assert (∀ a, Z.of_nat (claimsOn (l1 ++ x :: l2) a) =
    Z.of_nat (claimsOn (l1 ++ l2) a) + (if decide (claim.address x = a) then 1 else 0)) as Hcnt.
  { intros a. rewrite claimsOn_middle, claimsOn_cons. case_decide; lia. }
  destruct (settle_cases s (claim.clientId x) (claim.serverNonce x) (claim.rendezvousId x) (claim.address x) taken)
    as [ [E Hno]|(cur & Hcur & Ha & Hal & Hst)].
  - rewrite E in *. split; cbn; [done|done|done|intros y id con sub Hy; by apply Hk, Hmore|].
    intros [id con] sub H. destruct (Hc _ _ H) as (H1 & H2 & H3). rewrite Hcnt in H1.
    assert (rendezvousSubscription.address sub ≠ claim.address x) as Hne.
    { intros E'. destruct (Hk _ _ _ _ Hx H E') as [-> ->]. by apply (Hno _ H). }
    rewrite decide_False in H1 by congruence. split; [lia|]. split; [|done].
    rewrite H2. destruct taken; [|done]. rewrite elem_of_cons. split; [by right|by intros [|]].
  - cbn zeta in Hst. assert (∀ key sub, standing s !! key = Some sub → key ≠ (octets (claim.rendezvousId x),
      connectionKeyOf (claim.clientId x) (claim.serverNonce x)) →
      rendezvousSubscription.claims sub = Z.of_nat (claimsOn (l1 ++ l2) (rendezvousSubscription.address sub)) ∧
      (rendezvousSubscription.kept sub = true ↔
       rendezvousSubscription.address sub ∈ (if taken then claim.address x :: k else k)) ∧
      (rendezvousSubscription.kept sub = true ∨ 0 < rendezvousSubscription.claims sub)) as Hother.
    { intros key sub H Hne. destruct (Hc _ _ H) as (H1 & H2 & H3). rewrite Hcnt in H1.
      assert (rendezvousSubscription.address sub ≠ claim.address x) as Hna.
      { intros E'. apply Hne. rewrite <- Ha in E'. by apply (Hu _ _ _ _ H Hcur). }
      rewrite decide_False in H1 by congruence. split; [lia|]. split; [|done].
      rewrite H2. destruct taken; [|done]. rewrite elem_of_cons. split; [by right|by intros [|]]. }
    destruct (Hc _ _ Hcur) as (C1 & C2 & C3). rewrite Hcnt, Ha, decide_True in C1 by done.
    set (k0 := (octets (claim.rendezvousId x), connectionKeyOf (claim.clientId x) (claim.serverNonce x))) in *.
    set (s' := settleRendezvous _ _ _ _ _ _) in *.
    assert (∀ key sub', standing s' !! key = Some sub' →
      (standing s !! key = Some sub' ∧ key ≠ k0) ∨
      (key = k0 ∧ rendezvousSubscription.address sub' = rendezvousSubscription.address cur ∧
       rendezvousSubscription.claims sub' = rendezvousSubscription.claims cur - 1 ∧
       rendezvousSubscription.kept sub' = taken || rendezvousSubscription.kept cur ∧
       (rendezvousSubscription.kept sub' = true ∨ 0 < rendezvousSubscription.claims sub'))) as Hnew.
    { intros key sub'. rewrite Hst. destruct taken.
      - intros [ [<- <-]|[? ?] ]%lookup_insert_Some; [right; cbn; repeat (split; [done|]); by left|left; auto].
      - destruct (negb _ && _) eqn:Hend.
        + intros [? ?]%lookup_delete_Some. left. auto.
        + intros [ [<- <-]|[? ?] ]%lookup_insert_Some; [right|left; auto]. cbn. repeat (split; [done|]).
          apply andb_false_iff in Hend as [Hend|Hend]; reflect_bools; [by left|right; lia]. }
    clearbody s'. split; cbn; rewrite ?Hal; [done|done|..].
    + intros k1 k2 s1 s2 H1 H2 E.
      destruct (Hnew _ _ H1) as [ [G1 N1]|(-> & A1 & _)], (Hnew _ _ H2) as [ [G2 N2]|(-> & A2 & _)]; [eauto|..|done].
      * rewrite A2 in E. by apply (Hu _ _ _ _ G1 Hcur).
      * rewrite A1 in E. by apply (Hu _ _ _ _ Hcur G2).
    + intros y id con sub Hy H E. destruct (Hnew _ _ H) as [ [G1 _]|(Ek & A1 & _)].
      * by apply (Hk _ _ _ _ (Hmore _ Hy) G1).
      * rewrite A1 in E. unfold k0 in Ek. injection Ek as -> ->. exact (Hk _ _ _ _ (Hmore _ Hy) Hcur E).
    + intros key sub H. destruct (Hnew _ _ H) as [ [G1 N1]|(-> & A1 & A2 & A3 & A4)]; [by apply (Hother key)|].
      rewrite A1, A2, A3, Ha. split; [lia|]. split; [|rewrite <- A2, <- A3; exact A4].
      destruct taken; cbn; [split; [left|done]|by rewrite C2, Ha].
Qed.

Lemma claims_step_ok (q : happening) c c' : claims_ok c → claims_step q c c' → claims_ok c'.
Proof.
  intros Hok Hs. pose proof (cl_boxes _ Hok) as Hb.
  destruct Hs as [c n r e now s l k|s l1 x l2 taken k|r pending now s l k|r s l k|order s l k|key a ok s l k]; cbn in Hb.
  - pose proof (subscribeRendezvous_ok s c n r e now Hb) as Hb'.
    destruct (subscribe_cases s c n r e now Hb) as (s1 & Hf & Hb1 & [E|E]); rewrite E in *; cbn [fst snd] in *.
    + by eapply fewer_ok.
    + apply claims_join; [by eapply fewer_ok|done].
  - by apply claims_settle.
  - eapply fewer_ok; [done|by apply deposited_ok|by apply fewer_deposit].
  - eapply fewer_ok; [done|by apply drop_ok|by apply fewer_drop].
  - eapply fewer_ok; [done|by apply nextRendezvous_ok|apply fewer_next].
  - eapply fewer_ok; [done|by apply afterRendezvousPush_ok|apply fewer_afterPush].
Qed.

Lemma claimed_ok c : claimed c → claims_ok c.
Proof.
  induction 1 as [|q c c' _ IH Hs]; [|by eapply claims_step_ok].
  assert (standing NewRendezvous = ∅) as E.
  { apply map_eq. intros [id c]. rewrite lookup_standing. reflexivity. }
  split; cbn; rewrite ?E; try done; [apply boxes_ok_new|]. intros a [H|H]; by apply elem_of_nil in H.
Qed.

(** ** What ends a subscription *)

(** The happenings that end the subscription [sub] of [con] to the box [b] at [id] whoever holds it:
    the box is retired, is past its expiry, or is superseded by a later box at its id; or the
    subscription's own push is refused. *)
Definition ends (q : happening) (id con : list Z) (b : rendezvousBox.t) (address : nat) : Prop :=
  match q with
  | Collected _ _ r e now =>
      rendezvousBox.expireTime b <= now ∨ (octets r = id ∧ rendezvousBox.expireTime b < e)
  | Deposited _ _ now => rendezvousBox.expireTime b <= now
  | Retired r => octets r = id
  | Pushed key a delivered => key = (con, id) ∧ a = address ∧ delivered = false
  | Settled _ _ | Picked _ => False
  end.

#[global] Instance ends_dec q id con b a : Decision (ends q id con b a).
Proof. destruct q; cbn; apply _. Defined.

(** The subscription still stands. *)
Definition stands (s : Rendezvous.t) (k : list Z * list Z) (address : nat) : Prop :=
  ∃ sub, standing s !! k = Some sub ∧ rendezvousSubscription.address sub = address.

Lemma prune_stands s now id con b a :
  boxes_ok s → Rendezvous.boxes s !! id = Some b → now < rendezvousBox.expireTime b →
  stands s (id, con) a → stands (pruneRendezvous s now) (id, con) a ∧
  Rendezvous.boxes (pruneRendezvous s now) !! id = Some b.
Proof.
  intros Hok Hb Hlt (sub & Hs & Ha). destruct (prune_ok s now Hok) as (_ & Hbox & _).
  assert (Rendezvous.boxes (pruneRendezvous s now) !! id = Some b) as Hb' by (by apply Hbox).
  split; [|done]. exists sub. split; [|done]. rewrite lookup_standing in *. unfold subscriberOf in *.
  by rewrite Hb', <- Hb.
Qed.

Lemma join_stands s c n r e k a : stands s k a → stands (joinOrMake s c n r e).1 k a.
Proof.
  intros (sub & Hs & Ha).
  destruct (join_cases s c n r e) as [(p & Hp & _ & _ & Hst)|[ [_ ->]|(Hnone & _ & _ & Hst)] ]; [|by exists sub|];
    unfold stands; rewrite Hst.
  - destruct (decide ((octets r, connectionKeyOf c n) = k)) as [E|Hne].
    + rewrite <- E in *. simplify_eq. eexists. by rewrite lookup_insert_eq.
    + exists sub. by rewrite lookup_insert_ne.
  - exists sub. rewrite lookup_insert_ne; [done|]. intros <-. by rewrite Hnone in Hs.
Qed.

Lemma collected_stands s c n r e now id con b a :
  boxes_ok s → Rendezvous.boxes s !! id = Some b → stands s (id, con) a →
  ¬ ends (Collected c n r e now) id con b a → stands (subscribeRendezvous s c n r e now).1 (id, con) a.
Proof.
  intros Hok Hb Hs Hne. cbn in Hne.
  destruct (prune_stands s now id con b a Hok Hb) as [Hs1 Hb1]; [lia|done|].
  unfold subscribeRendezvous. set (s1 := pruneRendezvous s now) in *. clearbody s1.
  destruct (Rendezvous.boxes s1 !! octets r) as [b1|] eqn:Hr; cbn [fmap option_fmap option_map];
    [|by apply join_stands].
  destruct (Before e _); [done|]. unfold Before. destruct (_ <? e) eqn:E; [|by apply join_stands].
  reflect_bools. apply join_stands. destruct Hs1 as (sub & Hs1 & Ha). exists sub. split; [|done].
  rewrite drop_standing, decide_False; [done|]. intros ->. simplify_eq. tauto.
Qed.

Lemma settled_stands s c n r x taken k sub :
  standing s !! k = Some sub →
  (rendezvousSubscription.address sub = x →
   taken = true ∨ rendezvousSubscription.kept sub = true ∨ rendezvousSubscription.claims sub ≠ 1) →
  stands (settleRendezvous s c n r x taken) k (rendezvousSubscription.address sub).
Proof.
  intros Hs Hheld.
  destruct (settle_cases s c n r x taken) as [ [-> _]|(cur & Hcur & Ha & _ & Hst)]; [by exists sub|].
  cbn zeta in Hst. unfold stands. rewrite Hst.
  destruct (decide ((octets r, connectionKeyOf c n) = k)) as [E|Hne].
  - rewrite E in *. assert (cur = sub) as -> by congruence. specialize (Hheld Ha).
    destruct taken; [eexists; by rewrite lookup_insert_eq|].
    destruct (negb _ && _) eqn:Hend; [|eexists; by rewrite lookup_insert_eq].
    reflect_bools. destruct Hheld as [|[|] ]; [done|congruence|lia].
  - exists sub. destruct taken; [by rewrite lookup_insert_ne|].
    destruct (negb _ && _); [by rewrite lookup_delete_ne|by rewrite lookup_insert_ne].
Qed.

Lemma deposited_stands s r pending now id con b a :
  boxes_ok s → Rendezvous.boxes s !! id = Some b → now < rendezvousBox.expireTime b →
  stands s (id, con) a → stands (depositedRendezvous s r pending now).1 (id, con) a.
Proof.
  intros Hok Hb Hlt Hs. destruct (prune_stands s now id con b a Hok Hb Hlt Hs) as [(sub & Hs1 & Ha) Hb1].
  unfold depositedRendezvous. set (s1 := pruneRendezvous s now) in *. clearbody s1.
  destruct (Rendezvous.boxes s1 !! octets r) as [b1|] eqn:Hr; [|by exists sub]. cbn [fst].
  unfold stands. rewrite lookup_standing in Hs1 |- *. unfold subscriberOf in Hs1 |- *. cbn. rewrite lookup_insert.
  case_decide as E; [|by exists sub]. subst id. rewrite Hr in Hs1. cbn in Hs1 |- *. rewrite lookup_fmap, Hs1.
  by exists (rendezvousSubscription.set_pending pending sub).
Qed.

Lemma held_stands q c c' id con b sub :
  claims_ok c → claims_step q c c' →
  Rendezvous.boxes (claims.boxes c) !! id = Some b → standing (claims.boxes c) !! (id, con) = Some sub →
  rendezvousSubscription.address sub ∈ claims.taken c ∨
  rendezvousSubscription.address sub ∈ claim.address <$> claims.unsettled c' →
  ¬ ends q id con b (rendezvousSubscription.address sub) →
  stands (claims.boxes c') (id, con) (rendezvousSubscription.address sub).
Proof.
  intros Hok Hs Hb Hsub Hheld Hne. pose proof (cl_boxes _ Hok) as Hbox.
  assert (stands (claims.boxes c) (id, con) (rendezvousSubscription.address sub)) as Hst by (by exists sub).
  destruct (cl_count _ Hok _ _ Hsub) as (Hcl & Hkept & _).
  destruct Hs as [c n r e now s l k|s l1 x l2 taken k|r pending now s l k|r s l k|order s l k|key a ok s l k]; cbn in *.
  - by eapply collected_stands.
  - apply settled_stands; [done|]. intros E. destruct Hheld as [Hin|Hin]; [right; left; by apply Hkept|].
    right. right. rewrite Hcl, claimsOn_middle, claimsOn_cons, decide_True by done.
    assert (claimsOn (l1 ++ l2) (rendezvousSubscription.address sub) ≠ 0%nat); [|lia].
    apply list_elem_of_fmap in Hin as (y & Ey & Hy). unfold claimsOn. intros Hz%nil_length_inv.
    assert (y ∈ filter (λ x, claim.address x = rendezvousSubscription.address sub) (l1 ++ l2)) as Hf
      by (by apply list_elem_of_filter). rewrite Hz in Hf. by apply elem_of_nil in Hf.
  - eapply deposited_stands; [done|done|lia|done].
  - exists sub. unfold retiredRendezvous. rewrite drop_standing, decide_False; [done|congruence].
  - destruct (nextRendezvous order s) as [s' picked] eqn:E. destruct (nextRendezvous_spec _ _ _ _ E) as (-> & _). exact Hst.
  - unfold afterRendezvousPush. destruct (subscriberOf s key.2 key.1) as [cur|] eqn:Hc; [|done].
    destruct (rendezvousSubscription.address cur =? a)%nat eqn:Ha; [|done]. destruct ok; [done|]. cbn.
    exists sub. rewrite remove_standing. split; [|done]. rewrite lookup_delete_ne; [done|]. intros Ek.
    injection Ek as E1 E2. rewrite lookup_standing, <- E1, <- E2, Hc in Hsub. injection Hsub as ->.
    apply Nat.eqb_eq in Ha. apply Hne. destruct key; cbn in *; subst. done.
Qed.

(** C23: NO COLLECT LOSES ITS SUBSCRIPTION TO ANOTHER'S FAILURE.  However Collects, deposits, retires,
    expiries and pushes interleave: a subscription stands only for a Collect whose write took or one
    that has not settled yet, so none outlives the failure of every Collect that made or found it;
    and one that a Collect's write kept, or that another Collect still holds, survives every
    settlement.  Only the box's retirement, expiry or successor ends it, or a refused push of its
    own. *)
Theorem held_by_a_collect q c c' id con b sub :
  claimed c → standing (claims.boxes c) !! (id, con) = Some sub →
  (rendezvousSubscription.address sub ∈ claims.taken c ∨
   rendezvousSubscription.address sub ∈ claim.address <$> claims.unsettled c) ∧
  (claims_step q c c' → Rendezvous.boxes (claims.boxes c) !! id = Some b →
   rendezvousSubscription.address sub ∈ claims.taken c ∨
   rendezvousSubscription.address sub ∈ claim.address <$> claims.unsettled c' →
   stands (claims.boxes c') (id, con) (rendezvousSubscription.address sub) ∨
   ends q id con b (rendezvousSubscription.address sub)).
Proof.
  intros Hr%claimed_ok Hs. split.
  - destruct (cl_count _ Hr _ _ Hs) as (Hc & Hk & [H|H]); [left; by apply Hk|right].
    destruct (decide (rendezvousSubscription.address sub ∈ claim.address <$> claims.unsettled c)) as [|Hn]; [done|].
    rewrite (claimsOn_none _ _ Hn) in Hc. lia.
  - intros Hstep Hb Hheld.
    destruct (decide (ends q id con b (rendezvousSubscription.address sub))) as [|Hne]; [by right|left].
    by eapply held_stands.
Qed.
