(* ===== verification/RegistryScenario.v ===== *)
(** * A worked run of the registry

    One connection subscribes to a group at epoch 1, a record sealed at epoch 1 and one sealed at
    epoch 2 are published, the delivery goroutine runs until it rests; and two Collects share a
    subscription of which one fails.  The witnesses of the registry's theorems are taken there. *)

From S2P Require Import Prelude Subscriptions RendezvousPush Registry SubscriptionsProps RendezvousPushProps.
From S2P Require Import RegistryProps RendezvousClaims.

Definition client : slice := Some [1; 1].
Definition nonce : slice := Some [2].
Definition group : slice := Some [3].
Definition box : slice := Some [4].

(** ** A publish and its push *)

Definition calls : list request :=
  [ToSetPusher; ToSubscribe client nonce group 1 7 false;
   ToSubscribeRendezvous client nonce box 900 100; ToPublish group [(8, 1); (9, 2)]].

Definition called (c : config.t) (q : request) : config.t :=
  let '(r, woke) := callOn (config.registry c) q in
  config.mk r (if woke then S (config.waking c) else config.waking c) (config.at_ c) (config.sent c).

Lemma reached_called h c q : reached h c → reached (h ++ [q]) (called c q).
Proof.
  intros H. eapply reached_call; [exact H|]. unfold call_step, called. by destruct (callOn _ q).
Qed.

Definition before : config.t := foldl called (config.mk NewRegistry 0 Selecting []) calls.

Lemma before_reached : reached calls before.
Proof.
  change calls with ((([] ++ [ToSetPusher]) ++ [ToSubscribe client nonce group 1 7 false]) ++
    [ToSubscribeRendezvous client nonce box 900 100] ++ [ToPublish group [(8, 1); (9, 2)] ]).
  rewrite app_assoc. unfold before, calls, foldl. repeat apply reached_called. constructor.
Qed.

Definition theKey : subscriptionKey := (connectionKeyOf client nonce, octets group).

(** The goroutine's run: it is woken, takes the signal, finds no box marked, hands out one push, and
    waits again. *)
Definition r0 : Registry.t := config.registry before.
Definition r1 : Registry.t := (takeSignal (Registry.set_signal true r0)).1.
Definition r2 : Registry.t := (pickBox [] r1).1.
Definition r3 : Registry.t := (pickGroup [theKey] r2).1.
Definition thePush : push.t := push.ofGroup client nonce group 8.
Definition r4 : Registry.t := donePushingGroup theKey 0 8 true r3.
Definition r5 : Registry.t := (pickGroup [] r4).1.
Definition after : config.t := config.mk r5 0 Selecting [thePush].

Lemma run_to_rest : rtc (own_step true) before after.
Proof.
  change before with (config.mk r0 1 Selecting []).
  eapply rtc_l; [apply step_wake|]. eapply rtc_l; [apply step_signal; reflexivity|].
  eapply rtc_l; [apply (step_pick_box true []); vm_compute; reflexivity|]. change (pickBox [] _).1 with r2.
  replace (pickBox [] _).2 with PickingGroup by (vm_compute; reflexivity).
  eapply rtc_l; [apply (step_pick_group true [theKey]); vm_compute; reflexivity|]. fold r3.
  replace (pickGroup [theKey] r2).2 with (PushingGroup true theKey 0 8 thePush) by (vm_compute; reflexivity).
  eapply rtc_l; [apply (step_push_group true true theKey 0 8 thePush true); done|]. fold r4.
  eapply rtc_l; [apply (step_pick_group true []); vm_compute; reflexivity|]. fold r5.
  replace (pickGroup [] r4).2 with Selecting by (vm_compute; reflexivity). apply rtc_refl.
Qed.

Lemma rests : ∀ c, ¬ own_step true after c.
Proof.
  assert (Registry.signal r5 = false ∧ Registry.closed r5 = false) as [H1 H2] by by vm_compute.
  intros c Hs. inversion Hs; congruence.
Qed.


Lemma after_reached : reached calls after.
Proof.
  assert (∀ c c', rtc (own_step true) c c' → reached calls c → reached calls c') as H.
  { intros c c' Hs. induction Hs as [|x y z Hxy _ IH]; [done|]. intros Hr. apply IH.
    eapply reached_own; [exact Hr|]. destruct Hxy; by constructor. }
  exact (H _ _ run_to_rest before_reached).
Qed.

Lemma pushes_under_ceiling_witness :
  ∃ readEpoch, entitled calls [1; 1] [2] [3] readEpoch 8.
Proof.
  apply (pushes_under_ceiling calls after thePush group 8 after_reached);
    [apply list_elem_of_singleton; reflexivity|reflexivity].
Defined.

Lemma registry_consistent_witness :
  is_Some (Subscriptions.byKey (Registry.groups (config.registry before)) !! theKey) ∧
  RendezvousSubscriptions (Registry.boxes (config.registry before)) =
    Z.of_nat (size (standing (Registry.boxes (config.registry before)))).
Proof.
  destruct (registry_consistent calls before before_reached) as (Hi & _ & Hc & _). split; [|exact Hc].
  apply Hi. vm_compute. reflexivity.
Defined.

(** ** Two Collects *)

Definition two_collects : Rendezvous.t :=
  (subscribeRendezvous (subscribeRendezvous NewRendezvous client nonce box 900 100).1 client nonce box 900 110).1.
Definition theClaim : claim.t := claim.mk client nonce box 0.

Lemma two_claimed : claimed (claims.mk two_collects [theClaim; theClaim] []).
Proof.
  pose proof (claimed_step _ _ _ claimed_new (step_collected client nonce box 900 100 NewRendezvous [] [])) as H1.
  set (s1 := (subscribeRendezvous NewRendezvous client nonce box 900 100).1) in *.
  replace (subscribeRendezvous NewRendezvous client nonce box 900 100).2 with (Claimed 0 true) in H1
    by (vm_compute; reflexivity).
  pose proof (claimed_step _ _ _ H1 (step_collected client nonce box 900 110 s1 _ _)) as H2.
  replace (subscribeRendezvous s1 client nonce box 900 110).2 with (Claimed 0 false) in H2
    by (vm_compute; reflexivity). exact H2.
Qed.

Definition one_settled : claims.t :=
  claims.mk (settleRendezvous two_collects client nonce box 0 false) [theClaim] [].

Lemma held_by_a_collect_witness :
  claims_step (Settled theClaim false) (claims.mk two_collects [theClaim; theClaim] []) one_settled ∧
  stands (claims.boxes one_settled) (octets box, connectionKeyOf client nonce) 0.
Proof.
  split; [exact (step_settled two_collects [] theClaim [theClaim] false [])|].
  destruct (standing two_collects !! (octets box, connectionKeyOf client nonce)) as [sub|] eqn:E;
    [|exfalso; revert E; vm_compute; discriminate].
  assert (rendezvousSubscription.address sub = 0%nat) as Ha.
  { assert (rendezvousSubscription.address <$> standing two_collects !! (octets box, connectionKeyOf client nonce) =
      Some 0%nat) as H by (vm_compute; reflexivity). rewrite E in H. by injection H. }
  destruct (Rendezvous.boxes two_collects !! octets box) as [b|] eqn:Eb;
    [|exfalso; revert Eb; vm_compute; discriminate].
  destruct (held_by_a_collect (Settled theClaim false) (claims.mk two_collects [theClaim; theClaim] [])
    one_settled (octets box) (connectionKeyOf client nonce) b sub two_claimed E) as [_ H].
  rewrite Ha in H. destruct (H (step_settled two_collects [] theClaim [theClaim] false []) Eb) as [Hs|[] ];
    [right; apply list_elem_of_singleton; reflexivity|exact Hs].
Defined.
