(* ===== verification/SubscribeRace.v ===== *)
(** * The subscription's snapshot and its registration

    [Handler.Subscribe] reads the snapshot it acknowledges from the store and registers afterwards,
    as two calls.  What is published in between is in neither: a theorem about every run shows the
    order, and a run of two handlers shows the record that is missed. *)

From S2P Require Import Prelude StoreTypes Retention MemoryStore GroupInv Interleaving Scenario Connections.
From S2P Require Import Message Prog Api ApiRecord ApiSubmit ApiFetch SubmitChecks Subscriptions ApiScenario.

(** ** Every run *)

Section Order.
Context `{Library}.

(** The registration is the last call, and the snapshot is the answer of the call before it. *)
Definition snapshotThenRegister (conn : ApiConnection.t) (request : pSubscribeRequest.t)
    (tr : list (event answer)) (acks : list pSubscriptionAck.t) : Prop :=
  ∃ before groupId read result,
    tr = before ++ [Event (StoreFetch read) (Ok result);
                    Event (Api.Subscribe (Some (ApiConnection.ClientId conn)) (ApiConnection.ServerNonce conn) groupId
                             (pSubscribeRequest.ReadEpoch request) (FetchResult.HighWaterRecordId result)
                             (pSubscribeRequest.Replace request)) false] ∧
    acks = [pSubscriptionAck.mk (bytes_Clone groupId) (FetchResult.HighWaterRecordId result) REASON_OK].

Lemma every_Subscribe self ctx conn request :
  wp (λ _, True) (λ _ _, True) (ApiFetch.Subscribe self ctx (Some conn) (Some request))
    (λ tr r, ∀ acks, reply_body r = Some acks → snapshotThenRegister conn request tr acks) [].
Proof.
  apply every_opening; [done|by intros|]. intros started conn' request' op tr _ [= <-] [= <-] _.
  assert (∀ tr reason, wp (λ _, True) (λ _ _, True) (padded self ctx started reason)
    (λ tr r, ∀ acks, reply_body r = Some acks → snapshotThenRegister conn request tr acks) tr) as Hpad
    by (intros; by apply every_padded).
  unfold serveSubscribe. destruct (negb (Handler.subscriptions self)); [done|].
  destruct (pSubscribeRequest.Subscriptions request) as [|wanted [|] ]; [apply Hpad| |apply Hpad].
  destruct (_ || _); [apply Hpad|]. apply wp_bind, every_Contains; [done|done|done|]. intros tr1 known _.
  destruct known as [ []|e]; [|apply Hpad|done]. cbn [mbind prog_mbind prog_bind].
  split; [done|]. intros keys _. destruct keys as [keys|e]; [|apply Hpad]. cbn [mbind prog_mbind prog_bind].
  case_bool_decide; [apply Hpad|]. destruct (canonicalRequestBytes _) as [canonical|e]; [|apply Hpad].
  destruct (negb _); [apply Hpad|]. split; [done|]. intros result _. destruct result as [result|e]; [|apply Hpad].
  cbn [mbind prog_mbind prog_bind]. split; [done|]. intros full _. cbn [mbind prog_mbind prog_bind].
  destruct full; [apply Hpad|]. intros acks [= <-]. eexists _, _, _, result.
  split; [|done]. rewrite <- app_assoc. done.
Qed.

Lemma snapshot_before_registration self ctx conn request tr r acks :
  runs (ApiFetch.Subscribe self ctx (Some conn) (Some request)) tr (Returned r) →
  reply_body r = Some acks → snapshotThenRegister conn request tr acks.
Proof.
  intros Hr. destruct (wp_runs _ _ _ _ _ _ _ (every_Subscribe self ctx conn request) Hr) as (r' & [= <-] & HQ);
    [by apply Forall_forall|]. apply HQ.
Qed.
End Order.

(** ** A run of two handlers *)

Definition raceHandler : Handler.t := Handler.mk memoryKnownGroups 65536 256 512 0 true false 0 0.
Definition reader : ApiConnection.t := ApiConnection.mk (Some (replicate 32 8)) (replicate 16 6).
Definition subscribeRequest : pSubscribeRequest.t :=
  pSubscribeRequest.mk [pSubscription.mk gid 0] false 1 (key 101).

(** The store and the registry answer for themselves. *)
Definition both (c : op) (s : MemoryStore.t * Subscriptions.t) :
    (MemoryStore.t * Subscriptions.t) * answer c :=
  match c return (MemoryStore.t * Subscriptions.t) * answer c with
  | Api.Subscribe clientId serverNonce groupId readEpoch snapshot replace =>
      let '(registry, full) := subscribe s.2 clientId serverNonce groupId readEpoch snapshot replace in
      ((s.1, registry), full)
  | Published groupId records => ((s.1, (published s.2 groupId records).1), tt)
  | c => let '(store, a) := machine c s.1 in ((store, s.2), a)
  end.

Lemma interleaved_runs n {A} (p : M A) s s2 :
  runs p ((execFor both n p s).1.2 ++ (exec both (execFor both n p s).2 s2).1.2)
    (exec both (execFor both n p s).2 s2).2.
Proof. apply execFor_runs, exec_runs. Qed.

(** The reader's Subscribe up to and with the call that reads its snapshot; then the writer's Submit
    of the text, whole; then the rest of the Subscribe. *)
Definition half : (MemoryStore.t * Subscriptions.t) * list (event answer) * M (reply (list pSubscriptionAck.t)) :=
  execFor both 7 (ApiFetch.Subscribe raceHandler noContext (Some reader) (Some subscribeRequest))
    (opened, NewSubscriptions).
Definition written : (MemoryStore.t * Subscriptions.t) * list (event answer) * outcome (reply (list pSubmitResult.t)) :=
  exec both (ApiSubmit.Submit raceHandler noContext (Some demoConn) (Some (submitRequest 3))) half.1.1.
Definition done_ : (MemoryStore.t * Subscriptions.t) * list (event answer) * outcome (reply (list pSubscriptionAck.t)) :=
  exec both half.2 written.1.1.

