(* ===== verification/Dispatch.v ===== *)
(** * The dispatch of one request ([peer/peer.go])

    The frame binding between connect and the handlers: the route table, the version check and the
    connection lookup in front of it, the one place a response gets its request id, the size bound,
    the frames it travels in, and the padded refusals that wait off the worker pool.  A job is a
    program whose calls are the registry of connections, the handlers' own collaborators, the send
    path, and the two semaphores that bound the waiting answers. *)

From S2P Require Import Prelude StoreTypes Reassembly Connections Message Prog Api.
From S2P Require Import ApiRecord ApiSubmit ApiFetch ApiRendezvous.

(** ** The envelope *)

(** The arms of the request's [body]: those a handler may serve, and every other. *)
Inductive Arm : Type :=
  | ArmHello | ArmCreateGroup | ArmSubmit | ArmFetch | ArmSubscribe | ArmUnsubscribe
  | ArmRegister | ArmOpen | ArmDeposit | ArmCollect | ArmRetire
  | ArmOther (number : Z).

#[global] Instance Arm_eq_dec : EqDecision Arm.
Proof. solve_decision. Defined.

Inductive RequestBody : Type :=
  | AskHello (supportedVersions : list Z)
  | Ask (body : Body)
  | AskOther (number : Z).

(** [MessageServerRequest]; a body that is no arm this build knows reads as none. *)
Module pRequest.
Record t := mk { RequestId : Z; ProtocolVersion : Z; body : option RequestBody }.
End pRequest.

Definition armOfBody (body : Body) : Arm :=
  match body with
  | BodySubmit _ => ArmSubmit
  | BodyCreateGroup _ => ArmCreateGroup
  | BodyFetch _ => ArmFetch
  | BodySubscribe _ => ArmSubscribe
  | BodyUnsubscribe _ => ArmUnsubscribe
  | BodyRegister _ => ArmRegister
  | BodyOpen _ => ArmOpen
  | BodyDeposit _ => ArmDeposit
  | BodyCollect _ => ArmCollect
  | BodyRetire _ => ArmRetire
  end.

Definition armOfRequest (body : RequestBody) : Arm :=
  match body with
  | AskHello _ => ArmHello
  | Ask body => armOfBody body
  | AskOther number => ArmOther number
  end.

Section Dispatch.
Context {Capabilities : Type}.

Inductive ResponseBody : Type :=
  | AnsweredHello (response : HelloResponse Capabilities)
  | AnsweredCreateGroup (response : pCreateGroupResponse.t)
  | AnsweredSubmit (results : list pSubmitResult.t)
  | AnsweredFetch (response : pFetchResponse.t)
  | AnsweredSubscribe (acks : list pSubscriptionAck.t)
  | AnsweredRegister (response : pRegisterResponse.t)
  | AnsweredOpen (response : pOpenResponse.t)
  | AnsweredDeposit (response : pDepositResponse.t)
  | AnsweredCollect (response : pCollectResponse.t)
  | AnsweredRetire (response : pRetireResponse.t).

(** The request arm a response body answers. *)
Definition armOfResponse (body : ResponseBody) : Arm :=
  match body with
  | AnsweredHello _ => ArmHello
  | AnsweredCreateGroup _ => ArmCreateGroup
  | AnsweredSubmit _ => ArmSubmit
  | AnsweredFetch _ => ArmFetch
  | AnsweredSubscribe _ => ArmSubscribe
  | AnsweredRegister _ => ArmRegister
  | AnsweredOpen _ => ArmOpen
  | AnsweredDeposit _ => ArmDeposit
  | AnsweredCollect _ => ArmCollect
  | AnsweredRetire _ => ArmRetire
  end.

(** [MessageServerResponse] *)
Record Response := mkResponse { RequestId : Z; reason : Reason; body : option ResponseBody }.

(** What the transport reads of the wire library: the encoding of a response and of a fragment, and
    whether the response descriptor has an arm of a body's type. *)
Class Wire := {
  marshalResponse : Response → res LibError (list Z);
  marshalFragment : Fragment.t → res LibError (list Z);
  responseSize : Response → Z;
  responseArm : Arm → bool }.

Context `{Library} `{Wire}.

(** ** The peer *)

Inductive PeerError : Type := ErrNoResponseArm | ErrWrongArm | ErrOfApi (e : ApiError) | ErrOfHello (e : ConnectionError).

Record Peer := mkPeer {
  handler : Handler.t;
  helloPeer : HelloPeer Capabilities;
  maxRequestBytes : Z;
  maxResponseBytes : Z;
  fragmentPartBytes : Z;
  sendTimeout : Z;
  maxDeferredBytes : Z }.

Implicit Types self : Peer.

Definition DefaultMaxDeferredAnswers : Z := 1024.
Definition DefaultMaxDeferredBytes : Z := Z.shiftl 8 20.
Definition DefaultSendTimeout : Z := 30 * Second.
Definition DefaultMaxResponseBytes : Z := 1048576.

(** ** One job's calls *)

(** [Looked] is [Connections.Lookup], [Helloed] is [Peer.hello], [Handled] is a call the handler
    makes, [Send] is [SendWithTimeout] of one frame; the slots and the bytes are the semaphores of
    [answerLater], and [Await] its timer.  A send, a semaphore or a timer answers [false] when it
    gave up. *)
Inductive peerOp : Type :=
  | Looked (clientId : list Z)
  | Helloed (arrived : inbound.t) (supportedVersions : list Z)
  | Handled (c : op)
  | Send (clientId : list Z) (frame : Frame) (timeout : Z)
  | TakeSlot
  | GiveSlot
  | TakeBytes (held : Z)
  | GiveBytes (held : Z)
  | Await (wait : Z).

Definition peerAnswer (c : peerOp) : Type :=
  match c with
  | Looked _ => option (nat * ApiConnection.t)
  | Helloed _ _ => HelloAnswer Capabilities
  | Handled c => answer c
  | Send _ _ _ | TakeSlot | TakeBytes _ | Await _ => bool
  | GiveSlot | GiveBytes _ => unit
  end.

Abbreviation P := (prog peerAnswer).
Definition askPeer (c : peerOp) : P (peerAnswer c) := call c.

(** A handler on a context that carries a [Deferral]: what it defers is written there and is no
    call of the job. *)
Fixpoint handling {A} (deferral : option Z) (p : M A) {struct p} : P (A * option Z) :=
  match p with
  | Return a => Return (a, deferral)
  | Panic => Panic
  | Do c k =>
      match c as c return (answer c → option Z → P (A * option Z)) → P (A * option Z) with
      | Defer remaining => λ go, go tt (Some remaining)
      | c => λ go, Do (Handled c) (λ r, go r deferral)
      end (λ r deferral, handling deferral (k r))
  end.

(** ** The route table *)

(** The arms served, each with whether the front checks run inside its handler. *)
Definition rendezvousRoutes : list (Arm * bool) :=
  [(ArmRegister, true); (ArmOpen, true); (ArmDeposit, true); (ArmCollect, true); (ArmRetire, true)].

Definition buildRoutes self : list (Arm * bool) :=
  [(ArmHello, false); (ArmCreateGroup, true); (ArmSubmit, true); (ArmFetch, true);
   (ArmSubscribe, true); (ArmUnsubscribe, true)] ++
  (if RendezvousServed (handler self) then rendezvousRoutes else []).

(** [self.routes[...]]: whether the arm is served, and then its [pipeline]. *)
Fixpoint routeOf (routes : list (Arm * bool)) (arm : Arm) : option bool :=
  match routes with
  | [] => None
  | (key, pipeline) :: routes => if decide (key = arm) then Some pipeline else routeOf routes arm
  end.

(** [unservedArms], of the arms the request descriptor has. *)
Definition unservedArms self (arms : list Arm) : list Arm :=
  filter (λ arm, routeOf (buildRoutes self) arm = None) arms.

(** What a route's [run] answers: a reason, the body unless it is nil, an error. *)
Definition ran : Type := (Reason * option ResponseBody * option PeerError)%type.

Definition ranOf {B} (arm : B → ResponseBody) (r : reply B) : ran :=
  (reply_reason r, arm <$> reply_body r, ErrOfApi <$> reply_error r).

(** A route over its handler, the deferral beside what it answers. *)
Definition routed {B} (arm : B → ResponseBody) (p : M (reply B)) : P (ran * option Z) :=
  '(r, deferral) ← handling None p; Return (ranOf arm r, deferral).

Definition runArm self (ctx : Context.t) (conn : ApiConnection.t) (body : Body) : P (ran * option Z) :=
  let h := handler self in
  match body with
  | BodyCreateGroup request => routed AnsweredCreateGroup (ApiSubmit.CreateGroup h ctx (Some conn) (Some request))
  | BodySubmit request => routed AnsweredSubmit (ApiSubmit.Submit h ctx (Some conn) (Some request))
  | BodyFetch request => routed AnsweredFetch (ApiFetch.Fetch h ctx (Some conn) (Some request))
  | BodySubscribe request => routed AnsweredSubscribe (ApiFetch.Subscribe h ctx (Some conn) (Some request))
  | BodyUnsubscribe request =>
      '(r, deferral) ← handling None (ApiFetch.Unsubscribe h ctx (Some conn) (Some request));
      Return (reply_reason r, None, ErrOfApi <$> reply_error r, deferral)
  | BodyRegister request => routed AnsweredRegister (RendezvousRegister h ctx (Some conn) (Some request))
  | BodyOpen request => routed AnsweredOpen (RendezvousOpen h ctx (Some conn) (Some request))
  | BodyDeposit request => routed AnsweredDeposit (RendezvousDeposit h ctx (Some conn) (Some request))
  | BodyCollect request => routed AnsweredCollect (RendezvousCollect h ctx (Some conn) (Some request))
  | BodyRetire request => routed AnsweredRetire (RendezvousRetire h ctx (Some conn) (Some request))
  end.

(** ** Answering *)

(** [setResponseBody]: the body goes where its own type says, or nowhere. *)
Definition setResponseBody (response : Response) (answered : option ResponseBody) : res PeerError Response :=
  match answered with
  | None => Ok response
  | Some answered =>
      if responseArm (armOfResponse answered)
      then Ok (mkResponse (RequestId response) (reason response) (Some answered))
      else Err ErrNoResponseArm
  end.

(** The last lines of [answer]: an error is INTERNAL and carries no body. *)
Definition finishAnswer (requestId : Z) (r : ran) : Response :=
  let '(answeredReason, answered, err) := r in
  match err with
  | Some _ => mkResponse requestId REASON_INTERNAL None
  | None =>
      let response := mkResponse requestId answeredReason None in
      match setResponseBody response answered with
      | Ok response => response
      | Err _ => mkResponse requestId REASON_INTERNAL None
      end
  end.

(** [answer], with what the handler left in its deferral. *)
Definition answer self (arrived : inbound.t) (request : pRequest.t) : P (Response * option Z) :=
  let id := pRequest.RequestId request in
  let refuse r := Return (mkResponse id r None, None) in
  match pRequest.body request with
  | None => refuse REASON_REJECTED
  | Some body =>
      match routeOf (buildRoutes self) (armOfRequest body) with
      | None => refuse REASON_INTERNAL
      | Some false =>
          let checked := withinLimits (inbound.bytes arrived) (maxRequestBytes self) in
          if negb (bool_decide (checked = REASON_OK)) then refuse checked
          else match body with
               | AskHello supportedVersions =>
                   hello ← askPeer (Helloed arrived supportedVersions);
                   Return (finishAnswer id (answer_reason hello, AnsweredHello <$> answer_response hello,
                                            ErrOfHello <$> answer_error hello), None)
               | _ => Return (finishAnswer id (REASON_INTERNAL, None, Some ErrWrongArm), None)
               end
      | Some true =>
          let version := pRequest.ProtocolVersion request in
          if negb (version =? 0) && negb (version =? protocolVersion (helloPeer self))
          then refuse REASON_UNSUPPORTED_VERSION
          else
            found ← askPeer (Looked (inbound.clientId arrived));
            match (found : option (nat * ApiConnection.t)) with
            | None => refuse REASON_REJECTED
            | Some (connection, conn) =>
                match body with
                | Ask body =>
                    let arrived := inbound.set_connection (Some connection) arrived in
                    '(r, deferral) ← runArm self (Context.mk true (Some arrived)) conn body;
                    Return (finishAnswer id r, deferral)
                | _ => Return (finishAnswer id (REASON_INTERNAL, None, Some ErrWrongArm), None)
                end
            end
      end
  end.

(** ** The send path *)

(** [bounded] *)
Definition bounded self (response : Response) : Response :=
  if maxResponseBytes self <? responseSize response
  then mkResponse (RequestId response) REASON_OVERSIZE None else response.

(** The loop of [send]: the first frame the transport does not take ends it. *)
Fixpoint sendFrames self (clientId : list Z) (frames : list Frame) : P unit :=
  match frames with
  | [] => Return tt
  | frame :: rest =>
      took ← askPeer (Send clientId frame (sendTimeout self));
      if (took : bool) then sendFrames self clientId rest else Return tt
  end.

Definition framesOf self (response : Response) : res LibError (list Frame) :=
  responseFrames RequestId marshalResponse marshalFragment response (fragmentPartBytes self).

Definition send self (clientId : list Z) (response : Response) : P unit :=
  match framesOf self (bounded self response) with
  | Err _ => Return tt
  | Ok frames => sendFrames self clientId frames
  end.

(** [answerLater], with the goroutine it starts behind it. *)
Definition answerLater self (clientId : list Z) (response : Response) (wait : Z) : P unit :=
  slot ← askPeer TakeSlot;
  if negb (slot : bool) then Return tt
  else
    let response := bounded self response in
    let held := Z.min (responseSize response) (maxDeferredBytes self) in
    room ← askPeer (TakeBytes held);
    if negb (room : bool) then askPeer GiveSlot
    else
      fired ← askPeer (Await wait);
      _ ← (if (fired : bool) then send self clientId response else Return tt);
      _ ← askPeer (GiveBytes held);
      askPeer GiveSlot.

(** One job, as [work] serves it. *)
Definition serveJob self (arrived : inbound.t) (request : pRequest.t) : P unit :=
  '(response, deferral) ← answer self arrived request;
  match deferral with
  | Some wait =>
      if 0 <? wait then answerLater self (inbound.clientId arrived) response wait
      else send self (inbound.clientId arrived) response
  | None => send self (inbound.clientId arrived) response
  end.

(** [sweepPeriod] *)
Definition sweepPeriod (idle : Z) : Z := Z.max (idle ÷ 2) Millisecond.
End Dispatch.
