(* ===== verification/DispatchProps.v ===== *)
(** * Every job is answered once, in kind, and gives back what it took

    The dispatch of [Dispatch]: which calls a job may make and when, what its response says of its
    request, and how the padded refusals hold the semaphores. *)

From S2P Require Import Prelude StoreTypes Reassembly Connections Message Prog Api.
From S2P Require Import ApiRecord ApiSubmit ApiFetch ApiRendezvous SubmitChecks ApiSubmitProps ServerProps Dispatch.

(** ** Programs in sequence *)

Section Runs.
Context {op : Type} {answer : op → Type}.

Lemma runs_inv {A} (p : prog answer A) tr out :
  runs p tr out →
  match p with
  | Return a => tr = [] ∧ out = Returned a
  | Panic => tr = [] ∧ out = Panicked
  | Do c k => ∃ r tr', tr = Event c r :: tr' ∧ runs (k r) tr' out
  end.
Proof. destruct 1; eauto. Qed.

Lemma runs_bind {A B} (p : prog answer A) (f : A → prog answer B) tr out :
  runs (p ≫= f) tr out →
  runs p tr Panicked ∨
  ∃ tr1 a tr2, tr = tr1 ++ tr2 ∧ runs p tr1 (Returned a) ∧ runs (f a) tr2 out.
Proof.
  revert tr. induction p as [a| |c k IH]; intros tr Hr; cbn in Hr.
  - right. exists [], a, tr. split; [done|]. by split; [constructor|].
  - left. apply runs_inv in Hr as [-> ->]. constructor.
  - apply runs_inv in Hr as (r & tr' & -> & Hr').
    destruct (IH r tr' Hr') as [Hp|(tr1 & a & tr2 & -> & H1 & H2)].
    + left. by constructor.
    + right. exists (Event c r :: tr1), a, tr2. by repeat (split; [done || by constructor|]).
Qed.

Lemma wp_weaken {A} can (may may' : list (event answer) → op → Prop) (p : prog answer A) Q before :
  (∀ tr c, may tr c → may' tr c) → wp can may p Q before → wp can may' p Q before.
Proof.
  intros Hm. revert before. induction p as [a| |c k IH]; intros before; cbn; [done|done|].
  intros [Hc Hk]. split; [by apply Hm|]. intros r Hr. by apply IH, Hk.
Qed.
End Runs.

Section Props.
Context `{Library} `{!LibraryLaws}.
Context {Capabilities : Type} `{Wire Capabilities}.

Implicit Types self : Peer (Capabilities := Capabilities).
Abbreviation served := (list (event (peerAnswer (Capabilities := Capabilities)))).

(** ** Answering *)

(** The job was admitted to the pipeline: its arm has a pipeline route, its version is this
    server's or none, and its client has a connection, looked up first. *)
Definition admittedJob self (arrived : inbound.t) (request : pRequest.t) (tr : served) : Prop :=
  ∃ body connection rest,
    pRequest.body request = Some (Ask body) ∧ routeOf (buildRoutes self) (armOfBody body) = Some true ∧
    pRequest.ProtocolVersion request ∈ [0; protocolVersion (helloPeer self)] ∧
    tr = Event (Looked (inbound.clientId arrived)) (Some connection) :: rest.

(** The calls of [answer]. *)
Definition mayAnswer self (arrived : inbound.t) (request : pRequest.t) (tr : served)
    (c : peerOp) : Prop :=
  match c with
  | Looked clientId => clientId = inbound.clientId arrived ∧ tr = []
  | Helloed from versions => from = arrived ∧ tr = [] ∧ pRequest.body request = Some (AskHello versions) ∧
      withinLimits (inbound.bytes arrived) (maxRequestBytes self) = REASON_OK
  | Handled _ => admittedJob self arrived request tr
  | _ => False
  end.

(** The response carries its request's id, and a body of the request's own arm or none. *)
Definition inKind (request : pRequest.t) (response : Response (Capabilities := Capabilities)) : Prop :=
  RequestId response = pRequest.RequestId request ∧
  ∀ b, body response = Some b →
    ∃ asked, pRequest.body request = Some asked ∧ armOfResponse b = armOfRequest asked.

Lemma wp_handling {A} (p : M A) (J : served → Prop) can may d tr0 tr :
  wp (λ _, True) (λ _ _, True) p (λ _ _, True) tr0 →
  (∀ tr e, J tr → J (tr ++ [e])) → (∀ tr c, J tr → may tr (Handled c)) → J tr →
  wp can may (handling d p) (λ _ _, True) tr.
Proof.
  intros Hp HJ Hm. revert d tr0 tr Hp.
  induction p as [a| |c k IH]; intros d tr0 tr Hp Htr; cbn in Hp; [done|done|].
  destruct Hp as [_ Hk]. cbn.
  destruct c; first [eapply IH; [by apply Hk|done] | split; [by apply Hm|];
    intros r _; eapply IH; [by apply Hk|by apply HJ] ].
Qed.

(** The body a route answers is of one arm. *)
Definition ofArm (arm : Arm) (r : ran (Capabilities := Capabilities)) : Prop :=
  ∀ b, r.1.2 = Some b → armOfResponse b = arm.

Lemma finishAnswer_inKind request asked (r : ran (Capabilities := Capabilities)) :
  pRequest.body request = Some asked → ofArm (armOfRequest asked) r →
  inKind request (finishAnswer (pRequest.RequestId request) r).
Proof.
  intros Hb Hr. destruct r as [ [reason answered] [e|] ]; [done|].
  unfold finishAnswer, setResponseBody. destruct answered as [b|]; [|done].
  destruct (responseArm _); [|done]. split; [done|]. cbn. intros ? [= <-].
  exists asked. split; [done|]. by apply Hr.
Qed.

Lemma refusal_inKind request r :
  inKind request (mkResponse (Capabilities := Capabilities) (pRequest.RequestId request) r None).
Proof. done. Qed.

Lemma handlers_return self ctx conn body can may (J : served → Prop) tr :
  (∀ tr e, J tr → J (tr ++ [e])) → (∀ tr c, J tr → may tr (Handled c)) → J tr →
  wp can may (runArm (Capabilities := Capabilities) self ctx conn body) (λ _ r, ofArm (armOfBody body) r.1) tr.
Proof.
  intros HJ Hm Htr.
  assert (∀ A (p : M A), wp (λ _, True) (λ _ _, True) p (λ _ _, True) [] →
    wp can may (handling None p) (λ _ _, True) tr) as Hh by (intros; by eapply wp_handling).
  assert (∀ A (p : M A), harmless p → wp (λ _, True) (λ _ _, True) p (λ _ _, True) []) as Hq.
  { intros A p Hp. eapply wp_weaken; [|apply Hp]. done. }
  destruct body; cbn [runArm]; unfold routed; apply wp_bind;
    (eapply wp_mono; [|apply Hh;
       first [ apply Hq; first [apply harmless_Fetch|apply harmless_Subscribe|apply harmless_Unsubscribe
                 |apply harmless_Register|apply harmless_Open|apply harmless_Deposit
                 |apply harmless_Collect|apply harmless_Retire]
             | eapply wp_weaken, wp_mono; [| |apply every_Submit]; done
             | eapply wp_weaken, wp_mono; [| |apply every_CreateGroup]; done] ]);
    intros ? [r d] _; cbn; intros b Hb; cbn in Hb; destruct (reply_body r); by simplify_eq/=.
Qed.

Lemma every_answer self arrived request :
  wp (λ _, True) (mayAnswer self arrived request) (answer self arrived request)
    (λ _ r, inKind request r.1) [].
Proof.
  unfold answer. destruct (pRequest.body request) as [body|] eqn:Hbody; [|done].
  destruct (routeOf _ _) as [ [ | ]|] eqn:Hroute; [| |done].
  - destruct (negb _ && negb _) eqn:Hversion; [done|]. cbn. split; [done|].
    intros [ [connection conn]|] _; [|done].
    destruct body as [versions|body|number];
      [done| |done].
    apply wp_bind. eapply wp_mono; [|apply (handlers_return _ _ _ _ _ _
      (λ tr, ∃ rest, tr = Event (Looked (inbound.clientId arrived)) (Some (connection, conn)) :: rest))].
    + intros tr [r d] Hr. cbn. by eapply finishAnswer_inKind.
    + intros tr e [rest ->]. by eexists.
    + intros tr c [rest ->]. exists body, (connection, conn), rest. repeat split; [done|done|].
      apply andb_false_iff in Hversion as [Hv|Hv]; apply negb_false_iff, Z.eqb_eq in Hv; set_solver.
    + by exists [].
  - destruct (negb (bool_decide _)) eqn:Hlimits; [done|].
    destruct body as [versions|body|number];
      [|done|done].
    apply negb_false_iff, bool_decide_eq_true in Hlimits. apply wp_bind. split; [done|]. intros hello _.
    eapply finishAnswer_inKind; [done|]. intros b Hb. cbn in Hb.
    destruct (answer_response hello); by simplify_eq/=.
Qed.

(** ** Delivering *)

(** The frames a stretch of a run gave the transport, each with its client. *)
Definition frameSent (e : event (peerAnswer (Capabilities := Capabilities))) : option (list Z * Frame) :=
  match did e with Send clientId frame _ => Some (clientId, frame) | _ => None end.
Definition framesSent (tr : served) : list (list Z * Frame) := omap frameSent tr.

(** Slots and bytes taken and not yet given back. *)
Definition slotTaken (e : event (peerAnswer (Capabilities := Capabilities))) : Z :=
  match e with
  | Event c r =>
      match c as c return peerAnswer (Capabilities := Capabilities) c → Z with
      | TakeSlot => λ took, if (took : bool) then 1 else 0
      | GiveSlot => λ _, -1
      | _ => λ _, 0
      end r
  end.
Definition bytesTaken (e : event (peerAnswer (Capabilities := Capabilities))) : Z :=
  match e with
  | Event c r =>
      match c as c return peerAnswer (Capabilities := Capabilities) c → Z with
      | TakeBytes held => λ took, if (took : bool) then held else 0
      | GiveBytes held => λ _, - held
      | _ => λ _, 0
      end r
  end.
Definition held (amount : event (peerAnswer (Capabilities := Capabilities)) → Z) (tr : served) : Z :=
  foldr (λ e n, amount e + n) 0 tr.

(** What a response may be delivered as. *)
Definition deliverable self (clientId : list Z) (response : Response) : list (list Z * Frame) :=
  match framesOf self (bounded self response) with
  | Ok frames => pair clientId <$> frames
  | Err _ => []
  end.

(** A stretch that delivers a response and keeps nothing; after a wait, if there is one. *)
Record delivers self (clientId : list Z) (response : Response) (wait : option Z) (tr : served) : Prop :=
  Delivers {
    sent_prefix : framesSent tr `prefix_of` deliverable self clientId response;
    slots_back : held slotTaken tr = 0;
    bytes_back : held bytesTaken tr = 0;
    waited : ∀ w i e, wait = Some w → tr !! i = Some e → frameSent e ≠ None →
      Event (Await w) true ∈ take i tr }.

Lemma held_app amount tr tr' : held amount (tr ++ tr') = held amount tr + held amount tr'.
Proof. unfold held. induction tr as [|e tr IH]; cbn; [done|]. rewrite IH. lia. Qed.

Lemma held_cons amount e tr : held amount (e :: tr) = amount e + held amount tr.
Proof. done. Qed.

Lemma framesSent_app tr tr' : framesSent (tr ++ tr') = framesSent tr ++ framesSent tr'.
Proof. apply omap_app. Qed.

Lemma sendFrames_run self clientId frames tr out :
  runs (sendFrames self clientId frames) tr out →
  out = Returned tt ∧ framesSent tr `prefix_of` (pair clientId <$> frames) ∧
  held slotTaken tr = 0 ∧ held bytesTaken tr = 0.
Proof.
  revert tr. induction frames as [|frame rest IH]; intros tr Hr; apply runs_inv in Hr; cbn in Hr.
  - destruct Hr as [-> ->]. done.
  - destruct Hr as (took & tr' & -> & Hr).
    change (out = Returned tt ∧ (clientId, frame) :: framesSent tr' `prefix_of` (clientId, frame) :: (pair clientId <$> rest) ∧
      0 + held slotTaken tr' = 0 ∧ 0 + held bytesTaken tr' = 0).
    destruct took; cbn in Hr.
    + destruct (IH _ Hr) as (-> & Hp & -> & ->). repeat split. by apply prefix_cons.
    + apply runs_inv in Hr as [-> ->]. repeat split. apply prefix_cons, prefix_nil.
Qed.

Lemma send_run self clientId response tr out :
  runs (send self clientId response) tr out →
  out = Returned tt ∧ delivers self clientId response None tr.
Proof.
  unfold send. intros Hr. destruct (framesOf _ _) as [frames|e] eqn:Hf.
  - apply sendFrames_run in Hr as (-> & Hp & Hs & Hb). split; [done|]. split; [|done..].
    unfold deliverable. by rewrite Hf.
  - apply runs_inv in Hr as [-> ->]. split; [done|]. split; [|done..]. apply prefix_nil.
Qed.

Lemma bounded_bounded self response : bounded self (bounded self response) = bounded self response.
Proof. unfold bounded. destruct (_ <? responseSize response) eqn:E; cbn; [by case_match|by rewrite E]. Qed.

Lemma answerLater_run self clientId response wait tr out :
  runs (answerLater self clientId response wait) tr out →
  out = Returned tt ∧ delivers self clientId response (Some wait) tr.
Proof.
  unfold answerLater. intros Hr. apply runs_inv in Hr as (slot & tr1 & -> & Hr).
  destruct slot; cbn in Hr.
  2:{ apply runs_inv in Hr as [-> ->]. split; [done|]. split; [apply prefix_nil|done|done|].
      intros ? [|i] ? ? Hi Hf; [|done]. by simplify_eq/=. }
  apply runs_inv in Hr as (room & tr2 & -> & Hr). destruct room; cbn in Hr.
  2:{ apply runs_inv in Hr as (a & tr3 & -> & Hr). cbn in Hr. apply runs_inv in Hr as [-> ->].
      split; [by destruct a|]. split; [apply prefix_nil|done|done|].
      intros ? [|[|[|i] ] ] ? ? Hi Hf; by simplify_eq/=. }
  apply runs_inv in Hr as (fired & tr3 & -> & Hr).
  apply runs_bind in Hr as [Hr|(tr4 & [] & tail & -> & Hsent & Hr)].
  { destruct fired; [by apply send_run in Hr as [? _]|by apply runs_inv in Hr as [_ ?] ]. }
  apply runs_inv in Hr as ([] & tail1 & -> & Hr). apply runs_inv in Hr as ([] & tail2 & -> & Hr).
  apply runs_inv in Hr as [-> ->]. split; [done|].
  assert (framesSent tr4 `prefix_of` deliverable self clientId (bounded self response) ∧
    held slotTaken tr4 = 0 ∧ held bytesTaken tr4 = 0 ∧ (fired = false → tr4 = [])) as (Hp & Hs & Hb & Hf).
  { destruct fired.
    - by apply send_run in Hsent as [_ [Hp Hs Hb _] ].
    - apply runs_inv in Hsent as [-> _]. repeat split; [apply prefix_nil|done..]. }
  split.
  - change (framesSent (tr4 ++ [Event (GiveBytes (Z.min (responseSize (bounded self response)) (maxDeferredBytes self))) tt;
      Event GiveSlot tt]) `prefix_of` deliverable self clientId response).
    rewrite framesSent_app. change (framesSent [_; _]) with (@nil (list Z * Frame)).
    rewrite app_nil_r. unfold deliverable in *. by rewrite bounded_bounded in Hp.
  - rewrite !held_cons, held_app, Hs. cbn. lia.
  - rewrite !held_cons, held_app, Hb. cbn. lia.
  - intros w i e [= <-] Hi Hsome. destruct fired.
    + destruct i as [|[|[|i] ] ]; simplify_eq/=; set_solver.
    + rewrite Hf in Hi by done. destruct i as [|[|[|[|[|i] ] ] ] ]; by simplify_eq/=.
Qed.

End Props.
