(* ===== verification/DispatchScenario.v ===== *)
(** * A worked job of the dispatcher

    The record layer and the store of [ApiScenario] behind the route table, with a response encoding
    of five octets sent in parts of two: a read under a key that is not the epoch's is refused, its
    answer waits off the worker for the rest of the floor, and goes out in three frames. *)

From S2P Require Import Prelude StoreTypes Reassembly Connections MemoryStore Scenario Message Prog Api.
From S2P Require Import ApiRecord ApiSubmit ApiFetch ApiRendezvous SubmitChecks ApiSubmitProps Server.
From S2P Require Import ServerProps ApiScenario Dispatch DispatchProps.

#[local] Instance demoWire : Wire (Capabilities := unit) := {|
  marshalResponse r := Ok [Dispatch.RequestId r; 2; 3; 4; 5];
  marshalFragment f := Ok (octets (Fragment.Part f));
  responseSize r := 5;
  responseArm arm := true |}.

Definition flooredHandler : Handler.t := Handler.mk memoryKnownGroups 65536 256 512 100 false false 0 0.
Definition demoPeer : Peer (Capabilities := unit) :=
  mkPeer flooredHandler (mkHelloPeer 1 [1] tt) 65536 DefaultMaxResponseBytes 2 DefaultSendTimeout
    DefaultMaxDeferredBytes.

Definition demoArrived : inbound.t := inbound.mk (replicate 16 5) 80 None.
Definition demoFetch (readKey : list Z) : pRequest.t :=
  pRequest.mk 41 1 (Some (Ask (BodyFetch (pFetchRequest.mk gid 0 10 false 0 1 (Some readKey))))).

(** One client, connected; a transport, semaphores and a timer that never give up. *)
Definition peerMachine (c : peerOp) (s : MemoryStore.t) :
    MemoryStore.t * peerAnswer (Capabilities := unit) c :=
  match c return MemoryStore.t * peerAnswer (Capabilities := unit) c with
  | Looked _ => (s, Some (0%nat, demoConn))
  | Helloed arrived _ => (s, mkAnswer arrived REASON_REJECTED None None)
  | Handled c => machine c s
  | Send _ _ _ | TakeSlot | TakeBytes _ | Await _ => (s, true)
  | GiveSlot | GiveBytes _ => (s, tt)
  end.

Definition jobRun (readKey : list Z) : MemoryStore.t * list (event peerAnswer) * outcome unit :=
  exec peerMachine (serveJob demoPeer demoArrived (demoFetch readKey)) texted.

Lemma jobRun_runs readKey :
  runs (serveJob demoPeer demoArrived (demoFetch readKey)) (jobRun readKey).1.2 (jobRun readKey).2.
Proof. exact (exec_runs peerMachine _ texted). Qed.

#[local] Opaque jobRun texted.

(** The octets of the frames a run sent. *)
Definition octetsSent (tr : list (event (peerAnswer (Capabilities := unit)))) : list (list Z) :=
  (λ x, match x.2 with ResponseFrame b => b | FragmentFrame b => b end) <$> framesSent tr.
Definition waits (tr : list (event (peerAnswer (Capabilities := unit)))) : list Z :=
  omap (λ e, match did e with Await w => Some w | _ => None end) tr.

Example served_at_once :
  (octetsSent (jobRun (octets (key 101))).1.2, waits (jobRun (octets (key 101))).1.2) =
    ([ [41; 2]; [3; 4]; [5] ], []).
Proof. vm_compute. reflexivity. Qed.

