(* ===== verification/Receive.v ===== *)
(** * The receive path, the push path and the wiring of a peer ([peer/peer.go])

    The transport calls [receive] on one loop, frame by frame.  A frame becomes a job, a refusal, a
    kept fragment, or nothing; jobs wait in a queue the loop waits for, refusals in a queue it never
    waits for.  The state is what the loop, the workers, the refusal sender and the sweep share; a
    step is one of them.  Every atomic counter wraps at 2^64. *)

From S2P Require Import Prelude StoreTypes Reassembly Connections Message Prog Api Dispatch.

(** ** What the transport hands over *)

Inductive MessageType : Type :=
  | MessageServerRequestType | MessageServerFragmentType | OtherMessageType (number : Z).

Module InFrame.
Record t := mk { MessageType : MessageType; Raw : bool; MessageBytes : slice }.
End InFrame.

(** The decoders of the wire library, and its reading of an identifier's octets. *)
Class Unwire := {
  unmarshalRequest : slice → option pRequest.t;
  unmarshalFragment : slice → option Fragment.t;
  IdFromBytes : slice → option (list Z) }.

Module job.
Record t := mk { arrived : inbound.t; request : pRequest.t }.
End job.

(** [refusal]; its response is the request's id and a reason. *)
Module refusal.
Record t := mk { clientId : list Z; RequestId : Z; reason : Reason }.
End refusal.

Module stats.
Record t := mk {
  framesReceived : Z; framesDropped : Z; requestsServed : Z; refusalsDropped : Z;
  pushesSent : Z; pushesRefused : Z }.
Definition zero : t := mk 0 0 0 0 0 0.
Definition received (s : t) : t :=
  mk (u64 (framesReceived s + 1)) (framesDropped s) (requestsServed s) (refusalsDropped s)
    (pushesSent s) (pushesRefused s).
Definition dropped (s : t) : t :=
  mk (framesReceived s) (u64 (framesDropped s + 1)) (requestsServed s) (refusalsDropped s)
    (pushesSent s) (pushesRefused s).
Definition served (s : t) : t :=
  mk (framesReceived s) (framesDropped s) (u64 (requestsServed s + 1)) (refusalsDropped s)
    (pushesSent s) (pushesRefused s).
Definition unrefused (s : t) : t :=
  mk (framesReceived s) (framesDropped s) (requestsServed s) (u64 (refusalsDropped s + 1))
    (pushesSent s) (pushesRefused s).
Definition pushed (took : bool) (s : t) : t :=
  mk (framesReceived s) (framesDropped s) (requestsServed s) (refusalsDropped s)
    (if took then u64 (pushesSent s + 1) else pushesSent s)
    (if took then pushesRefused s else u64 (pushesRefused s + 1)).
End stats.

(** What the goroutines of a peer share; [parked] is the job the receive loop is handing over. *)
Module Receiver.
Record t := mk {
  reassembly : reassembly.t;
  jobs : list job.t;
  refusals : list refusal.t;
  parked : option job.t;
  stats : stats.t }.
Definition set_reassembly (r : reassembly.t) (s : t) : t := mk r (jobs s) (refusals s) (parked s) (stats s).
Definition set_jobs (l : list job.t) (s : t) : t := mk (reassembly s) l (refusals s) (parked s) (stats s).
Definition set_refusals (l : list refusal.t) (s : t) : t := mk (reassembly s) (jobs s) l (parked s) (stats s).
Definition set_parked (p : option job.t) (s : t) : t := mk (reassembly s) (jobs s) (refusals s) p (stats s).
Definition count (f : stats.t → stats.t) (s : t) : t :=
  mk (reassembly s) (jobs s) (refusals s) (parked s) (f (stats s)).
End Receiver.

Section Receive.
Context `{Unwire}.

(** ** The receive path *)

Definition decodeRequest (clientId : list Z) (frame : InFrame.t) : option (inbound.t * pRequest.t) :=
  if InFrame.Raw frame then None
  else request ← unmarshalRequest (InFrame.MessageBytes frame);
       Some (inbound.mk clientId (len (InFrame.MessageBytes frame)) None, request).

Definition decodeFragment (frame : InFrame.t) : option Fragment.t :=
  if InFrame.Raw frame then None else unmarshalFragment (InFrame.MessageBytes frame).

(** [refuse]: a queue with no room drops the refusal and counts it. *)
Definition refuse (depth : nat) (clientId : list Z) (requestId : Z) (reason : Reason)
    (self : Receiver.t) : Receiver.t :=
  let current := refusal.mk clientId requestId reason in
  if decide (length (Receiver.refusals self) < depth)%nat
  then Receiver.set_refusals (Receiver.refusals self ++ [current]) self
  else Receiver.count stats.unrefused self.

(** [enqueue] in two steps: the loop parks on the queue, and goes on when the queue has room. *)
Definition park (current : job.t) (self : Receiver.t) : Receiver.t :=
  Receiver.set_parked (Some current) self.
Definition enqueue (depth : nat) (self : Receiver.t) : option Receiver.t :=
  match Receiver.parked self with
  | Some current =>
      if decide (length (Receiver.jobs self) < depth)%nat
      then Some (Receiver.set_parked None (Receiver.set_jobs (Receiver.jobs self ++ [current]) self))
      else None
  | None => None
  end.

Definition arrived (clientId : list Z) (frame : InFrame.t) (self : Receiver.t) : Receiver.t :=
  match decodeRequest clientId frame with
  | None => Receiver.count stats.dropped self
  | Some (arrived, request) => park (job.mk arrived request) self
  end.

(** [arrivedFragment]; [None] only if the expiry of [accept] did not end. *)
Definition arrivedFragment (depth : nat) (clientId : list Z) (frame : InFrame.t) (now began : time)
    (self : Receiver.t) : option Receiver.t :=
  match decodeFragment frame with
  | None => Some (Receiver.count stats.dropped self)
  | Some fragment =>
      '(reassembly, (assembled, complete, reason)) ←
        accept (Receiver.reassembly self) clientId fragment now began;
      let self := Receiver.set_reassembly reassembly self in
      Some (
        if negb (bool_decide (reason = REASON_OK))
        then refuse depth clientId (Fragment.RequestId fragment) reason self
        else if negb complete then self
        else match unmarshalRequest assembled with
             | None => refuse depth clientId (Fragment.RequestId fragment) REASON_REJECTED self
             | Some request => park (job.mk (inbound.mk clientId (len assembled) None) request) self
             end)
  end.

(** The body of [receive]'s loop. *)
Definition receiveFrame (depth : nat) (source : list Z) (frame : InFrame.t) (now began : time)
    (self : Receiver.t) : option Receiver.t :=
  match InFrame.MessageType frame with
  | MessageServerRequestType => Some (arrived source frame (Receiver.count stats.received self))
  | MessageServerFragmentType => arrivedFragment depth source frame now began (Receiver.count stats.received self)
  | OtherMessageType _ => Some self
  end.

(** The receives of [work], of [refuseLoop] and of [sweepLoop]. *)
Definition takeJob (self : Receiver.t) : option (job.t * Receiver.t) :=
  match Receiver.jobs self with
  | [] => None
  | current :: jobs => Some (current, Receiver.count stats.served (Receiver.set_jobs jobs self))
  end.
Definition takeRefusal (self : Receiver.t) : option (refusal.t * Receiver.t) :=
  match Receiver.refusals self with
  | [] => None
  | current :: refusals => Some (current, Receiver.set_refusals refusals self)
  end.
Definition sweepTick (now : time) (self : Receiver.t) : option Receiver.t :=
  '(reassembly, _) ← sweepReassembly now (Receiver.reassembly self);
  Some (Receiver.set_reassembly reassembly self).

(** [refuseLoop]'s response. *)
Definition refusalResponse {Capabilities} (current : refusal.t) : Response (Capabilities := Capabilities) :=
  mkResponse (refusal.RequestId current) (refusal.reason current) None.

(** ** The push path *)

(** What [Push] offers the send path: an identifier and the marshalled push, [marshalled] being what
    the encoder gave; [None] on each of its refusals. *)
Definition pushFrame (clientId serverNonce : slice) (marshalled : option (list Z)) (now : time)
    (connections : Connections.t) : option (list Z * list Z) :=
  id ← IdFromBytes clientId;
  addr ← Peek id now connections;
  current ← Connections.heap connections !! addr;
  if negb (Holds current serverNonce) then None
  else body ← marshalled; Some (id, body).

(** [Push]; [took] is whether the send path took the frame it was offered. *)
Definition Push (clientId serverNonce : slice) (marshalled : option (list Z)) (took : bool) (now : time)
    (connections : Connections.t) (self : Receiver.t) : Receiver.t * bool :=
  let sent :=
    match pushFrame clientId serverNonce marshalled now connections with
    | Some _ => took
    | None => false
    end in
  (Receiver.count (stats.pushed sent) self, sent).
End Receive.

(** ** The wiring *)

(** [New]'s refusals. *)
Inductive WiringError : Type :=
  | ErrNoClient | ErrNoHandler | ErrWiredNoConnections | ErrNoChecks | ErrCheckedElsewhere
  | ErrNoCapabilities | ErrCapMismatch.

(** The advertisement's two bounds, which are uint32; the rest of it is a value of the protocol
    library. *)
Module Advertised.
Record t (A : Type) := mk { MaxRequestBytes : Z; MaxResponseBytes : Z; rest : A }.
Arguments mk {A} MaxRequestBytes MaxResponseBytes rest.
Arguments MaxRequestBytes {A}.
Arguments MaxResponseBytes {A}.
Arguments rest {A}.
End Advertised.

(** A collaborator that may be nil is an option; the registry, compared by pointer, is its address.
    A client that is a nil pointer inside the interface is no client. *)
Module PeerConfig.
Record t (A : Type) := mk {
  Client : bool;
  Handler : option Handler.t;
  Connections : option nat;
  Checks : option (nat * Checks.t);
  Capabilities : option (Advertised.t A);
  ServerId : slice;
  ProtocolVersion : Z;
  FragmentPartBytes : Z;
  Workers : Z;
  QueueDepth : Z;
  MaxDeferredAnswers : Z;
  MaxDeferredBytes : Z;
  ReassemblyIdle : Z;
  ReassembliesPerClient : Z;
  MaxReassemblies : Z;
  SendTimeout : Z }.
Arguments Client {A}.
Arguments Handler {A}.
Arguments Connections {A}.
Arguments Checks {A}.
Arguments Capabilities {A}.
Arguments ServerId {A}.
Arguments ProtocolVersion {A}.
Arguments FragmentPartBytes {A}.
Arguments Workers {A}.
Arguments QueueDepth {A}.
Arguments MaxDeferredAnswers {A}.
Arguments MaxDeferredBytes {A}.
Arguments ReassemblyIdle {A}.
Arguments ReassembliesPerClient {A}.
Arguments MaxReassemblies {A}.
Arguments SendTimeout {A}.
End PeerConfig.

Definition orPositive (value default : Z) : Z := if value <=? 0 then default else value.

(** What [New] makes: the peer, its receiver, and the sizes of its pools. *)
Record Wired (A : Type) := mkWired {
  peer : Peer (Capabilities := Advertised.t A);
  receiver : Receiver.t;
  workers : Z;
  queueDepth : nat;
  maxDeferred : Z;
  sweepEvery : Z }.
Arguments mkWired {A} _ _ _ _ _ _.
Arguments peer {A}.
Arguments receiver {A}.
Arguments workers {A}.
Arguments queueDepth {A}.
Arguments maxDeferred {A}.
Arguments sweepEvery {A}.

(** The advertisement with its two zero bounds filled in. *)
Definition filledIn {A} (c : Advertised.t A) : Advertised.t A :=
  Advertised.mk
    (if Advertised.MaxRequestBytes c =? 0 then DefaultMaxRequestBytes else Advertised.MaxRequestBytes c)
    (if Advertised.MaxResponseBytes c =? 0 then DefaultMaxResponseBytes else Advertised.MaxResponseBytes c)
    (Advertised.rest c).

Definition New {A} (config : PeerConfig.t A) : res WiringError (Wired A) :=
  if negb (PeerConfig.Client config) then Err ErrNoClient
  else match PeerConfig.Handler config with
  | None => Err ErrNoHandler
  | Some handler =>
  match PeerConfig.Connections config with
  | None => Err ErrWiredNoConnections
  | Some connections =>
  match PeerConfig.Checks config with
  | None => Err ErrNoChecks
  | Some (checked, checks) =>
      if negb (bool_decide (checked = connections)) then Err ErrCheckedElsewhere
      else match PeerConfig.Capabilities config with
      | None => Err ErrNoCapabilities
      | Some advertised =>
          let capabilities := filledIn advertised in
          if negb (Advertised.MaxRequestBytes capabilities =? Checks.maxRequestBytes checks)
          then Err ErrCapMismatch
          else
            let maxRequestBytes := Advertised.MaxRequestBytes capabilities in
            let reassemblyIdle := orPositive (PeerConfig.ReassemblyIdle config) DefaultReassemblyIdle in
            Ok (mkWired
                  (mkPeer handler
                     (mkHelloPeer (PeerConfig.ProtocolVersion config) (octets (PeerConfig.ServerId config))
                        capabilities)
                     maxRequestBytes (Advertised.MaxResponseBytes capabilities)
                     (partSize (PeerConfig.FragmentPartBytes config))
                     (orPositive (PeerConfig.SendTimeout config) DefaultSendTimeout)
                     (orPositive (PeerConfig.MaxDeferredBytes config) DefaultMaxDeferredBytes))
                  (Receiver.mk
                     (newReassembly maxRequestBytes
                        (orPositive (PeerConfig.ReassembliesPerClient config) DefaultReassembliesPerClient)
                        (orPositive (PeerConfig.MaxReassemblies config) DefaultMaxReassemblies)
                        reassemblyIdle)
                     [] [] None stats.zero)
                  (orPositive (PeerConfig.Workers config) 8)
                  (Z.to_nat (orPositive (PeerConfig.QueueDepth config) 64))
                  (orPositive (PeerConfig.MaxDeferredAnswers config) DefaultMaxDeferredAnswers)
                  (sweepPeriod reassemblyIdle))
      end
  end end end.
