(* ===== verification/ReceiveProps.v ===== *)
(** * The receive loop against its specification

    What a frame comes to is a function of the buffers of the abstract reassembler and the frame;
    the loop, the workers, the refusal sender and the sweep, interleaved in any way, keep the queues
    within their depth, lose no job, keep the order of both queues, and drop a refusal only when its
    queue is full. *)

From S2P Require Import Prelude StoreTypes Reassembly ReassemblyProps Connections ConnectionProps Message Prog Api Dispatch Receive.

(** ** The specification of one frame *)

Inductive decision : Type := Dropped | Kept | Queued (j : job.t) | Refused (r : refusal.t).

Definition jobOf (d : decision) : option job.t := match d with Queued j => Some j | _ => None end.
Definition refusalOf (d : decision) : option refusal.t := match d with Refused r => Some r | _ => None end.
Definition dropOf (d : decision) : option unit := match d with Dropped => Some tt | _ => None end.

Section Props.
Context `{Unwire}.
(** The wire's indices and counts are uint32. *)
Context (fragments_fit : ∀ bs f, unmarshalFragment bs = Some f → fragment_ok f).
Context (settings : Z * Z * Z * Z) (depth : nat).

Definition decideFragment (source : list Z) (f : Fragment.t) (answer : slice * bool * Reason) : decision :=
  let '(assembled, complete, reason) := answer in
  if negb (bool_decide (reason = REASON_OK)) then Refused (refusal.mk source (Fragment.RequestId f) reason)
  else if negb complete then Kept
  else match unmarshalRequest assembled with
       | None => Refused (refusal.mk source (Fragment.RequestId f) REASON_REJECTED)
       | Some request => Queued (job.mk (inbound.mk source (len assembled) None) request)
       end.

(** The decision on a frame, if it is of this binding, and the buffers it leaves. *)
Definition decideFrame (m : gmap (list Z * Z) buffer) (source : list Z) (frame : InFrame.t)
    (now began : time) : gmap (list Z * Z) buffer * list decision :=
  match InFrame.MessageType frame with
  | OtherMessageType _ => (m, [])
  | MessageServerRequestType =>
      (m, [match decodeRequest source frame with
           | None => Dropped
           | Some (arrived, request) => Queued (job.mk arrived request)
           end])
  | MessageServerFragmentType =>
      match decodeFragment frame with
      | None => (m, [Dropped])
      | Some f =>
          let '(m, answer) := spec_accept settings m source f now began in
          (m, [decideFragment source f answer])
      end
  end.

(** ** The loop and the goroutines behind it *)

(** What was decided, and what the workers and the refusal sender took, in order. *)
Record history := History { decided : list decision; worked : list job.t; sent : list refusal.t }.

Inductive reachedBy : time → history → Receiver.t → Prop :=
  | by_new t maxBytes perClient maxOpen idle :
      settings = (maxBytes, perClient, maxOpen, idle) →
      reachedBy t (History [] [] [])
        (Receiver.mk (newReassembly maxBytes perClient maxOpen idle) [] [] None stats.zero)
  | by_frame t h self source frame now began self' :
      reachedBy t h self → Receiver.parked self = None → t <= now → now <= began →
      receiveFrame depth source frame now began self = Some self' →
      reachedBy began
        (History (decided h ++ (decideFrame (buffers (Receiver.reassembly self)) source frame now began).2)
           (worked h) (sent h)) self'
  | by_enqueue t h self self' :
      reachedBy t h self → enqueue depth self = Some self' → reachedBy t h self'
  | by_worker t h self j self' :
      reachedBy t h self → takeJob self = Some (j, self') →
      reachedBy t (History (decided h) (worked h ++ [j]) (sent h)) self'
  | by_refuser t h self r self' :
      reachedBy t h self → takeRefusal self = Some (r, self') →
      reachedBy t (History (decided h) (worked h) (sent h ++ [r])) self'
  | by_sweep t h self now self' :
      reachedBy t h self → t <= now → sweepTick now self = Some self' → reachedBy now h self'
  | by_push t h self clientId nonce marshalled took now connections :
      reachedBy t h self →
      reachedBy t h (Push clientId nonce marshalled took now connections self).1.

(** ** The invariant *)

Definition parkedJobs (self : Receiver.t) : list job.t :=
  match Receiver.parked self with Some j => [j] | None => [] end.

(** Reached by [t]. *)
Definition reachedAt (t : time) (r : reassembly.t) : Prop := ∃ t0, t0 <= t ∧ reached settings t0 r.

Record receiver_ok (t : time) (h : history) (self : Receiver.t) : Prop := ReceiverOk {
  rc_reassembly : reachedAt t (Receiver.reassembly self);
  rc_jobs : worked h ++ Receiver.jobs self ++ parkedJobs self = omap jobOf (decided h);
  rc_jobs_bound : (length (Receiver.jobs self) <= depth)%nat;
  rc_refusals : sent h ++ Receiver.refusals self `sublist_of` omap refusalOf (decided h);
  rc_refusals_bound : (length (Receiver.refusals self) <= depth)%nat;
  rc_received : stats.framesReceived (Receiver.stats self) = u64 (Z.of_nat (length (decided h)));
  rc_dropped : stats.framesDropped (Receiver.stats self) = u64 (Z.of_nat (length (omap dropOf (decided h))));
  rc_served : stats.requestsServed (Receiver.stats self) = u64 (Z.of_nat (length (worked h)));
  rc_unrefused : stats.refusalsDropped (Receiver.stats self) =
    u64 (Z.of_nat (length (omap refusalOf (decided h))) - Z.of_nat (length (sent h ++ Receiver.refusals self))) }.

(** What a decision does to the receiver. *)
Definition settled (d : decision) (self : Receiver.t) : Receiver.t :=
  match d with
  | Dropped => Receiver.count stats.dropped self
  | Kept => self
  | Queued j => park j self
  | Refused r => refuse depth (refusal.clientId r) (refusal.RequestId r) (refusal.reason r) self
  end.

Lemma receiveFrame_decided t self source frame now began :
  reachedAt t (Receiver.reassembly self) → t <= now → now <= began →
  ∃ r', reachedAt began r' ∧
    buffers r' = (decideFrame (buffers (Receiver.reassembly self)) source frame now began).1 ∧
    receiveFrame depth source frame now began self =
      Some match (decideFrame (buffers (Receiver.reassembly self)) source frame now began).2 with
           | [] => self
           | d :: _ => settled d (Receiver.set_reassembly r' (Receiver.count stats.received self))
           end.
Proof.
  intros (t0 & Ht0 & Hr) Ht Hn. unfold receiveFrame, decideFrame. destruct (InFrame.MessageType frame).
  - exists (Receiver.reassembly self). split; [by exists t0; split; [lia|]|]. split; [done|].
    unfold arrived. destruct (decodeRequest source frame) as [ [arrived request]|]; by destruct self.
  - unfold arrivedFragment. destruct (decodeFragment frame) as [f|] eqn:Hf.
    2:{ exists (Receiver.reassembly self). split; [by exists t0; split; [lia|]|].
        split; [done|]. by destruct self. }
    assert (fragment_ok f) as Hfit.
    { unfold decodeFragment in Hf. destruct (InFrame.Raw frame); [done|]. by eapply fragments_fit. }
    destruct (accept_refines_spec settings t0 _ source f now began Hr ltac:(lia) Hn Hfit) as (r' & Ha & Hb).
    exists r'. 
    destruct (spec_accept settings _ source f now began) as [m' [ [bytes complete] reason] ].
    cbn [fst snd] in *. split; [exists began; split; [done|]; eapply (reached_accept _ t0 _ source f now began); [done|lia|done|done|exact Ha]|]. split; [done|].
    cbn [Receiver.reassembly Receiver.count]. rewrite Ha. cbn [mbind option_bind]. f_equal.
    unfold decideFragment. destruct (negb (bool_decide _)); [done|]. destruct (negb complete); [done|].
    by destruct (unmarshalRequest bytes).
  - exists (Receiver.reassembly self). split; [by exists t0; split; [lia|]|]. by destruct self.
Qed.

Lemma settled_ok t h self r' t' d :
  receiver_ok t h self → Receiver.parked self = None → reachedAt t' r' →
  receiver_ok t' (History (decided h ++ [d]) (worked h) (sent h))
    (settled d (Receiver.set_reassembly r' (Receiver.count stats.received self))).
Proof.
  intros [Hreach Hjobs Hjb Href Hrb Hrec Hdrop Hserved Hun] Hpark Hr'.
  destruct self as [r jobs refusals parked [ ] ]. unfold parkedJobs in Hjobs. cbn in *. subst.
  assert (length (decided h ++ [d]) = S (length (decided h))) as Hlen by (rewrite length_app; cbn; lia).
  destruct d as [| |j|[client id reason] ]; cbn;
    [| | |unfold refuse; cbn; destruct (decide _) as [Hroom|Hfull] ];
    split; cbn; rewrite ?Hlen, ?omap_app, ?length_app; cbn; rewrite ?app_nil_r, ?u64_add_l in *;
    try done; try (f_equal; lia).
  - rewrite app_assoc. by f_equal.
  - rewrite app_assoc. by apply sublist_app.
  - by apply sublist_inserts_r.
Qed.

Lemma new_ok t maxBytes perClient maxOpen idle :
  settings = (maxBytes, perClient, maxOpen, idle) →
  receiver_ok t (History [] [] [])
    (Receiver.mk (newReassembly maxBytes perClient maxOpen idle) [] [] None stats.zero).
Proof.
  intros E. split; cbn; try done; try lia.
  exists t. split; [lia|]. rewrite E. apply (reached_new (maxBytes, perClient, maxOpen, idle)).
Qed.

Lemma reachedBy_ok t h self : reachedBy t h self → receiver_ok t h self.
Proof.
  induction 1 as [t ? ? ? ? E|t h self source frame now began self' _ IH Hp Ht Hn E|t h self self' _ IH E
    |t h self j self' _ IH E|t h self r self' _ IH E|t h self now self' _ IH Ht E|t h self ? ? ? ? ? ? _ IH].
  - by apply new_ok.
  - destruct (receiveFrame_decided t self source frame now began (rc_reassembly _ _ _ IH) Ht Hn)
      as (r' & Hr' & _ & E'). rewrite E' in E. injection E as <-.
    destruct (decideFrame _ _ _ _ _) as [m [|d rest] ] eqn:Hd; cbn [snd].
    + destruct h, IH as [ (t0 & ? & ?) ]. cbn. rewrite app_nil_r. split; try done. exists t0. split; [lia|done].
    + assert (rest = []) as ->.
      { unfold decideFrame in Hd. repeat case_match; congruence. }
      by eapply settled_ok.
  - destruct IH as [? Hj ? ? ? ? ? ? ?], self as [r jobs refusals [j|] st]; [|done]. unfold enqueue in E. cbn in *.
    destruct (decide _) as [Hroom|]; [|done]. injection E as <-. split; cbn; try done.
    + by rewrite app_nil_r.
    + rewrite length_app. cbn. lia.
  - destruct IH as [? Hj ? ? ? ? ? Hs ?], self as [r [|j' jobs] refusals p [] ]; [done|]. cbn in E.
    injection E as <- <-. cbn in *. split; cbn; try done; [|lia|].
    + by rewrite <- app_assoc.
    + rewrite Hs, u64_add_l, length_app. f_equal. cbn. lia.
  - destruct IH as [? ? ? Hr ? ? ? ? Hu], self as [r0 jobs [|r' refusals] p st]; [done|]. cbn in E.
    injection E as <- <-. cbn in *. split; cbn; rewrite <- ?app_assoc; try done. lia.
  - unfold sweepTick in E. destruct (sweepReassembly now (Receiver.reassembly self)) as [ [r' n]|] eqn:Es; [|done].
    injection E as <-. destruct IH as [ (t0 & Ht0 & Hr) ]. split; try done.
    exists now. split; [done|]. eapply (reached_sweep _ t0); [done| |done]. lia.
  - destruct self as [ ? ? ? ? [] ], IH as []. by split.
Qed.

End Props.

(** ** Pushes *)

(** C27: A push goes out only to the client a subscription names, and only while the nonce it was made
    under is that of the client's last Hello and the connection has carried a frame within the idle
    bound; the table it reads is not touched, and each attempt is counted once, as sent or refused. *)
Theorem push_only_to_latest_hello `{Unwire} idle t h s clientId nonce marshalled took now self :
  crun idle t h s →
  let '(self', pushed) := Push clientId nonce marshalled took now s self in
  (pushed = true →
    ∃ id body a k, IdFromBytes clientId = Some id ∧
      pushFrame clientId nonce marshalled now s = Some (id, body) ∧ marshalled = Some body ∧
      latest h id = Some (octets nonce) ∧
      Connections.live s !! id = Some a ∧ Connections.heap s !! a = Some k ∧
      (idle = 0 ∨ now - idle <= Connection.seen k)) ∧
  u64 (stats.pushesSent (Receiver.stats self') + stats.pushesRefused (Receiver.stats self')) =
    u64 (stats.pushesSent (Receiver.stats self) + stats.pushesRefused (Receiver.stats self) + 1).
Proof.
  intros [Hi Hid]%crun_inv. unfold Push. split.
  - unfold pushFrame. destruct (IdFromBytes clientId) as [id|]; [|done]. cbn [mbind option_bind].
    unfold Peek. destruct (Connections.live s !! id) as [a|] eqn:Hl; [|done].
    destruct (ci_live _ _ _ Hi _ _ Hl) as (k & Hk & Hc & Hlat).
    unfold expiredAt. rewrite Hk. destruct (expired s k now) eqn:Hx; [done|]. cbn [mbind option_bind].
    rewrite Hk. cbn [mbind option_bind]. destruct (Holds k nonce) eqn:Hn; [|done]. cbn [negb].
    destruct marshalled as [body|]; [|done]. intros _. exists id, body, a, k. unfold Holds in Hn.
    reflect_bools. rewrite Hlat, Hn. repeat (split; [done|]).
    unfold expired, Before in Hx. rewrite Hid in Hx. destruct (Z.eqb_spec idle 0); [by left|right].
    reflect_bools. lia.
  - destruct self as [? ? ? ? [] ]. cbn. destruct (match pushFrame _ _ _ _ _ with Some _ => _ | None => _ end);
      cbn; unfold u64; rewrite ?Zplus_mod_idemp_l, ?Zplus_mod_idemp_r; f_equal; lia.
Qed.

(** ** A run of the loop *)

(** Requests of one octet decode to their id; a fragment's octets are its index and one part. *)
#[local] Instance runUnwire : Unwire := {|
  unmarshalRequest bs := match octets bs with [id] => Some (pRequest.mk id 0 None) | _ => None end;
  unmarshalFragment bs :=
    match octets bs with
    | [0; part] => Some (Fragment.mk 5 0 2 (Some [part]))
    | [1; part] => Some (Fragment.mk 5 1 2 (Some [part]))
    | _ => None
    end;
  IdFromBytes bs := if len bs =? 16 then Some (octets bs) else None |}.

Lemma runUnwire_fits bs f : unmarshalFragment bs = Some f → fragment_ok f.
Proof.
  cbn. intros E. repeat case_match; simplify_eq; by split.
Qed.

Module ReceiveRun.
Definition settings : Z * Z * Z * Z := (100, 2, 4, 30).
Definition start : Receiver.t := Receiver.mk (newReassembly 100 2 4 30) [] [] None stats.zero.
Definition request (id : Z) : InFrame.t := InFrame.mk MessageServerRequestType false (Some [id]).
Definition misplaced (part : Z) : InFrame.t := InFrame.mk MessageServerFragmentType false (Some [1; part]).
(** A second fragment first is refused; a second refusal finds the queue of one full. *)
Definition one : Receiver.t := default start (receiveFrame 1 [7] (misplaced 9) 1 1 start).
Definition two : Receiver.t := default start (receiveFrame 1 [7] (misplaced 8) 2 2 one).
Definition three : Receiver.t := default start (receiveFrame 1 [7] (request 3) 3 3 two).
Definition past : history :=
  History [Refused (refusal.mk [7] 5 REASON_REJECTED); Refused (refusal.mk [7] 5 REASON_REJECTED);
           Queued (job.mk (inbound.mk [7] 1 None) (pRequest.mk 3 0 None))] [] [].
End ReceiveRun.

Lemma run_reachedBy : reachedBy ReceiveRun.settings 1 3 ReceiveRun.past ReceiveRun.three.
Proof.
  refine (by_frame _ _ 2 (History (take 2 (decided ReceiveRun.past)) [] []) ReceiveRun.two [7]
    (ReceiveRun.request 3) 3 3 _ _ eq_refl _ _ eq_refl); [|lia|lia].
  refine (by_frame _ _ 1 (History (take 1 (decided ReceiveRun.past)) [] []) ReceiveRun.one [7]
    (ReceiveRun.misplaced 8) 2 2 _ _ eq_refl _ _ eq_refl); [|lia|lia].
  refine (by_frame _ _ 0 (History [] [] []) ReceiveRun.start [7]
    (ReceiveRun.misplaced 9) 1 1 _ _ eq_refl _ _ eq_refl); [|lia|lia].
  by apply (by_new _ _ 0 100 2 4 30).
Qed.


Module PushRun.
Definition id : list Z := replicate 16 7.
Definition table : Connections.t := HelloRun.opened [1; 1] id 5 6 HelloRun.new.
Definition pushedBy (nonce : list Z) (now : time) : Receiver.t * bool :=
  Push (Some id) (Some nonce) (Some [8]) true now table ReceiveRun.start.
End PushRun.

Lemma push_table_run : crun 30 6 [(PushRun.id, [1; 1])] PushRun.table.
Proof.
  apply (crun_step 30 4 [] HelloRun.new (Some (PushRun.id, [1; 1])) 6 PushRun.table); [apply crun_new|].
  apply (step_open 4 HelloRun.new (Some [1; 1]) [1; 1] PushRun.id 5 6 PushRun.table 0); try lia; reflexivity.
Qed.

Lemma push_only_to_latest_hello_witness :
  (PushRun.pushedBy [1; 1] 36).2 = true ∧ (PushRun.pushedBy [1; 1] 37).2 = false ∧
  (PushRun.pushedBy [2; 2] 36).2 = false ∧
  ∃ id body, IdFromBytes (Some PushRun.id) = Some id ∧
    pushFrame (Some PushRun.id) (Some [1; 1]) (Some [8]) 36 PushRun.table = Some (id, body) ∧
    latest [(PushRun.id, [1; 1])] id = Some [1; 1].
Proof.
  split; [vm_compute; reflexivity|]. split; [vm_compute; reflexivity|]. split; [vm_compute; reflexivity|].
  destruct (proj1 (push_only_to_latest_hello 30 6 [(PushRun.id, [1; 1])] PushRun.table (Some PushRun.id)
    (Some [1; 1]) (Some [8]) true 36 ReceiveRun.start push_table_run)) as (id & body & a & k & Hid & Hf & _ & Hl & _).
  - vm_compute. reflexivity.
  - exists id, body. exact (conj Hid (conj Hf Hl)).
Defined.
