(* ===== verification/Resource.v ===== *)
(** * Resource files ([cmd/message-server/resource.go])

    The reader of the server's configuration files: a flat mapping of scalars, one [key: value] a
    line.  A text is the list of its octets.  The scanner's lines and limit, the trimming of white
    space and the cut at a colon are the standard library's, written out as the reader uses them. *)

From Stdlib Require Export Ascii String.
From stdpp Require Export strings.
From S2P Require Import Prelude.

Abbreviation text := (list ascii).

(** A text the source writes out. *)
Definition str (s : string) : text := String.list_ascii_of_string s.

Definition code (c : ascii) : Z := Z.of_N (N_of_ascii c).

(** ** The standard library's parts *)

(** The white space [strings.TrimSpace] cuts: that of ASCII, and the two and three octets in which
    UTF-8 writes the rest of Unicode's. *)
Definition space1 (a : ascii) : bool := ((9 <=? code a) && (code a <=? 13)) || (code a =? 32).
Definition space2 (a b : ascii) : bool := (code a =? 0xC2) && ((code b =? 0x85) || (code b =? 0xA0)).
Definition space3 (a b c : ascii) : bool :=
  ((code a =? 0xE1) && (code b =? 0x9A) && (code c =? 0x80)) ||
  ((code a =? 0xE2) && (code b =? 0x80) &&
     (((0x80 <=? code c) && (code c <=? 0x8A)) || (code c =? 0xA8) || (code c =? 0xA9) || (code c =? 0xAF))) ||
  ((code a =? 0xE2) && (code b =? 0x81) && (code c =? 0x9F)) ||
  ((code a =? 0xE3) && (code b =? 0x80) && (code c =? 0x80)).

Fixpoint trimStart (s : text) : text :=
  match s with
  | a :: r1 =>
      if space1 a then trimStart r1
      else match r1 with
           | b :: r2 =>
               if space2 a b then trimStart r2
               else match r2 with
                    | c :: r3 => if space3 a b c then trimStart r3 else s
                    | [] => s
                    end
           | [] => s
           end
  | [] => []
  end.

(** The same from the end, on the text reversed. *)
Fixpoint trimBack (s : text) : text :=
  match s with
  | c :: r1 =>
      if space1 c then trimBack r1
      else match r1 with
           | b :: r2 =>
               if space2 b c then trimBack r2
               else match r2 with
                    | a :: r3 => if space3 a b c then trimBack r3 else s
                    | [] => s
                    end
           | [] => s
           end
  | [] => []
  end.

Definition TrimSpace (s : text) : text := rev (trimBack (rev (trimStart s))).

(** [strings.TrimRight] with a set of octets. *)
Fixpoint dropWhile (f : ascii → bool) (s : text) : text :=
  match s with
  | a :: rest => if f a then dropWhile f rest else s
  | [] => []
  end.
Definition TrimRight (cutset : ascii → bool) (s : text) : text := rev (dropWhile cutset (rev s)).

Fixpoint Cut (sep : ascii) (s : text) : option (text * text) :=
  match s with
  | [] => None
  | a :: rest =>
      if bool_decide (a = sep) then Some ([], rest)
      else '(before, after) ← Cut sep rest; Some (a :: before, after)
  end.

Definition HasPrefix (s : text) (a : ascii) : bool :=
  match s with b :: _ => bool_decide (a = b) | [] => false end.

(** [bufio.MaxScanTokenSize] *)
Definition MaxScanTokenSize : Z := 65536.

Definition newline : ascii := "010".
Definition carriageReturn : ascii := "013".

Definition dropCR (line : text) : text :=
  match rev line with
  | a :: rest => if bool_decide (a = carriageReturn) then rev rest else line
  | [] => line
  end.

(** [bufio.ScanLines]: the lines, and whether one filled the buffer before its end was found.  [held]
    is the line so far and [room] what is left of the buffer. *)
Fixpoint scanLines (content held : text) (room : Z) : list text * bool :=
  match content with
  | [] => (if bool_decide (held = []) then [] else [dropCR held], false)
  | a :: rest =>
      if bool_decide (a = newline) then
        let '(lines, tooLong) := scanLines rest [] MaxScanTokenSize in (dropCR held :: lines, tooLong)
      else if room <=? 1 then ([], true)
      else scanLines rest (held ++ [a]) (room - 1)
  end.

(** ** The reader *)

(** Why a line is not read, as the message says it. *)
Inductive SyntaxFault : Type := Indented | SequenceItem | NoColon | BadKey | OpenQuote.

(** What may be wrong with a file; a fault on a line carries its number and nothing of its text but a
    key that appears twice. *)
Inductive ResourceError : Type :=
  | ErrOpen
  | ErrRead
  | ErrTooLong
  | ErrResourceSyntax (path : text) (number : nat) (fault : SyntaxFault)
  | ErrResourceDuplicate (path : text) (number : nat) (name : text).

Module resource.
Record t := mk { path : text; values : gmap text text; order : list text }.
Definition put (name value : text) (r : t) : t :=
  mk (path r) (<[name := value]> (values r)) (order r ++ [name]).
End resource.

Definition simpleCharacter (a : ascii) : bool :=
  ((97 <=? code a) && (code a <=? 122)) || ((48 <=? code a) && (code a <=? 57)) ||
  (code a =? 46) || (code a =? 95) || (code a =? 45).
Definition simpleKey (name : text) : bool := forallb simpleCharacter name.

Definition doubleQuote : ascii := "034".
Definition singleQuote : ascii := "039".
Definition isQuote (a : ascii) : bool := bool_decide (a = doubleQuote) || bool_decide (a = singleQuote).

(** One layer of matching quotes, stripped. *)
Definition unquote (value : text) : option text :=
  match value with
  | first :: ((_ :: _) as rest) =>
      match rev rest with
      | last :: inner =>
          if negb (bool_decide (first = last)) then None
          else if negb (isQuote first) then None
          else if existsb (λ a, bool_decide (a = first)) inner then None
          else Some (rev inner)
      | [] => None
      end
  | _ => None
  end.

(** The value past its quotes: a quote that is opened and not closed is a fault. *)
Definition valueOf (value : text) : option text :=
  match unquote value with
  | Some unquoted => Some unquoted
  | None => if HasPrefix value doubleQuote || HasPrefix value singleQuote then None else Some value
  end.

(** One line: nothing, a key and its value, or a fault. *)
Definition readLine (line : text) : res SyntaxFault (option (text * text)) :=
  let trimmed := TrimRight (λ a, bool_decide (a ∈ [" "; "009"; carriageReturn]%char)) line in
  if bool_decide (trimmed = []) then Ok None
  else if HasPrefix trimmed "#" then Ok None
  else if HasPrefix trimmed " " || HasPrefix trimmed "009" then Err Indented
  else if HasPrefix trimmed "-" then Err SequenceItem
  else match Cut ":" trimmed with
  | None => Err NoColon
  | Some (name, value) =>
      let name := TrimSpace name in
      if bool_decide (name = []) || negb (simpleKey name) then Err BadKey
      else match valueOf (TrimSpace value) with
           | None => Err OpenQuote
           | Some value => Ok (Some (name, value))
           end
  end.

(** The loop of [readResource]. *)
Fixpoint readLines (number : nat) (lines : list text) (current : resource.t) :
    res ResourceError resource.t :=
  match lines with
  | [] => Ok current
  | line :: rest =>
      match readLine line with
      | Err fault => Err (ErrResourceSyntax (resource.path current) number fault)
      | Ok None => readLines (S number) rest current
      | Ok (Some (name, value)) =>
          match resource.values current !! name with
          | Some _ => Err (ErrResourceDuplicate (resource.path current) number name)
          | None => readLines (S number) rest (resource.put name value current)
          end
      end
  end.

(** What opening a path gives: no such file, another error, or what can be read of it and whether
    reading it then failed. *)
Inductive opened : Type := Missing | Unopened | Opened (content : text) (failed : bool).

(** [readResource]: the resource, or nothing; whether the file is there; the error. *)
Definition readResource (path : text) (file : opened) : option resource.t * bool * option ResourceError :=
  let empty := resource.mk path ∅ [] in
  match file with
  | Missing => (Some empty, false, None)
  | Unopened => (None, false, Some ErrOpen)
  | Opened content failed =>
      let '(lines, tooLong) := scanLines content [] MaxScanTokenSize in
      match readLines 1 lines empty with
      | Err err => (None, true, Some err)
      | Ok current =>
          if tooLong then (None, true, Some ErrTooLong)
          else if failed then (None, true, Some ErrRead)
          else (Some current, true, None)
      end
  end.

Definition lookup (self : resource.t) (name : text) : option text := resource.values self !! name.

Definition unread (self : resource.t) (known : gset text) : list text :=
  filter (λ name, name ∉ known) (resource.order self).
