(* ===== verification/Settings.v ===== *)
(** * The settings and their loader ([cmd/message-server/config.go])

    The values the server runs on, each read from a file, then from the environment, over a default;
    how each is read and printed back; and the refusals of the loader.  The notes that are printed
    beside the settings, and the width of the printed columns, are left out. *)

From S2P Require Import Resource Prelude StoreTypes Retention.

(** ** The values *)

Module configuration.
Record t := mk {
  operatorHost : text;
  hostingJurisdiction : text;
  readKeyWindowSeconds : Z;
  durableTtlDefaultSeconds : Z;
  durableTtlMaxSeconds : Z;
  rendezvousTtlSeconds : Z;
  rendezvousDepositTtlSeconds : Z;
  rendezvousMailboxDepth : Z;
  cardTombstoneSeconds : Z;
  diagnosticSessionMaxMinutes : Z;
  endpointListenAddress : text;
  endpointCertificateFile : text;
  endpointPrivateKeyFile : text;
  platformAttachment : text;
  linkBoxTtlSeconds : Z;
  linkBoxLiveCap : Z;
  rejectFloorMs : Z }.
Definition set_operatorHost (x : text) (c : t) : t :=
  mk
     x (hostingJurisdiction c) (readKeyWindowSeconds c) (durableTtlDefaultSeconds c)
     (durableTtlMaxSeconds c) (rendezvousTtlSeconds c) (rendezvousDepositTtlSeconds c)
     (rendezvousMailboxDepth c) (cardTombstoneSeconds c) (diagnosticSessionMaxMinutes c)
     (endpointListenAddress c) (endpointCertificateFile c) (endpointPrivateKeyFile c)
     (platformAttachment c) (linkBoxTtlSeconds c) (linkBoxLiveCap c) (rejectFloorMs c).
Definition set_hostingJurisdiction (x : text) (c : t) : t :=
  mk
     (operatorHost c) x (readKeyWindowSeconds c) (durableTtlDefaultSeconds c)
     (durableTtlMaxSeconds c) (rendezvousTtlSeconds c) (rendezvousDepositTtlSeconds c)
     (rendezvousMailboxDepth c) (cardTombstoneSeconds c) (diagnosticSessionMaxMinutes c)
     (endpointListenAddress c) (endpointCertificateFile c) (endpointPrivateKeyFile c)
     (platformAttachment c) (linkBoxTtlSeconds c) (linkBoxLiveCap c) (rejectFloorMs c).
Definition set_readKeyWindowSeconds (x : Z) (c : t) : t :=
  mk
     (operatorHost c) (hostingJurisdiction c) x (durableTtlDefaultSeconds c)
     (durableTtlMaxSeconds c) (rendezvousTtlSeconds c) (rendezvousDepositTtlSeconds c)
     (rendezvousMailboxDepth c) (cardTombstoneSeconds c) (diagnosticSessionMaxMinutes c)
     (endpointListenAddress c) (endpointCertificateFile c) (endpointPrivateKeyFile c)
     (platformAttachment c) (linkBoxTtlSeconds c) (linkBoxLiveCap c) (rejectFloorMs c).
Definition set_durableTtlDefaultSeconds (x : Z) (c : t) : t :=
  mk
     (operatorHost c) (hostingJurisdiction c) (readKeyWindowSeconds c) x (durableTtlMaxSeconds
     c) (rendezvousTtlSeconds c) (rendezvousDepositTtlSeconds c) (rendezvousMailboxDepth c)
     (cardTombstoneSeconds c) (diagnosticSessionMaxMinutes c) (endpointListenAddress c)
     (endpointCertificateFile c) (endpointPrivateKeyFile c) (platformAttachment c)
     (linkBoxTtlSeconds c) (linkBoxLiveCap c) (rejectFloorMs c).
Definition set_durableTtlMaxSeconds (x : Z) (c : t) : t :=
  mk
     (operatorHost c) (hostingJurisdiction c) (readKeyWindowSeconds c) (durableTtlDefaultSeconds
     c) x (rendezvousTtlSeconds c) (rendezvousDepositTtlSeconds c) (rendezvousMailboxDepth c)
     (cardTombstoneSeconds c) (diagnosticSessionMaxMinutes c) (endpointListenAddress c)
     (endpointCertificateFile c) (endpointPrivateKeyFile c) (platformAttachment c)
     (linkBoxTtlSeconds c) (linkBoxLiveCap c) (rejectFloorMs c).
Definition set_rendezvousTtlSeconds (x : Z) (c : t) : t :=
  mk
     (operatorHost c) (hostingJurisdiction c) (readKeyWindowSeconds c) (durableTtlDefaultSeconds
     c) (durableTtlMaxSeconds c) x (rendezvousDepositTtlSeconds c) (rendezvousMailboxDepth c)
     (cardTombstoneSeconds c) (diagnosticSessionMaxMinutes c) (endpointListenAddress c)
     (endpointCertificateFile c) (endpointPrivateKeyFile c) (platformAttachment c)
     (linkBoxTtlSeconds c) (linkBoxLiveCap c) (rejectFloorMs c).
Definition set_rendezvousDepositTtlSeconds (x : Z) (c : t) : t :=
  mk
     (operatorHost c) (hostingJurisdiction c) (readKeyWindowSeconds c) (durableTtlDefaultSeconds
     c) (durableTtlMaxSeconds c) (rendezvousTtlSeconds c) x (rendezvousMailboxDepth c)
     (cardTombstoneSeconds c) (diagnosticSessionMaxMinutes c) (endpointListenAddress c)
     (endpointCertificateFile c) (endpointPrivateKeyFile c) (platformAttachment c)
     (linkBoxTtlSeconds c) (linkBoxLiveCap c) (rejectFloorMs c).
Definition set_rendezvousMailboxDepth (x : Z) (c : t) : t :=
  mk
     (operatorHost c) (hostingJurisdiction c) (readKeyWindowSeconds c) (durableTtlDefaultSeconds
     c) (durableTtlMaxSeconds c) (rendezvousTtlSeconds c) (rendezvousDepositTtlSeconds c) x
     (cardTombstoneSeconds c) (diagnosticSessionMaxMinutes c) (endpointListenAddress c)
     (endpointCertificateFile c) (endpointPrivateKeyFile c) (platformAttachment c)
     (linkBoxTtlSeconds c) (linkBoxLiveCap c) (rejectFloorMs c).
Definition set_cardTombstoneSeconds (x : Z) (c : t) : t :=
  mk
     (operatorHost c) (hostingJurisdiction c) (readKeyWindowSeconds c) (durableTtlDefaultSeconds
     c) (durableTtlMaxSeconds c) (rendezvousTtlSeconds c) (rendezvousDepositTtlSeconds c)
     (rendezvousMailboxDepth c) x (diagnosticSessionMaxMinutes c) (endpointListenAddress c)
     (endpointCertificateFile c) (endpointPrivateKeyFile c) (platformAttachment c)
     (linkBoxTtlSeconds c) (linkBoxLiveCap c) (rejectFloorMs c).
Definition set_diagnosticSessionMaxMinutes (x : Z) (c : t) : t :=
  mk
     (operatorHost c) (hostingJurisdiction c) (readKeyWindowSeconds c) (durableTtlDefaultSeconds
     c) (durableTtlMaxSeconds c) (rendezvousTtlSeconds c) (rendezvousDepositTtlSeconds c)
     (rendezvousMailboxDepth c) (cardTombstoneSeconds c) x (endpointListenAddress c)
     (endpointCertificateFile c) (endpointPrivateKeyFile c) (platformAttachment c)
     (linkBoxTtlSeconds c) (linkBoxLiveCap c) (rejectFloorMs c).
Definition set_endpointListenAddress (x : text) (c : t) : t :=
  mk
     (operatorHost c) (hostingJurisdiction c) (readKeyWindowSeconds c) (durableTtlDefaultSeconds
     c) (durableTtlMaxSeconds c) (rendezvousTtlSeconds c) (rendezvousDepositTtlSeconds c)
     (rendezvousMailboxDepth c) (cardTombstoneSeconds c) (diagnosticSessionMaxMinutes c) x
     (endpointCertificateFile c) (endpointPrivateKeyFile c) (platformAttachment c)
     (linkBoxTtlSeconds c) (linkBoxLiveCap c) (rejectFloorMs c).
Definition set_endpointCertificateFile (x : text) (c : t) : t :=
  mk
     (operatorHost c) (hostingJurisdiction c) (readKeyWindowSeconds c) (durableTtlDefaultSeconds
     c) (durableTtlMaxSeconds c) (rendezvousTtlSeconds c) (rendezvousDepositTtlSeconds c)
     (rendezvousMailboxDepth c) (cardTombstoneSeconds c) (diagnosticSessionMaxMinutes c)
     (endpointListenAddress c) x (endpointPrivateKeyFile c) (platformAttachment c)
     (linkBoxTtlSeconds c) (linkBoxLiveCap c) (rejectFloorMs c).
Definition set_endpointPrivateKeyFile (x : text) (c : t) : t :=
  mk
     (operatorHost c) (hostingJurisdiction c) (readKeyWindowSeconds c) (durableTtlDefaultSeconds
     c) (durableTtlMaxSeconds c) (rendezvousTtlSeconds c) (rendezvousDepositTtlSeconds c)
     (rendezvousMailboxDepth c) (cardTombstoneSeconds c) (diagnosticSessionMaxMinutes c)
     (endpointListenAddress c) (endpointCertificateFile c) x (platformAttachment c)
     (linkBoxTtlSeconds c) (linkBoxLiveCap c) (rejectFloorMs c).
Definition set_platformAttachment (x : text) (c : t) : t :=
  mk
     (operatorHost c) (hostingJurisdiction c) (readKeyWindowSeconds c) (durableTtlDefaultSeconds
     c) (durableTtlMaxSeconds c) (rendezvousTtlSeconds c) (rendezvousDepositTtlSeconds c)
     (rendezvousMailboxDepth c) (cardTombstoneSeconds c) (diagnosticSessionMaxMinutes c)
     (endpointListenAddress c) (endpointCertificateFile c) (endpointPrivateKeyFile c) x
     (linkBoxTtlSeconds c) (linkBoxLiveCap c) (rejectFloorMs c).
Definition set_linkBoxTtlSeconds (x : Z) (c : t) : t :=
  mk
     (operatorHost c) (hostingJurisdiction c) (readKeyWindowSeconds c) (durableTtlDefaultSeconds
     c) (durableTtlMaxSeconds c) (rendezvousTtlSeconds c) (rendezvousDepositTtlSeconds c)
     (rendezvousMailboxDepth c) (cardTombstoneSeconds c) (diagnosticSessionMaxMinutes c)
     (endpointListenAddress c) (endpointCertificateFile c) (endpointPrivateKeyFile c)
     (platformAttachment c) x (linkBoxLiveCap c) (rejectFloorMs c).
Definition set_linkBoxLiveCap (x : Z) (c : t) : t :=
  mk
     (operatorHost c) (hostingJurisdiction c) (readKeyWindowSeconds c) (durableTtlDefaultSeconds
     c) (durableTtlMaxSeconds c) (rendezvousTtlSeconds c) (rendezvousDepositTtlSeconds c)
     (rendezvousMailboxDepth c) (cardTombstoneSeconds c) (diagnosticSessionMaxMinutes c)
     (endpointListenAddress c) (endpointCertificateFile c) (endpointPrivateKeyFile c)
     (platformAttachment c) (linkBoxTtlSeconds c) x (rejectFloorMs c).
Definition set_rejectFloorMs (x : Z) (c : t) : t :=
  mk
     (operatorHost c) (hostingJurisdiction c) (readKeyWindowSeconds c) (durableTtlDefaultSeconds
     c) (durableTtlMaxSeconds c) (rendezvousTtlSeconds c) (rendezvousDepositTtlSeconds c)
     (rendezvousMailboxDepth c) (cardTombstoneSeconds c) (diagnosticSessionMaxMinutes c)
     (endpointListenAddress c) (endpointCertificateFile c) (endpointPrivateKeyFile c)
     (platformAttachment c) (linkBoxTtlSeconds c) (linkBoxLiveCap c) x.
End configuration.

Definition defaultConfiguration : configuration.t :=
  configuration.mk
    (str "") (str "") 7776000 31536000 0 7776000 604800 16 7776000 60 (str "") (str "") (str "")
    (str "on") 600 10000 0.

(** A pointer to a field of the configuration. *)
Module field.
Record t (A : Type) := mk { get : configuration.t → A; set : A → configuration.t → configuration.t }.
Arguments mk {A} get set.
Arguments get {A}.
Arguments set {A}.
End field.

(** ** Numbers as text *)

Definition digit (n : Z) : ascii := ascii_of_N (Z.to_N (48 + n)).
Definition digitOf (a : ascii) : option Z :=
  if (48 <=? code a) && (code a <=? 57) then Some (code a - 48) else None.

(** The digits of a number of at most [fuel] digits. *)
Fixpoint digitsOf (fuel : nat) (n : Z) : text :=
  match fuel with
  | O => []
  | S fuel => if n <? 10 then [digit n] else digitsOf fuel (n / 10) ++ [digit (n mod 10)]
  end.

(** [strconv.FormatInt] of an int64, which has at most 19 digits. *)
Definition FormatInt (n : Z) : text := if n <? 0 then "-"%char :: digitsOf 19 (- n) else digitsOf 19 n.

Fixpoint readDigits (s : text) (acc : Z) : option Z :=
  match s with
  | [] => Some acc
  | a :: rest => d ← digitOf a; readDigits rest (10 * acc + d)
  end.

(** [strconv.ParseInt] to base 10 and 64 bits; [None] for either of its errors. *)
Definition ParseInt (s : text) : option Z :=
  let '(negative, digits) :=
    match s with
    | a :: rest => if bool_decide (a = "+"%char) then (false, rest)
                   else if bool_decide (a = "-"%char) then (true, rest) else (false, s)
    | [] => (false, [])
    end in
  if bool_decide (digits = []) then None
  else
    n ← readDigits digits 0;
    if negative then (if two63 <? n then None else Some (- n))
    else (if two63 <=? n then None else Some n).

(** ** A setting *)

Inductive SettingError : Type := errNotAChoice | errNotAnInteger | errNegative | errTooLong.

Module setting.
Record t := mk {
  name : text;
  read : configuration.t → text → res SettingError configuration.t;
  print : configuration.t → text;
  unlogged : bool;
  choices : option (list text) }.
End setting.

Definition platformAttachmentValues : list text := [str "on"; str "off"].

Definition choiceSetting (name : string) (choices : list text) (field : field.t text) : setting.t :=
  setting.mk (str name)
    (λ target value, if bool_decide (value ∈ choices) then Ok (field.set field value target)
                     else Err errNotAChoice)
    (field.get field) false (Some choices).

Definition attachesToPlatform (self : configuration.t) : bool :=
  negb (bool_decide (configuration.platformAttachment self = str "off")).

Definition unlogged (item : setting.t) : setting.t :=
  setting.mk (setting.name item) (setting.read item) (setting.print item) true (setting.choices item).

Definition textSetting (name : string) (field : field.t text) : setting.t :=
  setting.mk (str name) (λ target value, Ok (field.set field value target)) (field.get field) false None.

Definition readNumber (field : field.t Z) (target : configuration.t) (value : text) :
    res SettingError configuration.t :=
  match ParseInt value with
  | None => Err errNotAnInteger
  | Some parsed => if parsed <? 0 then Err errNegative else Ok (field.set field parsed target)
  end.

Definition numberSetting (name : string) (field : field.t Z) : setting.t :=
  setting.mk (str name) (readNumber field) (λ source, FormatInt (field.get field source)) false None.

(** [MaxInt64 / unit] is the largest count a duration holds. *)
Definition durationSetting (name : string) (unit : Z) (field : field.t Z) : setting.t :=
  setting.mk (str name)
    (λ target value,
       match ParseInt value with
       | Some parsed => if (two63 - 1) ÷ unit <? parsed then Err errTooLong else readNumber field target value
       | None => readNumber field target value
       end)
    (λ source, FormatInt (field.get field source)) false None.

Definition settings : list setting.t :=
  [textSetting "operator_host" (field.mk configuration.operatorHost configuration.set_operatorHost);
   textSetting "hosting_jurisdiction" (field.mk configuration.hostingJurisdiction configuration.set_hostingJurisdiction);
   numberSetting "read_key_window_seconds" (field.mk configuration.readKeyWindowSeconds configuration.set_readKeyWindowSeconds);
   numberSetting "durable_ttl_default_seconds" (field.mk configuration.durableTtlDefaultSeconds configuration.set_durableTtlDefaultSeconds);
   numberSetting "durable_ttl_max_seconds" (field.mk configuration.durableTtlMaxSeconds configuration.set_durableTtlMaxSeconds);
   numberSetting "rendezvous_ttl_seconds" (field.mk configuration.rendezvousTtlSeconds configuration.set_rendezvousTtlSeconds);
   numberSetting "rendezvous_deposit_ttl_seconds" (field.mk configuration.rendezvousDepositTtlSeconds configuration.set_rendezvousDepositTtlSeconds);
   numberSetting "rendezvous_mailbox_depth" (field.mk configuration.rendezvousMailboxDepth configuration.set_rendezvousMailboxDepth);
   numberSetting "card_tombstone_seconds" (field.mk configuration.cardTombstoneSeconds configuration.set_cardTombstoneSeconds);
   numberSetting "diagnostic_session_max_minutes" (field.mk configuration.diagnosticSessionMaxMinutes configuration.set_diagnosticSessionMaxMinutes);
   unlogged (textSetting "endpoint_listen_address" (field.mk configuration.endpointListenAddress configuration.set_endpointListenAddress));
   textSetting "endpoint_tls_certificate_file" (field.mk configuration.endpointCertificateFile configuration.set_endpointCertificateFile);
   textSetting "endpoint_tls_private_key_file" (field.mk configuration.endpointPrivateKeyFile configuration.set_endpointPrivateKeyFile);
   choiceSetting "platform_attachment" platformAttachmentValues (field.mk configuration.platformAttachment configuration.set_platformAttachment);
   durationSetting "link_box_ttl_seconds" Second (field.mk configuration.linkBoxTtlSeconds configuration.set_linkBoxTtlSeconds);
   numberSetting "link_box_live_cap" (field.mk configuration.linkBoxLiveCap configuration.set_linkBoxLiveCap);
   durationSetting "reject_floor_ms" Millisecond (field.mk configuration.rejectFloorMs configuration.set_rejectFloorMs)].

(** ** The loader *)

(** [strings.ToUpper], and the replacement of a dot or a hyphen, on the octets a key is made of. *)
Definition upper (a : ascii) : ascii :=
  if (97 <=? code a) && (code a <=? 122) then ascii_of_N (Z.to_N (code a - 32)) else a.
Definition underscored (a : ascii) : ascii :=
  if bool_decide (a = "."%char) || bool_decide (a = "-"%char) then "_"%char else a.

Definition environmentNameOf (key : text) : text := str "URMESSAGE_" ++ (upper <$> (underscored <$> key)).

(** Where a value that is not taken came from, and its setting; or the keys no setting has. *)
Inductive LoadError : Type :=
  | BadSetting (from name : text) (why : SettingError)
  | ErrUnknownSetting (path : text) (unknown : list text).

(** One value read into the configuration, if it was given. *)
Definition takeValue (item : setting.t) (from : text) (value : option text) (loaded : configuration.t) :
    res LoadError configuration.t :=
  match value with
  | None => Ok loaded
  | Some value =>
      match setting.read item loaded value with
      | Ok loaded => Ok loaded
      | Err why => Err (BadSetting from (setting.name item) why)
      end
  end.

(** The loop of [loadConfiguration]. *)
Fixpoint loadSettings (items : list setting.t) (file : resource.t) (lookupEnvironment : text → option text)
    (loaded : configuration.t) : res LoadError configuration.t :=
  match items with
  | [] => Ok loaded
  | item :: rest =>
      let variable := environmentNameOf (setting.name item) in
      res_bind (takeValue item (resource.path file) (Resource.lookup file (setting.name item)) loaded) (λ loaded,
      res_bind (takeValue item variable (lookupEnvironment variable) loaded) (λ loaded,
      loadSettings rest file lookupEnvironment loaded))
  end.

(** [loadConfiguration]; a configuration beside an error is not used. *)
Definition loadConfiguration (file : resource.t) (lookupEnvironment : text → option text) :
    res LoadError configuration.t :=
  res_bind (loadSettings settings file lookupEnvironment defaultConfiguration) (λ loaded,
  match unread file (list_to_set (setting.name <$> settings)) with
  | [] => Ok loaded
  | unknown => Err (ErrUnknownSetting (resource.path file) unknown)
  end).

(** What [lines] shows of a value: never an unlogged one. *)
Definition shown (self : configuration.t) (item : setting.t) : text :=
  let value := setting.print item self in
  if bool_decide (value = []) then str "(unset)"
  else if setting.unlogged item then str "(set)"
  else value.
Definition lines (self : configuration.t) : list (text * text) :=
  (λ item, (setting.name item, shown self item)) <$> settings.

(** [limitsOf] of a loaded configuration. *)
Definition configuredLimits (loaded : configuration.t) : Limits.t :=
  limitsOf (configuration.durableTtlDefaultSeconds loaded) (configuration.durableTtlMaxSeconds loaded).
