(* ===== verification/SettingsProps.v ===== *)
(** * The loader's theorems

    Every setting moves its own field and no other, so a loaded configuration is, setting by setting,
    the environment's value, or the file's, or the default; what it holds fits the durations it
    becomes; and a configuration printed as a file loads as itself. *)

From S2P Require Import Resource Prelude StoreTypes Retention Settings.

(** ** Settings do not meet *)

Record proper (item : setting.t) : Prop := Proper {
  reads_alike : ∀ target target' value,
    match setting.read item target value, setting.read item target' value with
    | Ok c, Ok c' => setting.print item c = setting.print item c'
    | Err e, Err e' => e = e'
    | _, _ => False
    end;
  reads_apart : ∀ target value c, setting.read item target value = Ok c →
    ∀ other, other ∈ settings → setting.name other ≠ setting.name item →
    setting.print other c = setting.print other target }.

(** A setting over a field: reading sets the field to something the value decides. *)
Definition over {A} (item : setting.t) (f : field.t A) (parse : text → res SettingError A) : Prop :=
  (∀ target value, setting.read item target value = res_bind (parse value) (λ x, Ok (field.set f x target))).

Definition parseNumber (value : text) : res SettingError Z :=
  match ParseInt value with
  | None => Err errNotAnInteger
  | Some parsed => if parsed <? 0 then Err errNegative else Ok parsed
  end.
Definition parseDuration (unit : Z) (value : text) : res SettingError Z :=
  match ParseInt value with
  | Some parsed => if (two63 - 1) ÷ unit <? parsed then Err errTooLong else parseNumber value
  | None => parseNumber value
  end.

Lemma number_over name f : over (numberSetting name f) f parseNumber.
Proof.
  intros target value. cbn. unfold readNumber, parseNumber. destruct (ParseInt value) as [n|]; [|done].
  by destruct (n <? 0).
Qed.
Lemma duration_over name unit f : over (durationSetting name unit f) f (parseDuration unit).
Proof.
  intros target value. cbn. unfold readNumber, parseDuration, parseNumber.
  destruct (ParseInt value) as [n|]; [|done]. destruct (_ <? n); [done|]. by destruct (n <? 0).
Qed.
Lemma text_over name f : over (textSetting name f) f Ok.
Proof. done. Qed.
Lemma choice_over name choices f :
  over (choiceSetting name choices f) f
    (λ value, if bool_decide (value ∈ choices) then Ok value else Err errNotAChoice).
Proof. intros target value. cbn. by destruct (bool_decide _). Qed.

Lemma over_proper {A} (item : setting.t) (f : field.t A) parse :
  over item f parse →
  (∀ x target target', setting.print item (field.set f x target) = setting.print item (field.set f x target')) →
  Forall (λ other, setting.name other = setting.name item ∨
    ∀ x target, setting.print other (field.set f x target) = setting.print other target) settings →
  proper item.
Proof.
  intros Hover Hsame Hrest. split.
  - intros target target' value. rewrite !Hover. destruct (parse value) as [x|e]; cbn; [apply Hsame|done].
  - intros target value c. rewrite Hover. destruct (parse value) as [x|e]; cbn; [|done].
    intros [= <-] other Hin Hne. eapply Forall_forall in Hrest; [|exact Hin].
    destruct Hrest as [|Hrest]; [done|apply Hrest].
Qed.

Lemma settings_proper : Forall proper settings.
Proof.
  repeat (apply Forall_cons; split); [..|apply Forall_nil; done];
    (eapply over_proper;
      [first [apply number_over|apply duration_over|apply choice_over|exact (text_over _ _)]
      |by intros x [] []
      |repeat (apply Forall_cons; split); [..|by apply Forall_nil];
         first [right; by intros x []|left; reflexivity] ]).
Qed.

Lemma settings_names : NoDup (setting.name <$> settings).
Proof. refine (@bool_decide_unpack _ (NoDup_dec (setting.name <$> settings)) _). vm_compute. exact I. Qed.

(** ** What a configuration holds fits what it becomes *)

Definition numbers : list (configuration.t → Z) :=
  [configuration.readKeyWindowSeconds; configuration.durableTtlDefaultSeconds;
   configuration.durableTtlMaxSeconds; configuration.rendezvousTtlSeconds;
   configuration.rendezvousDepositTtlSeconds; configuration.rendezvousMailboxDepth;
   configuration.cardTombstoneSeconds; configuration.diagnosticSessionMaxMinutes;
   configuration.linkBoxTtlSeconds; configuration.linkBoxLiveCap; configuration.rejectFloorMs].

(** No count is negative, the two lengths of time are durations, and the attachment is on or off. *)
Record fits (c : configuration.t) : Prop := Fits {
  fits_numbers : Forall (λ get, 0 <= get c < two63) numbers;
  fits_ttl : configuration.linkBoxTtlSeconds c * Second < two63;
  fits_floor : configuration.rejectFloorMs c * Millisecond < two63;
  fits_attachment : configuration.platformAttachment c ∈ platformAttachmentValues }.

Lemma readDigits_range s acc n : 0 <= acc → readDigits s acc = Some n → 0 <= n.
Proof.
  revert acc. induction s as [|a s IH]; intros acc Ha; cbn; [by intros [= <-]|].
  unfold digitOf. destruct (48 <=? code a) eqn:E1, (code a <=? 57) eqn:E2; cbn; try done.
  reflect_bools. apply IH. lia.
Qed.

Lemma ParseInt_range s n : ParseInt s = Some n → - two63 <= n < two63.
Proof.
  unfold ParseInt. destruct (match s with [] => _ | _ => _ end) as [negative digits].
  destruct (bool_decide _); [done|]. destruct (readDigits digits 0) as [m|] eqn:E; [|done]. cbn.
  apply readDigits_range in E; [|done].
  destruct negative; [destruct (two63 <? m) eqn:?|destruct (two63 <=? m) eqn:?]; intros [= <-]; reflect_bools;
    unfold two63 in *; lia.
Qed.

Lemma parseNumber_range value n : parseNumber value = Ok n → 0 <= n < two63.
Proof.
  unfold parseNumber. destruct (ParseInt value) as [m|] eqn:E; [|done]. apply ParseInt_range in E.
  destruct (m <? 0) eqn:?; intros [= <-]; reflect_bools. lia.
Qed.

Lemma parseDuration_range unit value n :
  0 < unit → parseDuration unit value = Ok n → 0 <= n < two63 ∧ n * unit < two63.
Proof.
  intros Hu. unfold parseDuration. destruct (ParseInt value) as [m|] eqn:E; [|by unfold parseNumber; rewrite E].
  destruct (_ <? m) eqn:Hm; [done|]. intros Hn. pose proof (parseNumber_range _ _ Hn).
  unfold parseNumber in Hn. rewrite E in Hn. destruct (m <? 0); [done|]. injection Hn as ->.
  split; [done|]. reflect_bools. rewrite Z.quot_div_nonneg in Hm by (unfold two63; lia).
  pose proof (Z.mul_div_le (two63 - 1) unit Hu). nia.
Qed.

Lemma fits_set {A} (item : setting.t) (f : field.t A) parse target value c :
  over item f parse → (∀ x, parse value = Ok x → fits (field.set f x target)) →
  setting.read item target value = Ok c → fits c.
Proof.
  intros Hover Hf. rewrite Hover. destruct (parse value) as [x|e]; cbn; [|done]. intros [= <-]. by apply Hf.
Qed.

Lemma read_fits :
  Forall (λ item, ∀ target value c, fits target → setting.read item target value = Ok c → fits c) settings.
Proof.
  repeat (apply Forall_cons; split); [..|by apply Forall_nil]; intros target value c [Hn Ht Hf Ha];
    repeat (apply Forall_cons in Hn as [? Hn]);
    (eapply fits_set;
      [first [apply number_over|apply (duration_over _ Second)|apply (duration_over _ Millisecond)
             |apply choice_over|exact (text_over _ _)]|]);
    intros x Hx;
    first [ apply parseNumber_range in Hx
          | apply parseDuration_range in Hx as [Hx1 Hx2]; [|reflexivity]
          | revert Hx; cbv beta; case_bool_decide; [|done]; intros [= <-]
          | idtac ];
    (split; [repeat (apply Forall_cons; split); [..|by apply Forall_nil]|..]; destruct target; cbn in *; done).
Qed.

Lemma default_fits : fits defaultConfiguration.
Proof.
  split; [|done..|by left]. repeat (apply Forall_cons; split; [done|]). by apply Forall_nil.
Qed.

#[local] Opaque settings.

(** ** What is loaded *)

Section Load.
Context (file : resource.t) (env : text → option text).

Definition fileValue (item : setting.t) : option text := Resource.lookup file (setting.name item).
Definition envValue (item : setting.t) : option text := env (environmentNameOf (setting.name item)).
(** The value that wins. *)
Definition given (item : setting.t) : option text :=
  match envValue item with Some value => Some value | None => fileValue item end.

(** A value of a setting is one it reads. *)
Definition readable (item : setting.t) (value : option text) : Prop :=
  ∀ v, value = Some v → ∃ c, setting.read item defaultConfiguration v = Ok c.

(** What a setting holds of a value, or by default. *)
Definition holds (c : configuration.t) (item : setting.t) (value : option text) : Prop :=
  match value with
  | None => setting.print item c = setting.print item defaultConfiguration
  | Some v => ∃ c', setting.read item defaultConfiguration v = Ok c' ∧ setting.print item c = setting.print item c'
  end.

(** A refused value, and where it came from. *)
Definition refusedBy (item : setting.t) (from : text) (why : SettingError) : Prop :=
  ∃ v, setting.read item defaultConfiguration v = Err why ∧
    (from = resource.path file ∧ fileValue item = Some v ∨
     from = environmentNameOf (setting.name item) ∧ envValue item = Some v).

Lemma takeValue_spec item from value loaded :
  proper item →
  match takeValue item from value loaded with
  | Ok c => readable item value ∧
      (∀ other, other ∈ settings → setting.name other ≠ setting.name item →
         setting.print other c = setting.print other loaded) ∧
      match value with
      | None => c = loaded
      | Some _ => holds c item value
      end
  | Err e => ∃ v why, value = Some v ∧ e = BadSetting from (setting.name item) why ∧
      setting.read item defaultConfiguration v = Err why
  end.
Proof.
  intros [Halike Hapart]. unfold takeValue. destruct value as [v|]; [|done].
  pose proof (Halike loaded defaultConfiguration v) as Ha. pose proof (Hapart loaded v) as Hp.
  destruct (setting.read item loaded v) as [c|why], (setting.read item defaultConfiguration v) as [c'|why'] eqn:Ed;
    try done.
  - split; [|split; [by apply Hp|by exists c'] ]. intros ? [= <-]. by exists c'.
  - exists v, why. by subst.
Qed.

Lemma loadSettings_spec items loaded :
  Forall proper items → NoDup (setting.name <$> items) → items ⊆ settings →
  Forall (λ item, setting.print item loaded = setting.print item defaultConfiguration) items →
  match loadSettings items file env loaded with
  | Ok c =>
      (∀ item, item ∈ items → readable item (fileValue item) ∧ readable item (envValue item) ∧
         holds c item (given item)) ∧
      (∀ other, other ∈ settings → setting.name other ∉ setting.name <$> items →
         setting.print other c = setting.print other loaded)
  | Err e => ∃ item from why, item ∈ items ∧ e = BadSetting from (setting.name item) why ∧
      refusedBy item from why
  end.
Proof.
  revert loaded. induction items as [|item items IH]; intros loaded Hp Hn Hs Hd; cbn.
  { split; [by intros item ?%elem_of_nil|done]. }
  apply Forall_cons in Hp as [Hpi Hp]. cbn in Hn. apply NoDup_cons in Hn as [Hni Hn].
  apply Forall_cons in Hd as [Hdi Hd].
  pose proof (takeValue_spec item (resource.path file) (fileValue item) loaded Hpi) as H1.
  unfold fileValue in H1. destruct (takeValue item _ _ loaded) as [c1|e]; cbn.
  2:{ destruct H1 as (v & why & Hv & -> & Hr). eexists item, _, why. split; [by left|]. split; [done|].
      exists v. split; [done|]. by left. }
  destruct H1 as (Hf & Hap1 & Hc1).
  pose proof (takeValue_spec item (environmentNameOf (setting.name item)) (envValue item) c1 Hpi) as H2.
  unfold envValue in H2. destruct (takeValue item _ _ c1) as [c2|e]; cbn.
  2:{ destruct H2 as (v & why & Hv & -> & Hr). eexists item, _, why. split; [by left|]. split; [done|].
      exists v. split; [done|]. by right. }
  destruct H2 as (He & Hap2 & Hc2).
  assert (∀ other, other ∈ items → setting.name other ≠ setting.name item) as Hother.
  { intros other Hin E. apply Hni. rewrite <- E. by apply list_elem_of_fmap_2. }
  assert (holds c2 item (given item)) as Hholds.
  { unfold given, envValue in *. destruct (env _) as [v|]; [exact Hc2|]. subst c2.
    unfold fileValue. destruct (Resource.lookup file _) as [v|]; [exact Hc1|]. by subst c1. }
  specialize (IH c2 Hp Hn). destruct (loadSettings items file env c2) as [c|e].
  - destruct IH as [IH1 IH2].
    + intros x Hx. apply Hs. by right.
    + apply Forall_forall. intros other Hin. eapply Forall_forall in Hd; [|exact Hin].
      rewrite Hap2, Hap1, Hd by (first [by apply Hs; right|by apply Hother]). done.
    + split.
      * intros other [->|Hin]%elem_of_cons; [|by apply IH1]. split; [done|]. split; [done|].
        assert (setting.print item c = setting.print item c2) as E by (apply IH2; [by apply Hs; left|done]).
        unfold holds in *. destruct (given item); rewrite E; done.
      * intros other Hin Hne. apply not_elem_of_cons in Hne as [Hne1 Hne2]. by rewrite IH2, Hap2, Hap1.
  - destruct IH as (item' & from & why & Hin & He' & Hr); [intros x Hx; apply Hs; by right| |].
    + apply Forall_forall. intros other Hin. eapply Forall_forall in Hd; [|exact Hin].
      rewrite Hap2, Hap1, Hd by (first [by apply Hs; right|by apply Hother]). done.
    + exists item', from, why. split; [by right|done].
Qed.
Lemma loadSettings_fits c : loadSettings settings file env defaultConfiguration = Ok c → fits c.
Proof.
  generalize default_fits. generalize defaultConfiguration.
  pose proof read_fits as Hf. revert Hf. generalize settings as items. intros items.
  induction items as [|item items IH]; intros Hf loaded Hload; cbn; [by intros [= <-]|].
  apply Forall_cons in Hf as [Hi Hf].
  assert (∀ from value l c1, fits l → takeValue item from value l = Ok c1 → fits c1) as Htake.
  { intros from [v|] l c1 Hl; cbn; [|by intros [= <-] ].
    destruct (setting.read item l v) eqn:E; [|done]. intros [= <-]. by eapply Hi. }
  destruct (takeValue item _ _ loaded) as [c1|] eqn:E1; [|done]. cbn.
  destruct (takeValue item _ _ c1) as [c2|] eqn:E2; [|done]. cbn. apply IH; [done|]. eauto.
Qed.
End Load.


(** ** A printed configuration reads back *)

(** ** Plain texts *)

(** Visible ASCII. *)
Definition visible (a : ascii) : Prop := 33 <= code a <= 126.
(** A value that needs no quotes: visible, not opening with a quote, and well within a line. *)
Definition plain (value : text) : Prop :=
  Forall visible value ∧ HasPrefix value doubleQuote = false ∧ HasPrefix value singleQuote = false ∧
  Z.of_nat (length value) < 65000.

Definition keyLike (name : text) : Prop :=
  name ≠ [] ∧ Forall (λ a, simpleCharacter a = true) name ∧ HasPrefix name "-" = false ∧
  Z.of_nat (length name) < 500.

Lemma visible_ne a b : visible a → code b <= 32 → a ≠ b.
Proof. unfold visible. intros ? ? ->. lia. Qed.

Lemma visible_no_space a b c :
  visible a → space1 a = false ∧ space2 a b = false ∧ space2 b a = false ∧ space3 a b c = false ∧ space3 b c a = false.
Proof.
  unfold visible, space1, space2, space3. intros [? ?].
  repeat match goal with |- context [?x =? ?y] => destruct (Z.eqb_spec x y); try lia
                       | |- context [?x <=? ?y] => destruct (Z.leb_spec x y); try lia end;
    cbn; rewrite ?andb_false_r; repeat split; done.
Qed.

Lemma trimStart_visible s : Forall visible s → trimStart s = s.
Proof.
  intros Hs. destruct s as [|a r1]; [done|]. cbn. apply Forall_cons in Hs as [Ha _].
  destruct (visible_no_space a a a Ha) as (-> & _). destruct r1 as [|b r2]; [done|].
  destruct (visible_no_space a b b Ha) as (_ & -> & _). destruct r2 as [|c r3]; [done|].
  by destruct (visible_no_space a b c Ha) as (_ & _ & _ & -> & _).
Qed.

Lemma trimBack_visible s : Forall visible s → trimBack s = s.
Proof.
  intros Hs. destruct s as [|a r1]; [done|]. cbn. apply Forall_cons in Hs as [Ha _].
  destruct (visible_no_space a a a Ha) as (-> & _). destruct r1 as [|b r2]; [done|].
  destruct (visible_no_space a b b Ha) as (_ & _ & -> & _). destruct r2 as [|c r3]; [done|].
  by destruct (visible_no_space a c b Ha) as (_ & _ & _ & _ & ->).
Qed.

Lemma TrimSpace_visible s : Forall visible s → TrimSpace s = s.
Proof.
  intros Hs. unfold TrimSpace. rewrite trimStart_visible, trimBack_visible by first [done|by apply List.Forall_rev].
  apply rev_involutive.
Qed.

Lemma simple_visible a : simpleCharacter a = true → visible a ∧ a ≠ ":"%char ∧ a ≠ "#"%char ∧ a ≠ " "%char ∧ a ≠ "009"%char.
Proof.
  unfold simpleCharacter, visible. intros H.
  assert (33 <= code a <= 126 ∧ code a ≠ 58 ∧ code a ≠ 35) as (H1 & _).
  { rewrite !orb_true_iff, !andb_true_iff, !Z.leb_le, !Z.eqb_eq in H. lia. }
  split; [done|]. split_and!; intros ->; by vm_compute in H.
Qed.

Lemma Cut_key name rest : Forall (λ a, simpleCharacter a = true) name →
  Cut ":" (name ++ ":"%char :: rest) = Some (name, rest).
Proof.
  induction 1 as [|a name Ha Hn IH]; [done|]. cbn. apply simple_visible in Ha as (_ & Hne & _).
  rewrite bool_decide_eq_false_2 by done. by rewrite IH.
Qed.

Lemma valueOf_plain value : plain value → valueOf value = Some value.
Proof.
  intros (_ & Hd & Hs & _). unfold valueOf. rewrite Hd, Hs. cbn.
  assert (unquote value = None) as ->; [|done].
  destruct value as [|a [|b rest] ]; [done|done|]. unfold unquote.
  destruct (rev (b :: rest)) as [|last inner]; [done|]. destruct (negb (bool_decide _)); [done|].
  unfold isQuote, HasPrefix in *.
  assert (bool_decide (a = doubleQuote) = false) as -> by (rewrite <- Hd; by apply bool_decide_ext).
  assert (bool_decide (a = singleQuote) = false) as -> by (rewrite <- Hs; by apply bool_decide_ext).
  done.
Qed.

Lemma TrimRight_keep f s a : f a = false → TrimRight f (s ++ [a]) = s ++ [a].
Proof. intros Ha. unfold TrimRight. rewrite rev_app_distr. cbn. rewrite Ha. cbn. by rewrite rev_involutive. Qed.

Lemma TrimRight_drop f s a : f a = true → TrimRight f (s ++ [a]) = TrimRight f s.
Proof. intros Ha. unfold TrimRight. rewrite rev_app_distr. cbn. by rewrite Ha. Qed.

(** ** Lines *)

Definition line (entry : text * text) : text := entry.1 ++ ":"%char :: " "%char :: entry.2.
Definition document (entries : list (text * text)) : text := flat_map (λ entry, line entry ++ [newline]) entries.
Definition good (entry : text * text) : Prop := keyLike entry.1 ∧ plain entry.2.

Lemma last_visible (s : text) : s ≠ [] → Forall visible s → ∃ s' a, s = s' ++ [a] ∧ visible a.
Proof.
  intros Hne Hs. destruct s as [|a s _] using rev_ind; [done|]. exists s, a.
  apply Forall_app in Hs as [_ Ha]. split; [done|]. by apply Forall_cons in Ha as [Ha _].
Qed.

(** A line as the reader trims it. *)
Lemma TrimRight_line entry :
  good entry →
  TrimRight (λ a, bool_decide (a ∈ [" "; "009"; carriageReturn]%char)) (line entry) =
    entry.1 ++ ":"%char :: (if bool_decide (entry.2 = []) then [] else " "%char :: entry.2).
Proof.
  intros [_ (Hv & _)]. unfold line. case_bool_decide as Hne.
  - rewrite Hne. change [":"; " "]%char with ([":"] ++ [" "])%char. rewrite app_assoc, TrimRight_drop by done.
    by apply TrimRight_keep.
  - destruct (last_visible _ Hne Hv) as (s & a & -> & Ha).
    replace (entry.1 ++ ":"%char :: " "%char :: s ++ [a]) with ((entry.1 ++ ":"%char :: " "%char :: s) ++ [a])
      by (by rewrite <- app_assoc).
    apply TrimRight_keep, bool_decide_eq_false_2.
    rewrite !elem_of_cons. intros [H|[H|[H|H%elem_of_nil] ] ]; [..|done]; by apply (visible_ne _ _ Ha) in H.
Qed.

Lemma readLine_line entry : good entry → readLine (line entry) = Ok (Some entry).
Proof.
  intros Hg. unfold readLine. rewrite (TrimRight_line _ Hg).
  destruct entry as [name value], Hg as [ (Hne & Hk & Hh & _) Hp]. cbn [fst snd] in *.
  destruct name as [|a name]; [done|]. rewrite bool_decide_eq_false_2 by done.
  pose proof Hk as Hk'. apply Forall_cons in Hk' as [Ha _]. apply simple_visible in Ha as (_ & _ & H1 & H2 & H3).
  cbn [HasPrefix app]. rewrite !bool_decide_eq_false_2 by congruence. cbn [orb].
  cbn [HasPrefix] in Hh. rewrite Hh, app_comm_cons, (Cut_key (a :: name)) by done.
  rewrite TrimSpace_visible.
  2:{ eapply Forall_impl; [exact Hk|]. intros x Hx. by apply simple_visible. }
  rewrite bool_decide_eq_false_2 by done. unfold simpleKey.
  assert (forallb simpleCharacter (a :: name) = true) as ->.
  { apply List.forallb_forall. intros x Hx. eapply Forall_forall in Hk; [exact Hk|]. by apply list_elem_of_In. }
  cbn [negb orb].
  assert (TrimSpace (if bool_decide (value = []) then [] else " "%char :: value) = value) as ->.
  { clear Hh. case_bool_decide as Hv; [by subst|]. destruct Hp as [Hv' _].
    replace (TrimSpace (" "%char :: value)) with (TrimSpace value) by done. by apply TrimSpace_visible. }
  by rewrite valueOf_plain.
Qed.

Lemma scanLines_line s held room rest :
  newline ∉ s → Z.of_nat (length s) < room →
  scanLines (s ++ newline :: rest) held room =
    (dropCR (held ++ s) :: (scanLines rest [] MaxScanTokenSize).1, (scanLines rest [] MaxScanTokenSize).2).
Proof.
  revert held room. induction s as [|a s IH]; intros held room Hn Hl.
  - cbn [app scanLines]. rewrite bool_decide_eq_true_2, app_nil_r by done.
    by destruct (scanLines rest [] MaxScanTokenSize).
  - apply not_elem_of_cons in Hn as [Ha Hn]. cbn [app scanLines]. cbn [length] in Hl.
    rewrite bool_decide_eq_false_2 by done. destruct (Z.leb_spec room 1); [lia|].
    rewrite IH by (done || lia). by rewrite <- app_assoc.
Qed.

Lemma line_quiet entry : good entry → (newline ∉ line entry) ∧ dropCR (line entry) = line entry ∧
  Z.of_nat (length (line entry)) < MaxScanTokenSize.
Proof.
  intros [ (Hne & Hk & _ & Hkl) (Hv & _ & _ & Hvl)]. unfold line.
  assert (∀ a, visible a → a ≠ newline ∧ a ≠ carriageReturn) as Hvis.
  { intros a Ha. by split; apply visible_ne. }
  assert (Forall (λ a, a ≠ newline ∧ a ≠ carriageReturn) (entry.1 ++ ":"%char :: " "%char :: entry.2)) as Hall.
  { apply Forall_app. split.
    - eapply Forall_impl; [exact Hk|]. intros a Ha. by apply Hvis, simple_visible.
    - do 2 (apply Forall_cons; split; [done|]). by eapply Forall_impl. }
  split; [|split].
  - intros Hin. eapply Forall_forall in Hall; [|exact Hin]. by destruct Hall.
  - unfold dropCR. destruct (rev _) as [|a rest] eqn:E; [done|].
    rewrite bool_decide_eq_false_2; [done|].
    assert (a ∈ entry.1 ++ ":"%char :: " "%char :: entry.2) as Hin.
    { apply list_elem_of_In, in_rev. rewrite E. by left. }
    eapply Forall_forall in Hall; [|exact Hin]. by destruct Hall.
  - rewrite length_app. cbn [length]. unfold MaxScanTokenSize. lia.
Qed.

Lemma scan_document entries :
  Forall good entries → scanLines (document entries) [] MaxScanTokenSize = (line <$> entries, false).
Proof.
  induction 1 as [|entry entries Hg _ IH]; [done|].
  pose proof (line_quiet _ Hg) as (Hn & Hd & Hl). unfold document in *. cbn [flat_map].
  rewrite <- app_assoc. cbn [app]. rewrite scanLines_line, IH by done. cbn [app fst snd]. by rewrite Hd.
Qed.

Lemma readLines_entries number entries current :
  Forall good entries → NoDup entries.*1 → Forall (λ entry, resource.values current !! entry.1 = None) entries →
  ∃ r, readLines number (line <$> entries) current = Ok r ∧
    resource.order r = resource.order current ++ entries.*1 ∧
    (∀ entry, entry ∈ entries → resource.values r !! entry.1 = Some entry.2) ∧
    (∀ name, name ∉ entries.*1 → resource.values r !! name = resource.values current !! name).
Proof.
  revert number current. induction entries as [|entry entries IH]; intros number current Hg Hn Hc.
  { exists current. cbn. rewrite app_nil_r. split_and!; [done|done|by intros ? ?%elem_of_nil|done]. }
  apply Forall_cons in Hg as [Hg1 Hg]. apply Forall_cons in Hc as [Hc1 Hc]. cbn in Hn. apply NoDup_cons in Hn as [Hni Hn].
  cbn [fmap list_fmap readLines]. rewrite readLine_line by done. destruct entry as [name value]. cbn [fst snd] in *. rewrite Hc1.
  destruct (IH (S number) (resource.put name value current) Hg Hn) as (r & Hr & Ho & Hin & Hout).
  { apply Forall_forall. intros entry He. cbn. eapply Forall_forall in Hc; [|exact He].
    rewrite lookup_insert_ne; [done|]. intros ->. apply Hni. by apply list_elem_of_fmap_2. }
  exists r. split; [done|]. split; [rewrite Ho; cbn; by rewrite <- app_assoc|]. split.
  - intros entry [->|He]%elem_of_cons; [|by apply Hin]. cbn. rewrite Hout by done. cbn. apply lookup_insert_eq.
  - intros x Hx. apply not_elem_of_cons in Hx as [Hx1 Hx2]. rewrite Hout by done. cbn. by rewrite lookup_insert_ne.
Qed.

(** ** Numbers *)

Lemma digitOf_digit d : 0 <= d < 10 → digitOf (digit d) = Some d.
Proof.
  intros Hd. assert (d = 0 ∨ d = 1 ∨ d = 2 ∨ d = 3 ∨ d = 4 ∨ d = 5 ∨ d = 6 ∨ d = 7 ∨ d = 8 ∨ d = 9) as H by lia.
  by destruct_or! H; subst.
Qed.

Lemma digits_read fuel n rest :
  0 <= n < 10 ^ Z.of_nat fuel → (0 < fuel)%nat →
  readDigits (digitsOf fuel n ++ rest) 0 = readDigits rest n ∧ digitsOf fuel n ≠ [] ∧
  Forall (λ a, is_Some (digitOf a)) (digitsOf fuel n).
Proof.
  revert n rest. induction fuel as [|fuel IH]; intros n rest Hn Hf; [lia|]. cbn [digitsOf].
  destruct (Z.ltb_spec n 10).
  { cbn. rewrite digitOf_digit by lia. cbn. split; [done|]. split; [done|].
    apply Forall_singleton. by rewrite digitOf_digit by lia. }
  destruct fuel as [|fuel]; [cbn in Hn; lia|].
  pose proof (Z.div_mod n 10 ltac:(lia)) as Hdm. pose proof (Z.mod_pos_bound n 10 ltac:(lia)) as Hm.
  replace (10 ^ Z.of_nat (S (S fuel))) with (10 * 10 ^ Z.of_nat (S fuel)) in Hn
    by (rewrite (Nat2Z.inj_succ (S fuel)), Z.pow_succ_r; lia).
  destruct (IH (n / 10) ([digit (n mod 10)] ++ rest)) as (Hr & Hne & Hall); [split; [|apply Z.div_lt_upper_bound]; lia..|lia|].
  rewrite <- app_assoc, Hr. split; [|split].
  - cbn [app readDigits]. rewrite digitOf_digit by lia. cbn [mbind option_bind]. f_equal. lia.
  - by intros [_ ?]%app_eq_nil.
  - apply Forall_app. split; [done|]. apply Forall_singleton. by rewrite digitOf_digit.
Qed.

Lemma digit_code a : is_Some (digitOf a) → 48 <= code a <= 57.
Proof.
  unfold digitOf. intros [d H]. destruct (48 <=? code a) eqn:E1, (code a <=? 57) eqn:E2; try done. reflect_bools. lia.
Qed.

Lemma head_digit (s : text) a : Forall (λ a, is_Some (digitOf a)) s → digitOf a = None → HasPrefix s a = false.
Proof.
  intros Hs Ha. destruct s as [|b s]; [done|]. apply Forall_cons in Hs as [Hb _]. cbn.
  apply bool_decide_eq_false_2. intros ->. by rewrite Ha in Hb; destruct Hb.
Qed.

Lemma digitsOf_length fuel n : (length (digitsOf fuel n) <= fuel)%nat.
Proof.
  revert n. induction fuel as [|fuel IH]; intros n; [done|]. cbn. destruct (n <? 10); cbn; [lia|].
  rewrite length_app. specialize (IH (n / 10)). cbn. lia.
Qed.

(** A number printed is a number read, and needs no quotes. *)
Lemma Format_Parse n : 0 <= n < two63 → ParseInt (FormatInt n) = Some n ∧ plain (FormatInt n).
Proof.
  intros Hn. unfold FormatInt. destruct (Z.ltb_spec n 0); [lia|].
  assert (n < 10 ^ Z.of_nat 19) as Hbig by (change (10 ^ Z.of_nat 19) with 10000000000000000000; unfold two63 in Hn; lia).
  destruct (digits_read 19 n [] ltac:(lia) ltac:(lia)) as (Hr & Hne & Hall). rewrite app_nil_r in Hr.
  revert Hr Hne Hall. generalize (digitsOf_length 19 n). generalize (digitsOf 19 n) as s. intros s Hl Hr Hne Hall.
  pose proof (head_digit s "+"%char Hall eq_refl) as Hp. pose proof (head_digit s "-"%char Hall eq_refl) as Hm.
  split.
  - unfold ParseInt. destruct s as [|a s]; [done|]. cbn [HasPrefix] in Hp, Hm.
    rewrite (bool_decide_ext _ ("+"%char = a)), Hp, (bool_decide_ext _ ("-"%char = a)), Hm by done.
    rewrite bool_decide_eq_false_2 by done. rewrite Hr. cbn. destruct (Z.leb_spec two63 n); [lia|done].
  - split_and!; [|by apply head_digit..|lia]. eapply Forall_impl; [exact Hall|].
    intros a Ha%digit_code. unfold visible. lia.
Qed.

(** ** The round trip *)

(** What a configuration is written out as. *)
Definition printed (c : configuration.t) : list (text * text) :=
  (λ item, (setting.name item, setting.print item c)) <$> settings.

(** The texts a configuration holds. *)
Definition texts : list (configuration.t → text) :=
  [configuration.operatorHost; configuration.hostingJurisdiction; configuration.endpointListenAddress;
   configuration.endpointCertificateFile; configuration.endpointPrivateKeyFile].

#[local] Transparent settings.
#[local] Opaque FormatInt ParseInt.

Lemma readNumber_back (f : field.t Z) n target :
  0 <= n < two63 → readNumber f target (FormatInt n) = Ok (field.set f n target).
Proof.
  intros Hn. unfold readNumber. rewrite (proj1 (Format_Parse n Hn)). destruct (Z.ltb_spec n 0); [lia|done].
Qed.

Lemma readDuration_back (f : field.t Z) name unit n target :
  0 < unit → 0 <= n < two63 → n * unit < two63 →
  setting.read (durationSetting name unit f) target (FormatInt n) = Ok (field.set f n target).
Proof.
  intros Hu Hn Hnu. cbn. rewrite (proj1 (Format_Parse n Hn)), (readNumber_back f n) by done.
  destruct (Z.ltb_spec ((two63 - 1) ÷ unit) n) as [Hlt|]; [|done].
  rewrite Z.quot_div_nonneg in Hlt by (unfold two63; lia).
  apply Z.lt_nge in Hlt. destruct Hlt. apply Z.div_le_lower_bound; lia.
Qed.

(** Every setting reads what it prints, and prints it plainly. *)
Lemma settings_back c :
  fits c → Forall (λ get, plain (get c)) texts →
  Forall (λ item, plain (setting.print item c) ∧
    ∀ target, ∃ c', setting.read item target (setting.print item c) = Ok c' ∧
      setting.print item c' = setting.print item c) settings.
Proof.
  intros [Hn Ht Hf Ha] Hp. repeat (apply Forall_cons in Hn as [? Hn]). repeat (apply Forall_cons in Hp as [? Hp]).
  assert (∀ n, 0 <= n < two63 → plain (FormatInt n)) as Hplain by (intros; by apply Format_Parse).
  assert (plain (configuration.platformAttachment c)) as Hchoice.
  { unfold platformAttachmentValues in Ha. rewrite !elem_of_cons, elem_of_nil in Ha.
    destruct Ha as [->|[->|[] ] ]; (split; [|done]); repeat (apply Forall_cons; split; [done|]); by apply Forall_nil. }
  assert (∀ f target, setting.read (choiceSetting "platform_attachment" platformAttachmentValues f) target
    (configuration.platformAttachment c) = Ok (field.set f (configuration.platformAttachment c) target)) as Hread.
  { intros f target. cbn. by rewrite bool_decide_eq_true_2. }
  repeat (apply Forall_cons; split); [..|by apply Forall_nil];
    (split; [first [done|by apply Hplain]|]); intros target; eexists;
    (split; [first [by apply readNumber_back|by apply readDuration_back|apply Hread|reflexivity]|by destruct target]).
Qed.

Lemma FormatInt_inj n m : 0 <= n < two63 → 0 <= m < two63 → FormatInt n = FormatInt m → n = m.
Proof.
  intros Hn Hm E. pose proof (proj1 (Format_Parse n Hn)) as H. rewrite E, (proj1 (Format_Parse m Hm)) in H. congruence.
Qed.

(** Two configurations that print alike are one. *)
Lemma prints_determine c c' :
  fits c → fits c' → Forall (λ item, setting.print item c = setting.print item c') settings → c = c'.
Proof.
  intros [Hn _ _ _] [Hn' _ _ _] Hp. destruct c, c'.
  repeat (apply Forall_cons in Hn as [? Hn]; apply Forall_cons in Hn' as [? Hn']).
  repeat (apply Forall_cons in Hp as [? Hp]). cbn in *.
  f_equal; first [done|by apply FormatInt_inj].
Qed.

Lemma settings_keyLike : Forall (λ item, keyLike (setting.name item)) settings.
Proof.
  repeat (apply Forall_cons; split); [..|by apply Forall_nil];
    (split; [done|]; split; [repeat (apply Forall_cons; split; [reflexivity|]); by apply Forall_nil|done]).
Qed.

#[local] Opaque settings.

Lemma printed_good c : fits c → Forall (λ get, plain (get c)) texts → Forall good (printed c).
Proof.
  intros Hf Hp. unfold printed. apply Forall_fmap. pose proof (settings_back c Hf Hp) as Hb.
  eapply Forall_impl; [exact (proj2 (Forall_and _ _) (conj settings_keyLike Hb))|].
  intros item (Hk & Hpl & _). by split.
Qed.

Lemma printed_names c : (printed c).*1 = setting.name <$> settings.
Proof. unfold printed. rewrite <- list_fmap_compose. done. Qed.

Lemma printed_loads r c :
  fits c → Forall (λ get, plain (get c)) texts →
  (∀ item, item ∈ settings → Resource.lookup r (setting.name item) = Some (setting.print item c)) →
  loadSettings settings r (λ _, None) defaultConfiguration = Ok c.
Proof.
  intros Hf Hp Hr. pose proof (settings_back c Hf Hp) as Hback.
  pose proof (loadSettings_spec r (λ _, None) settings defaultConfiguration settings_proper settings_names
    (reflexivity _)) as Hl.
  destruct (loadSettings settings r (λ _, None) defaultConfiguration) as [c'|e] eqn:E.
  - f_equal. symmetry. apply loadSettings_fits in E. apply prints_determine; [done|done|].
    destruct Hl as [Hl _]; [by apply Forall_forall|]. apply Forall_forall. intros item Hin.
    destruct (Hl item Hin) as (_ & _ & Hh). unfold holds, given, envValue, fileValue in Hh.
    rewrite (Hr item Hin) in Hh. destruct Hh as (c1 & Hread & ->).
    eapply Forall_forall in Hback; [|exact Hin]. destruct Hback as [_ Hback].
    destruct (Hback defaultConfiguration) as (c2 & Hread2 & Hprint). congruence.
  - destruct Hl as (item & from & why & Hin & _ & v & Hread & [ [_ Hv]|[_ Hv] ]); [by apply Forall_forall| |done].
    unfold fileValue in Hv. rewrite (Hr item Hin) in Hv. injection Hv as <-.
    eapply Forall_forall in Hback; [|exact Hin]. destruct Hback as [_ Hback].
    destruct (Hback defaultConfiguration) as (c2 & Hread2 & _). congruence.
Qed.

(** A PRINTED CONFIGURATION LOADS AS ITSELF.  A configuration that fits, with its texts plain, is
    written out a setting a line; the reader takes the file whole and in order, and the loader, with
    nothing in the environment, gives back that configuration. *)
Lemma printed_configuration_reloads path c :
  fits c → Forall (λ get, plain (get c)) texts →
  ∃ r, readResource path (Opened (document (printed c)) false) = (Some r, true, None) ∧
    resource.order r = setting.name <$> settings ∧
    loadConfiguration r (λ _, None) = Ok c.
Proof.
  intros Hf Hp. pose proof (printed_good c Hf Hp) as Hg. unfold readResource. rewrite scan_document by done.
  destruct (readLines_entries 1 (printed c) (resource.mk path ∅ []) Hg) as (r & -> & Ho & Hin & _).
  { rewrite printed_names. apply settings_names. }
  { apply Forall_forall. intros entry _. cbn. by rewrite lookup_empty. }
  cbn in Ho. rewrite printed_names in Ho. exists r. split; [done|]. split; [done|]. unfold loadConfiguration.
  rewrite (printed_loads r c Hf Hp).
  2:{ intros item Hi. apply (Hin (setting.name item, setting.print item c)).
      apply list_elem_of_fmap. by exists item. }
  cbn. unfold unread. rewrite Ho. destruct (filter _ _) as [|name rest] eqn:E; [done|].
  assert (name ∈ name :: rest) as Hname by left. rewrite <- E in Hname.
  apply list_elem_of_filter in Hname as [Hni Hn]. destruct Hni. by apply elem_of_list_to_set.
Qed.

(** An instance: the defaults, with a host and an endpoint. *)
Definition written : configuration.t :=
  configuration.set_operatorHost (str "https://operator.example") (configuration.set_rejectFloorMs 250
    (configuration.set_endpointListenAddress (str "0.0.0.0:443") defaultConfiguration)).

Lemma printed_configuration_reloads_witness :
  ∃ r, readResource (str "message.yml") (Opened (document (printed written)) false) = (Some r, true, None) ∧
    resource.order r = setting.name <$> settings ∧
    loadConfiguration r (λ _, None) = Ok written.
Proof.
  apply printed_configuration_reloads.
  - split; [|done|done|by left]. repeat (apply Forall_cons; split; [done|]). by apply Forall_nil.
  - repeat (apply Forall_cons; split; [split; [|done]; repeat (apply Forall_cons; split; [done|]); by apply Forall_nil|]).
    by apply Forall_nil.
Defined.
