(* ===== verification/Sql.v ===== *)
(** * Sessions of a database, as [store/pgx.go] uses them

    A method of the PostgreSQL store is a program whose calls are SQL statements, on the pool or
    inside one transaction.  This file is about any tables and any statements on them: a session
    holds what is committed, what its own transaction sees and the keys whose rows it has locked; a
    statement is a function on tables; between two statements of a session the other sessions commit
    whatever they like to the rows it has not locked.  A statement may fail, and a commit may fail
    after it took effect.  [spec] proves what a program answers, and which of its calls changed what
    is committed, over every such run. *)

From S2P Require Import Prelude StoreTypes Prog.

(** [pgx.ErrNoRows], and every other error of the driver. *)
Inductive PgError : Type := ErrNoRows | ErrDriver.

(** What wrapping an epoch's key fails on. *)
Inductive KekError : Type := errKekUnknown | errKekCorrupt | errCipher | errRandom.

(** What a method answers instead of a result: the store's error, the driver's, or a wrap's. *)
Inductive PgxError : Type := StoreError (e : Error) | DriverError (e : PgError) | KeyError (e : KekError).

(** How a statement ends: well; without effect; or with its effect and an error in place of its
    answer, as when the connection breaks behind it. *)
Inductive Fault : Type := Fine | Failed | Unacknowledged.

Inductive sql (stmt : Type) : Type := Begin | Commit | Rollback | Stmt (c : stmt).
#[global] Arguments Begin {stmt}.
#[global] Arguments Commit {stmt}.
#[global] Arguments Rollback {stmt}.
#[global] Arguments Stmt {stmt} c.

(** Tables keyed by [key], the rows of one key being an [R]. *)
Class Database (T key R stmt choice : Type) (scanned : stmt → Type) `{EqDecision key} := {
  at_ : key → T → R;
  run : ∀ c : stmt, choice → T → T * res PgError (scanned c);
  (** the keys whose rows the statement locks until its transaction ends *)
  locks : stmt → choice → T → key → bool;
  (** what the database may decide of a statement, given what it works on and the committed tables
      there have been *)
  legal : stmt → choice → T → list T → Prop }.

Definition reply {stmt} (scanned : stmt → Type) (c : sql stmt) : Type :=
  match c with Stmt c => res PgError (scanned c) | _ => res PgError () end.

Module Session.
Record t (T key : Type) := mk {
  committed : T;
  view : T;
  inTransaction : bool;
  locked : key → bool;
  past : list T }.
Arguments mk {T key} committed view inTransaction locked past.
Arguments committed {T key} t.
Arguments view {T key} t.
Arguments inTransaction {T key} t.
Arguments locked {T key} t.
Arguments past {T key} t.
End Session.

Declare Scope sql_scope.
Delimit Scope sql_scope with sql.

Section Sessions.
Context {T key R stmt choice : Type} {scanned : stmt → Type} `{EqDecision key}.
Context `{D : !Database T key R stmt choice scanned}.
Abbreviation session := (Session.t T key).
Abbreviation program := (prog (reply scanned)).

Definition nothing (k : key) : bool := false.

(** ** Programs *)

(** [if err != nil { return nil, err }] *)
Definition attempt {A B} (r : res PgError A) (k : A → program (res PgxError B)) : program (res PgxError B) :=
  match r with Ok a => k a | Err e => Return (Err (DriverError e)) end.

(** The same over an answer that is already the method's: [x, err := f(); if err != nil ...]. *)
Definition andThen {A B} (p : program (res PgxError A)) (k : A → program (res PgxError B)) : program (res PgxError B) :=
  p ≫= λ r, match r with Ok a => k a | Err e => Return (Err e) end.

Definition query (c : stmt) : program (res PgError (scanned c)) := call (answer := reply scanned) (Stmt c).
Definition exec (c : stmt) : program (res PgxError (scanned c)) :=
  query c ≫= λ r, Return (match r with Ok a => Ok a | Err e => Err (DriverError e) end).
Definition commit : program (res PgError ()) := call (answer := reply scanned) Commit.

(** [Begin], the body, and the deferred [Rollback], which does nothing behind a [Commit]. *)
Definition transaction {A} (body : program (res PgxError A)) : program (res PgxError A) :=
  began ← call (answer := reply scanned) Begin;
  attempt began (λ _, out ← body; _ ← call (answer := reply scanned) Rollback; Return out).

(** ** Steps *)

(** A call that ends well: in a transaction a statement works on what the transaction sees, and
    [Commit] makes that what there is; outside one it is its own transaction. *)
Definition perform (c : sql stmt) (ch : choice) (s : session) : session * reply scanned c :=
  match c return session * reply scanned c with
  | Begin => (Session.mk (Session.committed s) (Session.committed s) true nothing (Session.past s), Ok tt)
  | Commit => (Session.mk (Session.view s) (Session.view s) false nothing (Session.past s), Ok tt)
  | Rollback => (Session.mk (Session.committed s) (Session.committed s) false nothing (Session.past s), Ok tt)
  | Stmt c =>
      let '(t, r) := run c ch (Session.view s) in
      (Session.mk (if Session.inTransaction s then Session.committed s else t) t
         (Session.inTransaction s)
         (λ k, Session.inTransaction s && locks c ch (Session.view s) k || Session.locked s k)
         (Session.past s), r)
  end.

Definition failure (c : sql stmt) : reply scanned c :=
  match c with Stmt _ => Err ErrDriver | _ => Err ErrDriver end.

Definition step (c : sql stmt) (fault : Fault) (ch : choice) (s : session) : session * reply scanned c :=
  match fault with
  | Fine => perform c ch s
  | Failed => (s, failure c)
  | Unacknowledged => ((perform c ch s).1, failure c)
  end.

Definition permitted (c : sql stmt) (ch : choice) (s : session) : Prop :=
  match c with
  | Stmt c => legal c ch (Session.view s) (Session.committed s :: Session.past s)
  | _ => True
  end.

(** Tables with the same rows at every key. *)
Definition same (t t' : T) : Prop := ∀ k, at_ k t = at_ k t'.
#[global] Instance same_equivalence : Equivalence same.
Proof. split; [by intros t k|by intros t t' E k|intros a b c E1 E2 k; by rewrite E1]. Qed.

Context (ok : T → Prop).

(** What other sessions do between two calls: they keep the tables sane, and the rows this session
    has locked; what it has not locked it sees as committed. *)
Record other (s s' : session) : Prop := Other {
  other_ok : ok (Session.committed s');
  other_locked k : Session.locked s k = true →
    at_ k (Session.committed s') = at_ k (Session.committed s) ∧
    at_ k (Session.view s') = at_ k (Session.view s);
  other_open k : Session.locked s k = false → at_ k (Session.view s') = at_ k (Session.committed s');
  other_locks : Session.locked s' = Session.locked s;
  other_transaction : Session.inTransaction s' = Session.inTransaction s;
  other_past : Session.past s' = Session.committed s :: Session.past s }.

(** A run of a session: its calls with their answers, and for each call what was committed before
    it and after it. *)
Inductive serves : session → list (event (reply scanned)) → list (T * T) → session → Prop :=
  | serves_nil s : serves s [] [] s
  | serves_other s s1 tr l s2 : other s s1 → serves s1 tr l s2 → serves s tr l s2
  | serves_own s e fault ch s1 tr l s2 :
      permitted (did e) ch s →
      step (did e) fault ch s = (s1, answered e) → serves s1 tr l s2 →
      serves s (e :: tr) ((Session.committed s, Session.committed s1) :: l) s2.

(** ** A logic of every run *)

Fixpoint spec {A} (p : program A) (Q : outcome A → list (T * T) → session → Prop) (s : session) : Prop :=
  match p with
  | Return a => Q (Returned a) [] s
  | Panic => Q Panicked [] s
  | Do c k => ∀ s0 fault ch, rtc other s s0 → permitted c ch s0 →
      spec (k (step c fault ch s0).2)
        (λ out l, Q out ((Session.committed s0, Session.committed (step c fault ch s0).1) :: l))
        (step c fault ch s0).1
  end.

Lemma serves_inv s tr l s' :
  serves s tr l s' →
  match tr with
  | [] => l = []
  | e :: tr => ∃ s0 fault ch s1 l1, rtc other s s0 ∧ permitted (did e) ch s0 ∧
      step (did e) fault ch s0 = (s1, answered e) ∧ serves s1 tr l1 s' ∧
      l = (Session.committed s0, Session.committed s1) :: l1
  end.
Proof.
  induction 1 as [s|s s1 tr l s2 Ho _ IH|s e fault ch s1 tr l s2 Hl Hs Hr _]; [done| |].
  - destruct tr as [|e tr]; [done|]. destruct IH as (s0 & fault & ch & s3 & l1 & Hr & Hrest).
    exists s0, fault, ch, s3, l1. split; [by eapply rtc_l|done].
  - exists s, fault, ch, s1, l. by split_and!; [apply rtc_refl|..].
Qed.

Lemma spec_sound {A} (p : program A) Q s tr out l s' :
  spec p (λ out l _, Q out l) s → runs p tr out → serves s tr l s' → Q out l.
Proof.
  intros Hp Hr. revert s l Q Hp. induction Hr as [a| |c k r tr out Hr IH]; intros s l Q Hp Hs;
    apply serves_inv in Hs; [by subst..|].
  destruct Hs as (s0 & fault & ch & s1 & l1 & Ho & Hl & Hst & Hs & ->). cbn [did answered] in Hst.
  specialize (Hp s0 fault ch Ho Hl). rewrite Hst in Hp. cbn in Hp. by eapply (IH s1 l1 (λ out l, Q out (_ :: l))).
Qed.

(** A session left alone, its calls ending as [moves] says. *)
Fixpoint drive {A} (p : program A) (moves : list (Fault * choice)) (s : session) :
    option (list (event (reply scanned)) * list (T * T) * outcome A * session) :=
  match p, moves with
  | Return a, _ => Some ([], [], Returned a, s)
  | Panic, _ => Some ([], [], Panicked, s)
  | Do c k, [] => None
  | Do c k, (fault, ch) :: moves =>
      let '(s1, answer) := step c fault ch s in
      '(tr, l, out, s2) ← drive (k answer) moves s1;
      Some (Event c answer :: tr, (Session.committed s, Session.committed s1) :: l, out, s2)
  end.

Fixpoint all_permitted {A} (p : program A) (moves : list (Fault * choice)) (s : session) : Prop :=
  match p, moves with
  | Do c k, (fault, ch) :: moves =>
      permitted c ch s ∧ all_permitted (k (step c fault ch s).2) moves (step c fault ch s).1
  | _, _ => True
  end.

Lemma all_permitted_do {A} c (k : reply scanned c → program A) fault ch moves s s1 answer :
  step c fault ch s = (s1, answer) → permitted c ch s → all_permitted (k answer) moves s1 →
  all_permitted (Do c k) ((fault, ch) :: moves) s.
Proof. intros Hs Hp Hk. split; [done|]. by rewrite Hs. Qed.

Lemma drive_runs {A} (p : program A) moves s tr l out s' :
  drive p moves s = Some (tr, l, out, s') → all_permitted p moves s → runs p tr out ∧ serves s tr l s'.
Proof.
  revert moves s tr l. induction p as [a| |c k IH]; intros moves s tr l; cbn.
  - intros [= <- <- <- <-] _. split; constructor.
  - intros [= <- <- <- <-] _. split; constructor.
  - destruct moves as [|[fault ch] moves]; [done|]. destruct (step c fault ch s) as [s1 answer] eqn:Hs. cbn.
    destruct (drive (k answer) moves s1) as [ [ [ [tr1 l1] out1] s2]|] eqn:Hd; [|done]. cbn.
    intros [= <- <- <- <-] [Hp Hall]. destruct (IH _ _ _ _ _ Hd Hall) as [Hr Hv].
    split; [by constructor|]. by eapply serves_own.
Qed.

Lemma driven {A} (p : program A) moves s out :
  (λ x, x.1.2) <$> drive p moves s = Some out → all_permitted p moves s →
  ∃ tr l s', runs p tr out ∧ serves s tr l s'.
Proof.
  intros ([ [ [tr l] o] s'] & Hd & ->)%fmap_Some Hp. exists tr, l, s'. by eapply drive_runs.
Qed.

Lemma spec_mono {A} (p : program A) (Q Q' : outcome A → list (T * T) → session → Prop) s :
  (∀ out l s, Q out l s → Q' out l s) → spec p Q s → spec p Q' s.
Proof.
  revert Q Q' s. induction p as [a| |c k IH]; intros Q Q' s HQ; cbn; [apply HQ..|].
  intros Hp s0 fault ch Ho Hl. eapply IH; [|by apply Hp]. intros out l. apply HQ.
Qed.

Lemma spec_bind {A B} (p : program A) (f : A → program B) Q s :
  spec p (λ out l s, match out with
                     | Returned a => spec (f a) (λ out l', Q out (l ++ l')) s
                     | Panicked => Q Panicked l s
                     end) s →
  spec (p ≫= f) Q s.
Proof.
  revert Q s. induction p as [a| |c k IH]; intros Q s; cbn; [done..|].
  intros Hp s0 fault ch Ho Hl. apply IH. eapply spec_mono; [|by apply Hp].
  by intros [a|] l s1.
Qed.

(** A call that changed nothing of what is committed. *)
Definition quiet (p : T * T) : Prop := same p.1 p.2.

(** The rows of one key, locked: what is committed of them, what the session has made of them, and
    everything else as committed. *)
Record mine (k : key) (before now : R) (s : session) : Prop := Mine {
  mine_ok : ok (Session.committed s);
  mine_committed : at_ k (Session.committed s) = before;
  mine_view : at_ k (Session.view s) = now;
  mine_rest k' : k' ≠ k → Session.locked s k' = false ∧ at_ k' (Session.view s) = at_ k' (Session.committed s);
  mine_locked : Session.locked s k = true;
  mine_transaction : Session.inTransaction s = true }.

Lemma mine_other k before now s s' : other s s' → mine k before now s → mine k before now s'.
Proof.
  intros [Hok Hl Ho El Et _] [_ H1 H2 H3 H4 H5]. destruct (Hl k H4) as [E1 E2].
  split; rewrite ?El, ?Et; try congruence; try done. intros k' Hk. destruct (H3 k' Hk) as [Hun _].
  split; [done|]. by apply Ho.
Qed.
Lemma mine_others k before now s s' : rtc other s s' → mine k before now s → mine k before now s'.
Proof. induction 1; [done|]. intros. by eauto using mine_other. Qed.

(** A session that sees what is committed. *)
Record fresh (t : bool) (s : session) : Prop := Fresh {
  fresh_ok : ok (Session.committed s);
  fresh_view : same (Session.view s) (Session.committed s);
  fresh_unlocked k : Session.locked s k = false;
  fresh_transaction : Session.inTransaction s = t;
  fresh_past : Forall ok (Session.past s) }.

Lemma fresh_others t s s' : rtc other s s' → fresh t s → fresh t s'.
Proof.
  induction 1 as [|s s1 s2 [Hok Hl Ho El Et Ep] _ IH]; [done|]. intros [H1 _ H3 H4 H5]. apply IH.
  split; [done|intros k; apply Ho, H3|intros k; by rewrite El|congruence|rewrite Ep; by constructor].
Qed.

(** A statement that works on the rows of one key and nothing else, and may lock them. *)
Record local (c : stmt) (k : key) (f : R → R * res PgError (scanned c)) (held : R → bool) : Prop := Local {
  local_answer ch t : (run c ch t).2 = (f (at_ k t)).2;
  local_rows ch t : at_ k (run c ch t).1 = (f (at_ k t)).1;
  local_rest ch t k' : k' ≠ k → at_ k' (run c ch t).1 = at_ k' t;
  local_locks ch t k' : locks c ch t k' = bool_decide (k' = k) && held (at_ k t) }.

(** The deferred rollback changes nothing of what is committed. *)
Lemma spec_rollback {A} (a : A) s :
  spec (Do Rollback (λ _, Return a)) (λ out l _, out = Returned a ∧ Forall quiet l) s.
Proof. cbn. intros s0 fault ch _ _. split; [done|]. apply Forall_singleton. by destruct fault. Qed.

(** What a run did, told as one operation on the tables: [point] says of two tables that an
    operation takes one to the other and answers as the program did. *)
Definition at_once {A} (point : A → T → T → Prop) (out : outcome A) (l : list (T * T)) : Prop :=
  ∃ a, out = Returned a ∧ ∃ before t t' after,
    l = before ++ (t, t') :: after ∧ Forall quiet before ∧ Forall quiet after ∧ point a t t'.

Lemma at_once_quiet {A} (point : A → T → T → Prop) out t t' l :
  same t t' → at_once point out l → at_once point out ((t, t') :: l).
Proof.
  intros Hs (a & -> & before & t1 & t2 & after & -> & Hb & Ha & Hp).
  exists a. split; [done|]. exists ((t, t') :: before), t1, t2, after. split; [done|]. by split; [constructor|].
Qed.

Lemma at_once_insert {A} (point : A → T → T → Prop) out l1 l2 t t' :
  same t t' → at_once point out (l1 ++ l2) → at_once point out (l1 ++ (t, t') :: l2).
Proof.
  intros Hs (a & -> & before & t1 & t2 & after & E & Hb & Ha & Hd). exists a. split; [done|].
  apply app_eq_inv in E as [ (k & -> & E)|(k & -> & ->) ].
  - destruct k as [|p k]; cbn in E.
    + subst l2. exists (before ++ [(t, t')]), t1, t2, after. rewrite app_nil_r, <- app_assoc. split; [done|].
      split; [|done]. apply Forall_app. by split; [|repeat constructor].
    + injection E as <- ->. exists before, t1, t2, (k ++ (t, t') :: l2). split; [by rewrite <- app_assoc|].
      split; [done|]. apply Forall_app in Ha as [Ha1 Ha2]. split; [|done]. apply Forall_app. by split; [|constructor].
  - exists (l1 ++ (t, t') :: k), t1, t2, after. split; [by rewrite <- app_assoc|].
    apply Forall_app in Hb as [Hb1 Hb2]. split; [|done]. apply Forall_app. split; [done|]. by constructor.
Qed.

(** The call itself, when nothing behind it changes anything. *)
Lemma at_once_here {A} (point : A → T → T → Prop) a t t' out l :
  out = Returned a ∧ Forall quiet l → point a t t' → at_once point out ((t, t') :: l).
Proof. intros [-> Hl] Hp. exists a. split; [done|]. by exists [], t, t', l. Qed.

(** A post-condition that does not mind calls that change nothing. *)
Definition patient {A} (Q : outcome A → list (T * T) → session → Prop) : Prop :=
  ∀ out t t' l s, same t t' → Q out l s → Q out ((t, t') :: l) s.

Section Rules.
Context {A : Type} (Q : outcome A → list (T * T) → session → Prop) (HQ : patient Q).

Lemma spec_quiet (p : program A) t t' s : same t t' → spec p Q s → spec p (λ out l, Q out ((t, t') :: l)) s.
Proof. intros Hs. apply spec_mono. intros out l s'. by apply HQ. Qed.

Lemma spec_begin (k : res PgError () → program A) s :
  fresh false s → (∀ s1, fresh true s1 → spec (k (Ok tt)) Q s1) →
  (∀ s1, spec (k (Err ErrDriver)) Q s1) → spec (Do Begin k) Q s.
Proof.
  intros Hf Hk He s0 fault ch Ho Hl. destruct (fresh_others _ _ _ Ho Hf) as [H1 H2 H3 H4 H5].
  destruct fault; cbn; (apply spec_quiet; [done|]); [|apply He..]. by apply Hk.
Qed.

Lemma spec_local c (k : res PgError (scanned c) → program A) i f held before now s :
  local c i f held → mine i before now s →
  (∀ s1, mine i before (f now).1 s1 → spec (k (f now).2) Q s1) →
  (∀ s1, spec (k (Err ErrDriver)) Q s1) → spec (Do (Stmt c) k) Q s.
Proof.
  intros [Ha Hr Hrest Hlk] Hm Hk He s0 fault ch Ho Hl. pose proof (mine_others _ _ _ _ _ Ho Hm) as [H1 H2 H3 H4 H5 H6].
  assert (Session.committed (step (Stmt c) fault ch s0).1 = Session.committed s0) as Ec.
  { destruct fault; cbn; [..|done|]; destruct (run c ch (Session.view s0)); cbn; by rewrite H6. }
  rewrite Ec. destruct fault; [|apply spec_quiet; [done|apply He]..].
  specialize (Ha ch (Session.view s0)). specialize (Hr ch (Session.view s0)). specialize (Hrest ch (Session.view s0)).
  rewrite H3 in Ha, Hr. cbn [step] in *. unfold perform in *.
  destruct (run c ch (Session.view s0)) as [v r]. cbn in *. subst r.
  apply spec_quiet; [done|]. apply Hk. rewrite H6. split; cbn; [done..| | |done].
  - intros k' Hk'. destruct (H4 k' Hk') as [Hun <-]. split; [|by rewrite Hrest by done].
    rewrite Hlk, bool_decide_eq_false_2 by done. done.
  - rewrite H5. apply orb_true_r.
Qed.

(** The statement that takes the lock, if there is a row to lock. *)
Lemma spec_lock c (k : res PgError (scanned c) → program A) i f held s :
  local c i f held → fresh true s →
  (∀ t s1, ok t → (held (at_ i t) = true → mine i (at_ i t) (f (at_ i t)).1 s1) →
     spec (k (f (at_ i t)).2) (λ out l, Q out ((t, t) :: l)) s1) →
  (∀ s1, spec (k (Err ErrDriver)) Q s1) → spec (Do (Stmt c) k) Q s.
Proof.
  intros [Ha Hr Hrest Hlk] Hf Hk He s0 fault ch Ho Hl. destruct (fresh_others _ _ _ Ho Hf) as [H1 H2 H3 H4 H5].
  assert (Session.committed (step (Stmt c) fault ch s0).1 = Session.committed s0) as Ec.
  { destruct fault; cbn; [..|done|]; destruct (run c ch (Session.view s0)); cbn; by rewrite H4. }
  rewrite Ec. destruct fault; [|apply spec_quiet; [done|apply He]..].
  specialize (Ha ch (Session.view s0)). specialize (Hr ch (Session.view s0)). specialize (Hrest ch (Session.view s0)).
  rewrite H2 in Ha, Hr. cbn [step] in *. unfold perform in *.
  destruct (run c ch (Session.view s0)) as [v r]. cbn in *. subst r. apply Hk; [done|]. intros Hh.
  rewrite H4. split; cbn; [done..| | |done].
  - intros k' Hk'. rewrite Hlk, bool_decide_eq_false_2, H3, Hrest, H2 by done. done.
  - by rewrite Hlk, bool_decide_eq_true_2, H2, Hh.
Qed.

Lemma spec_commit (k : res PgError () → program A) i before now s :
  mine i before now s →
  (∀ t t', ok t → at_ i t = before → at_ i t' = now → (∀ k', k' ≠ i → at_ k' t' = at_ k' t) →
     ∀ s1, spec (k (Ok tt)) (λ out l, Q out ((t, t') :: l)) s1 ∧
           spec (k (Err ErrDriver)) (λ out l, Q out ((t, t') :: l)) s1) →
  (∀ s1, spec (k (Err ErrDriver)) Q s1) → spec (Do Commit k) Q s.
Proof.
  intros Hm Hk He s0 fault ch Ho Hl. pose proof (mine_others _ _ _ _ _ Ho Hm) as [H1 H2 H3 H4 _ _].
  assert (∀ k', k' ≠ i → at_ k' (Session.view s0) = at_ k' (Session.committed s0)) as H4' by (intros; by apply H4).
  specialize (Hk _ _ H1 H2 H3 H4'). destruct fault; cbn; [apply Hk|apply spec_quiet; [done|apply He]|apply Hk].
Qed.

(** A statement on the pool. *)
Lemma spec_auto c (k : res PgError (scanned c) → program A) s :
  fresh false s →
  (∀ t v ch past s1, ok t → same v t → legal c ch v (t :: past) → Forall ok past →
     (ok (run c ch v).1 → fresh false s1) →
     spec (k (run c ch v).2) (λ out l, Q out ((t, (run c ch v).1) :: l)) s1 ∧
     spec (k (Err ErrDriver)) (λ out l, Q out ((t, (run c ch v).1) :: l)) s1) →
  (∀ s1, spec (k (Err ErrDriver)) Q s1) → spec (Do (Stmt c) k) Q s.
Proof.
  intros Hf Hk He s0 fault ch Ho Hl. destruct (fresh_others _ _ _ Ho Hf) as [H1 H2 H3 H4 H5].
  specialize (Hk _ (Session.view s0) ch _ (perform (Stmt c) ch s0).1 H1 H2 Hl H5). unfold step, perform in *.
  destruct (run c ch (Session.view s0)) as [v r]. cbn in *. rewrite H4 in *.
  destruct fault; cbn; [|apply spec_quiet; [done|apply He]|]; apply Hk; by split.
Qed.

(** One that only reads the rows of one key. *)
Lemma spec_read (ok_same : ∀ t t', same t t' → ok t → ok t') c (k : res PgError (scanned c) → program A) i f held s :
  local c i f held → (∀ r, (f r).1 = r) → fresh false s →
  (∀ t t' s1, ok t → same t t' → fresh false s1 → spec (k (f (at_ i t)).2) (λ out l, Q out ((t, t') :: l)) s1) →
  (∀ s1, spec (k (Err ErrDriver)) Q s1) → spec (Do (Stmt c) k) Q s.
Proof.
  intros [Ha Hr Hrest _] Hro Hf Hk He. apply spec_auto; [done| |done].
  intros t v ch past s1 Hok Hv _ _ Hs1. specialize (Ha ch v). specialize (Hr ch v). specialize (Hrest ch v).
  rewrite Hro in Hr. rewrite Hv in Ha, Hr. destruct (run c ch v) as [v' r]. cbn in *. subst r.
  assert (same t v') as Hsame.
  { intros k'. destruct (decide (k' = i)) as [->|Hne]; [done|]. by rewrite Hrest, Hv. }
  split; [apply Hk; eauto|]. apply spec_quiet; [done|apply He].
Qed.
End Rules.
End Sessions.

#[global] Arguments spec : simpl never.

Notation "x ←! p ; k" := (andThen p (λ x, k))
  (at level 20, p at level 100, k at level 200, right associativity) : sql_scope.
Notation "' x ←! p ; k" := (andThen p (λ x, k))
  (at level 20, x pattern, p at level 100, k at level 200, right associativity) : sql_scope.
