(* ===== verification/OneKey.v ===== *)
(** * Transactions on the rows of one key

    Where every statement works on the rows of one key, a transaction that locks them first is a
    function of them: no other session writes them before it ends.  [post] computes over such a
    program what it answers and what it leaves; [spec_transaction] turns that into what every run of
    it in a session does, whatever other sessions do and whichever of its calls fail. *)

From S2P Require Import Prelude StoreTypes Prog Sql.

(** Tables whose every statement works on the rows of one key. *)
Class Keyed (T key R stmt choice : Type) (scanned : stmt → Type) `{EqDecision key}
    `{D : !Database T key R stmt choice scanned} := {
  stmt_key : stmt → key;
  stmt_rows : ∀ c : stmt, R → R * res PgError (scanned c);
  stmt_held : stmt → R → bool;
  stmt_local c : local c (stmt_key c) (stmt_rows c) (stmt_held c) }.

Section OneKey.
Context {T key R stmt choice : Type} {scanned : stmt → Type} `{EqDecision key}.
Context `{D : !Database T key R stmt choice scanned} `{K : !Keyed T key R stmt choice scanned}.
Context (ok : T → Prop) (i : key).
Abbreviation session := (Session.t T key).
Abbreviation program := (prog (reply scanned)).

(** What a call that failed makes of a method. *)
Definition brokenAnswer {A} : res PgxError A := Err (DriverError ErrDriver).

(** An error that is not the store's own answer. *)
Definition internal (e : PgxError) : Prop := match e with StoreError _ => False | _ => True end.

(** [post p Q r]: run on the rows [r], no call failing, [p] ends in [Q], told whether it committed;
    or in an internal error.  A failing call ends it in the driver's. *)
Fixpoint post {A} (p : program (res PgxError A)) (Q : bool → A → R → Prop) (r : R) : Prop :=
  match p with
  | Return (Ok a) => Q false a r
  | Return (Err e) => internal e
  | Panic => False
  | Do c k =>
      let next answer := post (k answer) Q in
      match c return (reply scanned c → program (res PgxError A)) → (reply scanned c → R → Prop) → Prop with
      | Stmt c => λ k next,
          stmt_key c = i ∧ k (Err ErrDriver) = Return brokenAnswer ∧ next (stmt_rows c r).2 (stmt_rows c r).1
      | Commit => λ k _, k (Err ErrDriver) = Return brokenAnswer ∧ ∃ a, k (Ok tt) = Return (Ok a) ∧ Q true a r
      | _ => λ _ _, False
      end k next
  end.

Lemma post_mono {A} (p : program (res PgxError A)) (Q Q' : bool → A → R → Prop) r :
  (∀ b a r, Q b a r → Q' b a r) → post p Q r → post p Q' r.
Proof.
  intros HQ. revert r. induction p as [ [a|e]| |c k IH]; intros r; cbn; [apply HQ|done|done|].
  destruct c as [| | |c]; cbn; try done.
  - intros (E & a & Ek & Ha). split; [done|]. exists a. split; [done|by apply HQ].
  - intros (Hk & E & Hp). split; [done|]. split; [done|by apply IH].
Qed.

Lemma post_andThen {A B} (p : program (res PgxError A)) (k : A → program (res PgxError B)) Q r :
  post p (λ b a r', b = false ∧ post (k a) Q r') r → post (andThen p k) Q r.
Proof.
  revert r. induction p as [ [a|e]| |c k' IH]; intros r; cbn; [by intros [_ H]|done|done|].
  destruct c as [| | |c]; cbn; try done.
  - by intros (_ & a & _ & H & _).
  - intros (Hk & E & Hp). split; [done|]. split; [by rewrite E|]. by apply IH.
Qed.

Lemma post_exec c (Q : bool → scanned c → R → Prop) r :
  stmt_key c = i → (∀ a, (stmt_rows c r).2 = Ok a → Q false a (stmt_rows c r).1) → post (exec c) Q r.
Proof.
  intros Hk HQ. cbn. split; [done|]. split; [done|]. destruct (stmt_rows c r).2 as [a|e] eqn:E; cbn; [by apply HQ|done].
Qed.

(** A statement and what follows it, its error being the method's. *)
Lemma post_exec_then {A} c (k : scanned c → program (res PgxError A)) Q r :
  stmt_key c = i → (∀ a, (stmt_rows c r).2 = Ok a → post (k a) Q (stmt_rows c r).1) →
  post (andThen (exec c) k) Q r.
Proof. intros Hk HQ. apply post_andThen, post_exec; [done|]. intros a Ha. split; [done|by apply HQ]. Qed.

Lemma post_query {A} c (k : res PgError (scanned c) → program (res PgxError A)) Q r :
  stmt_key c = i → k (Err ErrDriver) = Return brokenAnswer →
  post (k (stmt_rows c r).2) Q (stmt_rows c r).1 → post (query c ≫= k) Q r.
Proof. intros Hk Hb Hp. cbn. by split. Qed.

Lemma post_commit {A} (a : A) Q r :
  Q true a r → post (commit ≫= λ committed, attempt committed (λ _, Return (Ok a))) Q r.
Proof. intros HQ. cbn. split; [done|]. by exists a. Qed.

(** Programs on the rows do one thing, so they do all that can be said of it. *)
Lemma post_forall {A X} (p : program (res PgxError A)) (P : X → Prop) (Q : X → bool → A → R → Prop) r :
  (∃ x, P x) → (∀ x, P x → post p (Q x) r) → post p (λ b a r', ∀ x, P x → Q x b a r') r.
Proof.
  intros [x0 H0]. revert r. induction p as [ [a|e]| |c k IH]; intros r Hp; pose proof (Hp x0 H0) as Hp0; cbn in Hp, Hp0 |- *; try done.
  destruct c as [| | |c]; cbn in *; try done.
  - destruct Hp0 as (Hb & a & Ha & _). split; [done|]. exists a. split; [done|]. intros x Hx.
    destruct (Hp x Hx) as (_ & a' & Ha' & HQ). rewrite Ha in Ha'. by injection Ha' as ->.
  - destruct Hp0 as (Hk & Hb & _). split; [done|]. split; [done|]. apply IH. intros x Hx. by destruct (Hp x Hx) as (_ & _ & ?).
Qed.

(** ** Its runs *)

Lemma spec_post {A B} (p : program (res PgxError A)) (fin : res PgxError A → program B) Q F before r s :
  patient F → mine ok i before r s → post p Q r →
  (∀ a r' s1, Q false a r' → spec ok (fin (Ok a)) F s1) →
  (∀ e s1, internal e → spec ok (fin (Err e)) F s1) →
  (∀ a r' t t', Q true a r' → ok t → at_ i t = before → at_ i t' = r' → (∀ i', i' ≠ i → at_ i' t' = at_ i' t) →
     ∀ s1, spec ok (fin (Ok a)) (λ out l, F out ((t, t') :: l)) s1 ∧
           spec ok (fin brokenAnswer) (λ out l, F out ((t, t') :: l)) s1) →
  spec ok (p ≫= fin) F s.
Proof.
  intros HF Hm Hp Hok Herr Hc. revert r s Hm Hp. induction p as [ [a|e]| |c k IH]; intros r s Hm Hp; cbn in Hp |- *.
  - by eapply Hok.
  - by apply Herr.
  - done.
  - destruct c as [| | |c]; cbn in Hp; try done.
    + destruct Hp as (E & a & Ek & Ha). eapply spec_commit; [done|exact Hm| |].
      * intros t t' Ht E1 E2 Hrest s1. rewrite E, Ek. by eapply Hc.
      * intros s1. rewrite E. cbn. by apply Herr.
    + destruct Hp as (Hk & E & Hp). pose proof (stmt_local c) as Hl. rewrite Hk in Hl.
      eapply spec_local; [done|exact Hl|exact Hm| |].
      * intros s1 Hm1. eapply IH; [exact Hm1|exact Hp].
      * intros s1. rewrite E. cbn. by apply Herr.
Qed.

(** What a transaction on the rows of [i] did: answered, from what they were at one moment, and made
    of them at that moment what [Q] says if it committed; or nothing, and an internal error.  A commit
    may have taken effect and not been acknowledged. *)
Definition settled {A} (Q : R → bool → A → R → Prop) (a : res PgxError A) (t t' : T) : Prop :=
  ok t ∧ ∃ b x r', Q (at_ i t) b x r' ∧ (a = Ok x ∨ b = true ∧ a = brokenAnswer) ∧
    (if b : bool then at_ i t' = r' else at_ i t' = at_ i t) ∧ ∀ i', i' ≠ i → at_ i' t' = at_ i' t.

Definition settles {A} (Q : R → bool → A → R → Prop) (out : outcome (res PgxError A)) (l : list (T * T)) : Prop :=
  at_once (settled Q) out l ∨ Forall quiet l ∧ ∃ e, internal e ∧ out = Returned (Err e).

Lemma settles_insert {A} (Q : R → bool → A → R → Prop) out l1 l2 t t' :
  same t t' → settles Q out (l1 ++ l2) → settles Q out (l1 ++ (t, t') :: l2).
Proof.
  intros Hs [H|[Hq He] ]; [left; by apply at_once_insert|right]. split; [|done].
  apply Forall_app in Hq as [H1 H2]. apply Forall_app. by split; [|constructor].
Qed.
Lemma settles_patient {A} (Q : R → bool → A → R → Prop) l0 :
  patient (λ out l (_ : session), settles Q out (l0 ++ l)).
Proof. intros out t t' l _ Hs. by apply settles_insert. Qed.

(** Behind the call that settled it, only the rollback. *)
Lemma settles_end {A} (Q : R → bool → A → R → Prop) a t t' s :
  settled Q a t t' →
  spec ok (Do Rollback (λ _, Return a)) (λ out l (_ : session), settles Q out ((t, t') :: l)) s.
Proof.
  intros H. eapply spec_mono; [|apply spec_rollback]. intros out l ? Ho. left. exact (at_once_here _ a t t' out l Ho H).
Qed.

Lemma settles_failed {A} (Q : R → bool → A → R → Prop) e l0 s :
  internal e → Forall quiet l0 →
  spec ok (Do Rollback (λ _, Return (Err e))) (λ out l (_ : session), settles Q out (l0 ++ l)) s.
Proof.
  intros He Hl. eapply spec_mono; [|apply spec_rollback]. intros out l ? [-> Hq]. right.
  split; [by apply Forall_app|]. by exists e.
Qed.

(** A transaction whose first statement locks the rows of [i], or ends it. *)
Lemma spec_transaction {A} c (g : res PgError (scanned c) → program (res PgxError A)) Q s :
  fresh ok false s → stmt_key c = i → g (Err ErrDriver) = Return brokenAnswer →
  (∀ t, ok t → let '(r, answer) := stmt_rows c (at_ i t) in
     if stmt_held c (at_ i t) then post (g answer) (Q (at_ i t)) r
     else ∃ a, g answer = Return a ∧ match a with Ok a => Q (at_ i t) false a (at_ i t) | Err e => internal e end) →
  spec ok (transaction (query c ≫= g)) (λ out l (_ : session), settles Q out l) s.
Proof.
  intros Hf Hk Hb Hg.
  unfold transaction, call. cbn. eapply spec_begin; [apply (settles_patient Q [])|exact Hf| |].
  2:{ intros s1. cbn. right. split; [done|]. by exists (DriverError ErrDriver). }
  intros s1 Hf1. pose proof (stmt_local c) as Hl. rewrite Hk in Hl. cbn.
  eapply spec_lock; [apply (settles_patient Q [])|exact Hl|done| |].
  2:{ intros s2. rewrite Hb. cbn. by apply (settles_failed Q _ []). }
  intros t s2 Ht Hm. specialize (Hg t Ht). destruct (stmt_rows c (at_ i t)) as [r answer]. cbn in *.
  destruct (stmt_held c (at_ i t)).
  - eapply (spec_post _ _ _ _ _ _ _ (settles_patient Q [(t, t)]) (Hm eq_refl) Hg).
    + intros a r' s3 HQ. apply settles_end. split; [done|]. exists false, a, r'. split; [done|]. split; [by left|done].
    + intros e s3 He. apply (settles_failed Q _ [(t, t)]); [done|]. by repeat constructor.
    + intros a r' t1 t1' HQ Ht1 E1 E2 Hrest s3.
      assert (∀ x, x = Ok a ∨ x = brokenAnswer → settled Q x t1 t1') as Hs.
      { intros x Hx. split; [done|]. exists true, a, r'. rewrite E1. split; [done|]. split; [naive_solver|done]. }
      split; (eapply spec_mono; [|by apply settles_end, Hs; auto]); intros out l s4;
        by apply (settles_insert Q out []).
  - destruct Hg as (a & -> & Ha). destruct a as [a|e].
    + apply settles_end. split; [done|]. exists false, a, (at_ i t). split; [done|]. split; [by left|done].
    + apply (settles_failed Q _ [(t, t)]); [done|]. by repeat constructor.
Qed.

(** ** One statement on the pool *)

(** The statement's effect on the rows of its key, and the answer read off its own; or the effect
    with an error in its place. *)
Definition performs {A} c (f : res PgError (scanned c) → res PgxError A) (a : res PgxError A) (t t' : T) : Prop :=
  ok t ∧ (a = f (stmt_rows c (at_ i t)).2 ∨ a = brokenAnswer) ∧
  at_ i t' = (stmt_rows c (at_ i t)).1 ∧ ∀ i', i' ≠ i → at_ i' t' = at_ i' t.

Lemma spec_single {A} c (k : res PgError (scanned c) → program (res PgxError A)) f s :
  fresh ok false s → stmt_key c = i → (∀ r, k r = Return (f r)) → f (Err ErrDriver) = brokenAnswer →
  spec ok (query c ≫= k) (λ out l (_ : session),
    at_once (performs c f) out l ∨ Forall quiet l ∧ out = Returned brokenAnswer) s.
Proof.
  intros Hf Hk Hr Hb. pose proof (stmt_local c) as [Ha Hrows Hrest _]. rewrite Hk in *. cbn. eapply spec_auto; [|done| |].
  - intros out t t' l _ Hs [H|[Hq Ho] ]; [left; by apply at_once_quiet|right]. by split; [constructor|].
  - intros t v ch past s1 Ht Hv _ _ _. rewrite !Hr. cbn. specialize (Ha ch v). specialize (Hrows ch v).
    assert (∀ i', i' ≠ i → at_ i' (run c ch v).1 = at_ i' t) as Hrest' by (intros; rewrite Hrest, Hv by done; done).
    rewrite Hv in Ha, Hrows. rewrite Ha, Hb.
    split; left; (eapply at_once_here; [done|]); (split; [done|]); (split; [auto|]); done.
  - intros s1. rewrite Hr, Hb. cbn. by right.
Qed.
End OneKey.
