(* ===== verification/PgxBoxes.v ===== *)
(** * The link boxes over PostgreSQL ([store/pgx.go])

    The same arms as [LinkBox], as sequences of SQL statements: a method is a program of [Sql], a
    statement one function on the two tables of [store/migrations.go] (013 and 014), with the
    columns' constraints. *)

From stdpp Require Import sorting.
From S2P Require Import Prelude StoreTypes LinkBox Prog Sql.

(** ** The tables *)

(** A row of 013 has the columns of [memoryLinkBoxRow], a row of 014 those of
    [memoryLinkDepositRow]; 014's key is the pair of the rendezvous id and the deposit id. *)
Module Tables.
Record t := mk {
  boxes : gmap (list Z) memoryLinkBoxRow.t;
  deposits : gmap (list Z) (gmap Z memoryLinkDepositRow.t) }.
(** The rows of one rendezvous id. *)
Definition depositsOf (key : list Z) (self : t) : gmap Z memoryLinkDepositRow.t :=
  default ∅ (deposits self !! key).
Definition at_ (key : list Z) (self : t) : option memoryLinkBoxRow.t * gmap Z memoryLinkDepositRow.t :=
  (boxes self !! key, depositsOf key self).
Definition put (key : list Z) (rows : option memoryLinkBoxRow.t * gmap Z memoryLinkDepositRow.t) (self : t) : t :=
  mk (partial_alter (λ _, rows.1) key (boxes self)) (<[key := rows.2]> (deposits self)).
End Tables.

(** [ORDER BY deposit_id] *)
Definition byDepositId (a b : memoryLinkDepositRow.t) : Prop :=
  memoryLinkDepositRow.DepositId a <= memoryLinkDepositRow.DepositId b.
#[global] Instance byDepositId_dec : RelDecision byDepositId.
Proof. intros a b. unfold byDepositId. apply _. Defined.
Definition ordered (rows : gmap Z memoryLinkDepositRow.t) : list memoryLinkDepositRow.t :=
  merge_sort byDepositId ((map_to_list rows).*2).

(** ** The statements *)

Inductive statement : Type :=
  | SelectBox (rendezvousId : slice) (forUpdate : bool)
  | InsertBox (registration : LinkBoxRegistration.t) (now expire : time) (capColumn : Z)
  | SelectDepositId (rendezvousId depositHash : slice)
  | CountRefused (rendezvousId : slice)
  | InsertDeposit (rendezvousId : slice) (depositId : Z) (depositHash depositCt : slice) (now pruneAfter : time)
  | CountTaken (rendezvousId : slice)
  | DeleteDepositsThrough (rendezvousId : slice) (depositId : Z)
  | SelectDeposits (rendezvousId : slice)
  | WriteStanding (rendezvousId : slice) (count : Z)
  | DeleteDeposits (rendezvousId : slice)
  | WriteRetired (rendezvousId : slice) (now : time)
  | SelectLive (now : time)
  | TryAdvisoryLock
  | DeleteDueDeposits (now : time) (limit : Z)
  | RecountDeposits (touched : list (list Z))
  | DeleteReclaimed (now : time) (limit : Z).

(** What a statement scans. *)
Definition scanned (c : statement) : Type :=
  match c with
  | SelectBox _ _ => memoryLinkBoxRow.t
  | InsertBox _ _ _ _ => bool * Z
  | SelectDepositId _ _ | InsertDeposit _ _ _ _ _ _ | SelectLive _ => Z
  | SelectDeposits _ => list memoryLinkDepositRow.t
  | DeleteDeposits _ | DeleteReclaimed _ _ => Z
  | TryAdvisoryLock => bool
  | DeleteDueDeposits _ _ => list (list Z)
  | _ => ()
  end.
(** ** The arms *)

Abbreviation program := (prog (reply scanned)).

Definition scanBox (rendezvousId : slice) (row : memoryLinkBoxRow.t) : LinkBox.t :=
  LinkBox.mk (bytes_Clone rendezvousId)
    (memoryLinkBoxRow.DepositVerifyPub row) (memoryLinkBoxRow.CollectVerifyPub row)
    (memoryLinkBoxRow.PublicCt row)
    (u32 (memoryLinkBoxRow.DepositCount row))
    (u64 (memoryLinkBoxRow.NextDepositId row - 1))
    (u64 (memoryLinkBoxRow.RefusedCount row))
    (memoryLinkBoxRow.RegisterTime row) (memoryLinkBoxRow.ExpireTime row)
    (memoryLinkBoxRow.RetiredTime row) (memoryLinkBoxRow.ReclaimAfter row).

Definition linkBoxOf (rendezvousId : slice) (forUpdate : bool) : program (res PgxError LinkBox.t) :=
  found ← query (SelectBox rendezvousId forUpdate);
  match found with
  | Ok row => Return (Ok (scanBox rendezvousId row))
  | Err ErrNoRows => Return (Err (StoreError ErrLinkBoxUnknown))
  | Err e => Return (Err (DriverError e))
  end.

Definition MaxInt64 : Z := two63 - 1.
Definition linkBoxDepositIdColumn (depositId : Z) : Z :=
  if MaxInt64 <? depositId then MaxInt64 else i64 depositId.

(** A registration that inserted nothing, [live] boxes counted: the row that stands, or none. *)
Definition notInserted (r : LinkBoxRegistration.t) (now : time) (capColumn live : Z) :
    program (res PgxError LinkBoxRegistered.t) :=
  found ← linkBoxOf (LinkBoxRegistration.RendezvousId r) false;
  match found with
  | Err (StoreError ErrLinkBoxUnknown) =>
      if capColumn <=? live
      then Return (Ok (LinkBoxRegistered.mk REASON_CARD_RATE_LIMITED zero_time 0))
      else Return (Ok (LinkBoxRegistered.mk REASON_REJECTED zero_time 0))
  | Err e => Return (Err e)
  | Ok box =>
      if Live box now && sameLinkBoxRegistration box r
      then Return (Ok (LinkBoxRegistered.mk REASON_OK (LinkBox.ExpireTime box) (LinkBox.DepositCount box)))
      else Return (Ok (LinkBoxRegistered.mk REASON_REJECTED zero_time 0))
  end.

Definition RegisterLinkBox (ctx : option Error) (registration : option LinkBoxRegistration.t)
    (now : time) (ttl liveCap : Z) : program (res PgxError LinkBoxRegistered.t) :=
  match first_error ctx (validateLinkBoxRegistration registration ttl liveCap), registration with
  | Some e, _ => Return (Err (StoreError e))
  | None, None => Return (Err (StoreError ErrIdentifierShape))
  | None, Some r =>
      let now := linkBoxTime now in
      let expire := linkBoxTime (now + ttl) in
      let capColumn := if liveCap <? MaxInt64 then i64 liveCap else MaxInt64 in
      wrote ← query (InsertBox r now expire capColumn);
      attempt wrote (λ '(inserted, live),
        if inserted : bool then Return (Ok (LinkBoxRegistered.mk REASON_OK expire 0))
        else notInserted r now capColumn live)
  end.

Definition LinkBoxOf (ctx : option Error) (rendezvousId : slice) : program (res PgxError LinkBox.t) :=
  match first_error ctx (checkLength rendezvousId RendezvousIdBytes) with
  | Some e => Return (Err (StoreError e))
  | None => linkBoxOf rendezvousId false
  end.

(** The opening of the three arms that lock: the box, live and pinned under the key, or nothing. *)
Definition withLockedBox {A} (rendezvousId verifiedPub : slice) (now : time) (pinned : LinkBox.t → slice)
    (retired : A) (body : LinkBox.t → program (res PgxError A)) : program (res PgxError A) :=
  transaction
    (found ← linkBoxOf rendezvousId true;
     match found with
     | Err (StoreError ErrLinkBoxUnknown) => Return (Ok retired)
     | Err e => Return (Err e)
     | Ok box =>
         if negb (Live box now) || negb (bytes_Equal (pinned box) verifiedPub)
         then Return (Ok retired) else body box
     end).

(** A deposit already standing with these octets. *)
Definition replayed (rendezvousId depositHash : slice) (box : LinkBox.t) :
    program (res PgxError LinkBoxDeposited.t) :=
  standing ← query (SelectDepositId rendezvousId depositHash);
  attempt standing (λ standing,
    Return (Ok (LinkBoxDeposited.mk REASON_OK (u64 standing) depositHash (LinkBox.DepositCount box) true))).

Definition DepositLinkBox (ctx : option Error) (rendezvousId verifiedPub depositCt : slice) (now : time) :
    program (res PgxError LinkBoxDeposited.t) :=
  match first_error ctx (validateLinkBoxDeposit rendezvousId verifiedPub depositCt) with
  | Some e => Return (Err (StoreError e))
  | None =>
      let depositHash := linkBoxDepositHash depositCt in
      let now := linkBoxTime now in
      withLockedBox rendezvousId verifiedPub now LinkBox.DepositVerifyPub
        (LinkBoxDeposited.only REASON_CARD_RETIRED) (λ box,
        if LinkBoxDeposits <=? LinkBox.DepositsTaken box then
          answer ← replayed rendezvousId depositHash box;
          match answer with
          | Err (DriverError ErrNoRows) =>
              counted ← query (CountRefused rendezvousId);
              attempt counted (λ _,
                committed ← commit;
                attempt committed (λ _, Return (Ok (LinkBoxDeposited.only REASON_CARD_RATE_LIMITED))))
          | answer => Return answer
          end
        else
          let depositId := i64 (u64 (LinkBox.DepositsTaken box + 1)) in
          taken ← query (InsertDeposit rendezvousId depositId depositHash depositCt now (LinkBox.ExpireTime box));
          match taken with
          | Err ErrNoRows => replayed rendezvousId depositHash box
          | taken =>
              attempt taken (λ _,
                counted ← query (CountTaken rendezvousId);
                attempt counted (λ _,
                  committed ← commit;
                  attempt committed (λ _,
                    Return (Ok (LinkBoxDeposited.mk REASON_OK (u64 depositId) depositHash
                                  (u32 (LinkBox.DepositCount box + 1)) false)))))
          end)
  end.

Definition scanDeposit (row : memoryLinkDepositRow.t) : LinkBoxDeposit.t :=
  LinkBoxDeposit.mk (u64 (memoryLinkDepositRow.DepositId row)) (memoryLinkDepositRow.DepositCt row)
    (memoryLinkDepositRow.CreateTime row).

Definition CollectLinkBox (ctx : option Error) (request : option LinkBoxCollectRequest.t) (now : time) :
    program (res PgxError LinkBoxCollected.t) :=
  match ctx, request with
  | Some e, _ => Return (Err (StoreError e))
  | None, None => Return (Err (StoreError ErrIdentifierShape))
  | None, Some q =>
      let id := LinkBoxCollectRequest.RendezvousId q in
      match validateLinkBoxAct id (LinkBoxCollectRequest.VerifiedPub q) with
      | Some e => Return (Err (StoreError e))
      | None =>
          let now := linkBoxTime now in
          withLockedBox id (LinkBoxCollectRequest.VerifiedPub q) now LinkBox.CollectVerifyPub
            (LinkBoxCollected.only REASON_CARD_RETIRED) (λ box,
            deleted ← query (DeleteDepositsThrough id
                              (linkBoxDepositIdColumn (LinkBoxCollectRequest.AckThroughDepositId q)));
            attempt deleted (λ _,
            rows ← query (SelectDeposits id);
            attempt rows (λ rows,
            let standing := scanDeposit <$> rows in
            wrote ← query (WriteStanding id (i32 (Z.of_nat (length standing))));
            attempt wrote (λ _,
            committed ← commit;
            attempt committed (λ _,
            let '(returned, complete) :=
              linkBoxDepositsAfter standing (LinkBoxCollectRequest.SinceDepositId q)
                (LinkBoxCollectRequest.Limit q) in
            Return (Ok (LinkBoxCollected.mk REASON_OK returned (u32 (Z.of_nat (length standing)))
                          (LinkBox.RefusedCount box) (LinkBox.ExpireTime box) complete)))))))
      end
  end.

Definition RetireLinkBox (ctx : option Error) (rendezvousId verifiedPub : slice) (now : time) :
    program (res PgxError LinkBoxRetired.t) :=
  match first_error ctx (validateLinkBoxAct rendezvousId verifiedPub) with
  | Some e => Return (Err (StoreError e))
  | None =>
      let now := linkBoxTime now in
      withLockedBox rendezvousId verifiedPub now LinkBox.CollectVerifyPub
        (LinkBoxRetired.mk REASON_CARD_RETIRED 0) (λ _,
        discarded ← query (DeleteDeposits rendezvousId);
        attempt discarded (λ discarded,
        wrote ← query (WriteRetired rendezvousId now);
        attempt wrote (λ _,
        committed ← commit;
        attempt committed (λ _, Return (Ok (LinkBoxRetired.mk REASON_OK (u32 discarded)))))))
  end.

Definition LiveLinkBoxes (ctx : option Error) (now : time) : program (res PgxError Z) :=
  match ctx with
  | Some e => Return (Err (StoreError e))
  | None =>
      live ← query (SelectLive (linkBoxTime now));
      attempt live (λ live, Return (Ok (u64 live)))
  end.

Definition SweepLinkBoxes (ctx : option Error) (now : time) (bounds : LinkBoxSweepBounds.t) :
    program (res PgxError LinkBoxesSwept.t) :=
  match ctx with
  | Some e => Return (Err (StoreError e))
  | None =>
      let bounds := orDefault bounds in
      let now := linkBoxTime now in
      transaction
        (locked ← query TryAdvisoryLock;
         attempt locked (λ locked,
         if negb locked then Return (Ok (LinkBoxesSwept.mk 0 0 true))
         else
           rows ← query (DeleteDueDeposits now (LinkBoxSweepBounds.Deposits bounds));
           attempt rows (λ touched,
           recounted ← (if bool_decide (touched = []) then Return (Ok tt) else query (RecountDeposits touched));
           attempt recounted (λ _,
           reclaimed ← query (DeleteReclaimed now (LinkBoxSweepBounds.Boxes bounds));
           attempt reclaimed (λ reclaimed,
           committed ← commit;
           attempt committed (λ _,
             Return (Ok (LinkBoxesSwept.mk (u32 (Z.of_nat (length touched))) (u32 reclaimed) false))))))))
  end.

(** ** What a statement does *)

(** What the database decides of one statement: the snapshot the count in an insert
    reads, whether the advisory lock is free, and the rows the sweep's two deletes take, which skip
    what is locked and order ties as they please. *)
Module Choice.
Record t := mk {
  snapshot : Tables.t;
  lockFree : bool;
  deposits : list (list Z * Z);
  boxes : list (list Z) }.
End Choice.

(** The constraints of 013 and of 014 beside their keys. *)
Definition boxAllowed (row : memoryLinkBoxRow.t) : bool :=
  (len (memoryLinkBoxRow.RendezvousId row) =? 32) &&
  (len (memoryLinkBoxRow.DepositVerifyPub row) =? 32) &&
  (len (memoryLinkBoxRow.CollectVerifyPub row) =? 32) &&
  (memoryLinkBoxRow.Kind row =? 4) &&
  bool_decide (memoryLinkBoxRow.CardXwingPub row = None) &&
  (len (memoryLinkBoxRow.PublicCt row) =? 4124) && (memoryLinkBoxRow.AlgId row =? 20) &&
  (1 <=? memoryLinkBoxRow.NextDepositId row) && (memoryLinkBoxRow.NextDepositId row <=? 3) &&
  (0 <=? memoryLinkBoxRow.DepositCount row) && (memoryLinkBoxRow.DepositCount row <=? 2).
Definition depositAllowed (row : memoryLinkDepositRow.t) : bool :=
  (len (memoryLinkDepositRow.DepositHash row) =? 32) &&
  (len (memoryLinkDepositRow.DepositCt row) =? 17526) &&
  (memoryLinkDepositRow.DepositId row <=? 2).

(** Q20: [retired_time IS NULL AND expire_time > now] *)
Definition liveRow (now : time) (row : memoryLinkBoxRow.t) : bool :=
  bool_decide (memoryLinkBoxRow.RetiredTime row = None) && (now <? memoryLinkBoxRow.ExpireTime row).
Definition liveCount (now : time) (t : Tables.t) : Z :=
  Z.of_nat (size (filter (λ kv, liveRow now kv.2 = true) (Tables.boxes t))).

Definition sameHash (hash : slice) (row : memoryLinkDepositRow.t) : Prop :=
  bytes_Equal (memoryLinkDepositRow.DepositHash row) hash = true.
#[global] Instance sameHash_dec hash row : Decision (sameHash hash row).
Proof. unfold sameHash. apply _. Defined.

Definition recountRow (touched : list (list Z)) (t : Tables.t) (key : list Z) (row : memoryLinkBoxRow.t) :
    memoryLinkBoxRow.t :=
  if decide (key ∈ touched)
  then memoryLinkBoxRow.update (memoryLinkBoxRow.NextDepositId row)
         (Z.of_nat (size (Tables.depositsOf key t))) (memoryLinkBoxRow.RefusedCount row)
         (memoryLinkBoxRow.RetiredTime row) row
  else row.

(** The effects of the sweep's three statements. *)
Definition dropDeposits (due : list (list Z * Z)) (t : Tables.t) : Tables.t :=
  foldl (λ t '(key, id), Tables.put key (Tables.boxes t !! key, delete id (Tables.depositsOf key t)) t) t due.
Definition recountBoxes (touched : list (list Z)) (t : Tables.t) : Tables.t :=
  Tables.mk (map_imap (λ key row, Some (recountRow touched t key row)) (Tables.boxes t)) (Tables.deposits t).
Definition dropBoxes (keys : list (list Z)) (t : Tables.t) : Tables.t :=
  foldl (λ t key, Tables.put key (None, ∅) t) t keys.

(** The rendezvous id a statement of an arm names in its [WHERE] or its [VALUES]. *)
Definition keyOf (c : statement) : option slice :=
  match c with
  | SelectBox id _ | SelectDepositId id _ | CountRefused id | InsertDeposit id _ _ _ _ _ | CountTaken id
  | DeleteDepositsThrough id _ | SelectDeposits id | WriteStanding id _ | DeleteDeposits id
  | WriteRetired id _ => Some id
  | _ => None
  end.

Abbreviation rowsOfKey := (option memoryLinkBoxRow.t * gmap Z memoryLinkDepositRow.t)%type.

(** An [UPDATE] of one box: nothing if there is no such row, an error if a constraint refuses it. *)
Definition updateBox (f : memoryLinkBoxRow.t → memoryLinkBoxRow.t) (allowed : memoryLinkBoxRow.t → bool)
    (r : rowsOfKey) : rowsOfKey * res PgError () :=
  match r.1 with
  | None => (r, Ok tt)
  | Some row => if allowed (f row) then ((Some (f row), r.2), Ok tt) else (r, Err ErrDriver)
  end.

(** Such a statement, on the rows of its id. *)
Definition onRows (c : statement) (r : rowsOfKey) : rowsOfKey * res PgError (scanned c) :=
  match c return rowsOfKey * res PgError (scanned c) with
  | SelectBox _ _ => (r, match r.1 with Some row => Ok row | None => Err ErrNoRows end)
  | SelectDepositId _ hash =>
      (r, match list_find (sameHash hash) (ordered r.2) with
          | Some (_, row) => Ok (memoryLinkDepositRow.DepositId row)
          | None => Err ErrNoRows
          end)
  | CountRefused _ =>
      updateBox
        (λ row, memoryLinkBoxRow.update (memoryLinkBoxRow.NextDepositId row)
                  (memoryLinkBoxRow.DepositCount row) (memoryLinkBoxRow.RefusedCount row + 1)
                  (memoryLinkBoxRow.RetiredTime row) row)
        (λ row, memoryLinkBoxRow.RefusedCount row <? two63) r
  | InsertDeposit id depositId hash ct now pruneAfter =>
      let row := memoryLinkDepositRow.mk id depositId hash ct now pruneAfter in
      if negb (depositAllowed row) then (r, Err ErrDriver)
      else match list_find (sameHash hash) (ordered r.2) with
      | Some _ => (r, Err ErrNoRows)
      | None =>
          match r.2 !! depositId, r.1 with
          | None, Some _ => ((r.1, <[depositId := row]> r.2), Ok depositId)
          | _, _ => (r, Err ErrDriver)
          end
      end
  | CountTaken _ =>
      updateBox
        (λ row, memoryLinkBoxRow.update (memoryLinkBoxRow.NextDepositId row + 1)
                  (memoryLinkBoxRow.DepositCount row + 1) (memoryLinkBoxRow.RefusedCount row)
                  (memoryLinkBoxRow.RetiredTime row) row) boxAllowed r
  | DeleteDepositsThrough _ depositId => ((r.1, filter (λ kv, ¬ kv.1 <= depositId) r.2), Ok tt)
  | SelectDeposits _ => (r, Ok (ordered r.2))
  | WriteStanding _ count =>
      updateBox
        (λ row, memoryLinkBoxRow.update (memoryLinkBoxRow.NextDepositId row) count 0
                  (memoryLinkBoxRow.RetiredTime row) row) boxAllowed r
  | DeleteDeposits _ => ((r.1, ∅), Ok (Z.of_nat (size r.2)))
  | WriteRetired _ now =>
      updateBox
        (λ row, memoryLinkBoxRow.update (memoryLinkBoxRow.NextDepositId row) 0
                  (memoryLinkBoxRow.RefusedCount row) (Some now) row) boxAllowed r
  | _ => (r, Err ErrDriver)
  end.

(** Every statement, on the tables. *)
Definition execute (c : statement) (choice : Choice.t) (t : Tables.t) : Tables.t * res PgError (scanned c) :=
  match keyOf c with
  | Some id =>
      let '(r, answer) := onRows c (Tables.at_ (octets id) t) in (Tables.put (octets id) r t, answer)
  | None =>
  match c return Tables.t * res PgError (scanned c) with
  | InsertBox r now expire capColumn =>
      let key := octets (LinkBoxRegistration.RendezvousId r) in
      let live := liveCount now (Choice.snapshot choice) in
      let row := memoryLinkBoxRow.mk (LinkBoxRegistration.RendezvousId r) LinkBoxKind
                   (LinkBoxRegistration.DepositVerifyPub r) (LinkBoxRegistration.CollectVerifyPub r) None
                   (LinkBoxRegistration.PublicCt r) LinkBoxAlgId 1 0 0 now now expire None expire in
      if negb (live <? capColumn) then (t, Ok (false, live))
      else if negb (boxAllowed row) then (t, Err ErrDriver)
      else match Tables.boxes t !! key with
           | Some _ => (t, Ok (false, live))
           | None => (Tables.put key (Some row, Tables.depositsOf key t) t, Ok (true, live))
           end
  | SelectLive now => (t, Ok (liveCount now t))
  | TryAdvisoryLock => (t, Ok (Choice.lockFree choice))
  | DeleteDueDeposits _ _ =>
      (dropDeposits (Choice.deposits choice) t, Ok ((Choice.deposits choice).*1))
  | RecountDeposits touched =>
      let t' := recountBoxes touched t in
      if forallb (λ kv, boxAllowed kv.2) (map_to_list (Tables.boxes t')) then (t', Ok tt) else (t, Err ErrDriver)
  | DeleteReclaimed _ _ =>
      (dropBoxes (Choice.boxes choice) t, Ok (Z.of_nat (length (Choice.boxes choice))))
  | _ => (t, Err ErrDriver)
  end
  end.

(** [FOR UPDATE] locks the row it finds, and every arm that writes at an id takes it first; the
    statements of the sweep lock the rows they write, here by their rendezvous ids. *)
Definition lockedBy (c : statement) (choice : Choice.t) (t : Tables.t) (key : list Z) : bool :=
  match c with
  | SelectBox id true => bool_decide (key = octets id) && bool_decide (is_Some (Tables.boxes t !! octets id))
  | DeleteDueDeposits _ _ => bool_decide (key ∈ (Choice.deposits choice).*1)
  | RecountDeposits touched => bool_decide (key ∈ touched)
  | DeleteReclaimed _ _ => bool_decide (key ∈ Choice.boxes choice)
  | _ => false
  end.

(** A count reads a snapshot there was; the rows a delete of the sweep takes are due, different,
    and no more than its limit. *)
Definition legalChoice (c : statement) (choice : Choice.t) (t : Tables.t) (past : list Tables.t) : Prop :=
  match c with
  | InsertBox _ _ _ _ => Choice.snapshot choice ∈ past
  | DeleteDueDeposits now limit =>
      NoDup (Choice.deposits choice) ∧ Z.of_nat (length (Choice.deposits choice)) <= limit ∧
      ∀ key id, (key, id) ∈ Choice.deposits choice →
        ∃ row, Tables.depositsOf key t !! id = Some row ∧ memoryLinkDepositRow.PruneAfter row <= now
  | DeleteReclaimed now limit =>
      NoDup (Choice.boxes choice) ∧ Z.of_nat (length (Choice.boxes choice)) <= limit ∧
      ∀ key, key ∈ Choice.boxes choice →
        ∃ row, Tables.boxes t !! key = Some row ∧ memoryLinkBoxRow.ReclaimAfter row <= now
  | _ => True
  end.

#[export] Instance boxesDatabase :
  Database Tables.t (list Z) (option memoryLinkBoxRow.t * gmap Z memoryLinkDepositRow.t) statement Choice.t scanned := {
  at_ := Tables.at_;
  run := execute;
  locks := lockedBy;
  legal := legalChoice }.
