(* ===== verification/PgxBoxesProps.v ===== *)
(** * The link boxes over PostgreSQL do what the in-memory ones do

    The tables abstract to those of [LinkBox].  Whatever other sessions do between its statements,
    and whichever of them fail, a method does at one of its calls what the in-memory method does,
    with its answer, and nothing at the others; or it answers an error. *)

From stdpp Require Import sorting.
From S2P Require Import Prelude StoreTypes LinkBox LinkBoxInv Prog Sql PgxBoxes.

(** ** Abstraction *)

Definition abstract (t : Tables.t) : Boxes.t := Boxes.mk (Tables.boxes t) (ordered <$> Tables.deposits t).

(** A deposit stands under its own id. *)
Definition keyed (rows : gmap Z memoryLinkDepositRow.t) : Prop :=
  map_Forall (λ id row, memoryLinkDepositRow.DepositId row = id) rows.

Record sane (t : Tables.t) : Prop := Sane {
  sane_keyed key : keyed (Tables.depositsOf key t);
  sane_boxes : boxes_inv (abstract t) }.

(** Tables an arm cannot tell apart. *)
Definition alike (s s' : Boxes.t) : Prop :=
  Boxes.boxes s = Boxes.boxes s' ∧ ∀ key, Boxes.held key s = Boxes.held key s'.

Lemma alike_refl s : alike s s.
Proof. done. Qed.

Lemma ordered_empty : ordered ∅ = [].
Proof. unfold ordered. by rewrite map_to_list_empty. Qed.

Lemma held_abstract key t : Boxes.held key (abstract t) = ordered (Tables.depositsOf key t).
Proof.
  unfold Boxes.held, abstract, Tables.depositsOf. cbn. rewrite lookup_fmap.
  destruct (Tables.deposits t !! key); [done|]. cbn. by rewrite ordered_empty.
Qed.

Lemma alike_same t t' : same t t' → alike (abstract t) (abstract t').
Proof.
  intros Hs. split.
  - apply map_eq. intros key. specialize (Hs key). by injection Hs.
  - intros key. rewrite !held_abstract. specialize (Hs key). cbn in Hs. unfold Tables.at_ in Hs. by injection Hs as _ ->.
Qed.

Lemma same_boxes t t' : same t t' → Tables.boxes t = Tables.boxes t'.
Proof. intros Hs. by destruct (alike_same t t' Hs). Qed.
Lemma same_deposits t t' key : same t t' → Tables.depositsOf key t = Tables.depositsOf key t'.
Proof. intros Hs. exact (f_equal snd (Hs key)). Qed.

Lemma alike_inv s s' : alike s s' → boxes_inv s → boxes_inv s'.
Proof.
  intros [Eb Eh] [H1 H2]. split; intros key; rewrite <- Eb, <- Eh; [apply H1|apply H2].
Qed.

Lemma sane_same t t' : same t t' → sane t → sane t'.
Proof.
  intros Hs [H1 H2]. split; [|by eapply alike_inv; [by apply alike_same|] ].
  intros key. specialize (Hs key). cbn in Hs. unfold Tables.at_ in Hs. injection Hs as _ <-. apply H1.
Qed.

(** ** The order of deposits *)

Lemma ordered_Permutation rows : ordered rows ≡ₚ (map_to_list rows).*2.
Proof. apply merge_sort_Permutation. Qed.

Lemma elem_of_ordered rows row :
  keyed rows → row ∈ ordered rows ↔ rows !! memoryLinkDepositRow.DepositId row = Some row.
Proof.
  intros Hk. rewrite ordered_Permutation, list_elem_of_fmap. split.
  - intros ([id row'] & -> & Hin%elem_of_map_to_list). cbn. by rewrite (Hk _ _ Hin).
  - intros Hin. exists (memoryLinkDepositRow.DepositId row, row). split; [done|]. by apply elem_of_map_to_list.
Qed.

Lemma ordered_ids rows : keyed rows → StronglySorted Z.lt (memoryLinkDepositRow.DepositId <$> ordered rows).
Proof.
  intros Hk.
  assert (NoDup (memoryLinkDepositRow.DepositId <$> ordered rows)) as Hn.
  { rewrite ordered_Permutation. rewrite <- list_fmap_compose.
    replace (memoryLinkDepositRow.DepositId ∘ snd <$> map_to_list rows) with ((map_to_list rows).*1);
      [apply NoDup_fst_map_to_list|].
    apply list_fmap_ext. intros i [id row] Hi. cbn. symmetry. apply Hk. apply elem_of_map_to_list.
    by eapply list_elem_of_lookup_2. }
  assert (StronglySorted byDepositId (ordered rows)) as Hs.
  { apply StronglySorted_merge_sort; [intros a b c; unfold byDepositId; lia|intros a b; unfold byDepositId; lia]. }
  by apply sorted_strict.
Qed.

Lemma ordered_insert rows id row :
  keyed rows → memoryLinkDepositRow.DepositId row = id →
  Forall (λ x, memoryLinkDepositRow.DepositId x < id) (ordered rows) →
  keyed (<[id := row]> rows) ∧ ordered (<[id := row]> rows) = ordered rows ++ [row].
Proof.
  intros Hk Hid Hlt. assert (keyed (<[id := row]> rows)) as Hk' by by apply map_Forall_insert_2.
  split; [done|]. apply (sorted_unique memoryLinkDepositRow.DepositId); [by apply ordered_ids| |].
  - rewrite fmap_app. apply StronglySorted_app. split; [|split; [by apply ordered_ids|by repeat constructor] ].
    intros x y Hx Hy. apply list_elem_of_singleton in Hy as ->. apply list_elem_of_fmap in Hx as (z & -> & Hz).
    eapply Forall_forall in Hlt; [|exact Hz]. cbn in Hlt. lia.
  - intros x. rewrite elem_of_app, list_elem_of_singleton, !elem_of_ordered by done.
    rewrite lookup_insert_Some. split.
    + intros [ [_ <-]|[_ H] ]; [by right|by left].
    + intros [H| ->]; [|by left]. right. split; [|done].
      eapply Forall_forall in Hlt; [|by apply elem_of_ordered]. lia.
Qed.

Lemma ordered_filter rows (P : memoryLinkDepositRow.t → Prop) `{!∀ x, Decision (P x)} (P' : Z * memoryLinkDepositRow.t → Prop)
    `{!∀ x, Decision (P' x)} :
  keyed rows → (∀ id row, rows !! id = Some row → P' (id, row) ↔ P row) →
  keyed (filter P' rows) ∧ ordered (filter P' rows) = filter P (ordered rows).
Proof.
  intros Hk HP. assert (keyed (filter P' rows)) as Hk'.
  { intros id row Hr. apply map_lookup_filter_Some in Hr as [Hr _]. by apply Hk. }
  split; [done|]. apply (sorted_unique memoryLinkDepositRow.DepositId); [by apply ordered_ids| |].
  - apply filter_sorted. by apply ordered_ids.
  - intros x. rewrite list_elem_of_filter, !elem_of_ordered, map_lookup_filter_Some by done.
    split; [intros [Hr HPx]; split; [by eapply HP|done]|intros [HPx Hr]; split; [done|by eapply HP] ].
Qed.

Lemma ordered_length rows : length (ordered rows) = size rows.
Proof. rewrite ordered_Permutation, length_fmap. apply length_map_to_list. Qed.

(** ** What a statement does to one key's rows *)

Definition present (r : rowsOfKey) : bool := bool_decide (is_Some r.1).
Definition never (r : rowsOfKey) : bool := false.

Lemma at_put key r t : Tables.at_ key (Tables.put key r t) = r.
Proof.
  destruct r as [row rows]. unfold Tables.at_, Tables.put, Tables.depositsOf. cbn.
  by rewrite lookup_partial_alter_eq, lookup_insert_eq.
Qed.
Lemma at_put_ne key key' r t : key' ≠ key → Tables.at_ key' (Tables.put key r t) = Tables.at_ key' t.
Proof.
  intros Hne. unfold Tables.at_, Tables.put, Tables.depositsOf. cbn.
  by rewrite lookup_partial_alter_ne, lookup_insert_ne.
Qed.

Lemma execute_key c id ch t :
  keyOf c = Some id →
  execute c ch t = (Tables.put (octets id) (onRows c (Tables.at_ (octets id) t)).1 t,
                    (onRows c (Tables.at_ (octets id) t)).2).
Proof. intros Hk. unfold execute. rewrite Hk. by destruct (onRows c _). Qed.

Lemma execute_local c id held :
  keyOf c = Some id → held = (match c with SelectBox _ true => present | _ => never end) →
  local c (octets id) (onRows c) held.
Proof.
  intros Hk ->. split; cbn [run boxesDatabase at_ locks].
  1-3: intros; rewrite (execute_key c id) by done; cbn [fst snd].
  - done.
  - apply at_put.
  - by apply at_put_ne.
  - intros ch t k'. destruct c; cbn in Hk; simplify_eq; cbn; unfold never; rewrite ?andb_false_r; try done.
    destruct forUpdate; [done|]. by rewrite andb_false_r.
Qed.

(** ** Doing what the in-memory method does *)

(** The tables go from [t] to [t'] and the answer is [a], as an operation on the in-memory tables. *)
Definition does {A} (op : Boxes.t → Boxes.t * res Error A) (a : res PgxError A) (t t' : Tables.t) : Prop :=
  alike (op (abstract t)).1 (abstract t') ∧
  match a with
  | Ok x => (op (abstract t)).2 = Ok x
  | Err (StoreError e) => (op (abstract t)).2 = Err e
  | Err (DriverError _) => True
  | Err (KeyError _) => False
  end.

(** A run that does so at one of its calls and nothing at the others; or changes nothing, and is
    refused as the operation refuses on any tables, or answers the driver's error. *)
Definition implements {A} (op : Boxes.t → Boxes.t * res Error A) (out : outcome (res PgxError A))
    (l : list (Tables.t * Tables.t)) : Prop :=
  at_once (does op) out l ∨
  Forall quiet l ∧ ((∃ e, out = Returned (Err (StoreError e)) ∧ ∀ s, op s = (s, Err e)) ∨
                    ∃ e, out = Returned (Err (DriverError e))).

Lemma implements_quiet {A} op (out : outcome (res PgxError A)) l1 l2 t t' :
  same t t' → implements op out (l1 ++ l2) → implements op out (l1 ++ (t, t') :: l2).
Proof.
  intros Hs [H|[Hq He] ].
  - left. by apply at_once_insert.
  - right. split; [|done]. apply Forall_app in Hq as [H1 H2]. apply Forall_app. by split; [|constructor].
Qed.

Lemma implements_patient {A} (op : Boxes.t → Boxes.t * res Error A) :
  patient (λ out l (_ : Session.t Tables.t (list Z)), implements op out l).
Proof. intros out t t' l _ Hs. by apply (implements_quiet op out [] l). Qed.
Lemma implements_patient_cons {A} (op : Boxes.t → Boxes.t * res Error A) x :
  patient (λ out l (_ : Session.t Tables.t (list Z)), implements op out (x :: l)).
Proof. intros out t t' l _ Hs. by apply (implements_quiet op out [x] l). Qed.

Lemma implements_refused {A} (op : Boxes.t → Boxes.t * res Error A) e l :
  Forall quiet l → (∀ s, op s = (s, Err e)) → implements op (Returned (Err (StoreError e))) l.
Proof. intros Hl He. right. split; [done|]. left. by exists e. Qed.
Lemma implements_failed {A} (op : Boxes.t → Boxes.t * res Error A) e l :
  Forall quiet l → implements op (Returned (Err (DriverError e))) l.
Proof. intros Hl. right. split; [done|]. right. by exists e. Qed.
Lemma implements_here {A} (op : Boxes.t → Boxes.t * res Error A) out a t t' l :
  out = Returned a ∧ Forall quiet l → does op a t t' → implements op out ((t, t') :: l).
Proof. intros H Hd. left. by eapply at_once_here. Qed.

#[local] Hint Resolve implements_patient implements_patient_cons : core.

Section Arms.
Context {A : Type} (op : Boxes.t → Boxes.t * res Error A).
Abbreviation session := (Session.t Tables.t (list Z)).

(** The end of a transaction that failed, or has been answered for. *)
Lemma failed_end e l0 (s : session) :
  Forall quiet l0 →
  spec sane (Do Rollback (λ _, Return (Err (DriverError e))) : program _) (λ out l (_ : session), implements op out (l0 ++ l)) s.
Proof.
  intros Hl. eapply spec_mono; [|apply spec_rollback]. intros out l _ [-> Hq]. apply implements_failed.
  by apply Forall_app.
Qed.

Lemma answered_end a t t' (s : session) :
  does op a t t' →
  spec sane (Do Rollback (λ _, Return a) : program _) (λ out l (_ : session), implements op out ((t, t') :: l)) s.
Proof. intros Hd. eapply spec_mono; [|apply spec_rollback]. intros out l ? H. exact (implements_here op out a t t' l H Hd). Qed.

Lemma committed_end a t0 t t' (s : session) :
  does op a t t' →
  spec sane (Do Rollback (λ _, Return a) : program _) (λ out l (_ : session), implements op out ((t0, t0) :: (t, t') :: l)) s.
Proof.
  intros Hd. eapply spec_mono; [|by apply answered_end]. intros out l s' H.
  by apply (implements_quiet op out [] ((t, t') :: l)).
Qed.

(** [Commit]: the operation is done whether or not its acknowledgement arrives. *)
Lemma commit_end a (k : res PgError () → program (res PgxError A)) i before now t0 (s : session) :
  mine sane i before now s →
  k (Ok tt) = Do Rollback (λ _, Return (Ok a)) → k (Err ErrDriver) = Do Rollback (λ _, Return (Err (DriverError ErrDriver))) →
  (∀ t t', sane t → Tables.at_ i t = before → Tables.at_ i t' = now → (∀ i', i' ≠ i → Tables.at_ i' t' = Tables.at_ i' t) →
     does op (Ok a) t t') →
  spec sane (Do Commit k) (λ out l (_ : session), implements op out ((t0, t0) :: l)) s.
Proof.
  intros Hm Ek Ee Hd. eapply spec_commit; [apply implements_patient_cons|exact Hm| |].
  - intros t t' Hok E1 E2 Hrest s1. specialize (Hd t t' Hok E1 E2 Hrest). rewrite Ek, Ee.
    split; apply committed_end; [done|]. by destruct Hd.
  - intros s1. rewrite Ee. by apply (failed_end _ [_]); repeat constructor.
Qed.

(** The opening of the arms that lock their box. *)
Lemma withLockedBox_spec id pub now pinned (pinned' : memoryLinkBoxRow.t → slice) (retired : A) body (s : session) :
  (∀ row, pinned (scanBox id row) = pinned' row) →
  fresh sane false s →
  (∀ t, sane t → liveLinkBox (abstract t) id now pub pinned' = None → op (abstract t) = (abstract t, Ok retired)) →
  (∀ t row s1, sane t → Tables.boxes t !! octets id = Some row →
     liveLinkBox (abstract t) id now pub pinned' = Some row →
     mine sane (octets id) (Tables.at_ (octets id) t) (Tables.at_ (octets id) t) s1 →
     spec sane (out ← body (scanBox id row); Do Rollback (λ _, Return out))
       (λ out l (_ : session), implements op out ((t, t) :: l)) s1) →
  spec sane (withLockedBox id pub now pinned retired body) (λ out l (_ : session), implements op out l) s.
Proof.
  intros Hpin Hf Hret Hbody. unfold withLockedBox, transaction, linkBoxOf, query, call. cbn.
  apply spec_begin; [apply implements_patient|done| |intros s1; by apply implements_failed].
  intros s1 Hf1. apply (spec_lock sane _ (implements_patient op) (SelectBox id true) _ (octets id) (onRows _) present);
    [by apply execute_local|done| |intros s2; by apply (failed_end _ [])].
  intros t s2 Hok Hmine. cbn [onRows snd fst at_ boxesDatabase] in *.
  assert (∀ a, op (abstract t) = (abstract t, Ok a) →
    spec sane (Do Rollback (λ _, Return (Ok a)) : program _) (λ out l (_ : session), implements op out ((t, t) :: l)) s2) as Hend.
  { intros a Ha. apply answered_end. split; rewrite Ha; [apply alike_refl|done]. }
  unfold liveLinkBox in Hret. specialize (Hret t Hok). specialize (Hbody t). unfold liveLinkBox in Hbody.
  cbn [Boxes.boxes abstract] in Hret, Hbody. unfold Tables.at_ at 1. cbn [fst].
  destruct (Tables.boxes t !! octets id) as [row|] eqn:Hrow; cbn; [|by apply Hend, Hret].
  change (Live (scanBox id row) now) with (Live (linkBox row) now). rewrite Hpin.
  destruct (negb (Live (linkBox row) now) || _) eqn:Hl; [by apply Hend, Hret|].
  apply Hbody; [done..|]. apply Hmine. unfold present, Tables.at_. cbn. by rewrite Hrow.
Qed.
End Arms.

(** ** One key's rows, before and after *)

Lemma liveLinkBox_at t t' id now pub pinned :
  Tables.at_ (octets id) t' = Tables.at_ (octets id) t →
  liveLinkBox (abstract t') id now pub pinned = liveLinkBox (abstract t) id now pub pinned.
Proof. intros H. unfold liveLinkBox. cbn. injection H as -> _. done. Qed.

Lemma held_at t t' key : Tables.at_ key t' = Tables.at_ key t → Boxes.held key (abstract t') = Boxes.held key (abstract t).
Proof. intros H. rewrite !held_abstract. by injection H as _ ->. Qed.

Lemma alike_put t t' key row rows m :
  Tables.at_ key t' = (Some row, rows) → (∀ key', key' ≠ key → Tables.at_ key' t' = Tables.at_ key' t) →
  (∀ key', default [] (m !! key') = if decide (key' = key) then ordered rows else Boxes.held key' (abstract t)) →
  alike (Boxes.mk (<[key := row]> (Tables.boxes t)) m) (abstract t').
Proof.
  intros Hk Hrest Hm. split; cbn.
  - apply map_eq. intros key'. destruct (decide (key' = key)) as [->|Hne].
    + rewrite lookup_insert_eq. by injection Hk as ->.
    + rewrite lookup_insert_ne by done. specialize (Hrest key' Hne). by injection Hrest as ->.
  - intros key'. unfold Boxes.held at 1. cbn. rewrite Hm. case_decide as E; [subst|].
    + rewrite held_abstract. by injection Hk as _ ->.
    + symmetry. by apply held_at, Hrest.
Qed.

(** The next statement of a transaction that holds the rows of [id]. *)
Ltac statement id Hmine :=
  match goal with
  | |- spec sane (Do (Stmt ?c) ?k) ?Q ?s =>
      eapply (spec_local sane Q ltac:(first [apply implements_patient|apply implements_patient_cons])
                c k (octets id) (onRows c) never);
      [by apply execute_local|exact Hmine| |intros ?; by eapply (failed_end _ _ [_]); repeat constructor]
  end.
Section Deposit.
Context (ctx : option Error) (id pub ct : slice) (now : time).
Abbreviation op := (λ self, LinkBox.DepositLinkBox ctx self id pub ct now).
Abbreviation key := (octets id).
Abbreviation hash := (linkBoxDepositHash ct).

Lemma DepositLinkBox_evaluated s row :
  first_error ctx (validateLinkBoxDeposit id pub ct) = None →
  liveLinkBox s id (linkBoxTime now) pub depositKeyOf = Some row →
  op s =
    match list_find (sameHash hash) (Boxes.held key s) with
    | Some (_, d) =>
        (s, Ok (LinkBoxDeposited.mk REASON_OK (u64 (memoryLinkDepositRow.DepositId d))
                  (memoryLinkDepositRow.DepositHash d) (u32 (memoryLinkBoxRow.DepositCount row)) true))
    | None =>
        if LinkBoxDeposits <=? u64 (memoryLinkBoxRow.NextDepositId row - 1) then
          (Boxes.mk (<[key := memoryLinkBoxRow.update (memoryLinkBoxRow.NextDepositId row)
                      (memoryLinkBoxRow.DepositCount row) (i64 (memoryLinkBoxRow.RefusedCount row + 1))
                      (memoryLinkBoxRow.RetiredTime row) row]> (Boxes.boxes s)) (Boxes.deposits s),
           Ok (LinkBoxDeposited.only REASON_CARD_RATE_LIMITED))
        else
          let row' := memoryLinkBoxRow.update (i64 (memoryLinkBoxRow.NextDepositId row + 1))
                        (i32 (memoryLinkBoxRow.DepositCount row + 1)) (memoryLinkBoxRow.RefusedCount row)
                        (memoryLinkBoxRow.RetiredTime row) row in
          (Boxes.mk (<[key := row']> (Boxes.boxes s))
             (<[key := Boxes.held key s ++
                  [memoryLinkDepositRow.mk id (memoryLinkBoxRow.NextDepositId row) hash ct (linkBoxTime now)
                     (memoryLinkBoxRow.ExpireTime row)] ]> (Boxes.deposits s)),
           Ok (LinkBoxDeposited.mk REASON_OK (u64 (memoryLinkBoxRow.NextDepositId row)) hash
                 (u32 (memoryLinkBoxRow.DepositCount row')) false))
    end.
Proof.
  intros Hv Hl. unfold LinkBox.DepositLinkBox. rewrite Hv, Hl. cbn zeta.
  change (list_find (λ d, bytes_Equal (memoryLinkDepositRow.DepositHash d) hash = true) (Boxes.held key s))
    with (list_find (sameHash hash) (Boxes.held key s)).
  destruct (list_find _ _) as [ [j d]|]; [done|]. by destruct (LinkBoxDeposits <=? _).
Qed.

(** What is known of the box behind the lock. *)
Section Locked.
Context (t : Tables.t) (row : memoryLinkBoxRow.t).
Hypothesis Hv : first_error ctx (validateLinkBoxDeposit id pub ct) = None.
Hypothesis Hok : sane t.
Hypothesis Hrow : Tables.boxes t !! key = Some row.
Hypothesis Hl : liveLinkBox (abstract t) id (linkBoxTime now) pub depositKeyOf = Some row.
Abbreviation deps := (Tables.depositsOf key t).

Lemma locked_box : box_ok key row (ordered deps).
Proof. rewrite <- held_abstract. by apply (inv_box _ (sane_boxes _ Hok)). Qed.

Lemma evaluated_at t1 :
  Tables.at_ key t1 = Tables.at_ key t →
  liveLinkBox (abstract t1) id (linkBoxTime now) pub depositKeyOf = Some row ∧
  Boxes.held key (abstract t1) = ordered deps.
Proof. intros E. rewrite (liveLinkBox_at t), (held_at t), held_abstract by done. done. Qed.

Lemma replay_does j d :
  list_find (sameHash hash) (ordered deps) = Some (j, d) →
  does op (Ok (LinkBoxDeposited.mk REASON_OK (u64 (memoryLinkDepositRow.DepositId d)) hash
                 (u32 (memoryLinkBoxRow.DepositCount row)) true)) t t.
Proof.
  intros Hf. unfold does. rewrite (DepositLinkBox_evaluated _ row), held_abstract, Hf by done. cbn.
  split; [apply alike_refl|]. repeat f_equal. apply list_find_Some in Hf as (Hj & Hh & _).
  apply list_elem_of_lookup_2 in Hj. pose proof (box_rows _ _ _ locked_box) as Hr.
  eapply Forall_forall in Hr; [|exact Hj]. destruct Hr as (_ & _ & E).
  apply bytes_Equal_spec in Hh. rewrite E in Hh |- *. unfold linkBoxDepositHash in *. cbn in Hh. by rewrite Hh.
Qed.

Definition refusedRow : memoryLinkBoxRow.t :=
  memoryLinkBoxRow.update (memoryLinkBoxRow.NextDepositId row) (memoryLinkBoxRow.DepositCount row)
    (memoryLinkBoxRow.RefusedCount row + 1) (memoryLinkBoxRow.RetiredTime row) row.
Definition takenRow : memoryLinkBoxRow.t :=
  memoryLinkBoxRow.update (memoryLinkBoxRow.NextDepositId row + 1) (memoryLinkBoxRow.DepositCount row + 1)
    (memoryLinkBoxRow.RefusedCount row) (memoryLinkBoxRow.RetiredTime row) row.
Definition takenDeposit : memoryLinkDepositRow.t :=
  memoryLinkDepositRow.mk id (memoryLinkBoxRow.NextDepositId row) hash ct (linkBoxTime now)
    (memoryLinkBoxRow.ExpireTime row).

Lemma refused_does t1 t2 :
  list_find (sameHash hash) (ordered deps) = None →
  (LinkBoxDeposits <=? u64 (memoryLinkBoxRow.NextDepositId row - 1)) = true →
  memoryLinkBoxRow.RefusedCount row + 1 < two63 →
  Tables.at_ key t1 = Tables.at_ key t → Tables.at_ key t2 = (Some refusedRow, deps) →
  (∀ k, k ≠ key → Tables.at_ k t2 = Tables.at_ k t1) →
  does op (Ok (LinkBoxDeposited.only REASON_CARD_RATE_LIMITED)) t1 t2.
Proof.
  intros Hf Hcap Hr E1 E2 Hrest. destruct (evaluated_at t1 E1) as [Hl1 Hh1]. unfold does.
  rewrite (DepositLinkBox_evaluated _ row), Hh1, Hf, Hcap by done. cbn. split; [|done].
  pose proof (box_refused _ _ _ locked_box). rewrite i64_small by (unfold two63, two64 in *; lia).
  apply (alike_put _ _ _ _ deps); [done..|]. intros k. case_decide as E; [subst|done].
  rewrite <- Hh1. done.
Qed.

Lemma taken_does t1 t2 :
  list_find (sameHash hash) (ordered deps) = None →
  (LinkBoxDeposits <=? u64 (memoryLinkBoxRow.NextDepositId row - 1)) = false →
  Tables.at_ key t1 = Tables.at_ key t →
  Tables.at_ key t2 = (Some takenRow, <[memoryLinkBoxRow.NextDepositId row := takenDeposit]> deps) →
  (∀ k, k ≠ key → Tables.at_ k t2 = Tables.at_ k t1) →
  does op (Ok (LinkBoxDeposited.mk REASON_OK (u64 (memoryLinkBoxRow.NextDepositId row)) hash
                 (u32 (memoryLinkBoxRow.DepositCount row + 1)) false)) t1 t2.
Proof.
  intros Hf Hcap E1 E2 Hrest. destruct (evaluated_at t1 E1) as [Hl1 Hh1]. unfold does.
  rewrite (DepositLinkBox_evaluated _ row), Hh1, Hf, Hcap by done. cbn.
  pose proof (box_next _ _ _ locked_box) as Hn. pose proof (box_count _ _ _ locked_box) as Hc.
  pose proof (box_length _ _ _ locked_box) as Hlen. unfold LinkBoxDeposits in Hn, Hlen.
  rewrite i64_small, i32_small by (unfold two63; lia). split; [|done].
  destruct (ordered_insert deps (memoryLinkBoxRow.NextDepositId row) takenDeposit) as [_ Ho]; [apply Hok|done| |].
  { eapply Forall_impl; [exact (box_ids _ _ _ locked_box)|]. cbn. lia. }
  eapply alike_put; [exact E2|done|]. intros k. rewrite Ho. case_decide as E; [subst|].
  - by rewrite lookup_insert_eq.
  - by rewrite lookup_insert_ne.
Qed.
End Locked.

Lemma DepositLinkBox_implements (s : Session.t Tables.t (list Z)) :
  fresh sane false s →
  spec sane (DepositLinkBox ctx id pub ct now) (λ out l _, implements op out l) s.
Proof.
  intros Hf. unfold DepositLinkBox. destruct (first_error ctx _) as [e|] eqn:Hv.
  { apply implements_refused; [done|]. intros s0. unfold LinkBox.DepositLinkBox. by rewrite Hv. }
  apply withLockedBox_spec with (pinned' := depositKeyOf); [done|done| |].
  { intros t _ Hl. unfold LinkBox.DepositLinkBox. by rewrite Hv, Hl. }
  intros t row s1 Hok Hrow Hl Hmine. pose proof (locked_box t row Hok Hrow) as Hbox.
  pose proof (box_next _ _ _ Hbox) as Hnext. pose proof (box_length _ _ _ Hbox) as Hlen.
  unfold LinkBoxDeposits in Hnext, Hlen.
  assert (Tables.at_ key t = (Some row, Tables.depositsOf key t)) as Hat by (unfold Tables.at_; by rewrite Hrow).
  rewrite Hat in Hmine. change (LinkBox.DepositsTaken (scanBox id row)) with (u64 (memoryLinkBoxRow.NextDepositId row - 1)).
  destruct (LinkBoxDeposits <=? u64 (memoryLinkBoxRow.NextDepositId row - 1)) eqn:Hcap.
  - unfold replayed, query, commit, call. cbn. statement id Hmine. intros s2 Hm2. cbn in Hm2 |- *.
    destruct (list_find _ _) as [ [j d]|] eqn:Hfind; cbn.
    { apply answered_end. by eapply replay_does. }
    statement id Hm2. intros s3 Hm3. cbn [onRows updateBox fst snd] in Hm3 |- *. cbn beta iota in Hm3 |- *.
    fold (refusedRow row) in Hm3 |- *. unfold updateBox in Hm3 |- *. cbn [fst snd] in Hm3 |- *.
    destruct (memoryLinkBoxRow.RefusedCount (refusedRow row) <? two63) eqn:Hr; cbn [fst snd] in Hm3 |- *.
    2:{ by apply (failed_end _ _ [_]); repeat constructor. }
    eapply commit_end; [exact Hm3|done..|]. intros t1 t2 _ E1 E2 Hrest. cbn in E1, E2.
    rewrite <- Hat in E1. apply (refused_does t row); try done. by apply Z.ltb_lt.
  - assert (i64 (u64 (u64 (memoryLinkBoxRow.NextDepositId row - 1) + 1)) = memoryLinkBoxRow.NextDepositId row) as Eid.
    { rewrite (u64_small (memoryLinkBoxRow.NextDepositId row - 1)) by (unfold two64; lia).
      rewrite u64_small, i64_small by (unfold two63, two64; lia). lia. }
    unfold replayed, query, commit, call. cbn. rewrite Eid. statement id Hmine. intros s2 Hm2. cbn in Hm2 |- *.
    destruct (depositAllowed _) eqn:Hallowed; cbn in Hm2 |- *; [|by apply (failed_end _ _ [_]); repeat constructor].
    destruct (list_find _ _) as [ [j d]|] eqn:Hfind; cbn in Hm2 |- *.
    { statement id Hm2. intros s3 Hm3. cbn in Hm3 |- *. rewrite Hfind. cbn. apply answered_end. by eapply replay_does. }
    destruct (Tables.depositsOf key t !! memoryLinkBoxRow.NextDepositId row) eqn:Hfree; cbn in Hm2 |- *;
      [by apply (failed_end _ _ [_]); repeat constructor|].
    statement id Hm2. intros s3 Hm3. cbn [onRows fst snd] in Hm3 |- *. fold (takenRow row) in Hm3 |- *.
    unfold updateBox in Hm3 |- *. cbn [fst snd] in Hm3 |- *. fold (takenRow row) in Hm3 |- *.
    destruct (boxAllowed (takenRow row)) eqn:Hbr; cbn [fst snd] in Hm3 |- *;
      [|by apply (failed_end _ _ [_]); repeat constructor].
    eapply commit_end; [exact Hm3|cbn; try done..|].
    intros t1 t2 _ E1 E2 Hrest. cbn in E1, E2. rewrite <- Hat in E1.
    rewrite (u32_small (memoryLinkBoxRow.DepositCount row)) by (rewrite (box_count _ _ _ Hbox); unfold two32; lia).
    apply (taken_does t row); done.
Qed.
End Deposit.

Section Collect.
Context (ctx : option Error) (now : time).

Lemma column_after ack id :
  0 <= ack → 1 <= id <= LinkBoxDeposits → ¬ id <= linkBoxDepositIdColumn ack ↔ ack < u64 id.
Proof.
  unfold linkBoxDepositIdColumn, LinkBoxDeposits, MaxInt64. intros Ha Hid. rewrite u64_small by (unfold two64; lia).
  destruct (Z.ltb_spec (two63 - 1) ack); [|rewrite i64_small]; unfold two63 in *; lia.
Qed.

Lemma CollectLinkBox_implements q (s : Session.t Tables.t (list Z)) :
  (∀ r, q = Some r → 0 <= LinkBoxCollectRequest.AckThroughDepositId r) →
  fresh sane false s →
  spec sane (CollectLinkBox ctx q now)
    (λ out l _, implements (λ self, LinkBox.CollectLinkBox ctx self q now) out l) s.
Proof.
  intros Hack Hf. destruct q as [q|].
  2:{ destruct ctx as [e|] eqn:Hctx; apply implements_refused; done. }
  specialize (Hack q eq_refl). unfold CollectLinkBox. destruct ctx as [e|] eqn:Hctx; [by apply implements_refused|].
  set (id := LinkBoxCollectRequest.RendezvousId q). set (ack := LinkBoxCollectRequest.AckThroughDepositId q) in *.
  destruct (validateLinkBoxAct id (LinkBoxCollectRequest.VerifiedPub q)) as [e|] eqn:Hv.
  { apply implements_refused; [done|]. intros s0. unfold LinkBox.CollectLinkBox. fold id. by rewrite Hv. }
  apply withLockedBox_spec with (pinned' := collectKeyOf); [done|done| |].
  { intros t _ Hl. unfold LinkBox.CollectLinkBox. fold id. by rewrite Hv, Hl. }
  intros t row s1 Hok Hrow Hl Hmine.
  assert (Tables.at_ (octets id) t = (Some row, Tables.depositsOf (octets id) t)) as Hat
    by (unfold Tables.at_; by rewrite Hrow).
  pose proof (locked_box id t row Hok Hrow) as Hbox. rewrite Hat in Hmine.
  set (deps := Tables.depositsOf (octets id) t) in *.
  destruct (ordered_filter deps (λ d, ack < u64 (memoryLinkDepositRow.DepositId d))
    (λ kv, ¬ kv.1 <= linkBoxDepositIdColumn ack)) as [_ Hord].
  { apply Hok. }
  { intros i d Hd. cbn. pose proof (sane_keyed _ Hok _ _ _ Hd) as Hi. cbn in Hi. subst i. apply column_after; [done|].
    assert (d ∈ ordered deps) as Hin by (apply elem_of_ordered; [apply Hok|done]).
    pose proof (box_ids _ _ _ Hbox) as Hids. eapply Forall_forall in Hids; [|exact Hin].
    pose proof (box_next _ _ _ Hbox). unfold LinkBoxDeposits in *. cbn in Hids. lia. }
  unfold query, commit, call. cbn. statement id Hmine. intros s2 Hm2. cbn in Hm2 |- *.
  statement id Hm2. intros s3 Hm3. cbn [onRows fst snd attempt] in Hm3 |- *. rewrite Hord. cbn [mbind prog_mbind prog_bind].
  rewrite length_fmap. set (kept := filter _ (ordered deps)) in *.
  statement id Hm3. intros s4 Hm4. cbn [onRows fst snd] in Hm4 |- *. unfold updateBox in Hm4 |- *. cbn [fst snd] in Hm4 |- *.
  set (row' := memoryLinkBoxRow.update _ _ 0 _ row) in *.
  destruct (boxAllowed row'); cbn [fst snd attempt mbind prog_mbind prog_bind] in Hm4 |- *;
    [|by apply (failed_end _ _ [_]); repeat constructor].
  destruct (linkBoxDepositsAfter _ _ _) as [returned complete] eqn:Hafter.
  eapply commit_end; [exact Hm4|cbn; try done..|].
  intros t1 t2 _ E1 E2 Hrest. cbn in E1, E2. rewrite <- Hat in E1.
  unfold does, LinkBox.CollectLinkBox. fold id. fold ack. rewrite Hv, (liveLinkBox_at t), Hl by done. cbn zeta.
  rewrite (held_at t), held_abstract by done. fold deps. fold kept.
  change (λ d, LinkBoxDeposit.mk (u64 (memoryLinkDepositRow.DepositId d)) (bytes_Clone (memoryLinkDepositRow.DepositCt d))
            (memoryLinkDepositRow.CreateTime d)) with scanDeposit.
  rewrite Hafter. cbn [fst snd]. split; [|done].
  eapply alike_put; [exact E2|done|]. intros k. case_decide as E; [subst|].
  - by rewrite lookup_insert_eq, Hord.
  - by rewrite lookup_insert_ne.
Qed.

Lemma RetireLinkBox_implements id pub (s : Session.t Tables.t (list Z)) :
  fresh sane false s →
  spec sane (RetireLinkBox ctx id pub now)
    (λ out l _, implements (λ self, LinkBox.RetireLinkBox ctx self id pub now) out l) s.
Proof.
  intros Hf. unfold RetireLinkBox. destruct (first_error ctx _) as [e|] eqn:Hv.
  { apply implements_refused; [done|]. intros s0. unfold LinkBox.RetireLinkBox. by rewrite Hv. }
  apply withLockedBox_spec with (pinned' := collectKeyOf); [done|done| |].
  { intros t _ Hl. unfold LinkBox.RetireLinkBox. by rewrite Hv, Hl. }
  intros t row s1 Hok Hrow Hl Hmine.
  assert (Tables.at_ (octets id) t = (Some row, Tables.depositsOf (octets id) t)) as Hat
    by (unfold Tables.at_; by rewrite Hrow).
  rewrite Hat in Hmine. set (deps := Tables.depositsOf (octets id) t) in *.
  unfold query, commit, call. cbn. statement id Hmine. intros s2 Hm2. cbn in Hm2 |- *.
  statement id Hm2. intros s3 Hm3. cbn [onRows fst snd] in Hm3 |- *. unfold updateBox in Hm3 |- *. cbn [fst snd] in Hm3 |- *.
  set (row' := memoryLinkBoxRow.update _ _ _ _ row) in *.
  destruct (boxAllowed row'); cbn [fst snd] in Hm3 |- *; [|by apply (failed_end _ _ [_]); repeat constructor].
  eapply commit_end; [exact Hm3|cbn; try done..|].
  intros t1 t2 _ E1 E2 Hrest. cbn in E1, E2. rewrite <- Hat in E1.
  unfold does, LinkBox.RetireLinkBox. rewrite Hv, (liveLinkBox_at t), Hl by done. cbn [fst snd].
  rewrite (held_at t), held_abstract, ordered_length by done. split; [|done].
  eapply alike_put; [exact E2|done|]. intros k. rewrite ordered_empty. case_decide as E; [subst|].
  - by rewrite lookup_delete_eq.
  - by rewrite lookup_delete_ne.
Qed.

(** The two reads. *)
Lemma LinkBoxOf_implements id (s : Session.t Tables.t (list Z)) :
  fresh sane false s →
  spec sane (LinkBoxOf ctx id)
    (λ out l _, implements (λ self, (self, LinkBox.LinkBoxOf ctx self id)) out l) s.
Proof.
  intros Hf. unfold LinkBoxOf. destruct (first_error ctx _) as [e|] eqn:Hv.
  { apply implements_refused; [done|]. intros s0. unfold LinkBox.LinkBoxOf. by rewrite Hv. }
  unfold linkBoxOf, query, call. cbn.
  eapply (spec_read sane _ (implements_patient _) sane_same (SelectBox id false)); [by apply execute_local|done|done| |].
  2:{ intros s1. by apply implements_failed. }
  intros t t' s1 Hok Hs _. cbn [onRows snd at_ boxesDatabase]. unfold Tables.at_ at 1. cbn [fst].
  assert (len id = 32) as Hlen.
  { apply first_error_None in Hv as [_ Hv]. unfold checkLength in Hv.
    destruct (Z.eqb_spec (len id) RendezvousIdBytes) as [H|]; [exact H|done]. }
  destruct (Tables.boxes t !! octets id) as [row|] eqn:Hrow; cbn.
  - eapply implements_here; [by split|]. split; [by apply alike_same|]. unfold LinkBox.LinkBoxOf. rewrite Hv. cbn.
    rewrite Hrow. f_equal. unfold linkBox, scanBox, bytes_Clone. f_equal.
    pose proof (box_id _ _ _ (inv_box _ (sane_boxes _ Hok) _ _ Hrow)) as Hid.
    destruct id as [o|]; [|done]. cbn in Hid. destruct (memoryLinkBoxRow.RendezvousId row) as [o'|]; cbn in Hid; [by subst|].
    subst o. done.
  - eapply implements_here; [by split|]. split; [by apply alike_same|]. unfold LinkBox.LinkBoxOf. rewrite Hv. cbn.
    by rewrite Hrow.
Qed.
End Collect.
