(* ===== verification/PgxUnlocked.v ===== *)
(** * Register, the live count and the sweep over PostgreSQL

    The methods that lock no box first.  Register counts the live boxes in the snapshot of its
    insert, so registrations in flight together may pass the cap by their number; a sweep, with no
    other session writing, keeps the tables sane and changes nothing an arm at its time or later can
    see. *)

From stdpp Require Import sorting.
From S2P Require Import Prelude StoreTypes LinkBox LinkBoxInv Prog Sql PgxBoxes PgxBoxesProps.

(** ** Counting *)

Lemma liveCount_same now t t' : same t t' → liveCount now t = liveCount now t'.
Proof. intros Hs. unfold liveCount. by rewrite (same_boxes t t'). Qed.

Lemma liveRow_Live now row : liveRow (linkBoxTime now) row = Live (linkBox row) now.
Proof. done. Qed.

Lemma countLive_abstract now t :
  Z.of_nat (size (Tables.boxes t)) < two64 → countLive (abstract t) (linkBoxTime now) = liveCount (linkBoxTime now) t.
Proof.
  intros Hs. unfold countLive, liveCount, abstract. cbn.
  assert (filter (λ kv, Live (linkBox kv.2) (linkBoxTime now) = true) (Tables.boxes t) =
          filter (λ kv, liveRow (linkBoxTime now) kv.2 = true) (Tables.boxes t)) as ->.
  { apply map_filter_ext. intros k row _. cbn. by rewrite Live_linkBoxTime, liveRow_Live. }
  apply u64_small. split; [lia|]. eapply Z.le_lt_trans; [|exact Hs]. apply inj_le, map_size_filter.
Qed.

Lemma LiveLinkBoxes_implements ctx now (s : Session.t Tables.t (list Z)) :
  fresh (λ t, sane t ∧ Z.of_nat (size (Tables.boxes t)) < two64) false s →
  spec (λ t, sane t ∧ Z.of_nat (size (Tables.boxes t)) < two64) (LiveLinkBoxes ctx now)
    (λ out l _, implements (λ self, (self, LinkBox.LiveLinkBoxes ctx self now)) out l) s.
Proof.
  intros Hf. unfold LiveLinkBoxes. destruct ctx as [e|]; [by apply implements_refused|].
  unfold query, call. cbn. apply (spec_auto _ _ (implements_patient _) (SelectLive (linkBoxTime now))); [done| |].
  2:{ intros s1. by apply implements_failed. }
  intros t v ch past s1 [Hok Hsize] Hv _ _ _. cbn. split.
  - eapply implements_here; [by split|]. split; [by apply alike_same|]. unfold LinkBox.LiveLinkBoxes.
    f_equal. cbn. rewrite countLive_abstract by done. rewrite (liveCount_same _ v t) by done.
    f_equal. symmetry. apply u64_small. unfold liveCount. split; [lia|].
    eapply Z.le_lt_trans; [|exact Hsize]. apply inj_le, map_size_filter.
  - apply (implements_failed _ ErrDriver [_]). apply Forall_singleton. intros k. symmetry. apply Hv.
Qed.

(** ** Register *)

Section Register.
Context (P : Tables.t → Prop) (P_same : ∀ t t', same t t' → P t → P t').
Context (ctx : option Error) (r : LinkBoxRegistration.t) (now : time) (ttl liveCap : Z).
Abbreviation key := (octets (LinkBoxRegistration.RendezvousId r)).

Definition known (t : Tables.t) : Prop := sane t ∧ P t.
Definition newBox : memoryLinkBoxRow.t :=
  memoryLinkBoxRow.mk (LinkBoxRegistration.RendezvousId r) LinkBoxKind (LinkBoxRegistration.DepositVerifyPub r)
    (LinkBoxRegistration.CollectVerifyPub r) None (LinkBoxRegistration.PublicCt r) LinkBoxAlgId 1 0 0
    (linkBoxTime now) (linkBoxTime now) (linkBoxTime (linkBoxTime now + ttl)) None
    (linkBoxTime (linkBoxTime now + ttl)).
Definition capColumn : Z := Z.min liveCap MaxInt64.

(** How a registration goes, [P] being what is known of all committed tables. *)
Inductive registers : outcome (res PgxError LinkBoxRegistered.t) → list (Tables.t * Tables.t) → Prop :=
  | inserts t t' counted a before after :
      Tables.boxes t !! key = None → P counted → liveCount (linkBoxTime now) counted < capColumn →
      alike (Boxes.put_row key newBox (abstract t)) (abstract t') → Forall quiet before → Forall quiet after →
      (a = Ok (LinkBoxRegistered.mk REASON_OK (linkBoxTime (linkBoxTime now + ttl)) 0) ∨
       a = Err (DriverError ErrDriver)) →
      registers (Returned a) (before ++ (t, t') :: after)
  | repeats t t' row l :
      Forall quiet l → (t, t') ∈ l → Tables.boxes t !! key = Some row →
      Live (linkBox row) now = true → sameLinkBoxRegistration (linkBox row) r = true →
      registers (Returned (Ok (LinkBoxRegistered.mk REASON_OK (memoryLinkBoxRow.ExpireTime row)
                                 (u32 (memoryLinkBoxRow.DepositCount row))))) l
  | full counted t t' l :
      Forall quiet l → P counted → capColumn <= liveCount (linkBoxTime now) counted →
      (t, t') ∈ l → Tables.boxes t !! key = None →
      registers (Returned (Ok (LinkBoxRegistered.mk REASON_CARD_RATE_LIMITED zero_time 0))) l
  | rejects l : Forall quiet l →
      registers (Returned (Ok (LinkBoxRegistered.mk REASON_REJECTED zero_time 0))) l
  | errs e l : Forall quiet l → registers (Returned (Err e)) l.

Lemma registers_patient : patient (λ out l (_ : Session.t Tables.t (list Z)), registers out l).
Proof.
  intros out t t' l _ Hs H.
  destruct H as [t1 t2 counted a before after H1 H2 H3 H4 H5 H6 H7|t1 t2 row l Hq Hin H1 H2 H3
    |counted t1 t2 l Hq H1 H2 Hin H3|l Hq|e l Hq].
  - apply (inserts t1 t2 counted a ((t, t') :: before) after); try done. by constructor.
  - eapply repeats; [by constructor|by right|done..].
  - eapply full; [by constructor|exact H1|done|by right|done].
  - apply rejects. by constructor.
  - apply errs. by constructor.
Qed.

Lemma known_same t t' : same t t' → known t → known t'.
Proof. intros Hs [H1 H2]. split; [by eapply sane_same|by eapply P_same]. Qed.

(** What follows an insert that did not insert. *)
Lemma not_inserted counted (s : Session.t Tables.t (list Z)) :
  P counted → fresh known false s →
  spec known (notInserted r (linkBoxTime now) capColumn (liveCount (linkBoxTime now) counted))
    (λ out l _, registers out l) s.
Proof.
  intros Hc Hf. unfold notInserted, linkBoxOf, query, call. cbn.
  eapply (spec_read known _ registers_patient known_same (SelectBox _ false)); [by apply execute_local|done|done| |].
  2:{ intros s1. by apply errs. }
  intros t t' s1 _ Hs _. cbn [onRows snd at_ boxesDatabase]. unfold Tables.at_ at 1. cbn [fst].
  assert (Forall quiet [(t, t')]) as Hq by by apply Forall_singleton.
  destruct (Tables.boxes t !! key) as [row|] eqn:Hrow; cbn.
  - destruct (Live _ _) eqn:El; cbn; [|by apply rejects].
    destruct (sameLinkBoxRegistration _ _) eqn:Er; [|by apply rejects].
    apply (repeats t t' row); [done|by left|done| |done]. by rewrite <- Live_linkBoxTime.
  - destruct (Z.leb_spec capColumn (liveCount (linkBoxTime now) counted)); [|by apply rejects].
    apply (full counted t t'); [done..|by left|done].
Qed.

(** The insert: not, or refused, or made. *)
Lemma execute_insert ch v :
  let live := liveCount (linkBoxTime now) (Choice.snapshot ch) in
  let stmt := InsertBox r (linkBoxTime now) (linkBoxTime (linkBoxTime now + ttl)) capColumn in
  execute stmt ch v = (v, Ok (false, live)) ∨ execute stmt ch v = (v, Err ErrDriver) ∨
  live < capColumn ∧ Tables.boxes v !! key = None ∧
  execute stmt ch v = (Tables.put key (Some newBox, Tables.depositsOf key v) v, Ok (true, live)).
Proof.
  cbn zeta. unfold execute. cbn [keyOf]. fold newBox.
  destruct (Z.ltb_spec (liveCount (linkBoxTime now) (Choice.snapshot ch)) capColumn); cbn [negb]; [|by left].
  destruct (boxAllowed newBox); cbn [negb]; [|by right; left].
  destruct (Tables.boxes v !! key) as [row|] eqn:Hrow; [by left|by right; right].
Qed.

Lemma RegisterLinkBox_registers (s : Session.t Tables.t (list Z)) :
  0 <= liveCap → fresh known false s →
  spec known (RegisterLinkBox ctx (Some r) now ttl liveCap) (λ out l _, registers out l) s.
Proof.
  intros Hcap Hf. unfold RegisterLinkBox. destruct (first_error ctx _) as [e|] eqn:Hv; [by apply errs|].
  assert ((if liveCap <? MaxInt64 then i64 liveCap else MaxInt64) = capColumn) as ->.
  { unfold capColumn, MaxInt64. destruct (Z.ltb_spec liveCap (two63 - 1)); [|lia].
    rewrite i64_small by (unfold two63 in *; lia). lia. }
  unfold query, call. cbn [mbind prog_mbind prog_bind].
  apply (spec_auto known _ registers_patient (InsertBox r _ _ _)); [done| |intros s1; by apply errs].
  intros t v ch past s1 Hok Hv' Hlegal Hpast Hs1.
  assert (P (Choice.snapshot ch)) as Hsnap.
  { apply elem_of_cons in Hlegal as [->|Hin]; [apply Hok|]. eapply Forall_forall in Hpast; [|exact Hin]. apply Hpast. }
  assert (same t v) as Htv by (by symmetry).
  assert (∀ e, registers (Returned (Err e)) [(t, v)]) as Herr by (intros e; apply errs; by apply Forall_singleton).
  set (live := liveCount (linkBoxTime now) (Choice.snapshot ch)) in *.
  assert (fresh known false s1 →
          spec known (notInserted r (linkBoxTime now) capColumn live) (λ out l _, registers out ((t, v) :: l)) s1) as Hnot.
  { intros Hf1. apply (spec_quiet known _ registers_patient _ t v); [done|]. exact (not_inserted _ s1 Hsnap Hf1). }
  cbn [run boxesDatabase] in *. destruct (execute_insert ch v) as [E|[E|(Hroom & Hrow & E)] ]; rewrite E in Hs1 |- *;
    cbn [fst snd attempt] in Hs1 |- *.
  1: split; [|apply Herr]; by apply Hnot, Hs1, (known_same t).
  1: split; apply Herr.
  assert (alike (Boxes.put_row key newBox (abstract t))
            (abstract (Tables.put key (Some newBox, Tables.depositsOf key v) v))) as Halike.
  { apply (alike_put _ _ _ _ (Tables.depositsOf key v)); [apply at_put| |].
    - intros k Hk. rewrite at_put_ne by done. apply Hv'.
    - intros k. change (Boxes.held k (abstract t) = if decide (k = key) then ordered (Tables.depositsOf key v) else Boxes.held k (abstract t)).
      case_decide; [subst|done]. rewrite held_abstract. f_equal. specialize (Htv key). by injection Htv. }
  rewrite (same_boxes v t Hv') in Hrow.
  split; (apply (inserts t _ (Choice.snapshot ch) _ [] []); auto).
Qed.
End Register.
