(* ===== verification/PgxSweep.v ===== *)
(** * The link boxes' sweep over PostgreSQL

    With no other session writing, a sweep keeps the tables sane, takes only what is past its time
    and no more than its bounds, and changes nothing an arm at its time or later can see. *)

From S2P Require Import Prelude StoreTypes LinkBox LinkBoxInv Prog Sql PgxBoxes PgxBoxesProps.

(** ** What its statements do to one key *)

Lemma boxes_put key key' r t :
  Tables.boxes (Tables.put key r t) !! key' = if decide (key' = key) then r.1 else Tables.boxes t !! key'.
Proof. case_decide as E; [subst; exact (f_equal fst (at_put _ r t))|exact (f_equal fst (at_put_ne _ _ r t E))]. Qed.
Lemma depositsOf_put key key' r t :
  Tables.depositsOf key' (Tables.put key r t) = if decide (key' = key) then r.2 else Tables.depositsOf key' t.
Proof. case_decide as E; [subst; exact (f_equal snd (at_put _ r t))|exact (f_equal snd (at_put_ne _ _ r t E))]. Qed.

Lemma at_dropDeposits due t key :
  Tables.at_ key (dropDeposits due t) =
  (Tables.boxes t !! key, filter (λ kv, (key, kv.1) ∉ due) (Tables.depositsOf key t)).
Proof.
  revert t. induction due as [|[k id] due IH]; intros t.
  { cbn. unfold Tables.at_. f_equal. symmetry. apply map_filter_id. intros i x _. apply not_elem_of_nil. }
  change (dropDeposits ((k, id) :: due) t)
    with (dropDeposits due (Tables.put k (Tables.boxes t !! k, delete id (Tables.depositsOf k t)) t)).
  rewrite IH. clear IH. destruct (decide (key = k)) as [->|Hne].
  - rewrite boxes_put, depositsOf_put, !decide_True by done. cbn [fst snd]. f_equal. apply map_eq. intros i. apply option_eq. intros x.
    rewrite !map_lookup_filter_Some, lookup_delete_Some. cbn. rewrite not_elem_of_cons. split.
    + intros [ [Hi Hx] Hd]. split; [done|]. split; [congruence|done].
    + intros [Hx [Hi Hd] ]. split; [split; [congruence|done]|done].
  - rewrite boxes_put, depositsOf_put, !decide_False by done. f_equal. apply map_filter_ext. intros i x _. cbn. rewrite not_elem_of_cons.
    split; [intros H; split; [congruence|done]|by intros [_ H] ].
Qed.

Lemma at_recountBoxes touched t key :
  Tables.at_ key (recountBoxes touched t) =
  (recountRow touched t key <$> Tables.boxes t !! key, Tables.depositsOf key t).
Proof.
  unfold Tables.at_, recountBoxes. cbn. f_equal. rewrite map_lookup_imap.
  by destruct (Tables.boxes t !! key).
Qed.

Lemma at_dropBoxes keys t key :
  Tables.at_ key (dropBoxes keys t) = if decide (key ∈ keys) then (None, ∅) else Tables.at_ key t.
Proof.
  revert t. induction keys as [|k keys IH]; intros t; [by rewrite decide_False by apply not_elem_of_nil|].
  change (dropBoxes (k :: keys) t) with (dropBoxes keys (Tables.put k (None, ∅) t)).
  rewrite IH. destruct (decide (key ∈ keys)) as [Hin|Hin]; [by rewrite decide_True by by right|].
  destruct (decide (key = k)) as [->|Hne].
  - rewrite decide_True by left. apply at_put.
  - rewrite decide_False by (rewrite not_elem_of_cons; done). by apply at_put_ne.
Qed.

(** ** What it leaves *)

Section Swept.
Context (t0 : Tables.t) (now : time) (due : list (list Z * Z)) (gone : list (list Z)).
Hypothesis Hsane : sane t0.
Hypothesis Hdue : ∀ key id, (key, id) ∈ due →
  ∃ row, Tables.depositsOf key t0 !! id = Some row ∧ memoryLinkDepositRow.PruneAfter row <= linkBoxTime now.
Hypothesis Hgone : ∀ key, key ∈ gone →
  ∃ row, Tables.boxes t0 !! key = Some row ∧ memoryLinkBoxRow.ReclaimAfter row <= linkBoxTime now.

Definition recounted_tables : Tables.t := recountBoxes due.*1 (dropDeposits due t0).
Definition swept_tables : Tables.t := dropBoxes gone recounted_tables.
Definition kept (key : list Z) : gmap Z memoryLinkDepositRow.t :=
  filter (λ kv, (key, kv.1) ∉ due) (Tables.depositsOf key t0).
Definition recounted_row (key : list Z) (row : memoryLinkBoxRow.t) : memoryLinkBoxRow.t :=
  if decide (key ∈ due.*1)
  then memoryLinkBoxRow.update (memoryLinkBoxRow.NextDepositId row) (Z.of_nat (size (kept key)))
         (memoryLinkBoxRow.RefusedCount row) (memoryLinkBoxRow.RetiredTime row) row
  else row.

Lemma at_swept key :
  Tables.at_ key swept_tables =
  if decide (key ∈ gone) then (None, ∅) else (recounted_row key <$> Tables.boxes t0 !! key, kept key).
Proof.
  unfold swept_tables. rewrite at_dropBoxes. case_decide; [done|]. unfold recounted_tables.
  rewrite at_recountBoxes. pose proof (at_dropDeposits due t0 key) as E.
  pose proof (f_equal fst E) as E1. pose proof (f_equal snd E) as E2. unfold Tables.at_ in E1, E2. cbn [fst snd] in E1, E2.
  rewrite E1, E2. f_equal. destruct (Tables.boxes t0 !! key); [|done]. cbn. f_equal. unfold recountRow, recounted_row, kept.
  by rewrite E2.
Qed.

Lemma due_expired key row :
  key ∈ due.*1 → Tables.boxes t0 !! key = Some row → memoryLinkBoxRow.ExpireTime row <= linkBoxTime now.
Proof.
  intros ([k id] & -> & Hin)%list_elem_of_fmap Hrow. cbn in *. destruct (Hdue _ _ Hin) as (d & Hd & Hp).
  pose proof (box_rows _ _ _ (inv_box _ (sane_boxes _ Hsane) _ _ Hrow)) as Hr. rewrite held_abstract in Hr.
  assert (d ∈ ordered (Tables.depositsOf k t0)) as Hin'.
  { apply elem_of_ordered; [apply Hsane|]. by rewrite (sane_keyed _ Hsane _ _ _ Hd). }
  eapply Forall_forall in Hr; [|exact Hin']. destruct Hr as [<- _]. done.
Qed.

Lemma gone_expired key row :
  key ∈ gone → Tables.boxes t0 !! key = Some row → memoryLinkBoxRow.ExpireTime row <= linkBoxTime now.
Proof.
  intros Hin Hrow. destruct (Hgone _ Hin) as (row' & Hrow' & Hr). rewrite Hrow in Hrow'. injection Hrow' as <-.
  by rewrite <- (box_reclaim _ _ _ (inv_box _ (sane_boxes _ Hsane) _ _ Hrow)).
Qed.

Lemma kept_all key : key ∉ due.*1 → kept key = Tables.depositsOf key t0.
Proof.
  intros Hn. apply map_filter_id. intros id x _ Hin. apply Hn, list_elem_of_fmap. by exists (key, id).
Qed.

Lemma kept_ordered key :
  keyed (kept key) ∧
  ordered (kept key) = filter (λ d, (key, memoryLinkDepositRow.DepositId d) ∉ due) (ordered (Tables.depositsOf key t0)).
Proof.
  apply ordered_filter; [apply Hsane|]. intros id row Hrow. cbn. by rewrite (sane_keyed _ Hsane _ _ _ Hrow).
Qed.

Lemma recounted_box key row :
  Tables.boxes t0 !! key = Some row → box_ok key (recounted_row key row) (ordered (kept key)).
Proof.
  intros Hrow. pose proof (inv_box _ (sane_boxes _ Hsane) _ _ Hrow) as Hok. rewrite held_abstract in Hok.
  unfold recounted_row. destruct (decide (key ∈ due.*1)) as [_|Hn]; [|by rewrite (kept_all key Hn)].
  rewrite <- ordered_length, (proj2 (kept_ordered key)).
  pose proof (length_filter (λ d, (key, memoryLinkDepositRow.DepositId d) ∉ due) (ordered (Tables.depositsOf key t0))) as Hl.
  pose proof (box_length _ _ _ Hok) as Hb. unfold LinkBoxDeposits in Hb.
  rewrite <- (i32_small (Z.of_nat (length _))) by lia. apply box_ok_filter; [done|]. by apply (box_refused _ _ _ Hok).
Qed.

Lemma swept_sane : sane swept_tables.
Proof.
  assert (∀ key, Tables.depositsOf key swept_tables = (Tables.at_ key swept_tables).2) as Hd by done.
  split; [|split]; intros key; rewrite ?held_abstract, ?Hd.
  - rewrite at_swept. case_decide; [apply map_Forall_empty|apply kept_ordered].
  - change (Boxes.boxes (abstract swept_tables) !! key) with (Tables.at_ key swept_tables).1. rewrite at_swept.
    case_decide; [done|]. cbn. intros row (row0 & Hrow & ->)%fmap_Some. by apply recounted_box.
  - change (Boxes.boxes (abstract swept_tables) !! key) with (Tables.at_ key swept_tables).1. rewrite at_swept.
    case_decide; [intros _; apply ordered_empty|]. cbn. intros Hrow%fmap_None. rewrite (proj2 (kept_ordered key)).
    pose proof (inv_orphan _ (sane_boxes _ Hsane) key Hrow) as Ho. rewrite held_abstract in Ho. by rewrite Ho.
Qed.

Lemma expired_not_live row : memoryLinkBoxRow.ExpireTime row <= linkBoxTime now → Live (linkBox row) now = false.
Proof.
  intros He. unfold Live, Before. apply andb_false_iff. right. cbn. by apply Z.ltb_ge.
Qed.

Lemma swept_agree : agree now (abstract t0) (abstract swept_tables).
Proof.
  intros key. unfold live_part. rewrite !held_abstract.
  change (Boxes.boxes (abstract swept_tables) !! key) with (Tables.at_ key swept_tables).1.
  change (Tables.depositsOf key swept_tables) with (Tables.at_ key swept_tables).2. rewrite at_swept.
  cbn [abstract Boxes.boxes]. destruct (decide (key ∈ gone)) as [Hg|Hg]; cbn [fst snd].
  - destruct (Tables.boxes t0 !! key) as [row|] eqn:Hrow; [|done]. cbn.
    by rewrite (expired_not_live row) by by apply (gone_expired key).
  - destruct (Tables.boxes t0 !! key) as [row|] eqn:Hrow; [|done]. cbn. unfold recounted_row. case_decide as Hd.
    + pose proof (due_expired key row Hd Hrow) as He. rewrite (expired_not_live row) by done.
      by rewrite expired_not_live by done.
    + by rewrite kept_all.
Qed.

Lemma swept_boxes_size : NoDup gone → (size (Tables.boxes swept_tables) + length gone = size (Tables.boxes t0))%nat.
Proof.
  intros Hn. rewrite <- !size_dom. rewrite <- (size_list_to_set (C := gset (list Z)) gone) by done.
  assert (dom (Tables.boxes t0) = dom (Tables.boxes swept_tables) ∪ list_to_set gone) as ->.
  { apply set_eq. intros key. rewrite elem_of_union, !elem_of_dom, elem_of_list_to_set.
    change (Tables.boxes swept_tables !! key) with (Tables.at_ key swept_tables).1. rewrite at_swept.
    case_decide as Hg; cbn; [|rewrite fmap_is_Some; naive_solver].
    destruct (Hgone key Hg) as (row & Hrow & _). naive_solver. }
  rewrite size_union; [done|]. intros key. rewrite elem_of_dom, elem_of_list_to_set.
  change (Tables.boxes swept_tables !! key) with (Tables.at_ key swept_tables).1. rewrite at_swept.
  intros Hs Hg. rewrite decide_True in Hs by done. by destruct Hs.
Qed.
End Swept.

(** ** A session alone *)

Section Alone.
Context (t0 : Tables.t).
Abbreviation session := (Session.t Tables.t (list Z)).

(** No other session changes anything. *)
Definition still (t : Tables.t) : Prop := sane t ∧ same t0 t.

(** What the session's transaction has made of the tables, every change of it locked. *)
Record alone (v : Tables.t) (s : session) : Prop := Alone {
  alone_ok : still (Session.committed s);
  alone_view : same v (Session.view s);
  alone_unlocked key : Session.locked s key = false → Tables.at_ key v = Tables.at_ key t0;
  alone_transaction : Session.inTransaction s = true }.

Lemma alone_others v s s' : rtc (other still) s s' → alone v s → alone v s'.
Proof.
  induction 1 as [|s s1 s2 [Hok Hl Ho El Et Ep] _ IH]; [done|]. intros [H1 H2 H3 H4]. apply IH.
  split; [done| |intros key; rewrite El; apply H3|congruence].
  intros key. destruct (Session.locked s key) eqn:E.
  - etransitivity; [apply H2|]. symmetry. apply (Hl key E).
  - etransitivity; [exact (H3 key E)|]. etransitivity; [|symmetry; exact (Ho key E)]. apply Hok.
Qed.

Lemma alone_fresh s : fresh still true s → alone t0 s.
Proof.
  intros [H1 H2 H3 H4 H5]. split; [done| |done..]. intros key. etransitivity; [apply H1|]. symmetry. apply H2.
Qed.

Section Rules.
Context {A : Type} (Q : outcome A → list (Tables.t * Tables.t) → session → Prop) (HQ : patient Q).

Lemma spec_alone c (k : res PgError (scanned c) → prog (reply scanned) A) v s :
  alone v s →
  (∀ v' ch s1, same v v' → (∃ past, legalChoice c ch v' past) →
     (∀ key, lockedBy c ch v' key = false → Tables.at_ key (execute c ch v').1 = Tables.at_ key v') ∧
     (alone (execute c ch v').1 s1 → spec still (k (execute c ch v').2) Q s1)) →
  (∀ s1, spec still (k (Err ErrDriver)) Q s1) → spec still (Do (Stmt c) k) Q s.
Proof.
  intros Ha Hk He s0 fault ch Ho Hl. pose proof (alone_others _ _ _ Ho Ha) as [H1 H2 H3 H4].
  assert (Session.committed (step (Stmt c) fault ch s0).1 = Session.committed s0) as Ec.
  { destruct fault; cbn; [..|done|]; destruct (execute c ch (Session.view s0)); cbn; by rewrite H4. }
  rewrite Ec. apply spec_quiet; [done|done|].
  destruct fault; [|apply He..].
  destruct (Hk (Session.view s0) ch (perform (Stmt c) ch s0).1 H2 (ex_intro (legalChoice c ch (Session.view s0)) _ Hl)) as [Hrest Hspec].
  cbn [step]. unfold perform in *. cbn [run boxesDatabase locks] in *.
  destruct (execute c ch (Session.view s0)) as [v' r]. cbn [fst snd] in *. apply Hspec. rewrite H4. split; cbn; [done..| |done].
  intros key [Hf1 Hf2]%orb_false_iff. etransitivity; [by apply Hrest|].
  etransitivity; [symmetry; apply (H2 key)|]. by apply H3.
Qed.

Lemma spec_alone_commit (k : res PgError () → prog (reply scanned) A) v s :
  alone v s →
  (∀ t t' s1, still t → same v t' →
     spec still (k (Ok tt)) (λ out l, Q out ((t, t') :: l)) s1 ∧
     spec still (k (Err ErrDriver)) (λ out l, Q out ((t, t') :: l)) s1) →
  (∀ s1, spec still (k (Err ErrDriver)) Q s1) → spec still (Do Commit k) Q s.
Proof.
  intros Ha Hk He s0 fault ch Ho Hl. pose proof (alone_others _ _ _ Ho Ha) as [H1 H2 H3 H4].
  destruct fault; cbn; [apply Hk|apply spec_quiet; [done..|apply He]|apply Hk]; done.
Qed.
End Rules.
End Alone.

(** ** The sweep *)

Section TheSweep.
Context (t0 : Tables.t) (ctx : option Error) (now : time) (bounds : LinkBoxSweepBounds.t).
Abbreviation session := (Session.t Tables.t (list Z)).
Abbreviation cap := (orDefault bounds).

(** One batch, done: sane tables no arm can tell from those before, and what was taken counted
    within the bounds. *)
Definition batch (a : res PgxError LinkBoxesSwept.t) (t t' : Tables.t) : Prop :=
  sane t' ∧ agree now (abstract t) (abstract t') ∧
  ∃ deposits boxes,
    (a = Ok (LinkBoxesSwept.mk (u32 deposits) (u32 boxes) false) ∨ a = Err (DriverError ErrDriver)) ∧
    0 <= deposits <= LinkBoxSweepBounds.Deposits cap ∧ 0 <= boxes <= LinkBoxSweepBounds.Boxes cap ∧
    Z.of_nat (size (Tables.boxes t')) = Z.of_nat (size (Tables.boxes t)) - boxes.

(** A batch, or nothing: refused, skipped for another sweep, or failed. *)
Definition sweeps (out : outcome (res PgxError LinkBoxesSwept.t)) (l : list (Tables.t * Tables.t)) : Prop :=
  at_once batch out l ∨
  Forall quiet l ∧ (out = Returned (Ok (LinkBoxesSwept.mk 0 0 true)) ∨ ∃ e, out = Returned (Err e)).

Lemma sweeps_patient : patient (λ out l (_ : session), sweeps out l).
Proof.
  intros out t t' l _ Hs [H|[Hq H] ]; [left; by apply at_once_quiet|right; split; [by constructor|done] ].
Qed.

Lemma rollback_failed e (s : session) :
  spec (still t0) (Do Rollback (λ _, Return (Err e)) : program _) (λ out l (_ : session), sweeps out l) s.
Proof.
  eapply spec_mono; [|apply spec_rollback]. intros out l _ [-> Hq]. right. split; [done|]. right. by exists e.
Qed.

Lemma batch_same a t t' u u' : same t u → same t' u' → batch a t t' → batch a u u'.
Proof.
  intros H H' (H1 & H2 & d & b & H3 & H4 & H5 & H6). split; [by eapply sane_same|]. split.
  - pose proof (alike_same _ _ H) as [E1 E2]. pose proof (alike_same _ _ H') as [E3 E4].
    intros key. specialize (H2 key). unfold live_part in *. by rewrite <- E1, <- E3, <- E2, <- E4.
  - exists d, b. by rewrite <- (same_boxes t u H), <- (same_boxes t' u' H').
Qed.

Lemma execute_due n limit ch v :
  execute (DeleteDueDeposits n limit) ch v = (dropDeposits (Choice.deposits ch) v, Ok ((Choice.deposits ch).*1)).
Proof. done. Qed.
Lemma execute_reclaimed n limit ch v :
  execute (DeleteReclaimed n limit) ch v = (dropBoxes (Choice.boxes ch) v, Ok (Z.of_nat (length (Choice.boxes ch)))).
Proof. done. Qed.

Lemma recount_same touched t t' : same t t' → same (recountBoxes touched t) (recountBoxes touched t').
Proof.
  intros Hs key. cbn. rewrite !at_recountBoxes. unfold recountRow. by rewrite (same_boxes t t'), (same_deposits t t').
Qed.

(** The second deletion and the commit, the rows the first took being [due]. *)
Lemma reclaim_end due v (s : session) :
  sane t0 → alone t0 v s → Z.of_nat (length due) <= LinkBoxSweepBounds.Deposits cap →
  (∀ key id, (key, id) ∈ due →
    ∃ row, Tables.depositsOf key t0 !! id = Some row ∧ memoryLinkDepositRow.PruneAfter row <= linkBoxTime now) →
  same (recounted_tables t0 due) v →
  spec (still t0)
    (out ← (reclaimed ← query (DeleteReclaimed (linkBoxTime now) (LinkBoxSweepBounds.Boxes cap));
            attempt reclaimed (λ reclaimed,
            committed ← commit;
            attempt committed (λ _,
              Return (Ok (LinkBoxesSwept.mk (u32 (Z.of_nat (length due))) (u32 reclaimed) false)))));
     Do Rollback (λ _, Return out))
    (λ out l (_ : session), sweeps out l) s.
Proof.
  intros Hsane Ha Hlen Hdue Hv. unfold query, commit, call. cbn [mbind prog_mbind prog_bind].
  eapply (spec_alone t0 _ sweeps_patient); [exact Ha| |intros s1; apply rollback_failed].
  intros v' ch s1 Hv' (past & Hn & Hl & Hgone). rewrite execute_reclaimed. cbn [fst snd].
  split.
  { intros key Hk. rewrite at_dropBoxes. cbn in Hk. apply bool_decide_eq_false in Hk. by rewrite decide_False. }
  intros Ha'. cbn [attempt]. set (gone := Choice.boxes ch) in *.
  assert (same (recounted_tables t0 due) v') as Hvv by by transitivity v.
  assert (∀ key, key ∈ gone →
    ∃ row, Tables.boxes t0 !! key = Some row ∧ memoryLinkBoxRow.ReclaimAfter row <= linkBoxTime now) as Hg.
  { intros key Hin. destruct (Hgone key Hin) as (row & Hrow & Hr). rewrite <- (same_boxes _ _ Hvv) in Hrow.
    pose proof (at_recountBoxes due.*1 (dropDeposits due t0) key) as E. fold (recounted_tables t0 due) in E.
    pose proof (f_equal fst E) as E1. cbn [fst Tables.at_] in E1. rewrite Hrow in E1.
    pose proof (f_equal fst (at_dropDeposits due t0 key)) as E2. cbn [fst Tables.at_] in E2. rewrite E2 in E1.
    symmetry in E1. apply fmap_Some in E1 as (row0 & Hrow0 & ->). exists row0. split; [done|].
    unfold recountRow in Hr. by case_decide. }
  eapply (spec_alone_commit t0 _ sweeps_patient); [exact Ha'| |intros s2; apply rollback_failed].
  intros t t' s2 [_ Ht] Ht'. cbn [attempt].
  assert (same (swept_tables t0 due gone) t') as Hst.
  { intros key. rewrite <- (Ht' key). cbn. unfold swept_tables. rewrite !at_dropBoxes. case_decide; [done|]. apply Hvv. }
  assert (∀ a, a = Ok (LinkBoxesSwept.mk (u32 (Z.of_nat (length due))) (u32 (Z.of_nat (length gone))) false) ∨
               a = Err (DriverError ErrDriver) → batch a t t') as Hb.
  { intros a Hres. apply (batch_same a t0 (swept_tables t0 due gone)); [done|done|].
    split; [by apply swept_sane|]. split; [by apply swept_agree|].
    exists (Z.of_nat (length due)), (Z.of_nat (length gone)). split; [done|]. split; [lia|]. split; [lia|].
    pose proof (swept_boxes_size t0 now due gone Hg Hn) as Hsz. lia. }
  split; (eapply spec_mono; [|apply spec_rollback]; intros out l ? H; left; eapply at_once_here; [exact H|apply Hb; auto]).
Qed.

Lemma SweepLinkBoxes_sweeps (s : session) :
  sane t0 → fresh (still t0) false s →
  spec (still t0) (SweepLinkBoxes ctx now bounds) (λ out l (_ : session), sweeps out l) s.
Proof.
  intros Hsane Hf. unfold SweepLinkBoxes. destruct ctx as [e|].
  { right. split; [done|]. right. by exists (StoreError e). }
  unfold transaction, query, commit, call. cbn [mbind prog_mbind prog_bind].
  apply spec_begin; [apply sweeps_patient|done| |intros s1; right; split; [done|]; right; by eexists].
  intros s1 Hf1. cbn [attempt prog_bind]. pose proof (alone_fresh t0 s1 Hf1) as Ha1.
  eapply (spec_alone t0 _ sweeps_patient); [exact Ha1| |intros s2; apply rollback_failed].
  intros v ch s2 Hv _. split; [done|]. intros Ha2. cbn [execute keyOf fst snd attempt prog_bind] in Ha2 |- *.
  destruct (Choice.lockFree ch); cbn [negb prog_bind].
  2:{ eapply spec_mono; [|apply spec_rollback]. intros out l _ [-> Hq]. right. split; [done|]. by left. }
  eapply (spec_alone t0 _ sweeps_patient); [exact Ha2| |intros s3; apply rollback_failed].
  intros v1 ch1 s3 Hv1 (past & Hn & Hl & Hdue). rewrite execute_due. cbn [fst snd]. split.
  { intros key Hk. rewrite at_dropDeposits. unfold Tables.at_. f_equal. apply map_filter_id.
    intros id row _ Hin. cbn in Hk. apply bool_decide_eq_false in Hk. apply Hk, list_elem_of_fmap. by exists (key, id). }
  intros Ha3. set (due := Choice.deposits ch1) in *. cbn [attempt prog_bind].
  assert (same t0 v1) as Ht01 by (by transitivity v).
  assert (∀ key id, (key, id) ∈ due →
    ∃ row, Tables.depositsOf key t0 !! id = Some row ∧ memoryLinkDepositRow.PruneAfter row <= linkBoxTime now) as Hd.
  { intros key id Hin. rewrite (same_deposits t0 v1) by done. by apply Hdue. }
  assert (∀ v', same (dropDeposits due v1) v' → same (recounted_tables t0 due) (recountBoxes due.*1 v')) as Hrec.
  { intros v' Hv'. apply recount_same. intros key. rewrite <- (Hv' key). cbn. rewrite !at_dropDeposits.
    by rewrite (same_boxes t0 v1), (same_deposits t0 v1). }
  case_bool_decide as Htouched.
  - cbn [prog_bind attempt]. rewrite length_fmap.
    apply (reclaim_end due (dropDeposits due v1)); [done..|].
    apply fmap_nil_inv in Htouched. rewrite Htouched in Hrec |- *. intros key. rewrite (Hrec _ (reflexivity _) key).
    cbn. rewrite at_recountBoxes. unfold Tables.at_. f_equal. destruct (Tables.boxes _ !! key); [|done].
    cbn. unfold recountRow. by rewrite decide_False by apply not_elem_of_nil.
  - eapply (spec_alone t0 _ sweeps_patient); [exact Ha3| |intros s4; apply rollback_failed].
    intros v' ch2 s4 Hv' _. cbn [execute keyOf]. destruct (forallb _ _); cbn [fst snd]; (split; [|intros Ha4]).
    + intros key Hk. rewrite at_recountBoxes. cbn in Hk. apply bool_decide_eq_false in Hk. unfold Tables.at_. f_equal.
      destruct (Tables.boxes v' !! key); [|done]. cbn. unfold recountRow. by rewrite decide_False.
    + rewrite length_fmap. apply (reclaim_end due (recountBoxes due.*1 v')); [done..|]. by apply Hrec.
    + done.
    + apply rollback_failed.
Qed.
End TheSweep.
