(* ===== verification/PgxProps.v ===== *)
(** * What the link boxes promise over PostgreSQL

    The theorems of [PgxBoxesProps], [PgxUnlocked] and [PgxSweep] about runs: a method's calls with
    the answers they had, and a session that gave those answers, whatever other sessions did between
    two of them. *)

From S2P Require Import Prelude StoreTypes LinkBox LinkBoxInv LinkBoxProps Prog Sql PgxBoxes PgxBoxesProps PgxUnlocked PgxSweep.

Abbreviation session := (Session.t Tables.t (list Z)).

(** ** The arms *)

(** C34: Over PostgreSQL the arms do what the in-memory arms do.  Take a session that begins with
    nothing locked, and any run of it, other sessions changing between its calls whatever rows it
    has not locked, and any call failing, with or without its effect.  A deposit, a collection, a
    retirement or a read of a box then does at one of its calls, to what was committed there,
    exactly what [LinkBox]'s operation does, answers what that answers, and changes nothing at its
    other calls; or it changes nothing at all and answers an error, the operation's own refusal or
    the driver's.  A commit that took effect without being acknowledged is such an operation with an
    error for its answer. *)
Theorem pgx_arms_implement (s s' : session) tr l :
  fresh sane false s → serves sane s tr l s' →
  (∀ ctx id pub ct now out, runs (DepositLinkBox ctx id pub ct now) tr out →
     implements (λ self, LinkBox.DepositLinkBox ctx self id pub ct now) out l) ∧
  (∀ ctx q now out, (∀ r, q = Some r → 0 <= LinkBoxCollectRequest.AckThroughDepositId r) →
     runs (CollectLinkBox ctx q now) tr out →
     implements (λ self, LinkBox.CollectLinkBox ctx self q now) out l) ∧
  (∀ ctx id pub now out, runs (RetireLinkBox ctx id pub now) tr out →
     implements (λ self, LinkBox.RetireLinkBox ctx self id pub now) out l) ∧
  (∀ ctx id out, runs (LinkBoxOf ctx id) tr out →
     implements (λ self, (self, LinkBox.LinkBoxOf ctx self id)) out l).
Proof.
  intros Hf Hs. split; [|split; [|split] ].
  - intros ctx id pub ct now out Hr. eapply spec_sound; [by apply DepositLinkBox_implements|done..].
  - intros ctx q now out Hq Hr. eapply spec_sound; [by apply CollectLinkBox_implements|done..].
  - intros ctx id pub now out Hr. eapply spec_sound; [by apply RetireLinkBox_implements|done..].
  - intros ctx id out Hr. eapply spec_sound; [by apply LinkBoxOf_implements|done..].
Qed.

(** A registration over PostgreSQL inserts one new box at an id where none stood, having counted
    fewer live boxes than the cap in tables that were committed when it counted ([P] is anything
    that holds of all of them), and whoever registers at once can pass the cap only by having
    counted before the others committed; or it changes nothing, and answers the standing box's
    expiry and count for its own retry, the rate limit when the cap was full and no box stood at
    the id, a refusal, or an error. *)
Lemma pgx_register (P : Tables.t → Prop) (s s' : session) tr l ctx r now ttl liveCap out :
  (∀ t t', same t t' → P t → P t') → 0 <= liveCap →
  fresh (known P) false s → serves (known P) s tr l s' →
  runs (RegisterLinkBox ctx (Some r) now ttl liveCap) tr out →
  registers P r now ttl liveCap out l.
Proof. intros HP Hcap Hf Hs Hr. eapply spec_sound; [by apply RegisterLinkBox_registers|done..]. Qed.

(** A sweep over PostgreSQL, no other session writing, takes at one commit no more deposits and
    boxes than its bounds, answers how many boxes there are fewer, leaves the tables sane, and
    changes nothing an arm at its time or later can see; or it changes nothing, and is skipped for
    another sweep or answers an error. *)
Lemma pgx_sweep (s s' : session) t tr l ctx now bounds out :
  sane t → fresh (still t) false s → serves (still t) s tr l s' →
  runs (SweepLinkBoxes ctx now bounds) tr out → sweeps now bounds out l.
Proof. intros Ht Hf Hs Hr. eapply spec_sound; [by apply SweepLinkBoxes_sweeps|done..]. Qed.

(** ** Witnesses *)

Definition tables1 : Tables.t := Tables.mk (Boxes.boxes box1) ∅.
Definition session1 : session := Session.mk tables1 tables1 false nothing [].
Definition choice1 : Choice.t := Choice.mk tables1 true [] [].
Definition fine : list (Fault * Choice.t) := repeat (Fine, choice1) 9.

Lemma tables1_sane : sane tables1.
Proof.
  assert (Boxes.deposits box1 = ∅) as Hd by (vm_compute; reflexivity).
  pose proof (box_reachable_inv _ box1_reachable) as Hi. split.
  - intros key. apply map_Forall_empty.
  - eapply alike_inv; [|exact Hi]. split; [reflexivity|]. intros key. rewrite held_abstract.
    unfold Boxes.held. by rewrite Hd.
Qed.
Lemma session1_fresh ok : ok tables1 → fresh ok false session1.
Proof. intros Hok. by split. Qed.

(** One call of a run. *)
Ltac one_call := eapply all_permitted_do; [vm_compute; reflexivity| |]; cbn [permitted legal boxesDatabase legalChoice].

(** A box retired over PostgreSQL. *)
Lemma pgx_arms_implement_witness :
  ∃ l, implements (λ self, LinkBox.RetireLinkBox None self rid collectKey (2 * Second))
         (Returned (Ok (LinkBoxRetired.mk REASON_OK 0))) l.
Proof.
  destruct (driven sane (RetireLinkBox None rid collectKey (2 * Second)) fine session1
              (Returned (Ok (LinkBoxRetired.mk REASON_OK 0)))) as (tr & l & s' & Hr & Hs).
  - vm_compute; reflexivity.
  - do 6 (one_call; [exact I|]). exact I.
  - exists l. exact (proj1 (proj2 (proj2 (pgx_arms_implement session1 s' tr l (session1_fresh sane tables1_sane) Hs)))
                       None rid collectKey (2 * Second) _ Hr).
Defined.

(** A second box registered, the cap at two. *)
Definition rid2 : slice := Some (replicate 32 8).
Definition registration2 : LinkBoxRegistration.t := LinkBoxRegistration.mk rid2 depositKey collectKey card.
Lemma pgx_register_witness :
  ∃ l, registers (λ _, True) registration2 (2 * Second) ten_minutes 2
         (Returned (Ok (LinkBoxRegistered.mk REASON_OK (602 * Second) 0))) l.
Proof.
  destruct (driven (known (λ _, True)) (RegisterLinkBox None (Some registration2) (2 * Second) ten_minutes 2) fine session1
              (Returned (Ok (LinkBoxRegistered.mk REASON_OK (602 * Second) 0)))) as (tr & l & s' & Hr & Hs).
  - vm_compute; reflexivity.
  - one_call; [left|exact I].
  - exists l. refine (pgx_register (λ _, True) session1 s' tr l None registration2 (2 * Second) ten_minutes 2 _ _ _ _ Hs Hr);
      [done|done|]. apply session1_fresh. split; [exact tables1_sane|done].
Defined.

(** The box past its time, swept. *)
Definition choice2 : Choice.t := Choice.mk tables1 true [] [octets rid].
Lemma pgx_sweep_witness :
  ∃ l, sweeps (700 * Second) (LinkBoxSweepBounds.mk 0 0) (Returned (Ok (LinkBoxesSwept.mk 0 1 false))) l.
Proof.
  destruct (driven (still tables1) (SweepLinkBoxes None (700 * Second) (LinkBoxSweepBounds.mk 0 0)) (repeat (Fine, choice2) 9) session1
              (Returned (Ok (LinkBoxesSwept.mk 0 1 false)))) as (tr & l & s' & Hr & Hs).
  - vm_compute; reflexivity.
  - one_call; [exact I|]. one_call; [exact I|].
    one_call; [split; [constructor|]; split; [vm_compute; discriminate|by intros ? ? ?%not_elem_of_nil]|].
    one_call; [split; [apply NoDup_singleton|]; split; [vm_compute; discriminate|] |].
    { intros key ->%list_elem_of_singleton. 
      match goal with |- ∃ row, ?m !! ?k = Some row ∧ _ =>
        assert (memoryLinkBoxRow.ReclaimAfter <$> m !! k = Some (601 * Second)) as H by (vm_compute; reflexivity) end.
      apply fmap_Some in H as (row & Hrow & E). exists row. split; [exact Hrow|]. rewrite <- E.
      apply Z.leb_le. vm_compute. reflexivity. }
    one_call; [exact I|]. one_call; [exact I|]. exact I.
  - exists l. refine (pgx_sweep session1 s' tables1 tr l None (700 * Second) (LinkBoxSweepBounds.mk 0 0) _ tables1_sane _ Hs Hr).
    apply session1_fresh. split; [exact tables1_sane|done].
Defined.
