(* ===== verification/PgxRecord.v ===== *)
(** * Keys and records as rows ([store/pgx.go], §5.5's wrap and migration 003's row)

    An epoch's keys go into the database wrapped under a key of the vault, bound to the row they are
    for; a record goes into the columns of [message_record], its attachment decomposed into those of
    migration 005c, and comes back out of them with the keys its epoch's row still holds.  AES-GCM
    and the timestamps of the database are parameters, with their documented laws. *)

From S2P Require Import Prelude Sha256 StoreTypes Retention MemoryStore Sql.

(** ** The vault's keys *)

(** [cipher.AEAD], as [aes.NewCipher] and [cipher.NewGCM] make one of 32 octets. *)
Class Vault := {
  AEAD : Type;
  NewGCM : list Z → option AEAD;
  Seal : AEAD → list Z → list Z → list Z → list Z;
  Open : AEAD → list Z → list Z → list Z → option (list Z) }.

Class VaultLaws `{V : Vault} : Prop := {
  NewGCM_ok kek : length kek = 32%nat → is_Some (NewGCM kek);
  Open_Seal aead nonce key aad : length nonce = 12%nat → Open aead nonce (Seal aead nonce key aad) aad = Some key;
  Seal_length aead nonce key aad : length (Seal aead nonce key aad) = (length key + 16)%nat }.

Definition wrapSize : Z := 1 + 12 + EpochKeyBytes + 16.
Definition wrapWriteKey : Z := 0.
Definition wrapReadKey : Z := 1.

(** [binary.BigEndian.AppendUint64]'s eight octets. *)
Definition bigEndian64 (z : Z) : list Z := (λ i, u8 (Z.shiftr z (8 * i))) <$> [7; 6; 5; 4; 3; 2; 1; 0].

Definition kekLabel : list Z := (λ c, Z.of_N (Ascii.N_of_ascii c)) <$> String.list_ascii_of_string "URmessage/v1/kek".

Definition kekAad (id label : Z) (groupId : slice) (epoch : Z) : list Z :=
  kekLabel ++ [id; label] ++ octets groupId ++ bigEndian64 epoch.

Module KekRing.
Record t (AEAD : Type) := mk { current : Z; keys : gmap Z AEAD }.
Arguments mk {AEAD} current keys.
Arguments current {AEAD} t.
Arguments keys {AEAD} t.
End KekRing.

Section Kek.
Context `{V : Vault}.
Abbreviation KekRing := (KekRing.t AEAD).

Definition Add (self : KekRing) (id : Z) (kek : slice) : KekRing * option KekError :=
  if negb (len kek =? 32) then (self, Some errKekCorrupt)
  else match NewGCM (octets kek) with
       | None => (self, Some errCipher)
       | Some aead => (KekRing.mk (KekRing.current self) (<[id := aead]> (KekRing.keys self)), None)
       end.

Definition NewKekRing (id : Z) (kek : slice) : res KekError KekRing :=
  match Add (KekRing.mk id ∅) id kek with
  | (_, Some e) => Err e
  | (ring, None) => Ok ring
  end.

(** [nonce] is what [rand.Read] gives, [None] for its error. *)
Definition wrap (self : KekRing) (nonce : option (list Z)) (key : slice) (label : Z) (groupId : slice) (epoch : Z) :
    res PgxError slice :=
  match checkLength key EpochKeyBytes with
  | Some e => Err (StoreError e)
  | None =>
      match KekRing.keys self !! KekRing.current self with
      | None => Err (KeyError errKekUnknown)
      | Some aead =>
          match nonce with
          | None => Err (KeyError errRandom)
          | Some nonce =>
              Ok (Some (KekRing.current self :: nonce ++
                        Seal aead nonce (octets key) (kekAad (KekRing.current self) label groupId epoch)))
          end
      end
  end.

Definition unwrap (self : KekRing) (wrapped : slice) (label : Z) (groupId : slice) (epoch : Z) : res PgxError slice :=
  if negb (len wrapped =? wrapSize) then Err (KeyError errKekCorrupt)
  else match octets wrapped with
       | [] => Err (KeyError errKekCorrupt)
       | id :: rest =>
           match KekRing.keys self !! id with
           | None => Err (KeyError errKekUnknown)
           | Some aead =>
               match Open aead (take 12 rest) (drop 12 rest) (kekAad id label groupId epoch) with
               | Some key => Ok (Some key)
               | None => Err (KeyError errKekCorrupt)
               end
           end
       end.

(** A wrap opens, in its own row, in every ring that still holds its key. *)
Lemma unwrap_wrap `{!VaultLaws} (self ring : KekRing) nonce key label groupId epoch w :
  wrap self (Some nonce) key label groupId epoch = Ok w → length nonce = 12%nat →
  KekRing.keys ring !! KekRing.current self = KekRing.keys self !! KekRing.current self →
  len w = wrapSize ∧ unwrap ring w label groupId epoch = Ok key.
Proof.
  unfold wrap, checkLength. destruct (Z.eqb_spec (len key) EpochKeyBytes) as [Hlen|]; [|done]. cbn [negb].
  destruct (KekRing.keys self !! KekRing.current self) as [aead|] eqn:Ha; [|done]. intros [= <-] Hn Hr.
  assert (len (Some (KekRing.current self :: nonce ++ Seal aead nonce (octets key) (kekAad (KekRing.current self) label groupId epoch))) = wrapSize)
    as Hw.
  { unfold len. cbn [octets default]. unfold len, EpochKeyBytes in Hlen. cbn. rewrite length_app, Hn, Seal_length.
    unfold wrapSize, EpochKeyBytes. lia. }
  split; [exact Hw|]. unfold unwrap. rewrite Hw, Z.eqb_refl. cbn [negb octets default id]. cbn. rewrite Hr.
  rewrite take_app_length' by done. rewrite drop_app_length' by done. rewrite Open_Seal by done.
  destruct key; [done|]. by unfold len, EpochKeyBytes in Hlen.
Qed.
End Kek.

(** ** A row of [message_record] (003, 005c, 010 and 012) *)

Module messageRecord.
Record t := mk {
  record_id : Z;
  sender_handle : slice;
  epoch : Z;
  stream_index : Z;
  is_commit : bool;
  retention_class : Z;
  eph_window : Z;
  size_bucket : Z;
  expire_at : option time;
  prune_after : option time;
  pruned : bool;
  policy_version : Z;
  body_hash : slice;
  ct_head : slice;
  ct_body : slice;
  blob_id : slice;
  server_attachment : slice;
  recovery_handle : slice;
  wrap_target_handle : slice;
  create_time : time;
  attachment_kind : Z;
  attachment_epoch : option Z;
  attachment_alg_id : option Z;
  attachment_media_ttl_seconds : option Z;
  attachment_durable_ttl_seconds : option Z;
  attachment_group_context_hash : slice;
  attachment_expected_wrap_count : option Z;
  attachment_leaf_index : option Z;
  attachment_verify_pub : slice;
  attachment_wrap_count : option Z;
  attachment_epoch_keys_digest : slice }.
Definition set_ct_body (b : slice) (r : t) : t :=
  mk (record_id r) (sender_handle r) (epoch r) (stream_index r) (is_commit r) (retention_class r) (eph_window r)
    (size_bucket r) (expire_at r) (prune_after r) (pruned r) (policy_version r) (body_hash r) (ct_head r) b
    (blob_id r) (server_attachment r) (recovery_handle r) (wrap_target_handle r) (create_time r)
    (attachment_kind r) (attachment_epoch r) (attachment_alg_id r) (attachment_media_ttl_seconds r)
    (attachment_durable_ttl_seconds r) (attachment_group_context_hash r) (attachment_expected_wrap_count r)
    (attachment_leaf_index r) (attachment_verify_pub r) (attachment_wrap_count r) (attachment_epoch_keys_digest r).
Definition set_times (expire prune : option time) (create : time) (r : t) : t :=
  mk (record_id r) (sender_handle r) (epoch r) (stream_index r) (is_commit r) (retention_class r) (eph_window r)
    (size_bucket r) expire prune (pruned r) (policy_version r) (body_hash r) (ct_head r) (ct_body r)
    (blob_id r) (server_attachment r) (recovery_handle r) (wrap_target_handle r) create
    (attachment_kind r) (attachment_epoch r) (attachment_alg_id r) (attachment_media_ttl_seconds r)
    (attachment_durable_ttl_seconds r) (attachment_group_context_hash r) (attachment_expected_wrap_count r)
    (attachment_leaf_index r) (attachment_verify_pub r) (attachment_wrap_count r) (attachment_epoch_keys_digest r).
End messageRecord.

(** ** Into the columns *)

(** The kind as its number, [iota] from [AttachmentNone]. *)
Definition kindNumber (kind : AttachmentKind) : Z :=
  match kind with
  | AttachmentNone => 0
  | AttachmentEpoch => 1
  | AttachmentWrap => 2
  | AttachmentRecovery => 3
  | AttachmentEpochComplete => 4
  | AttachmentEpochDigest => 5
  end.

Module attachmentColumns.
Record t := mk {
  kind : Z;
  epoch : option Z;
  algId : option Z;
  mediaTtl : option Z;
  durableTtl : option Z;
  groupContextHash : slice;
  expectedWrapCount : option Z;
  leafIndex : option Z;
  verifyPub : slice;
  wrapCount : option Z;
  recoveryHandle : slice;
  wrapTarget : slice;
  epochKeysDigest : slice }.
Definition none (kind : Z) : t := mk kind None None None None None None None None None None None None.
End attachmentColumns.

Definition projectAttachment (record : Rec.t) : attachmentColumns.t :=
  let kind := kindNumber (attachmentKindOf record) in
  let columns := attachmentColumns.none kind in
  match Rec.Attachment record with
  | None => columns
  | Some attachment =>
      match Attachment.Kind attachment with
      | AttachmentEpoch =>
          match Attachment.Epoch attachment with
          | Some epoch =>
              attachmentColumns.mk kind (Some (i64 (EpochAttachment.Epoch epoch)))
                (Some (EpochAttachment.AlgId epoch)) (Some (EpochAttachment.MediaTtlSeconds epoch))
                (Some (EpochAttachment.DurableTtlSeconds epoch)) (EpochAttachment.GroupContextHash epoch)
                (Some (EpochAttachment.ExpectedWrapCount epoch)) None None None None None None
          | None => columns
          end
      | AttachmentWrap =>
          match Attachment.Wrap attachment with
          | Some tag =>
              attachmentColumns.mk kind None None None None None None (Some (WrapTag.LeafIndex tag)) None None None
                (WrapTag.TargetHandle tag) None
          | None => columns
          end
      | AttachmentRecovery =>
          match Attachment.Recovery attachment with
          | Some tag =>
              attachmentColumns.mk kind None (Some (RecoveryTag.AlgId tag)) None None None None None
                (RecoveryTag.VerifyPub tag) None (RecoveryTag.Handle tag) None None
          | None => columns
          end
      | AttachmentEpochComplete =>
          match Attachment.EpochComplete attachment with
          | Some marker =>
              attachmentColumns.mk kind (Some (i64 (EpochCompleteTag.Epoch marker))) None None None None None None
                None (Some (EpochCompleteTag.WrapCount marker)) None None None
          | None => columns
          end
      | AttachmentEpochDigest =>
          match Attachment.EpochDigest attachment with
          | Some digest =>
              attachmentColumns.mk kind (Some (i64 (EpochDigestAttachment.Epoch digest)))
                (Some (EpochDigestAttachment.AlgId digest)) (Some (EpochDigestAttachment.MediaTtlSeconds digest))
                (Some (EpochDigestAttachment.DurableTtlSeconds digest)) (EpochDigestAttachment.GroupContextHash digest)
                (Some (EpochDigestAttachment.ExpectedWrapCount digest)) None None None None None
                (EpochDigestAttachment.EpochKeysDigest digest)
          | None => columns
          end
      | AttachmentNone => columns
      end
  end.

(** [expireAt]: [time.UnixMilli] of the milliseconds, zero for none. *)
Definition expireAt (milliseconds : Z) : option time :=
  if milliseconds =? 0 then None else Some (unixToInternal * Second + i64 milliseconds * Millisecond).

Definition durableColumn (seconds : option Z) : option Z := i32 <$> seconds.

(** The values [insertRecord] sends. *)
Definition recordColumns (record : Rec.t) (now : time) (prune : option time) (policyVersion : Z) : messageRecord.t :=
  let a := projectAttachment record in
  messageRecord.mk (i64 (Rec.RecordId record)) (Rec.SenderHandle record) (i64 (Rec.Epoch record))
    (i64 (Rec.StreamIndex record)) (Rec.IsCommit record) (Rec.RetentionClass record) (i64 (Rec.EphWindow record))
    (Rec.SizeBucket record) (expireAt (Rec.ExpireAtMs record)) prune false (i32 policyVersion)
    (Rec.BodyHash record) (Rec.CtHead record) (Rec.CtBody record) (Rec.BlobId record) (Rec.ServerAttachment record)
    (attachmentColumns.recoveryHandle a) (attachmentColumns.wrapTarget a) now
    (attachmentColumns.kind a) (attachmentColumns.epoch a) (attachmentColumns.algId a)
    (attachmentColumns.mediaTtl a) (attachmentColumns.durableTtl a)
    (attachmentColumns.groupContextHash a) (attachmentColumns.expectedWrapCount a)
    (attachmentColumns.leafIndex a) (attachmentColumns.verifyPub a) (attachmentColumns.wrapCount a)
    (attachmentColumns.epochKeysDigest a).

(** ** Out of the columns *)

(** One scanned row: the record's columns, and its attachment's epoch's wraps.  The pointers a left
    join without a page leaves nil are the [None] of whoever holds such a row. *)
Module storedRecord.
Record t := mk { columns : messageRecord.t; writeWrapped : slice; readWrapped : slice }.
End storedRecord.

Section Scan.
Context `{V : Vault}.
Abbreviation KekRing := (KekRing.t AEAD).

(** [if writeWrapped != nil { ... unwrap ... }] *)
Definition unwrapped (self : KekRing) (wrapped : slice) (label : Z) (groupId : slice) (epoch : Z) : res PgxError slice :=
  match wrapped with None => Ok None | Some _ => unwrap self wrapped label groupId epoch end.

(** A pointer that may be nil, converted to a width. *)
Definition orZero (width : Z → Z) (value : option Z) : Z := match value with Some v => width v | None => 0 end.

Definition attachmentOf (self : KekRing) (groupId : slice) (row : storedRecord.t) : res PgxError (option Attachment.t) :=
  let c := storedRecord.columns row in
  let epoch := orZero u64 (messageRecord.attachment_epoch c) in
  let algId := orZero u32 (messageRecord.attachment_alg_id c) in
  let media := orZero u32 (messageRecord.attachment_media_ttl_seconds c) in
  let durable := orZero u32 (messageRecord.attachment_durable_ttl_seconds c) in
  let expected := orZero u32 (messageRecord.attachment_expected_wrap_count c) in
  let kind := u8 (messageRecord.attachment_kind c) in
  if kind =? 1 then
    res_bind (unwrapped self (storedRecord.writeWrapped row) wrapWriteKey groupId epoch) (λ writeKey,
    res_bind (unwrapped self (storedRecord.readWrapped row) wrapReadKey groupId epoch) (λ readKey,
    Ok (Some (Attachment.mk AttachmentEpoch
                (Some (EpochAttachment.mk epoch writeKey readKey algId media durable
                         (messageRecord.attachment_group_context_hash c) expected)) None None None None))))
  else if kind =? 2 then
    Ok (Some (Attachment.mk AttachmentWrap None
                (Some (WrapTag.mk (messageRecord.wrap_target_handle c) (orZero u32 (messageRecord.attachment_leaf_index c))))
                None None None))
  else if kind =? 3 then
    Ok (Some (Attachment.mk AttachmentRecovery None None
                (Some (RecoveryTag.mk (messageRecord.recovery_handle c) (messageRecord.attachment_verify_pub c) algId))
                None None))
  else if kind =? 4 then
    Ok (Some (Attachment.mk AttachmentEpochComplete None None None
                (Some (EpochCompleteTag.mk epoch (orZero u32 (messageRecord.attachment_wrap_count c)))) None))
  else if kind =? 5 then
    Ok (Some (Attachment.mk AttachmentEpochDigest None None None None
                (Some (EpochDigestAttachment.mk epoch algId media durable
                         (messageRecord.attachment_group_context_hash c) expected
                         (messageRecord.attachment_epoch_keys_digest c)))))
  else Ok None.

Definition recordOf (self : KekRing) (groupId : slice) (row : storedRecord.t) : res PgxError Rec.t :=
  let c := storedRecord.columns row in
  res_bind (attachmentOf self groupId row) (λ attachment,
  Ok (Rec.mk (messageRecord.sender_handle c) (u64 (messageRecord.epoch c)) (u64 (messageRecord.stream_index c))
        (messageRecord.is_commit c) (u8 (messageRecord.retention_class c)) (u64 (messageRecord.eph_window c))
        (u8 (messageRecord.size_bucket c))
        (match messageRecord.expire_at c with Some t => u64 (UnixMilli t) | None => 0 end)
        (messageRecord.body_hash c) (messageRecord.ct_head c) (messageRecord.ct_body c) (messageRecord.blob_id c)
        (messageRecord.server_attachment c) attachment (u64 (messageRecord.record_id c))
        (messageRecord.prune_after c))).
End Scan.

(** ** Timestamps *)

(** What a [timestamp] column keeps of an instant, [None] if the driver or the database refuses it. *)
Class Timestamps := { timestamp : time → option time }.

(** Microseconds, from 4713 BC to the year 294276: here from Go's zero Time on. *)
Definition timestampEnd : time := unixToInternal * Second + 9224318016000000 * Millisecond.
Class TimestampLaws `{T : Timestamps} : Prop := {
  timestamp_ok t : 0 <= t < timestampEnd → timestamp t = Some (truncate_micro t) }.

Section Store.
Context `{T : Timestamps}.

Definition timestamps (t : option time) : option (option time) :=
  match t with None => Some None | Some t => Some <$> timestamp t end.

(** The row as the table keeps it. *)
Definition storedColumns (row : messageRecord.t) : option messageRecord.t :=
  expire ← timestamps (messageRecord.expire_at row);
  prune ← timestamps (messageRecord.prune_after row);
  create ← timestamp (messageRecord.create_time row);
  Some (messageRecord.set_times expire prune create row).
End Store.

(** ** There and back *)

(** The ranges of a record's Go types. *)
Record typed (r : Rec.t) : Prop := Typed {
  typed_epoch : 0 <= Rec.Epoch r < two64;
  typed_index : 0 <= Rec.StreamIndex r < two64;
  typed_class : 0 <= Rec.RetentionClass r < 256;
  typed_window : 0 <= Rec.EphWindow r < two64;
  typed_bucket : 0 <= Rec.SizeBucket r < 256;
  typed_id : 0 <= Rec.RecordId r < two64;
  typed_attachment : match Rec.Attachment r with
    | None => True
    | Some a =>
        (∀ e, Attachment.Epoch a = Some e → 0 <= EpochAttachment.Epoch e < two64 ∧ 0 <= EpochAttachment.AlgId e < two32 ∧
           0 <= EpochAttachment.MediaTtlSeconds e < two32 ∧ 0 <= EpochAttachment.DurableTtlSeconds e < two32 ∧
           0 <= EpochAttachment.ExpectedWrapCount e < two32) ∧
        (∀ w, Attachment.Wrap a = Some w → 0 <= WrapTag.LeafIndex w < two32) ∧
        (∀ t, Attachment.Recovery a = Some t → 0 <= RecoveryTag.AlgId t < two32) ∧
        (∀ m, Attachment.EpochComplete a = Some m →
           0 <= EpochCompleteTag.Epoch m < two64 ∧ 0 <= EpochCompleteTag.WrapCount m < two32) ∧
        (∀ d, Attachment.EpochDigest a = Some d → 0 <= EpochDigestAttachment.Epoch d < two64 ∧
           0 <= EpochDigestAttachment.AlgId d < two32 ∧ 0 <= EpochDigestAttachment.MediaTtlSeconds d < two32 ∧
           0 <= EpochDigestAttachment.DurableTtlSeconds d < two32 ∧
           0 <= EpochDigestAttachment.ExpectedWrapCount d < two32)
    end }.

(** An attachment with the one part its kind names, and none for no kind. *)
Definition proper (attachment : option Attachment.t) : Prop :=
  match attachment with
  | None => True
  | Some (Attachment.mk kind epoch wrap recovery complete digest) =>
      match kind with
      | AttachmentNone => False
      | AttachmentEpoch => is_Some epoch ∧ wrap = None ∧ recovery = None ∧ complete = None ∧ digest = None
      | AttachmentWrap => is_Some wrap ∧ epoch = None ∧ recovery = None ∧ complete = None ∧ digest = None
      | AttachmentRecovery => is_Some recovery ∧ epoch = None ∧ wrap = None ∧ complete = None ∧ digest = None
      | AttachmentEpochComplete => is_Some complete ∧ epoch = None ∧ wrap = None ∧ recovery = None ∧ digest = None
      | AttachmentEpochDigest => is_Some digest ∧ epoch = None ∧ wrap = None ∧ recovery = None ∧ complete = None
      end
  end.

(** The attachment with the keys its epoch's row holds by now. *)
Definition withKeys (writeKey readKey : slice) (attachment : Attachment.t) : Attachment.t :=
  match Attachment.Kind attachment, Attachment.Epoch attachment with
  | AttachmentEpoch, Some e =>
      Attachment.mk (Attachment.Kind attachment)
        (Some (EpochAttachment.mk (EpochAttachment.Epoch e) writeKey readKey (EpochAttachment.AlgId e)
                 (EpochAttachment.MediaTtlSeconds e) (EpochAttachment.DurableTtlSeconds e)
                 (EpochAttachment.GroupContextHash e) (EpochAttachment.ExpectedWrapCount e)))
        (Attachment.Wrap attachment) (Attachment.Recovery attachment) (Attachment.EpochComplete attachment)
        (Attachment.EpochDigest attachment)
  | _, _ => attachment
  end.

(** A record as it is handed out. *)
Definition servedRecord (writeKey readKey : slice) (prune : option time) (r : Rec.t) : Rec.t :=
  Rec.mk (Rec.SenderHandle r) (Rec.Epoch r) (Rec.StreamIndex r) (Rec.IsCommit r) (Rec.RetentionClass r)
    (Rec.EphWindow r) (Rec.SizeBucket r) (Rec.ExpireAtMs r) (Rec.BodyHash r) (Rec.CtHead r) (Rec.CtBody r)
    (Rec.BlobId r) (Rec.ServerAttachment r) (withKeys writeKey readKey <$> Rec.Attachment r) (Rec.RecordId r) prune.

Lemma u64_i64 z : 0 <= z < two64 → u64 (i64 z) = z.
Proof.
  intros Hz. unfold u64, i64. rewrite Zminus_mod_idemp_l. rewrite Z.add_simpl_r. by apply Z.mod_small.
Qed.
Lemma u32_i32 z : 0 <= z < two32 → u32 (i32 z) = z.
Proof.
  intros Hz. unfold u32, i32. rewrite Zminus_mod_idemp_l, Z.add_simpl_r. by apply Z.mod_small.
Qed.
Lemma i64_u64 z : - two63 <= z < two63 → i64 (u64 z) = z.
Proof.
  intros Hz. unfold i64, u64. rewrite Zplus_mod_idemp_l. fold (i64 z). by apply i64_small.
Qed.

Lemma truncate_milli n : truncate_micro (unixToInternal * Second + n * Millisecond) = unixToInternal * Second + n * Millisecond.
Proof.
  unfold truncate_micro, Second, Millisecond, Microsecond, unixToInternal.
  replace (62135596800 * (1000 * (1000 * 1000)) + n * (1000 * 1000)) with ((62135596800 * (1000 * 1000) + n * 1000) * 1000) by lia.
  rewrite Z_mod_mult. lia.
Qed.

Lemma UnixMilli_milli n : - two63 <= n < two63 → UnixMilli (unixToInternal * Second + n * Millisecond) = n.
Proof.
  intros Hn. unfold UnixMilli. replace (unixToInternal * Second + n * Millisecond - unixToInternal * Second) with (n * Millisecond) by lia.
  rewrite Z.div_mul by done. by apply i64_small.
Qed.

Section RoundTrip.
Context `{V : Vault} `{T : Timestamps} `{L : !TimestampLaws}.
Context (ring : KekRing.t AEAD) (groupId : slice).

(** An expiry is whole milliseconds, so the column keeps it as it is. *)
Lemma expire_kept ms x : 0 <= ms < 9224318016000000 → timestamps (expireAt ms) = Some x → x = expireAt ms.
Proof.
  intros Hms. unfold expireAt. destruct (Z.eqb_spec ms 0) as [->|Hne]; cbn; [by intros [= <-]|].
  rewrite i64_small by (unfold two63; lia). rewrite timestamp_ok.
  2:{ unfold timestampEnd, unixToInternal, Second, Millisecond, Microsecond. lia. }
  cbn. intros [= <-]. by rewrite truncate_milli.
Qed.
Lemma expire_back ms :
  0 <= ms < 9224318016000000 → match expireAt ms with Some t => u64 (UnixMilli t) | None => 0 end = ms.
Proof.
  intros Hms. unfold expireAt. destruct (Z.eqb_spec ms 0) as [->|Hne]; [done|].
  rewrite i64_small by (unfold two63; lia). rewrite UnixMilli_milli by (unfold two63; lia).
  apply u64_small. unfold two64. lia.
Qed.

(** The row an insert leaves: the columns it was sent, at the times the database keeps. *)
Lemma storedColumns_Some r now prune policy row :
  0 <= Rec.ExpireAtMs r < 9224318016000000 → storedColumns (recordColumns r now prune policy) = Some row →
  ∃ c p, timestamp now = Some c ∧ timestamps prune = Some p ∧ row = recordColumns r c p policy.
Proof.
  intros Hm. unfold storedColumns.
  destruct (timestamps (messageRecord.expire_at _)) as [x|] eqn:Hx; [|done]. cbn.
  destruct (timestamps prune) as [p|]; [|done]. cbn. destruct (timestamp now) as [c|]; [|done]. cbn.
  intros [= <-]. apply expire_kept in Hx as ->; [|done]. by exists c, p.
Qed.

(** The epoch an attachment of the first kind names. *)
Definition attachmentEpochOf (r : Rec.t) : Z :=
  match Rec.Attachment r ≫= Attachment.Epoch with Some e => EpochAttachment.Epoch e | None => 0 end.

Lemma attachment_back r now prune policy w rd wk rk :
  typed r → proper (Rec.Attachment r) →
  (attachmentKindOf r = AttachmentEpoch →
     unwrapped ring w wrapWriteKey groupId (attachmentEpochOf r) = Ok wk ∧
     unwrapped ring rd wrapReadKey groupId (attachmentEpochOf r) = Ok rk) →
  attachmentOf ring groupId (storedRecord.mk (recordColumns r now prune policy) w rd) =
  Ok (withKeys wk rk <$> Rec.Attachment r).
Proof.
  intros [_ _ _ _ _ _ Ht] Hp Hk. unfold attachmentOf, recordColumns, projectAttachment, attachmentEpochOf, attachmentKindOf in *.
  destruct (Rec.Attachment r) as [ [kind e wr re co di]|]; [|done]. cbn in Ht, Hp, Hk.
  destruct Ht as (H1 & H2 & H3 & H4 & H5).
  destruct kind; [done|..]; destruct Hp as ([a ->] & -> & -> & -> & ->); destruct a; cbn.
  - specialize (H1 _ eq_refl) as (? & ? & ? & ? & ?). cbn in *. destruct (Hk eq_refl) as [E1 E2].
    rewrite !u64_i64, E1, E2, !u32_small by lia. done.
  - specialize (H2 _ eq_refl). cbn in *. by rewrite u32_small by lia.
  - specialize (H3 _ eq_refl). cbn in *. by rewrite u32_small by lia.
  - specialize (H4 _ eq_refl) as [? ?]. cbn in *. by rewrite u64_i64, u32_small by lia.
  - specialize (H5 _ eq_refl) as (? & ? & ? & ? & ?). cbn in *. by rewrite u64_i64, !u32_small by lia.
Qed.

(** A record read back out of its columns. *)
Lemma columns_back r now prune policy w rd wk rk :
  typed r → proper (Rec.Attachment r) → 0 <= Rec.ExpireAtMs r < 9224318016000000 →
  (attachmentKindOf r = AttachmentEpoch →
     unwrapped ring w wrapWriteKey groupId (attachmentEpochOf r) = Ok wk ∧
     unwrapped ring rd wrapReadKey groupId (attachmentEpochOf r) = Ok rk) →
  recordOf ring groupId (storedRecord.mk (recordColumns r now prune policy) w rd) = Ok (servedRecord wk rk prune r).
Proof.
  intros Ht Hp Hm Hk. unfold recordOf. rewrite (attachment_back r now prune policy w rd wk rk Ht Hp Hk). cbn.
  rewrite expire_back by done. destruct Ht. unfold servedRecord.
  rewrite !u64_i64 by done. unfold u8. by rewrite !Z.mod_small by lia.
Qed.

(** A record written to its columns and read back. *)
Lemma record_back r now prune policy row w rd wk rk :
  typed r → proper (Rec.Attachment r) → 0 <= Rec.ExpireAtMs r < 9224318016000000 →
  (attachmentKindOf r = AttachmentEpoch →
     unwrapped ring w wrapWriteKey groupId (attachmentEpochOf r) = Ok wk ∧
     unwrapped ring rd wrapReadKey groupId (attachmentEpochOf r) = Ok rk) →
  storedColumns (recordColumns r now prune policy) = Some row →
  recordOf ring groupId (storedRecord.mk row w rd) = Ok (servedRecord wk rk (messageRecord.prune_after row) r).
Proof.
  intros Ht Hp Hm Hk (c & p & _ & _ & ->)%storedColumns_Some; [|done]. by apply columns_back.
Qed.
End RoundTrip.
