(* ===== verification/PgxGroups.v ===== *)
(** * The groups over PostgreSQL: the tables and the statements

    The seven tables of a group ([store/migrations.go], 001 to 012) and every statement
    [store/pgx.go] makes on them, as a function on one group's rows.  The methods that make them
    are in [PgxStore]. *)

From stdpp Require Import sorting.
From S2P Require Import Prelude Sha256 StoreTypes Retention MemoryStore Prog Sql OneKey PgxRecord.

(** ** The tables *)

(** A row of [message_group] (001). *)
Module groupRow.
Record t := mk {
  create_time : time;
  current_epoch : Z;
  next_record_id : Z;
  media_ttl_seconds : Z;
  durable_ttl_seconds : option Z;
  group_context_hash : slice;
  policy_version : Z;
  epoch_complete : bool;
  closed : bool;
  close_time : option time }.
Definition set_next (x : Z) (r : t) : t :=
  mk (create_time r) (current_epoch r) x (media_ttl_seconds r) (durable_ttl_seconds r) (group_context_hash r)
    (policy_version r) (epoch_complete r) (closed r) (close_time r).
Definition set_complete (x : bool) (r : t) : t :=
  mk (create_time r) (current_epoch r) (next_record_id r) (media_ttl_seconds r) (durable_ttl_seconds r)
    (group_context_hash r) (policy_version r) x (closed r) (close_time r).
Definition set_closed (x : bool) (at_time : option time) (r : t) : t :=
  mk (create_time r) (current_epoch r) (next_record_id r) (media_ttl_seconds r) (durable_ttl_seconds r)
    (group_context_hash r) (policy_version r) (epoch_complete r) x at_time.
Definition set_policy (epoch media : Z) (durable : option Z) (hash : slice) (r : t) : t :=
  mk (create_time r) epoch (next_record_id r) media durable hash (policy_version r + 1) false (closed r) (close_time r).
End groupRow.

(** A row of [message_epoch] (002 and 005b). *)
Module epochColumns.
Record t := mk {
  write_key_wrapped : slice;
  read_key_wrapped : slice;
  read_key_install : option time;
  alg_id : Z;
  opened_by_record : option Z;
  accept_time : time;
  retire_time : option time;
  expected_wrap_count : Z }.
Definition set_write (x : slice) (r : t) : t :=
  mk x (read_key_wrapped r) (read_key_install r) (alg_id r) (opened_by_record r) (accept_time r) (retire_time r)
    (expected_wrap_count r).
Definition set_retire (x : option time) (r : t) : t :=
  mk (write_key_wrapped r) (read_key_wrapped r) (read_key_install r) (alg_id r) (opened_by_record r) (accept_time r) x
    (expected_wrap_count r).
End epochColumns.

(** The rows of one group id: 001, 002, 003, 003b, 004b, 005 and 009, each keyed by the rest of its
    primary key.  Rows of 003b, 005 and 009 have the fields of the in-memory ones. *)
Module Rows.
Record t := mk {
  group : option groupRow.t;
  epochs : gmap Z epochColumns.t;
  records : gmap Z messageRecord.t;
  claims : gmap (list Z * Z) claimRow.t;
  commits : gmap Z Z;
  senders : gmap (list Z) senderRow.t;
  recovery : gmap (list Z) recoveryRow.t }.
Definition empty : t := mk None ∅ ∅ ∅ ∅ ∅ ∅.
Definition set_group (x : option groupRow.t) (r : t) : t :=
  mk x (epochs r) (records r) (claims r) (commits r) (senders r) (recovery r).
Definition set_epochs (x : gmap Z epochColumns.t) (r : t) : t :=
  mk (group r) x (records r) (claims r) (commits r) (senders r) (recovery r).
Definition set_records (x : gmap Z messageRecord.t) (r : t) : t :=
  mk (group r) (epochs r) x (claims r) (commits r) (senders r) (recovery r).
Definition set_claims (x : gmap (list Z * Z) claimRow.t) (r : t) : t :=
  mk (group r) (epochs r) (records r) x (commits r) (senders r) (recovery r).
Definition set_commits (x : gmap Z Z) (r : t) : t :=
  mk (group r) (epochs r) (records r) (claims r) x (senders r) (recovery r).
Definition set_senders (x : gmap (list Z) senderRow.t) (r : t) : t :=
  mk (group r) (epochs r) (records r) (claims r) (commits r) x (recovery r).
Definition set_recovery (x : gmap (list Z) recoveryRow.t) (r : t) : t :=
  mk (group r) (epochs r) (records r) (claims r) (commits r) (senders r) x.
(** The group a statement with [AND NOT closed] finds. *)
Definition open (r : t) : option groupRow.t :=
  match group r with Some g => if groupRow.closed g then None else Some g | None => None end.
End Rows.

Module Groups.
Definition t : Type := gmap (list Z) Rows.t.
Definition at_ (key : list Z) (self : t) : Rows.t := default Rows.empty (self !! key).
Definition put (key : list Z) (rows : Rows.t) (self : t) : t := <[key := rows]> self.
End Groups.

(** ** The statements *)

Inductive statement : Type :=
  | SelectGroup (groupId : slice) (forUpdate : bool)
  | SelectCurrentEpoch (groupId : slice)
  | SelectEpochKeys (groupId : slice) (epoch : Z)
  | SelectPage (groupId : slice) (headsOnly : bool) (since : Z) (limit : option Z) (mask ceiling : Z)
  | CloseRow (groupId : slice) (now : time)
  | InsertGroup (groupId : slice) (row : groupRow.t)
  | InsertEpoch (groupId : slice) (epoch : Z) (row : epochColumns.t)
  | InsertRecord (groupId : slice) (row : messageRecord.t)
  | InsertClaim (groupId senderHandle : slice) (streamIndex : Z) (row : claimRow.t) (doNothing : bool)
  | InsertCommit (groupId : slice) (epoch recordId : Z) (doNothing : bool)
  | InsertSender (groupId senderHandle : slice) (streamIndex byteCount : Z) (now : time) (upsert : bool)
  | InsertRecovery (groupId handle verifyPub : slice) (algId : Z) (now : time)
  | SelectRecovery (groupId handle : slice)
  | SelectClaims (groupId : slice) (asked : list (slice * Z))
  | SelectSenders (groupId : slice) (handles : list slice)
  | SelectPins (groupId : slice) (handles : list slice)
  | SelectCommit (groupId : slice) (epoch : Z)
  | SelectWinner (groupId : slice) (epoch : Z)
  | AllocateIds (groupId : slice) (count : Z)
  | RetireEpoch (groupId : slice) (epoch : Z) (now : time)
  | ForgetWriteKeys (groupId : slice) (epoch : Z)
  | AdvanceGroup (groupId : slice) (epoch media : Z) (durable : option Z) (hash : slice)
  | SelectExpected (groupId : slice) (epoch : Z)
  | MarkComplete (groupId : slice).

(** What a statement scans; the rows of one with several, in some order. *)
Definition scanned (c : statement) : Type :=
  match c with
  | SelectGroup _ _ => groupRow.t
  | SelectCurrentEpoch _ | SelectExpected _ _ | AllocateIds _ _ => Z
  | CloseRow _ _ | InsertRecovery _ _ _ _ _ => Z
  | SelectEpochKeys _ _ => Z * epochColumns.t
  | SelectPage _ _ _ _ _ _ => list (option Z * option storedRecord.t)
  | SelectRecovery _ _ => slice
  | SelectClaims _ _ => list (Z * claimRow.t)
  | SelectSenders _ _ => list (slice * Z)
  | SelectPins _ _ => list (slice * slice)
  | SelectWinner _ _ => storedRecord.t
  | _ => ()
  end.

Definition keyOf (c : statement) : list Z :=
  match c with
  | SelectGroup id _ | SelectCurrentEpoch id | SelectEpochKeys id _ | SelectPage id _ _ _ _ _ | CloseRow id _
  | InsertGroup id _ | InsertEpoch id _ _ | InsertRecord id _ | InsertClaim id _ _ _ _ | InsertCommit id _ _ _
  | InsertSender id _ _ _ _ _ | InsertRecovery id _ _ _ _ | SelectRecovery id _ | SelectClaims id _
  | SelectSenders id _ | SelectPins id _ | SelectCommit id _ | SelectWinner id _ | AllocateIds id _
  | RetireEpoch id _ _ | ForgetWriteKeys id _ | AdvanceGroup id _ _ _ _ | SelectExpected id _ | MarkComplete id =>
      octets id
  end.

(** ** The constraints *)

Definition ofLength (value : slice) (n : Z) : bool := bool_decide (value ≠ None) && (len value =? n).
Definition nullOrLength (value : slice) (n : Z) : bool := bool_decide (value = None) || (len value =? n).
Definition isBigint (z : Z) : bool := (- two63 <=? z) && (z <? two63).

Definition groupAllowed (groupId : slice) (row : groupRow.t) : bool :=
  ofLength groupId 32 && (0 <=? groupRow.current_epoch row) && (1 <=? groupRow.next_record_id row) &&
  (groupRow.next_record_id row <? two63) &&
  (0 <? groupRow.media_ttl_seconds row) &&
  (match groupRow.durable_ttl_seconds row with None => true | Some d => 0 <? d end) &&
  nullOrLength (groupRow.group_context_hash row) 32 &&
  (groupRow.policy_version row <? 2 ^ 31) &&
  (negb (groupRow.closed row) || bool_decide (groupRow.close_time row ≠ None)).

Definition epochAllowed (groupId : slice) (row : epochColumns.t) : bool :=
  ofLength groupId 32 && nullOrLength (epochColumns.write_key_wrapped row) 61 &&
  nullOrLength (epochColumns.read_key_wrapped row) 61 &&
  Bool.eqb (bool_decide (epochColumns.read_key_wrapped row = None)) (bool_decide (epochColumns.read_key_install row = None)).

Definition recordAllowed (groupId : slice) (row : messageRecord.t) : bool :=
  ofLength groupId 32 && ofLength (messageRecord.sender_handle row) 16 && ofLength (messageRecord.body_hash row) 32 &&
  bool_decide (messageRecord.ct_head row ≠ None) &&
  nullOrLength (messageRecord.blob_id row) 32 && nullOrLength (messageRecord.recovery_handle row) 16 &&
  nullOrLength (messageRecord.wrap_target_handle row) 16 &&
  (bool_decide (messageRecord.ct_body row = None) || bool_decide (messageRecord.blob_id row = None)) &&
  (0 <=? messageRecord.stream_index row) &&
  (let class := messageRecord.retention_class row in
   ((0 <=? class) && (class <=? 2)) || ((16 <=? class) && (class <=? 21))) &&
  (0 <=? messageRecord.size_bucket row) && (messageRecord.size_bucket row <=? 5) &&
  nullOrLength (messageRecord.attachment_verify_pub row) 32 &&
  nullOrLength (messageRecord.attachment_group_context_hash row) 32 &&
  (0 <=? messageRecord.eph_window row) &&
  ((messageRecord.eph_window row =? 0) ||
   ((17 <=? messageRecord.retention_class row) && (messageRecord.retention_class row <=? 21))) &&
  nullOrLength (messageRecord.attachment_epoch_keys_digest row) 32.

Definition claimAllowed (groupId senderHandle : slice) (row : claimRow.t) : bool :=
  ofLength groupId 32 && ofLength senderHandle 16 && ofLength (claimRow.bodyHash row) 32 && ofLength (claimRow.headHash row) 32.
Definition senderAllowed (groupId senderHandle : slice) (row : senderRow.t) : bool :=
  ofLength groupId 32 && ofLength senderHandle 16 && isBigint (senderRow.recordCount row) && isBigint (senderRow.byteCount row).
Definition recoveryAllowed (groupId handle : slice) (row : recoveryRow.t) : bool :=
  ofLength groupId 32 && ofLength handle 16 && ofLength (recoveryRow.verifyPub row) 32.

Definition notNull (value : slice) : bool := match value with Some _ => true | None => false end.

(** ** What a statement does to the rows of its group *)

(** One [UPDATE] of the group's row, if there is one. *)
Definition updateGroup (groupId : slice) (f : groupRow.t → groupRow.t) (rows : Rows.t) : Rows.t * res PgError () :=
  match Rows.group rows with
  | None => (rows, Ok tt)
  | Some g => if groupAllowed groupId (f g) then (Rows.set_group (Some (f g)) rows, Ok tt) else (rows, Err ErrDriver)
  end.

(** [recordSource]: the record joined with its attachment's epoch. *)
Definition joined (rows : Rows.t) (headsOnly : bool) (r : messageRecord.t) : storedRecord.t :=
  let epoch := messageRecord.attachment_epoch r ≫= λ e, Rows.epochs rows !! e in
  storedRecord.mk (if headsOnly then messageRecord.set_ct_body None r else r)
    (epoch ≫= epochColumns.write_key_wrapped) (epoch ≫= epochColumns.read_key_wrapped).

(** The records of a group in the order of their ids. *)
Definition byRecordId (a b : messageRecord.t) : Prop := messageRecord.record_id a <= messageRecord.record_id b.
#[global] Instance byRecordId_dec : RelDecision byRecordId.
Proof. intros a b. unfold byRecordId. apply _. Defined.
Definition inOrder (rows : Rows.t) : list messageRecord.t :=
  merge_sort byRecordId ((map_to_list (Rows.records rows)).*2).

(** [fetchQuery] *)
Definition inPage (since mask ceiling : Z) (r : messageRecord.t) : Prop :=
  since < messageRecord.record_id r ∧ messageRecord.epoch r <= ceiling ∧
  (mask = 0 ∨ Z.land mask (Z.shiftl 1 (messageRecord.retention_class r)) ≠ 0).
#[global] Instance inPage_dec since mask ceiling r : Decision (inPage since mask ceiling r).
Proof. unfold inPage. apply _. Defined.

Definition highWaterColumn (ceiling : Z) (records : list messageRecord.t) : option Z :=
  foldl (λ high r,
    if messageRecord.epoch r <=? ceiling
    then Some (match high with Some h => Z.max h (messageRecord.record_id r) | None => messageRecord.record_id r end)
    else high) None records.

Definition pageOf (headsOnly : bool) (since : Z) (limit : option Z) (mask ceiling : Z) (rows : Rows.t) :
    list (option Z * option storedRecord.t) :=
  match Rows.open rows with
  | None => []
  | Some _ =>
      let records := inOrder rows in
      let high := highWaterColumn ceiling records in
      let matching := filter (inPage since mask ceiling) records in
      let page := match limit with Some n => take (Z.to_nat n) matching | None => matching end in
      match page with
      | [] => [(high, None)]
      | _ => (λ r, (high, Some (joined rows headsOnly r))) <$> page
      end
  end.

(** [unnest(...) WITH ORDINALITY ... JOIN message_stream_claim] *)
Fixpoint claimsAsked (position : Z) (asked : list (slice * Z)) (claims : gmap (list Z * Z) claimRow.t) :
    list (Z * claimRow.t) :=
  match asked with
  | [] => []
  | (handle, index) :: rest =>
      match claims !! (octets handle, index) with
      | Some claim => (position, claim) :: claimsAsked (position + 1) rest claims
      | None => claimsAsked (position + 1) rest claims
      end
  end.

(** [... = ANY($2)] *)
Definition named {A} (handles : list slice) (m : gmap (list Z) A) : list (slice * A) :=
  (λ kv, (Some kv.1, kv.2)) <$> map_to_list (filter (λ kv, kv.1 ∈ octets <$> handles) m).

Section Execute.
Context `{T : Timestamps}.

Definition timed {A B} (t : time) (r : A * res PgError B) (k : time → A * res PgError B) : A * res PgError B :=
  match timestamp t with Some t => k t | None => (r.1, Err ErrDriver) end.

Definition claimStored (row : claimRow.t) : option claimRow.t :=
  t ← timestamp (claimRow.createTime row);
  Some (claimRow.mk (claimRow.recordId row) (claimRow.bodyHash row) (claimRow.headHash row) t).

Definition epochStored (row : epochColumns.t) : option epochColumns.t :=
  install ← timestamps (epochColumns.read_key_install row);
  accept ← timestamp (epochColumns.accept_time row);
  retire ← timestamps (epochColumns.retire_time row);
  Some (epochColumns.mk (epochColumns.write_key_wrapped row) (epochColumns.read_key_wrapped row) install
          (epochColumns.alg_id row) (epochColumns.opened_by_record row) accept retire
          (epochColumns.expected_wrap_count row)).

Definition groupStored (row : groupRow.t) : option groupRow.t :=
  create ← timestamp (groupRow.create_time row);
  close ← timestamps (groupRow.close_time row);
  Some (groupRow.mk create (groupRow.current_epoch row) (groupRow.next_record_id row) (groupRow.media_ttl_seconds row)
          (groupRow.durable_ttl_seconds row) (groupRow.group_context_hash row) (groupRow.policy_version row)
          (groupRow.epoch_complete row) (groupRow.closed row) close).

(** The answer of one that scans a row, and of one that writes. *)
Definition scan {A} (rows : Rows.t) (found : option A) : Rows.t * res PgError A :=
  (rows, match found with Some a => Ok a | None => Err ErrNoRows end).
Definition failed {A} (rows : Rows.t) : Rows.t * res PgError A := (rows, Err ErrDriver).

(** An [INSERT] at a key: [present] if there is a row, and what it is without one. *)
Definition inserting {A} (rows : Rows.t) (present allowed doNothing : bool) (conflict : res PgError A)
    (inserted : Rows.t) (a : A) : Rows.t * res PgError A :=
  if negb allowed then failed rows
  else if present then (rows, if doNothing then conflict else Err ErrDriver)
  else (inserted, Ok a).

Definition onRows (c : statement) (rows : Rows.t) : Rows.t * res PgError (scanned c) :=
  match c return Rows.t * res PgError (scanned c) with
  | SelectGroup _ _ => scan rows (Rows.open rows)
  | SelectCurrentEpoch _ => scan rows (groupRow.current_epoch <$> Rows.open rows)
  | SelectEpochKeys _ epoch =>
      scan rows (_ ← Rows.open rows; row ← Rows.epochs rows !! epoch; Some (epoch, row))
  | SelectPage _ headsOnly since limit mask ceiling => (rows, Ok (pageOf headsOnly since limit mask ceiling rows))
  | CloseRow id now =>
      match timestamp now, Rows.open rows with
      | None, _ => failed rows
      | Some t, Some g => (Rows.set_group (Some (groupRow.set_closed true (Some t) g)) rows, Ok 1)
      | Some _, None => (rows, Ok 0)
      end
  | InsertGroup id row =>
      match groupStored row with
      | None => failed rows
      | Some row =>
          inserting rows (bool_decide (is_Some (Rows.group rows))) (groupAllowed id row) true (Err ErrNoRows)
            (Rows.set_group (Some row) rows) tt
      end
  | InsertEpoch id epoch row =>
      match epochStored row with
      | None => failed rows
      | Some row =>
          inserting rows (bool_decide (is_Some (Rows.epochs rows !! epoch))) (epochAllowed id row) false (Ok tt)
            (Rows.set_epochs (<[epoch := row]> (Rows.epochs rows)) rows) tt
      end
  | InsertRecord id row =>
      match storedColumns row with
      | None => failed rows
      | Some row =>
          inserting rows (bool_decide (is_Some (Rows.records rows !! messageRecord.record_id row)))
            (recordAllowed id row) true (Ok tt)
            (Rows.set_records (<[messageRecord.record_id row := row]> (Rows.records rows)) rows) tt
      end
  | InsertClaim id handle index row doNothing =>
      match claimStored row with
      | None => failed rows
      | Some row =>
          inserting rows (bool_decide (is_Some (Rows.claims rows !! (octets handle, index))))
            (claimAllowed id handle row) doNothing (Ok tt)
            (Rows.set_claims (<[(octets handle, index) := row]> (Rows.claims rows)) rows) tt
      end
  | InsertCommit id epoch recordId doNothing =>
      inserting rows (bool_decide (is_Some (Rows.commits rows !! epoch))) (ofLength id 32) doNothing (Err ErrNoRows)
        (Rows.set_commits (<[epoch := recordId]> (Rows.commits rows)) rows) tt
  | InsertSender id handle index bytes now upsert =>
      match timestamp now with
      | None => failed rows
      | Some t =>
          let row :=
            match Rows.senders rows !! octets handle with
            | Some old => senderRow.mk index (senderRow.recordCount old + 1) (senderRow.byteCount old + bytes) t
            | None => senderRow.mk index 1 bytes t
            end in
          if negb (senderAllowed id handle row) then failed rows
          else if bool_decide (is_Some (Rows.senders rows !! octets handle)) && negb upsert then failed rows
          else (Rows.set_senders (<[octets handle := row]> (Rows.senders rows)) rows, Ok tt)
      end
  | InsertRecovery id handle pub algId now =>
      match timestamp now with
      | None => failed rows
      | Some t =>
          let row := recoveryRow.mk pub algId t in
          inserting rows (bool_decide (is_Some (Rows.recovery rows !! octets handle))) (recoveryAllowed id handle row)
            true (Ok 0) (Rows.set_recovery (<[octets handle := row]> (Rows.recovery rows)) rows) 1
      end
  | SelectRecovery _ handle => scan rows (recoveryRow.verifyPub <$> Rows.recovery rows !! octets handle)
  | SelectClaims _ asked => (rows, Ok (claimsAsked 1 asked (Rows.claims rows)))
  | SelectSenders _ handles =>
      (rows, Ok (named handles (senderRow.lastStreamIndex <$> Rows.senders rows)))
  | SelectPins _ handles => (rows, Ok (named handles (recoveryRow.verifyPub <$> Rows.recovery rows)))
  | SelectCommit _ epoch => scan rows ((λ _, tt) <$> Rows.commits rows !! epoch)
  | SelectWinner _ epoch =>
      scan rows (id ← Rows.commits rows !! epoch; r ← Rows.records rows !! id; Some (joined rows false r))
  | AllocateIds id count =>
      match Rows.group rows with
      | None => (rows, Err ErrNoRows)
      | Some g =>
          let g' := groupRow.set_next (groupRow.next_record_id g + count) g in
          if groupAllowed id g' then (Rows.set_group (Some g') rows, Ok (groupRow.next_record_id g)) else failed rows
      end
  | RetireEpoch _ epoch now =>
      match timestamp now with
      | None => failed rows
      | Some t =>
          (Rows.set_epochs
             (alter (λ row, if notNull (epochColumns.write_key_wrapped row)
                            then epochColumns.set_retire (Some t) row else row) epoch (Rows.epochs rows)) rows, Ok tt)
      end
  | ForgetWriteKeys _ epoch =>
      (Rows.set_epochs
         (map_imap (λ e row, Some (if (e <? epoch) && notNull (epochColumns.write_key_wrapped row)
                                   then epochColumns.set_write None row else row)) (Rows.epochs rows)) rows, Ok tt)
  | AdvanceGroup id epoch media durable hash => updateGroup id (groupRow.set_policy epoch media durable hash) rows
  | SelectExpected _ epoch => scan rows (epochColumns.expected_wrap_count <$> Rows.epochs rows !! epoch)
  | MarkComplete id => updateGroup id (groupRow.set_complete true) rows
  end.

Definition execute (c : statement) (choice : ()) (t : Groups.t) : Groups.t * res PgError (scanned c) :=
  let '(rows, answer) := onRows c (Groups.at_ (keyOf c) t) in (Groups.put (keyOf c) rows t, answer).

(** [FOR UPDATE] locks the row it finds, and an insert the row it makes, which every other arm that
    writes takes first. *)
Definition locksRow (c : statement) (rows : Rows.t) : bool :=
  match c with
  | SelectGroup _ true => bool_decide (is_Some (Rows.open rows))
  | InsertGroup _ _ => bool_decide (Rows.group rows = None)
  | _ => false
  end.

#[export] Instance groupsDatabase : Database Groups.t (list Z) Rows.t statement () scanned := {
  at_ := Groups.at_;
  run := execute;
  locks := λ c _ t key, bool_decide (key = keyOf c) && locksRow c (Groups.at_ (keyOf c) t);
  legal := λ _ _ _ _, True }.

Lemma group_at_put key rows t : Groups.at_ key (Groups.put key rows t) = rows.
Proof. unfold Groups.at_, Groups.put, Groups.t in *. by rewrite lookup_insert_eq. Qed.
Lemma group_at_put_ne key key' rows t : key' ≠ key → Groups.at_ key' (Groups.put key rows t) = Groups.at_ key' t.
Proof. intros Hne. unfold Groups.at_, Groups.put, Groups.t in *. by rewrite lookup_insert_ne. Qed.

Lemma group_execute_local c : local c (keyOf c) (onRows c) (locksRow c).
Proof.
  split; intros ch t; cbn [run groupsDatabase at_ locks]; unfold execute;
    destruct (onRows c (Groups.at_ (keyOf c) t)) as [rows answer]; cbn; [done|apply group_at_put|intros; by apply group_at_put_ne|done].
Qed.

#[export] Instance groupsKeyed : Keyed Groups.t (list Z) Rows.t statement () scanned := {
  stmt_key := keyOf; stmt_rows := onRows; stmt_held := locksRow; stmt_local := group_execute_local }.
End Execute.
