(* ===== verification/PgxStore.v ===== *)
(** * The groups over PostgreSQL: the methods ([store/pgx.go])

    Each method of [PgxStore] on groups, as a program of the statements of [PgxGroups].  A clock
    reading is an argument; [nonces] are what [rand.Read] gives the wraps of one method, one to a
    wrap, [None] for its error. *)

From S2P Require Import Prelude Sha256 StoreTypes Retention MemoryStore Prog Sql PgxRecord PgxGroups.
#[local] Open Scope sql_scope.

Definition MaxInt64 : Z := two63 - 1.

Module PgxStore.
Record t (AEAD : Type) := mk { limits : Limits.t; keys : KekRing.t AEAD }.
Arguments mk {AEAD} limits keys.
Arguments limits {AEAD} t.
Arguments keys {AEAD} t.
End PgxStore.

Section Store.
Context `{V : Vault}.
Context (self : PgxStore.t AEAD).
Abbreviation program := (prog (reply scanned)).
Abbreviation nonce := (option (list Z)).

Definition lift {A} (r : res PgxError A) : program (res PgxError A) := Return r.
Definition refuseWith {A} (e : Error) : program (res PgxError A) := Return (Err (StoreError e)).

(** ** The read paths *)

Definition stateOf (g : groupRow.t) : GroupState.t :=
  GroupState.mk (u64 (groupRow.current_epoch g)) (u64 (groupRow.next_record_id g)) (u32 (groupRow.media_ttl_seconds g))
    (u32 <$> groupRow.durable_ttl_seconds g) (u32 (groupRow.policy_version g)) (groupRow.epoch_complete g)
    (groupRow.group_context_hash g).

Definition GroupStateOf (ctx : option Error) (groupId : slice) : program (res PgxError GroupState.t) :=
  match first_error ctx (checkLength groupId GroupIdBytes) with
  | Some e => refuseWith e
  | None =>
      found ← query (SelectGroup groupId false);
      match found with
      | Err ErrNoRows => refuseWith ErrGroupUnavailable
      | Err e => Return (Err (DriverError e))
      | Ok g => Return (Ok (stateOf g))
      end
  end.

Definition EpochKeysOf (ctx : option Error) (groupId : slice) (epoch : Z) : program (res PgxError EpochKeys.t) :=
  match first_error ctx (checkLength groupId GroupIdBytes) with
  | Some e => refuseWith e
  | None =>
      found ← query (SelectEpochKeys groupId (i64 epoch));
      match found with
      | Err ErrNoRows => refuseWith ErrEpochKeyUnknown
      | Err e => Return (Err (DriverError e))
      | Ok (stored, row) =>
          let writeWrapped := epochColumns.write_key_wrapped row in
          let readWrapped := epochColumns.read_key_wrapped row in
          if bool_decide (writeWrapped = None) && bool_decide (readWrapped = None) then refuseWith ErrEpochKeyUnknown
          else
            let epoch := u64 stored in
            writeKey ←! lift (unwrapped (PgxStore.keys self) writeWrapped wrapWriteKey groupId epoch);
            readKey ←! lift (unwrapped (PgxStore.keys self) readWrapped wrapReadKey groupId epoch);
            Return (Ok (EpochKeys.mk epoch writeKey readKey (default zero_time (epochColumns.read_key_install row))
                          (u32 (epochColumns.alg_id row)) (orZero u64 (epochColumns.opened_by_record row))
                          (epochColumns.accept_time row) (default zero_time (epochColumns.retire_time row))))
      end
  end.

(** The rows of a page: the high water each carries, and the records. *)
Fixpoint scanPage (groupId : slice) (rows : list (option Z * option storedRecord.t)) (high : Z) (records : list Rec.t) :
    res PgxError (Z * list Rec.t) :=
  match rows with
  | [] => Ok (high, records)
  | (highWater, row) :: rest =>
      let high := match highWater with Some h => u64 h | None => high end in
      match row with
      | None => scanPage groupId rest high records
      | Some row =>
          res_bind (recordOf (PgxStore.keys self) groupId row) (λ record,
          scanPage groupId rest high (records ++ [record]))
      end
  end.

Definition Fetch (ctx : option Error) (request : FetchRequest.t) : program (res PgxError FetchResult.t) :=
  let groupId := FetchRequest.GroupId request in
  match first_error ctx (checkLength groupId GroupIdBytes) with
  | Some e => refuseWith e
  | None =>
      let limit := if FetchRequest.Limit request =? 0 then None else Some (FetchRequest.Limit request + 1) in
      let clamp x := if MaxInt64 <? x then MaxInt64 else x in
      rows ←! exec (SelectPage groupId (FetchRequest.HeadsOnly request) (i64 (clamp (FetchRequest.SinceRecordId request)))
                      limit (FetchRequest.ClassMask request) (i64 (clamp (FetchRequest.ReadEpoch request))));
      page ←! lift (scanPage groupId rows 0 []);
      let '(high, records) := page in
      if bool_decide (rows = []) then refuseWith ErrGroupUnavailable
      else
        let truncated := negb (FetchRequest.Limit request =? 0) &&
                         (FetchRequest.Limit request <? u32 (Z.of_nat (length records))) in
        let records := if truncated then take (Z.to_nat (FetchRequest.Limit request)) records else records in
        let next := match last records with Some r => Rec.RecordId r | None => FetchRequest.SinceRecordId request end in
        Return (Ok (FetchResult.mk records next high (negb truncated)))
  end.

Definition CloseGroup (ctx : option Error) (now : time) (groupId : slice) : program (res PgxError ()) :=
  match first_error ctx (checkLength groupId GroupIdBytes) with
  | Some e => refuseWith e
  | None =>
      affected ←! exec (CloseRow groupId now);
      if affected =? 0 then refuseWith ErrGroupUnavailable else Return (Ok tt)
  end.

(** ** The row writers *)

(** [pinRecoveryHandle]: whether the handle is pinned to another key. *)
Definition pinRecoveryHandle (groupId : slice) (tag : RecoveryTag.t) (now : time) : program (res PgxError bool) :=
  affected ←! exec (InsertRecovery groupId (RecoveryTag.Handle tag) (RecoveryTag.VerifyPub tag) (i32 (RecoveryTag.AlgId tag)) now);
  if negb (affected =? 0) then Return (Ok false)
  else
    pinned ←! exec (SelectRecovery groupId (RecoveryTag.Handle tag));
    Return (Ok (negb (bytes_Equal pinned (RecoveryTag.VerifyPub tag)))).

Definition claimColumns (record : Rec.t) (now : time) : claimRow.t :=
  claimRow.mk (i64 (Rec.RecordId record)) (Rec.BodyHash record) (headHash (Rec.CtHead record)) now.

Definition insertRecord (groupId : slice) (record : Rec.t) (now : time) (prune : option (option time)) (policy : Z) :
    program (res PgxError ()) :=
  exec (InsertRecord groupId (recordColumns record now (default None prune) policy)).

(** ** [CreateGroup] *)

Definition CreateGroup (ctx : option Error) (now : time) (nonces : nonce * nonce * nonce) (request : CreateGroupRequest.t) :
    program (res PgxError CreateGroupResult.t) :=
  match validateCreate ctx request with
  | Err e => refuseWith e
  | Ok initial =>
      if negb (Rec.IsCommit initial) || negb (Rec.Epoch initial =? 0) ||
         negb (wellFormedEpochAttachment initial 1 (CreateGroupRequest.EpochKeys request))
      then Return (Ok createRejected)
      else
        match openingOf initial (CreateGroupRequest.EpochKeys request) with
        | None => Return (Ok createRejected) (* unreachable: the test above ran [openingOf] *)
        | Some opening =>
            let groupId := CreateGroupRequest.GroupId request in
            let '(media, durable, applied) := apply (PgxStore.limits self) opening in
            let record := Rec.set_RecordId firstRecordId (cloneRecord initial) in
            transaction
              (created ← query (InsertGroup groupId
                 (groupRow.mk now 1 (i64 firstRecordId + 1) (i32 media) (durableColumn durable)
                    (epochOpening.GroupContextHash opening) 1 false false None));
               match created with
               | Err ErrNoRows => Return (Ok createRejected)
               | Err e => Return (Err (DriverError e))
               | Ok _ =>
                   bootstrap ←! lift (wrap (PgxStore.keys self) nonces.1.1 (CreateGroupRequest.BootstrapWriteKey request)
                                        wrapWriteKey groupId 0);
                   _ ←! exec (InsertEpoch groupId 0
                                (epochColumns.mk bootstrap None None 0 None now (Some now) 0));
                   writeKey ←! lift (wrap (PgxStore.keys self) nonces.1.2 (epochOpening.WriteKey opening) wrapWriteKey groupId 1);
                   readKey ←! lift (wrap (PgxStore.keys self) nonces.2 (epochOpening.ReadKey opening) wrapReadKey groupId 1);
                   _ ←! exec (InsertEpoch groupId 1
                                (epochColumns.mk writeKey readKey (Some now) (i32 (epochOpening.AlgId opening))
                                   (Some (i64 (Rec.RecordId record))) now None (epochOpening.ExpectedWrapCount opening)));
                   _ ←! insertRecord groupId record now (pruneAfter now (Rec.RetentionClass record) media durable) 1;
                   _ ←! exec (InsertClaim groupId (Rec.SenderHandle record) (i64 (Rec.StreamIndex record))
                                (claimColumns record now) false);
                   _ ←! exec (InsertCommit groupId (i64 (Rec.Epoch record)) (i64 (Rec.RecordId record)) false);
                   _ ←! exec (InsertSender groupId (Rec.SenderHandle record) (i64 (Rec.StreamIndex record))
                                (recordBytes record) now false);
                   _ ←! (match recoveryTagOf record with
                         | Some tag => pinRecoveryHandle groupId tag now
                         | None => Return (Ok false)
                         end);
                   committed ← commit;
                   attempt committed (λ _,
                     Return (Ok (CreateGroupResult.mk (acceptanceReason (Some applied)) 1 (Rec.RecordId record) (Some applied))))
               end)
        end
  end.

(** ** The answers a batch is given *)

Definition winningCommit (groupId : slice) (epoch : Z) : program (res PgxError (option Rec.t)) :=
  found ← query (SelectWinner groupId (i64 epoch));
  match found with
  | Err ErrNoRows => Return (Ok None)
  | Err e => Return (Err (DriverError e))
  | Ok row => record ←! lift (recordOf (PgxStore.keys self) groupId row); Return (Ok (Some record))
  end.

(** The loop of [fill]. *)
Fixpoint fillLoop (groupId : slice) (currentEpoch : Z) (batch : list pending.t) : program (res PgxError (list pending.t)) :=
  match batch with
  | [] => Return (Ok [])
  | current :: rest =>
      let result := pending.result current in
      let result := if SubmitResult.CurrentEpoch result =? 0
                    then SubmitResult.set_CurrentEpoch currentEpoch result else result in
      result ←! (if negb (Rec.IsCommit (pending.record current)) || accepted (SubmitResult.reason result)
                 then Return (Ok result)
                 else
                   winner ←! winningCommit groupId (Rec.Epoch (pending.record current));
                   Return (Ok (SubmitResult.set_WinningCommit winner result)));
      rest ←! fillLoop groupId currentEpoch rest;
      Return (Ok (pending.set_result result current :: rest))
  end.

Definition fill (groupId : slice) (batch : list pending.t) (currentEpoch : Z) : program (res PgxError (list pending.t)) :=
  if currentEpoch =? 0 then
    found ← query (SelectCurrentEpoch groupId);
    match found with
    | Err ErrNoRows => Return (Ok batch)
    | Err e => Return (Err (DriverError e))
    | Ok epoch => fillLoop groupId (u64 epoch) batch
    end
  else fillLoop groupId currentEpoch batch.

(** [refuse]; the offender is named by its place, where the code compares pointers. *)
Definition refused (batch : list pending.t) (offender : nat) (reason : Reason) : list pending.t :=
  imap (λ i current,
    if decide (pending.probe current = probeIdentical) then current
    else pending.set_result
           (SubmitResult.set_reason (if decide (i = offender) then reason else REASON_REJECTED)
              (pending.result current)) current) batch.

Definition refuse (groupId : slice) (batch : list pending.t) (offender : nat) (reason : Reason) (currentEpoch : Z) :
    program (res PgxError (list SubmitResult.t)) :=
  batch ←! fill groupId (refused batch offender reason) currentEpoch;
  Return (Ok (resultsOf batch)).

(** ** Step (0) *)

(** What one row of the probe says of the record at its position. *)
Definition probed (batch : list pending.t) (row : Z * claimRow.t) : list pending.t :=
  let '(position, claim) := row in
  alter (λ current,
    let record := pending.record current in
    if bytes_Equal (claimRow.bodyHash claim) (Rec.BodyHash record) &&
       bytes_Equal (claimRow.headHash claim) (headHash (Rec.CtHead record))
    then pending.mk record
           (SubmitResult.set_RecordId (u64 (claimRow.recordId claim))
              (SubmitResult.set_reason REASON_OK (pending.result current)))
           probeIdentical (pending.settled current)
    else pending.mk record (pending.result current) probeDiffers (pending.settled current))
    (Z.to_nat (position - 1)) batch.

Definition probe (groupId : slice) (batch : list pending.t) : program (res PgxError (list pending.t)) :=
  let asked := (λ current, (Rec.SenderHandle (pending.record current), i64 (Rec.StreamIndex (pending.record current)))) <$> batch in
  rows ←! exec (SelectClaims groupId asked);
  Return (Ok (foldl probed batch rows)).

(** ** Steps (2) to (3) and (6c), the gates *)

(** The rows of one read, by the string of their key. *)
Definition collect {A} (rows : list (slice * A)) : gmap (list Z) A :=
  foldl (λ found row, <[octets row.1 := row.2]> found) ∅ rows.

Definition senderHighWater (groupId : slice) (batch : list pending.t) : program (res PgxError (gmap (list Z) Z)) :=
  rows ←! exec (SelectSenders groupId ((λ current, Rec.SenderHandle (pending.record current)) <$> batch));
  Return (Ok (u64 <$> collect rows)).

Definition pinnedRecoveryKeys (groupId : slice) (batch : list pending.t) : program (res PgxError (gmap (list Z) slice)) :=
  let handles := omap (λ current, RecoveryTag.Handle <$> recoveryTagOf (pending.record current)) batch in
  if bool_decide (handles = []) then Return (Ok ∅)
  else rows ←! exec (SelectPins groupId handles); Return (Ok (collect rows)).

(** The gates behind the one that reads [message_commit]. *)
Definition gateRest (st : GroupState.t) (record : Rec.t) (keys : option EpochKeyDelivery.t)
    (highWater : gmap (list Z) Z) (pinned : gmap (list Z) slice) : Reason :=
  if negb (Rec.Epoch record =? GroupState.CurrentEpoch st) then REASON_EPOCH_STALE
  else if negb (GroupState.EpochComplete st) && negb (exemptFromEpochComplete record) then REASON_EPOCH_INCOMPLETE
  else if negb (Bool.eqb (Rec.IsCommit record) (isEpochAttachmentKind (attachmentKindOf record))) then REASON_REJECTED
  else if Rec.IsCommit record && negb (wellFormedEpochAttachment record (u64 (GroupState.CurrentEpoch st + 1)) keys)
  then REASON_REJECTED
  else if match highWater !! octets (Rec.SenderHandle record) with
          | Some last => Rec.StreamIndex record <=? last
          | None => false
          end
  then REASON_STREAM_INDEX_REGRESSED
  else
    match recoveryTagOf record with
    | None => REASON_OK
    | Some tag =>
        match pinned !! octets (RecoveryTag.Handle tag) with
        | Some known => if bytes_Equal known (RecoveryTag.VerifyPub tag) then REASON_OK else REASON_REJECTED
        | None => REASON_OK
        end
    end.

Definition gate (groupId : slice) (st : GroupState.t) (record : Rec.t) (keys : option EpochKeyDelivery.t)
    (highWater : gmap (list Z) Z) (pinned : gmap (list Z) slice) : program (res PgxError Reason) :=
  if Rec.IsCommit record then
    lost ← query (SelectCommit groupId (i64 (Rec.Epoch record)));
    match lost with
    | Ok _ => Return (Ok REASON_COMMIT_LOST)
    | Err ErrNoRows => Return (Ok (gateRest st record keys highWater pinned))
    | Err e => Return (Err (DriverError e))
    end
  else Return (Ok (gateRest st record keys highWater pinned)).

Fixpoint gates (groupId : slice) (st : GroupState.t) (keys : option EpochKeyDelivery.t) (index : nat)
    (batch : list pending.t) (highWater : gmap (list Z) Z) (pinned : gmap (list Z) slice) :
    program (res PgxError (option (nat * Reason))) :=
  match batch with
  | [] => Return (Ok None)
  | current :: rest =>
      if pending.settled current then gates groupId st keys (S index) rest highWater pinned
      else
        let record := pending.record current in
        refusal ←! gate groupId st record keys highWater pinned;
        if decide (refusal = REASON_OK) then
          gates groupId st keys (S index) rest
            (<[octets (Rec.SenderHandle record) := Rec.StreamIndex record]> highWater) pinned
        else Return (Ok (Some (index, refusal)))
  end.

(** ** Steps (4) to (7) *)

Definition openEpoch (nonces : nonce * nonce) (groupId : slice) (st : GroupState.t) (record : Rec.t)
    (keys : option EpochKeyDelivery.t) (now : time) : program (res PgxError (Z * option Z * RetentionApplied.t)) :=
  match openingOf record keys with
  | None => refuseWith ErrIdentifierShape
  | Some opening =>
      let opens := u64 (GroupState.CurrentEpoch st + 1) in
      let '(media, durable, applied) := apply (PgxStore.limits self) opening in
      writeKey ←! lift (wrap (PgxStore.keys self) nonces.1 (epochOpening.WriteKey opening) wrapWriteKey groupId opens);
      readKey ←! lift (wrap (PgxStore.keys self) nonces.2 (epochOpening.ReadKey opening) wrapReadKey groupId opens);
      _ ←! exec (InsertEpoch groupId (i64 opens)
                   (epochColumns.mk writeKey readKey (Some now) (i32 (epochOpening.AlgId opening))
                      (Some (i64 (Rec.RecordId record))) now None (epochOpening.ExpectedWrapCount opening)));
      _ ←! exec (RetireEpoch groupId (i64 (GroupState.CurrentEpoch st)) now);
      _ ←! exec (ForgetWriteKeys groupId (i64 (GroupState.CurrentEpoch st)));
      _ ←! exec (AdvanceGroup groupId (i64 opens) (i32 media) (durableColumn durable) (epochOpening.GroupContextHash opening));
      Return (Ok (media, durable, applied))
  end.

Definition closeFanOut (groupId : slice) (currentEpoch : Z) (marker : EpochCompleteTag.t) : program (res PgxError ()) :=
  if negb (EpochCompleteTag.Epoch marker =? currentEpoch) then Return (Ok tt)
  else
    found ← query (SelectExpected groupId (i64 currentEpoch));
    match found with
    | Err ErrNoRows => Return (Ok tt)
    | Err e => Return (Err (DriverError e))
    | Ok expected =>
        if negb (u64 expected =? EpochCompleteTag.WrapCount marker) then Return (Ok tt)
        else exec (MarkComplete groupId)
    end.

(** What step (5b) and (6) made of a record: no commit, a commit that lost, one that opened an epoch. *)
Inductive claimedEpoch : Type := NoCommit | CommitLost | Opened (media : Z) (durable : option Z) (applied : RetentionApplied.t).

Definition claimEpoch (nonces : nonce * nonce) (groupId : slice) (st : GroupState.t) (record : Rec.t)
    (keys : option EpochKeyDelivery.t) (now : time) : program (res PgxError claimedEpoch) :=
  if Rec.IsCommit record then
    won ← query (InsertCommit groupId (i64 (Rec.Epoch record)) (i64 (Rec.RecordId record)) true);
    match won with
    | Err ErrNoRows => Return (Ok CommitLost)
    | Err e => Return (Err (DriverError e))
    | Ok _ =>
        opened ←! openEpoch nonces groupId st record keys now;
        let '(media, durable, applied) := opened in Return (Ok (Opened media durable applied))
    end
  else Return (Ok NoCommit).

(** One record written, and the epoch it leaves the group in; or why the batch is refused. *)
Inductive written : Type :=
  | Wrote (current : pending.t) (currentEpoch : Z)
  | Refusal (current : pending.t) (reason : Reason).

(** Behind the commit: the marker, the claim, the row, the pin and the sender. *)
Definition writeRows (groupId : slice) (record : Rec.t) (now : time) (media : Z) (durable : option Z)
    (policy currentEpoch : Z) (result : SubmitResult.t) (current : pending.t) : program (res PgxError written) :=
  let current := pending.set_result result current in
  _ ←! (match epochCompleteTagOf record with
        | Some marker => closeFanOut groupId currentEpoch marker
        | None => Return (Ok tt)
        end);
  _ ←! exec (InsertClaim groupId (Rec.SenderHandle record) (i64 (Rec.StreamIndex record)) (claimColumns record now) true);
  _ ←! insertRecord groupId record now (pruneAfter now (Rec.RetentionClass record) media durable) policy;
  rebound ←! (match recoveryTagOf record with
              | Some tag => pinRecoveryHandle groupId tag now
              | None => Return (Ok false)
              end);
  if rebound : bool then Return (Ok (Refusal current REASON_REJECTED))
  else
    _ ←! exec (InsertSender groupId (Rec.SenderHandle record) (i64 (Rec.StreamIndex record)) (recordBytes record) now true);
    Return (Ok (Wrote (pending.set_result
                         (SubmitResult.set_RecordId (Rec.RecordId record)
                            (SubmitResult.set_reason (acceptanceReason (SubmitResult.Applied result)) result)) current)
                      currentEpoch)).

Definition writeOne (nonces : nonce * nonce) (groupId : slice) (st : GroupState.t) (keys : option EpochKeyDelivery.t)
    (now : time) (id currentEpoch : Z) (current : pending.t) : program (res PgxError written) :=
  let record := Rec.set_PruneAfter None (Rec.set_RecordId id (cloneRecord (pending.record current))) in
  claimed ←! claimEpoch nonces groupId st record keys now;
  match claimed with
  | CommitLost => Return (Ok (Refusal current REASON_COMMIT_LOST))
  | NoCommit =>
      writeRows groupId record now (GroupState.MediaTtlSeconds st) (GroupState.DurableTtlSeconds st)
        (GroupState.PolicyVersion st) currentEpoch (pending.result current) current
  | Opened media durable applied =>
      let next := u64 (GroupState.CurrentEpoch st + 1) in
      writeRows groupId record now media durable (u32 (GroupState.PolicyVersion st + 1)) next
        (SubmitResult.set_CurrentEpoch next (SubmitResult.set_Applied (Some applied) (pending.result current))) current
  end.

(** The batch behind the write loop: written, or refused for the record at a place. *)
Inductive batchWritten : Type :=
  | Written (batch : list pending.t) (currentEpoch : Z)
  | BatchRefused (batch : list pending.t) (offender : nat) (reason : Reason).

Fixpoint writeAll (nonces : nonce * nonce) (groupId : slice) (st : GroupState.t) (keys : option EpochKeyDelivery.t)
    (now : time) (first index currentEpoch : Z) (before batch : list pending.t) : program (res PgxError batchWritten) :=
  match batch with
  | [] => Return (Ok (Written before currentEpoch))
  | current :: rest =>
      if pending.settled current
      then writeAll nonces groupId st keys now first index currentEpoch (before ++ [current]) rest
      else
        one ←! writeOne nonces groupId st keys now (u64 (u64 first + index)) currentEpoch current;
        match one with
        | Wrote current currentEpoch =>
            writeAll nonces groupId st keys now first (index + 1) currentEpoch (before ++ [current]) rest
        | Refusal current reason => Return (Ok (BatchRefused (before ++ current :: rest) (length before) reason))
        end
  end.

Definition write (nonces : nonce * nonce) (groupId : slice) (st : GroupState.t) (keys : option EpochKeyDelivery.t)
    (now : time) (batch : list pending.t) : program (res PgxError (list SubmitResult.t)) :=
  first ←! exec (AllocateIds groupId (Z.of_nat (length (unsettled batch))));
  wrote ←! writeAll nonces groupId st keys now first 0 (GroupState.CurrentEpoch st) [] batch;
  match wrote with
  | BatchRefused batch offender reason => refuse groupId batch offender reason (GroupState.CurrentEpoch st)
  | Written batch currentEpoch =>
      let batch := (λ current,
        if SubmitResult.CurrentEpoch (pending.result current) =? 0
        then pending.set_result (SubmitResult.set_CurrentEpoch currentEpoch (pending.result current)) current
        else current) <$> batch in
      committed ← commit;
      attempt committed (λ _, Return (Ok (resultsOf batch)))
  end.

(** ** [Submit] *)

(** Behind the row lock: the gates and the writes. *)
Definition underLock (nonces : nonce * nonce) (groupId : slice) (keys : option EpochKeyDelivery.t) (now : time)
    (batch : list pending.t) (row : groupRow.t) : program (res PgxError (list SubmitResult.t)) :=
  let st := stateOf row in
  let batch := (λ current, pending.set_result
                  (SubmitResult.set_CurrentEpoch (GroupState.CurrentEpoch st) (pending.result current)) current) <$> batch in
  highWater ←! senderHighWater groupId batch;
  pinned ←! pinnedRecoveryKeys groupId batch;
  refusal ←! gates groupId st keys 0 batch highWater pinned;
  match refusal with
  | Some (offender, reason) => refuse groupId batch offender reason (GroupState.CurrentEpoch st)
  | None => write nonces groupId st keys now batch
  end.

Definition transact (nonces : nonce * nonce) (groupId : slice) (keys : option EpochKeyDelivery.t) (now : time)
    (batch : list pending.t) : program (res PgxError (list SubmitResult.t)) :=
  transaction
    (found ← query (SelectGroup groupId true);
     match found with
     | Err ErrNoRows => Return (Ok (refuseUnavailable batch))
     | Err e => Return (Err (DriverError e))
     | Ok row => underLock nonces groupId keys now batch row
     end).

Definition Submit (ctx : option Error) (now : time) (nonces : nonce * nonce) (request : SubmitRequest.t) :
    program (res PgxError (list SubmitResult.t)) :=
  match validateSubmit ctx request with
  | Some e => refuseWith e
  | None =>
      let groupId := SubmitRequest.GroupId request in
      batch ←! probe groupId ((λ record, pending.mk record SubmitResult.zero probeAbsent false) <$> SubmitRequest.Records request);
      match list_find (λ p, pending.probe p = probeDiffers) batch with
      | Some (offender, _) => refuse groupId batch offender REASON_STREAM_INDEX_REUSED 0
      | None =>
          let batch := settle <$> batch in
          if bool_decide (unsettled batch = []) then
            batch ←! fill groupId batch 0;
            Return (Ok (resultsOf batch))
          else transact nonces groupId (SubmitRequest.EpochKeys request) now batch
      end
  end.
End Store.
