(* ===== verification/PgxStored.v ===== *)
(** * Tables that hold what the in-memory store holds

    [stored] relates the rows of one group, as the seven tables keep them, to a [memoryGroup] of
    [MemoryStore]: the same values in the columns' types, keys under the vault's, NULL for Go's zero
    time and for nil, a timestamp for an instant at the resolution of the database, and a record as
    the columns it was taken apart into.  [represents] relates the tables to a whole store. *)

From S2P Require Import Prelude Sha256 StoreTypes Retention MemoryStore GroupLog GroupInv Prog Sql OneKey PgxRecord PgxGroups PgxStore.

(** ** Instants *)

(** A clock that leaves room for the longest retention before the last timestamp. *)
Definition clock_ok (now : time) : Prop := 0 <= now ∧ now + two32 * Second < timestampEnd.

Lemma truncate_add now s : truncate_micro (now + s * Second) = truncate_micro now + s * Second.
Proof.
  unfold truncate_micro. replace (s * Second) with (s * 1000000 * Microsecond) by (unfold Second, Millisecond, Microsecond; lia).
  rewrite Z_mod_plus_full. lia.
Qed.
Lemma truncate_range now : 0 <= now → 0 <= truncate_micro now <= now.
Proof. unfold truncate_micro, Microsecond. intros. pose proof (Z.mod_pos_bound now 1000 eq_refl). split; [|lia]. pose proof (Z.mod_le now 1000 H eq_refl). lia. Qed.

(** The prune time of a record kept: [pruneAfter] at the clock as it is kept. *)
Lemma pruneAfter_kept now class media durable :
  0 <= media < two32 → (∀ d, durable = Some d → 0 <= d < two32) →
  default None (pruneAfter (truncate_micro now) class media durable) =
    truncate_micro <$> default None (pruneAfter now class media durable) ∧
  (∀ t, default None (pruneAfter now class media durable) = Some t → now <= t < now + two32 * Second).
Proof.
  intros Hm Hd.
  assert (∀ s, 0 <= s < two32 → after_seconds (truncate_micro now) s = truncate_micro (after_seconds now s) ∧
    now <= after_seconds now s < now + two32 * Second) as H.
  { intros s Hs. rewrite !after_seconds_exact, truncate_add by done. split; [done|].
    unfold Second, Millisecond, Microsecond, two32 in *. lia. }
  unfold pruneAfter. destruct (class =? _); [done|]. destruct (class =? _); [|destruct (class =? _)].
  - destruct durable as [d|]; [|done]. destruct (H d) as [E1 E2]; [by apply Hd|]. cbn. rewrite E1.
    split; [done|]. by intros t [= <-].
  - destruct (H media) as [E1 E2]; [done|]. cbn. rewrite E1. split; [done|]. by intros t [= <-].
  - destruct (ephBucketSeconds !! _) as [s|] eqn:Hs; [|done].
    assert (0 <= s < two32) as Hr.
    { assert (Forall (λ s, 0 <= s < two32) ephBucketSeconds) as Hf by (unfold two32; repeat constructor; lia).
      by eapply Forall_lookup in Hf. }
    destruct (H s Hr) as [E1 E2]. cbn. rewrite E1. split; [done|]. by intros t [= <-].
Qed.

(** ** One group *)

(** A record the tables hold whole: the ranges of its Go types, the one part its attachment's kind
    names, a stream index that is not negative as a bigint, and an expiry that is a timestamp. *)
Record storable (r : Rec.t) : Prop := Storable {
  storable_typed : typed r;
  storable_proper : proper (Rec.Attachment r);
  storable_index : Rec.StreamIndex r < two63;
  storable_expire : 0 <= Rec.ExpireAtMs r < 9224318016000000 }.

Definition pinColumns (row : recoveryRow.t) : recoveryRow.t :=
  recoveryRow.mk (recoveryRow.verifyPub row) (i32 (recoveryRow.algId row)) (recoveryRow.firstSeen row).

Record storedGroup (row : groupRow.t) (g : memoryGroup.t) : Prop := StoredGroup {
  sg_create : groupRow.create_time row = memoryGroup.createTime g;
  sg_epoch : groupRow.current_epoch row = memoryGroup.currentEpoch g;
  sg_next : groupRow.next_record_id row = memoryGroup.nextRecordId g;
  sg_media : groupRow.media_ttl_seconds row = i32 (memoryGroup.mediaTtlSeconds g);
  sg_durable : groupRow.durable_ttl_seconds row = i32 <$> memoryGroup.durableTtlSeconds g;
  sg_hash : groupRow.group_context_hash row = memoryGroup.groupContextHash g;
  sg_policy : groupRow.policy_version row = memoryGroup.policyVersion g;
  sg_complete : groupRow.epoch_complete row = memoryGroup.epochComplete g;
  sg_closed : groupRow.closed row = memoryGroup.closed g;
  sg_close : groupRow.close_time row = if memoryGroup.closed g then Some (memoryGroup.closeTime g) else None;
  sg_epoch_range : 0 <= memoryGroup.currentEpoch g < two63;
  sg_next_range : Z.of_nat (length (memoryGroup.records g)) < memoryGroup.nextRecordId g < two63;
  sg_media_range : 0 <= memoryGroup.mediaTtlSeconds g < two32;
  sg_durable_range d : memoryGroup.durableTtlSeconds g = Some d → 0 <= d < two32;
  sg_policy_range : 0 <= memoryGroup.policyVersion g < 2 ^ 31 }.

Definition storedRecord_of (x : recordRow.t) : messageRecord.t :=
  recordColumns (recordRow.record x) (recordRow.createTime x) (recordRow.pruneAfter x) (recordRow.policy x).

Section Stored.
Context `{V : Vault}.
Context (self : PgxStore.t AEAD).

Record storedEpoch (key : list Z) (e : Z) (row : epochColumns.t) (x : epochRow.t) : Prop := StoredEpoch {
  se_epoch : epochRow.epoch x = e;
  se_write : unwrapped (PgxStore.keys self) (epochColumns.write_key_wrapped row) wrapWriteKey (Some key) e = Ok (epochRow.writeKey x);
  se_read : unwrapped (PgxStore.keys self) (epochColumns.read_key_wrapped row) wrapReadKey (Some key) e = Ok (epochRow.readKey x);
  se_install : default zero_time (epochColumns.read_key_install row) = epochRow.readKeyInstall x;
  se_alg : epochColumns.alg_id row = i32 (epochRow.algId x);
  se_opened : orZero u64 (epochColumns.opened_by_record row) = epochRow.openedByRecord x;
  se_accept : epochColumns.accept_time row = epochRow.acceptTime x;
  se_retire : default zero_time (epochColumns.retire_time row) = epochRow.retireTime x;
  se_expected : epochColumns.expected_wrap_count row = epochRow.expectedWrapCount x;
  se_alg_range : 0 <= epochRow.algId x < two32;
  se_expected_range : 0 <= epochRow.expectedWrapCount x < two32 }.

Record stored (key : list Z) (r : Rows.t) (g : memoryGroup.t) : Prop := Stored {
  stored_id : octets (memoryGroup.groupId g) = key;
  stored_group : ∃ row, Rows.group r = Some row ∧ storedGroup row g;
  stored_epochs e : option_Forall2 (storedEpoch key e) (Rows.epochs r !! e) (memoryGroup.epochs g !! e);
  stored_records n : Rows.records r !! (Z.of_nat n + 1) = storedRecord_of <$> memoryGroup.records g !! n;
  stored_ids id : is_Some (Rows.records r !! id) → 1 <= id;
  stored_storable : Forall (λ x, storable (recordRow.record x) ∧ Rec.PruneAfter (recordRow.record x) = None)
    (memoryGroup.records g);
  stored_claims : Rows.claims r = memoryGroup.claims g;
  stored_commits : Rows.commits r = commitRow.recordId <$> memoryGroup.commits g;
  stored_senders : Rows.senders r = memoryGroup.senders g;
  stored_recovery : Rows.recovery r = pinColumns <$> memoryGroup.recovery g }.

Definition represents (t : Groups.t) (m : gmap (list Z) memoryGroup.t) : Prop :=
  ∀ key, match m !! key with
         | Some g => stored key (Groups.at_ key t) g ∧ group_inv g
         | None => Groups.at_ key t = Rows.empty
         end.

(** Tables that hold some store. *)
Definition sane (t : Groups.t) : Prop := ∃ m, represents t m.

(** The operation's own key changes, and no other. *)
Lemma represents_put t t' m key g :
  represents t m → stored key (Groups.at_ key t') g → group_inv g →
  (∀ key', key' ≠ key → Groups.at_ key' t' = Groups.at_ key' t) → represents t' (<[key := g]> m).
Proof.
  intros Hm Hs Hi Hrest key'. destruct (decide (key' = key)) as [->|Hne].
  - by rewrite lookup_insert_eq.
  - rewrite lookup_insert_ne by done. specialize (Hm key'). by rewrite Hrest.
Qed.

Lemma represents_same t t' m : (∀ key, Groups.at_ key t' = Groups.at_ key t) → represents t m → represents t' m.
Proof. intros Hs Hm key. specialize (Hm key). by rewrite Hs. Qed.

(** ** What the invariant of the group says of its rows *)

Section Facts.
Context (key : list Z) (r : Rows.t) (g : memoryGroup.t) (next : Z).
Context (Hs : stored key r g) (Hi : inv_at next g).

Lemma stored_length : Z.of_nat (length (memoryGroup.records g)) < two63 - 1.
Proof. destruct (stored_group _ _ _ Hs) as (row & _ & H). pose proof (sg_next_range _ _ H). lia. Qed.

Lemma stored_length64 : Z.of_nat (length (memoryGroup.records g)) < two64.
Proof. pose proof stored_length. unfold two63, two64 in *. lia. Qed.

Lemma stored_custody : custody g.
Proof. apply (inv_custody _ _ Hi), stored_length64. Qed.

Lemma stored_row_id n x :
  memoryGroup.records g !! n = Some x → Rec.RecordId (recordRow.record x) = 1 + Z.of_nat n.
Proof. intros Hn. eapply log_ids_exact; [apply Hi|apply stored_length64|done]. Qed.

Lemma stored_claim k c :
  memoryGroup.claims g !! k = Some c → 0 <= k.2 < two63 ∧ 0 <= claimRow.recordId c < two63.
Proof.
  intros Hk. change (memoryGroup.claims g) with (view.claims (view_at next g)) in Hk. rewrite (inv_view _ _ Hi) in Hk.
  apply log_claims_spec in Hk as (n & x & Hn & -> & ->); [|apply Hi]. cbn.
  pose proof (stored_storable _ _ _ Hs) as Hf. eapply Forall_lookup in Hf; [|exact Hn].
  split; [by destruct Hf as [ [ [] _ ? _] _]; lia|]. rewrite (stored_row_id _ _ Hn). apply lookup_lt_Some in Hn. pose proof stored_length. lia.
Qed.

(** The commit of an epoch, and its row. *)
Lemma stored_commit e c :
  memoryGroup.commits g !! e = Some c →
  0 <= e < two63 ∧ ∃ n x, memoryGroup.records g !! n = Some x ∧ recordRow.record x = commitRow.record c ∧
    commitRow.recordId c = Z.of_nat n + 1 ∧ commitRow.epoch c = e.
Proof.
  intros Hk. change (memoryGroup.commits g) with (view.commits (view_at next g)) in Hk. rewrite (inv_view _ _ Hi) in Hk.
  split.
  - assert (is_Some (view.commits (replay (memoryGroup.records g)) !! e)) as H%log_commits_dom; [by eexists|..|apply Hi|apply stored_length64].
    rewrite <- (inv_view _ _ Hi) in H. cbn in H. destruct (stored_group _ _ _ Hs) as (row & _ & Hg).
    pose proof (sg_epoch_range _ _ Hg). lia.
  - apply log_commits_spec in Hk as (n & x & Hn & _ & _ & ->); [|apply Hi]. exists n, x. cbn.
    rewrite (stored_row_id _ _ Hn). split_and!; [done|done|lia|done].
Qed.

Lemma stored_sender h s :
  memoryGroup.senders g !! h = Some s → 0 <= senderRow.lastStreamIndex s < two63.
Proof.
  intros Hk. change (memoryGroup.senders g) with (view.senders (view_at next g)) in Hk. rewrite (inv_view _ _ Hi) in Hk.
  pose proof (log_accounting (memoryGroup.records g) h) as H. rewrite Hk in H.
  destruct H as (last & front & Hf & -> & _).
  assert (last ∈ rows_of h (memoryGroup.records g)) as Hin by (rewrite Hf; apply elem_of_app; right; by left).
  unfold rows_of in Hin. apply list_elem_of_filter in Hin as [_ Hin].
  pose proof (stored_storable _ _ _ Hs) as Hst. rewrite Forall_forall in Hst. specialize (Hst _ Hin).
  destruct Hst as [ [ [] _ ? _] _]. lia.
Qed.

Lemma stored_epoch_key e : is_Some (Rows.epochs r !! e) → 0 <= e < two63.
Proof.
  intros [row He]. pose proof (stored_epochs _ _ _ Hs e) as H. rewrite He in H. inversion H as [? x _ Hx|]. subst.
  assert (is_Some (memoryGroup.epochs g !! e)) as Hd by by eexists. apply (cus_dom _ stored_custody) in Hd.
  destruct (stored_group _ _ _ Hs) as (g0 & _ & Hg). pose proof (sg_epoch_range _ _ Hg). lia.
Qed.
End Facts.

(** The rows of a group, or of none. *)
Definition holds (key : list Z) (r : Rows.t) (og : option memoryGroup.t) : Prop :=
  match og with Some g => stored key r g ∧ group_inv g | None => r = Rows.empty end.

Lemma represents_holds t m key : represents t m → holds key (Groups.at_ key t) (m !! key).
Proof. intros Hm. specialize (Hm key). by destruct (m !! key). Qed.

(** The groups of a store whose limits are this one's. *)
Definition store (m : gmap (list Z) memoryGroup.t) : MemoryStore.t := MemoryStore.mk (PgxStore.limits self) m.

Lemma represents_put_group t t' m id og :
  represents t m → holds (octets id) (Groups.at_ (octets id) t') og → (og = None → m !! octets id = None) →
  (∀ key', key' ≠ octets id → Groups.at_ key' t' = Groups.at_ key' t) →
  represents t' (MemoryStore.groups (put_group (store m) id og)).
Proof.
  intros Hm Hh Hn Hrest. destruct og as [g|]; cbn.
  - destruct Hh as [Hs Hi]. by apply (represents_put t).
  - apply (represents_same t); [|done]. intros key. destruct (decide (key = octets id)) as [->|Hne]; [|by apply Hrest].
    specialize (Hm (octets id)). rewrite Hn in Hm by done. by rewrite Hm.
Qed.

(** What a statement with [AND NOT closed] finds. *)
Lemma holds_open key r og :
  holds key r og →
  (∃ row g, Rows.open r = Some row ∧ Rows.group r = Some row ∧ og = Some g ∧ memoryGroup.closed g = false ∧
     storedGroup row g ∧ stored key r g ∧ group_inv g) ∨
  (Rows.open r = None ∧ ∀ g, og = Some g → memoryGroup.closed g = true).
Proof.
  intros Hh. destruct og as [g|]; cbn in Hh; [|subst; by right]. destruct Hh as [Hs Hi].
  destruct (stored_group _ _ _ Hs) as (row & Hrow & Hg). pose proof (sg_closed _ _ Hg) as Hc.
  destruct (memoryGroup.closed g) eqn:E.
  - right. unfold Rows.open. rewrite Hrow, Hc. split; [done|]. by intros ? [= <-].
  - left. exists row, g. split_and!; try done. unfold Rows.open. by rewrite Hrow, Hc.
Qed.

(** The widths a group's row is read back at. *)
Lemma stateOf_stored row g : storedGroup row g → stateOf row = state g.
Proof.
  intros []. unfold stateOf, state, bytes_Clone. rewrite sg_epoch0, sg_next0, sg_media0, sg_durable0, sg_hash0, sg_policy0, sg_complete0.
  unfold two63, two32 in *. rewrite !u64_small by (unfold two64; lia). rewrite u32_i32 by done.
  rewrite (u32_small (memoryGroup.policyVersion g)) by (unfold two32; lia). f_equal.
  destruct (memoryGroup.durableTtlSeconds g) as [d|] eqn:Hd; [|done]. cbn. rewrite u32_i32; [done|]. by apply sg_durable_range0.
Qed.

Lemma unwrapped_octets ring w label id e : unwrapped ring w label id e = unwrapped ring w label (Some (octets id)) e.
Proof. done. Qed.

Lemma unwrapped_None ring w label id e k : unwrapped ring w label id e = Ok k → w = None ↔ k = None.
Proof.
  unfold unwrapped, unwrap. destruct w as [w|]; [|by intros [= <-]]. destruct (negb _); [done|].
  destruct (octets (Some w)); [done|]. destruct (KekRing.keys ring !! z); [|done]. destruct (Open _ _ _ _); [|done].
  by intros [= <-].
Qed.
End Stored.
