(* ===== verification/PgxReads.v ===== *)
(** * The reads of a group over PostgreSQL, and its closing

    Each is one statement on the pool: it answers what the in-memory method answers on whichever
    store the tables held at that statement, and [CloseGroup] makes of them what that makes of it. *)

From S2P Require Import Prelude Sha256 StoreTypes Retention MemoryStore GroupLog GroupInv Prog Sql OneKey PgxRecord PgxGroups PgxStore PgxStored.

Section Reads.
Context `{V : Vault} `{VL : !VaultLaws} `{T : Timestamps} `{TL : !TimestampLaws}.
Context (self : PgxStore.t AEAD).
Abbreviation session := (Session.t Groups.t (list Z)).
Abbreviation sane := (sane self).
Abbreviation represents := (represents self).
Abbreviation store := (store self).

(** ** Doing what the in-memory method does *)

(** The tables go from [t] to [t'] and the answer is [a], as an operation on the store they hold. *)
Definition does {A} (op : MemoryStore.t → MemoryStore.t * res Error A) (a : res PgxError A) (t t' : Groups.t) : Prop :=
  sane t ∧ ∀ m, represents t m →
    represents t' (MemoryStore.groups (op (store m)).1) ∧
    match a with
    | Ok x => (op (store m)).2 = Ok x
    | Err (StoreError e) => (op (store m)).2 = Err e
    | Err _ => True
    end.

Definition answerOf {A} (x : res Error A) : res PgxError A :=
  match x with Ok a => Ok a | Err e => Err (StoreError e) end.

(** A run that does so at one of its calls and nothing at the others; or changes nothing, and
    answers what the operation answers on any store without changing it, or an internal error. *)
Definition carriesOut {A} (op : MemoryStore.t → MemoryStore.t * res Error A) (out : outcome (res PgxError A))
    (l : list (Groups.t * Groups.t)) : Prop :=
  at_once (does op) out l ∨
  Forall quiet l ∧ ((∃ x, out = Returned (answerOf x) ∧ ∀ s, op s = (s, x)) ∨
                    ∃ e, internal e ∧ out = Returned (Err e)).

Lemma carriesOut_answered {A} (op : MemoryStore.t → MemoryStore.t * res Error A) x s :
  (∀ s, op s = (s, x)) →
  spec sane (Return (answerOf x)) (λ out l (_ : session), carriesOut op out l) s.
Proof. intros He. right. split; [done|]. left. by exists x. Qed.
Lemma carriesOut_refused {A} (op : MemoryStore.t → MemoryStore.t * res Error A) e s :
  (∀ s, op s = (s, Err e)) →
  spec sane (Return (Err (StoreError e))) (λ out l (_ : session), carriesOut op out l) s.
Proof. apply (carriesOut_answered op (Err e)). Qed.

(** A single statement on the pool whose answer and effect are the operation's. *)
Lemma single_carriesOut {A} c (k : res PgError (scanned c) → prog (reply scanned) (res PgxError A)) f op s :
  fresh sane false s → (∀ r, k r = Return (f r)) → f (Err ErrDriver) = brokenAnswer →
  (∀ t t' m, represents t m →
     Groups.at_ (keyOf c) t' = (onRows c (Groups.at_ (keyOf c) t)).1 →
     (∀ key, key ≠ keyOf c → Groups.at_ key t' = Groups.at_ key t) →
     represents t' (MemoryStore.groups (op (store m)).1) ∧
     match f (onRows c (Groups.at_ (keyOf c) t)).2 with
     | Ok x => (op (store m)).2 = Ok x
     | Err (StoreError e) => (op (store m)).2 = Err e
     | Err _ => True
     end) →
  spec sane (query c ≫= k) (λ out l (_ : session), carriesOut op out l) s.
Proof.
  intros Hf Hk Hb Hop. eapply spec_mono; [|exact (spec_single sane (keyOf c) c k f s Hf eq_refl Hk Hb)].
  intros out l s1 [H|[Hq ->] ].
  - left. destruct H as (a & -> & before & t & t' & after & -> & H1 & H2 & Ht & Ha & E1 & E2).
    exists a. split; [done|]. exists before, t, t', after. split; [done|]. split; [done|]. split; [done|]. split; [done|].
    intros m Hm. specialize (Hop t t' m Hm E1 E2) as [Hr Hans]. split; [exact Hr|].
    destruct Ha as [->| ->]; [exact Hans|done].
  - right. split; [done|]. right. by exists (DriverError ErrDriver).
Qed.

(** One that changes no rows. *)
Lemma reading_represents c (t t' : Groups.t) m :
  represents t m → (onRows c (Groups.at_ (keyOf c) t)).1 = Groups.at_ (keyOf c) t →
  Groups.at_ (keyOf c) t' = (onRows c (Groups.at_ (keyOf c) t)).1 →
  (∀ key, key ≠ keyOf c → Groups.at_ key t' = Groups.at_ key t) → represents t' m.
Proof.
  intros Hm E E1 E2. apply (represents_same self t); [|done]. intros key.
  destruct (decide (key = keyOf c)) as [->|Hne]; [congruence|by apply E2].
Qed.

(** ** [GroupState] *)

Lemma GroupStateOf_carriesOut ctx id s :
  fresh sane false s →
  spec sane (PgxStore.GroupStateOf ctx id)
    (λ out l (_ : session), carriesOut (λ s, (s, MemoryStore.GroupStateOf ctx s id)) out l) s.
Proof.
  intros Hf. unfold PgxStore.GroupStateOf, MemoryStore.GroupStateOf.
  destruct (first_error ctx _) as [e|]; [apply carriesOut_refused; intros ?; done|].
  eapply (single_carriesOut (SelectGroup id false) _ (λ r, match r with
    | Err ErrNoRows => Err (StoreError ErrGroupUnavailable)
    | Err e => Err (DriverError e)
    | Ok g => Ok (stateOf g) end)); [done|by intros [?|[] ]|done|].
  intros t t' m Hm E1 E2. split; [by apply (reading_represents (SelectGroup id false) t t' m Hm)|]. cbn [onRows keyOf scan snd].
  destruct (holds_open self _ _ _ (represents_holds self t m (octets id) Hm)) as
    [ (row & g & -> & _ & Hg & Hc & Hst & _)|[-> Hc] ]; cbn; unfold open_group, group; cbn.
  - by rewrite Hg, Hc, (stateOf_stored _ _ Hst).
  - destruct (m !! octets id) as [g|]; [|done]. by rewrite (Hc g).
Qed.

(** ** [EpochKeys] *)

Lemma stored_epoch_at key r g next e :
  stored self key r g → inv_at next g → 0 <= e < two64 →
  option_Forall2 (storedEpoch self key e) (Rows.epochs r !! i64 e) (memoryGroup.epochs g !! e).
Proof.
  intros Hs Hi He. destruct (decide (e < two63)) as [Hlt|Hge].
  - rewrite i64_small by (unfold two63 in *; lia). by apply stored_epochs.
  - assert (memoryGroup.epochs g !! e = None) as ->.
    { apply eq_None_not_Some. intros Hd. apply (cus_dom _ (stored_custody self _ _ _ _ Hs Hi)) in Hd.
      destruct (stored_group _ _ _ _ Hs) as (row & _ & Hg). pose proof (sg_epoch_range _ _ Hg). lia. }
    assert (Rows.epochs r !! i64 e = None) as ->; [|constructor].
    apply eq_None_not_Some. intros Hd. apply (stored_epoch_key self _ _ _ _ Hs Hi) in Hd.
    pose proof (i64_large e ltac:(lia)). lia.
Qed.

(** What the statement's answer is made into. *)
Definition keysAnswer (id : slice) (found : res PgError (Z * epochColumns.t)) : res PgxError EpochKeys.t :=
  match found with
  | Err ErrNoRows => Err (StoreError ErrEpochKeyUnknown)
  | Err e => Err (DriverError e)
  | Ok (stored, row) =>
      let writeWrapped := epochColumns.write_key_wrapped row in
      let readWrapped := epochColumns.read_key_wrapped row in
      if bool_decide (writeWrapped = None) && bool_decide (readWrapped = None) then Err (StoreError ErrEpochKeyUnknown)
      else
        res_bind (unwrapped (PgxStore.keys self) writeWrapped wrapWriteKey id (u64 stored)) (λ writeKey,
        res_bind (unwrapped (PgxStore.keys self) readWrapped wrapReadKey id (u64 stored)) (λ readKey,
        Ok (EpochKeys.mk (u64 stored) writeKey readKey (default zero_time (epochColumns.read_key_install row))
              (u32 (epochColumns.alg_id row)) (orZero u64 (epochColumns.opened_by_record row))
              (epochColumns.accept_time row) (default zero_time (epochColumns.retire_time row)))))
  end.

#[local] Arguments keysAnswer : simpl never.

Lemma keysAnswer_stored id e row x :
  0 <= e < two64 → storedEpoch self (octets id) e row x →
  keysAnswer id (Ok (i64 e, row)) =
  if bool_decide (epochRow.writeKey x = None) && bool_decide (epochRow.readKey x = None)
  then Err (StoreError ErrEpochKeyUnknown)
  else Ok (EpochKeys.mk (epochRow.epoch x) (epochRow.writeKey x) (epochRow.readKey x) (epochRow.readKeyInstall x)
             (epochRow.algId x) (epochRow.openedByRecord x) (epochRow.acceptTime x) (epochRow.retireTime x)).
Proof.
  intros He [Ee Hw Hr Hin Ha Ho Hac Hre _ Har _]. unfold keysAnswer. rewrite u64_i64 by done.
  rewrite !(bool_decide_ext _ _ (unwrapped_None _ _ _ _ _ _ Hw)), !(bool_decide_ext _ _ (unwrapped_None _ _ _ _ _ _ Hr)).
  rewrite !(unwrapped_octets _ _ _ id), Hw, Hr. cbn. by rewrite Hin, Ha, Ho, Hac, Hre, Ee, u32_i32 by done.
Qed.

Lemma EpochKeysOf_carriesOut ctx id epoch s :
  0 <= epoch < two64 → fresh sane false s →
  spec sane (PgxStore.EpochKeysOf self ctx id epoch)
    (λ out l (_ : session), carriesOut (λ s, (s, MemoryStore.EpochKeysOf ctx s id epoch)) out l) s.
Proof.
  intros He Hf. unfold PgxStore.EpochKeysOf, MemoryStore.EpochKeysOf.
  destruct (first_error ctx _) as [e|]; [apply carriesOut_refused; intros ?; done|].
  eapply (single_carriesOut (SelectEpochKeys id (i64 epoch)) _ (keysAnswer id)); [done| |done|].
  { intros [ [stored row]|[] ]; [|done..]. unfold keysAnswer. cbn. destruct (bool_decide _ && bool_decide _); [done|].
    unfold lift. destruct (unwrapped _ _ wrapWriteKey _ _); [cbn|done]. by destruct (unwrapped _ _ wrapReadKey _ _). }
  intros t t' m Hm E1 E2. split; [by apply (reading_represents (SelectEpochKeys id (i64 epoch)) t t' m Hm)|].
  cbn [onRows keyOf scan snd].
  destruct (holds_open self _ _ _ (represents_holds self t m (octets id) Hm)) as
    [ (row & g & -> & _ & Hg & Hc & _ & Hs & Hi)|[-> Hc] ]; cbn; unfold open_group, group; cbn.
  - rewrite Hg, Hc. pose proof (stored_epoch_at _ _ _ _ _ Hs Hi He) as Hx.
    destruct (memoryGroup.epochs g !! epoch) as [x|]; inversion Hx as [row' ? Hrow|]; subst; cbn; [|done].
    rewrite (keysAnswer_stored id epoch row' x He Hrow). by destruct (bool_decide _ && bool_decide _).
  - destruct (m !! octets id) as [g|]; [|done]. by rewrite (Hc g).
Qed.

(** ** [CloseGroup] *)

Lemma storedGroup_closed now row g :
  storedGroup row g → storedGroup (groupRow.set_closed true (Some now) row) (memoryGroup.set_closed true now g).
Proof. intros []. by split. Qed.

Lemma stored_closed key r g row now :
  stored self key r g → Rows.group r = Some row → storedGroup row g →
  stored self key (Rows.set_group (Some (groupRow.set_closed true (Some now) row)) r) (memoryGroup.set_closed true now g).
Proof.
  intros [Hid _ H1 H2 H3 H4 H5 H6 H7 H8] Hrow Hg. split; try done.
  eexists. split; [done|by apply storedGroup_closed].
Qed.

Lemma clock_kept now : clock_ok now → timestamp now = Some (truncate_micro now).
Proof.
  intros [H0 H1]. apply timestamp_ok. split; [done|]. unfold two32, Second, Millisecond, Microsecond in *. lia.
Qed.

Lemma CloseGroup_carriesOut ctx now id s :
  clock_ok now → fresh sane false s →
  spec sane (PgxStore.CloseGroup ctx now id)
    (λ out l (_ : session), carriesOut (λ s, let '(s', e) := MemoryStore.CloseGroup ctx (truncate_micro now) s id in
                                             (s', match e with Some e => Err e | None => Ok tt end)) out l) s.
Proof.
  intros Hn Hf. unfold PgxStore.CloseGroup, MemoryStore.CloseGroup.
  destruct (first_error ctx _) as [e|]; [apply carriesOut_refused; intros ?; done|].
  eapply (single_carriesOut (CloseRow id now) _ (λ r, match r with
    | Ok n => if n =? 0 then Err (StoreError ErrGroupUnavailable) else Ok tt
    | Err e => Err (DriverError e) end)); [done| |done|].
  { intros [n|e]; [|done]. cbn. by destruct (n =? 0). }
  intros t t' m Hm E1 E2. cbn [onRows keyOf snd fst] in *. rewrite clock_kept in E1 |- * by done.
  destruct (holds_open self _ _ _ (represents_holds self t m (octets id) Hm)) as
    [ (row & g & Hr & Hr' & Hg & Hc & Hst & Hs & Hi)|[Hr Hc] ]; rewrite Hr in E1 |- *; cbn in E1 |- *; unfold group; cbn.
  - rewrite Hg, Hc. split; [|done].
    apply (represents_put self t); [done| |by apply closed_inv|done]. rewrite E1. by apply stored_closed.
  - assert (represents t' m) as Hm'.
    { apply (represents_same self t); [|done]. intros key. destruct (decide (key = octets id)) as [->|]; [done|by apply E2]. }
    destruct (m !! octets id) as [g|]; [|done]. by rewrite (Hc g).
Qed.
End Reads.
