(* ===== verification/PgxFetch.v ===== *)
(** * [Fetch] over PostgreSQL serves what the in-memory [Fetch] serves

    The page query scans the columns of the records a request asks for, in the order of their ids;
    read back, each is the record as it was submitted, an epoch attachment with the keys its epoch's
    row holds by now. *)

From stdpp Require Import sorting.
From S2P Require Import Prelude Sha256 StoreTypes Retention MemoryStore GroupLog GroupInv FetchProps Prog Sql OneKey PgxRecord PgxGroups PgxStore PgxStored PgxReads.

Section Fetch.
Context `{V : Vault} `{VL : !VaultLaws} `{T : Timestamps} `{TL : !TimestampLaws}.
Context (self : PgxStore.t AEAD).
Abbreviation session := (Session.t Groups.t (list Z)).
Abbreviation sane := (sane self).
Abbreviation represents := (represents self).
Abbreviation store := (store self).
Abbreviation stored := (stored self).

(** ** Records as they are handed out *)

(** The record with the keys its epoch's row holds by now. *)
Definition reissued (g : memoryGroup.t) (r : Rec.t) : Rec.t :=
  let row := memoryGroup.epochs g !! attachmentEpochOf r in
  servedRecord (row ≫= epochRow.writeKey) (row ≫= epochRow.readKey) (Rec.PruneAfter r) r.

Definition reissuedPage (g : memoryGroup.t) (page : FetchResult.t) : FetchResult.t :=
  FetchResult.mk (reissued g <$> FetchResult.Records page) (FetchResult.NextRecordId page)
    (FetchResult.HighWaterRecordId page) (FetchResult.Complete page).

(** [Fetch] of the in-memory store, its records handed out so. *)
Definition fetchReissued (ctx : option Error) (s : MemoryStore.t) (request : FetchRequest.t) : res Error FetchResult.t :=
  match MemoryStore.Fetch ctx s request, group s (FetchRequest.GroupId request) with
  | Ok page, Some g => Ok (reissuedPage g page)
  | answer, _ => answer
  end.

Context (id : slice) (r : Rows.t) (g : memoryGroup.t).
Context (Hs : stored (octets id) r g) (Hi : group_inv g).

Lemma attachmentEpochOf_range x : typed x → 0 <= attachmentEpochOf x < two64.
Proof.
  intros [_ _ _ _ _ _ Ht]. unfold attachmentEpochOf. destruct (Rec.Attachment x) as [a|]; cbn; [|by unfold two64].
  destruct (Attachment.Epoch a) as [e|] eqn:He; cbn; [|by unfold two64]. by apply Ht.
Qed.

Lemma joined_epoch x headsOnly now prune policy :
  typed x → attachmentKindOf x = AttachmentEpoch → is_Some (Rec.Attachment x ≫= Attachment.Epoch) →
  let row := memoryGroup.epochs g !! attachmentEpochOf x in
  let scanned := joined r headsOnly (recordColumns x now prune policy) in
  unwrapped (PgxStore.keys self) (storedRecord.writeWrapped scanned) wrapWriteKey id (attachmentEpochOf x) =
    Ok (row ≫= epochRow.writeKey) ∧
  unwrapped (PgxStore.keys self) (storedRecord.readWrapped scanned) wrapReadKey id (attachmentEpochOf x) =
    Ok (row ≫= epochRow.readKey).
Proof.
  intros Ht Hk He. pose proof (stored_epoch_at self _ _ _ _ _ Hs Hi (attachmentEpochOf_range x Ht)) as Hx.
  unfold joined. cbn.
  assert (attachmentColumns.epoch (projectAttachment x) = Some (i64 (attachmentEpochOf x))) as ->.
  { unfold projectAttachment, attachmentEpochOf, attachmentKindOf in *. destruct (Rec.Attachment x) as [a|]; [|done].
    cbn in *. rewrite Hk. destruct He as [e He]. by rewrite He. }
  cbn. destruct (memoryGroup.epochs g !! _) as [y|]; inversion Hx as [row ? Hrow|]; subst; cbn; [|done].
  destruct Hrow. by rewrite !(unwrapped_octets _ _ _ id).
Qed.

Lemma recordOf_stored x headsOnly :
  x ∈ memoryGroup.records g →
  recordOf (PgxStore.keys self) id (joined r headsOnly (storedRecord_of x)) = Ok (reissued g (read x headsOnly)).
Proof.
  intros Hx. pose proof (stored_storable _ _ _ _ Hs) as Hf. rewrite Forall_forall in Hf.
  destruct (Hf _ Hx) as [ [Ht Hp _ Hm] Hpr]. unfold storedRecord_of.
  set (y := if headsOnly then Rec.set_CtBody None (recordRow.record x) else recordRow.record x).
  assert (joined r headsOnly (recordColumns (recordRow.record x) (recordRow.createTime x) (recordRow.pruneAfter x) (recordRow.policy x)) =
    joined r false (recordColumns y (recordRow.createTime x) (recordRow.pruneAfter x) (recordRow.policy x))) as ->
    by (unfold y, joined; by destruct headsOnly).
  assert (reissued g (read x headsOnly) =
    servedRecord (memoryGroup.epochs g !! attachmentEpochOf y ≫= epochRow.writeKey)
      (memoryGroup.epochs g !! attachmentEpochOf y ≫= epochRow.readKey) (recordRow.pruneAfter x) y) as ->.
  { unfold reissued, read, y. rewrite cloneRecord_id. destruct headsOnly, (recordRow.pruneAfter x); cbn; try done;
      by rewrite Hpr. }
  assert (typed y ∧ proper (Rec.Attachment y) ∧ 0 <= Rec.ExpireAtMs y < 9224318016000000) as (Ht' & Hp' & Hm').
  { unfold y. destruct headsOnly; [|done]. split; [by destruct Ht|done]. }
  unfold joined. apply columns_back; [done..|]. intros Hk. apply (joined_epoch y false); [done|done|].
  unfold attachmentKindOf in Hk. destruct (Rec.Attachment y) as [ [] |]; [|done]. cbn in *. subst. by destruct Hp'.
Qed.

(** ** The page *)

Lemma records_lookup n x : memoryGroup.records g !! n = Some x → messageRecord.record_id (storedRecord_of x) = Z.of_nat n + 1.
Proof.
  intros Hn. cbn. pose proof (stored_length self _ _ _ Hs). pose proof (lookup_lt_Some _ _ _ Hn).
  rewrite (stored_row_id self _ _ _ _ Hs Hi n x Hn). rewrite i64_small by (unfold two63 in *; lia). lia.
Qed.

Lemma records_ids : StronglySorted Z.lt (messageRecord.record_id <$> (storedRecord_of <$> memoryGroup.records g)).
Proof.
  assert (∀ n (l : list recordRow.t), (∀ k x, l !! k = Some x → messageRecord.record_id (storedRecord_of x) = Z.of_nat (n + k)%nat + 1) →
    StronglySorted Z.lt (messageRecord.record_id <$> (storedRecord_of <$> l))) as H.
  { intros n l. revert n. induction l as [|x l IH]; intros n Hl; [constructor|]. rewrite !fmap_cons. constructor.
    - apply (IH (S n)). intros k y Hk. rewrite (Hl (S k) y Hk). lia.
    - rewrite !Forall_fmap. apply Forall_lookup. intros k y Hk. cbn.
      pose proof (Hl 0%nat x eq_refl) as E0. pose proof (Hl (S k) y Hk) as E1. cbn in E0, E1. lia. }
  apply (H 0%nat). intros k x Hk. by apply records_lookup.
Qed.

Lemma inOrder_stored : inOrder r = storedRecord_of <$> memoryGroup.records g.
Proof.
  assert (∀ k row, Rows.records r !! k = Some row ↔ row ∈ storedRecord_of <$> memoryGroup.records g ∧ messageRecord.record_id row = k) as Hel.
  { intros k row. split.
    - intros Hk. pose proof (stored_ids _ _ _ _ Hs k (ex_intro _ _ Hk)) as Hpos.
      pose proof (stored_records _ _ _ _ Hs (Z.to_nat (k - 1))) as Hn. replace (Z.of_nat (Z.to_nat (k - 1)) + 1) with k in Hn by lia.
      rewrite Hk in Hn. symmetry in Hn. apply fmap_Some in Hn as (x & Hx & ->).
      split; [apply list_elem_of_fmap_2; by eapply list_elem_of_lookup_2|]. rewrite (records_lookup _ _ Hx). lia.
    - intros [Hin <-]. apply list_elem_of_fmap in Hin as (x & -> & Hx). apply list_elem_of_lookup in Hx as [n Hn].
      rewrite (records_lookup _ _ Hn), (stored_records _ _ _ _ Hs), Hn. done. }
  assert (inOrder r ≡ₚ (map_to_list (Rows.records r)).*2) as Hperm by apply merge_sort_Permutation.
  apply (sorted_unique messageRecord.record_id); [|apply records_ids|].
  - assert (StronglySorted byRecordId (inOrder r)) as Hsort.
    { apply StronglySorted_merge_sort; [intros a b c; unfold byRecordId; lia|intros a b; unfold byRecordId; lia]. }
    assert (NoDup (messageRecord.record_id <$> inOrder r)) as Hn.
    { rewrite Hperm. rewrite <- list_fmap_compose.
      replace (messageRecord.record_id ∘ snd <$> map_to_list (Rows.records r)) with ((map_to_list (Rows.records r)).*1);
        [apply NoDup_fst_map_to_list|].
      apply list_fmap_ext. intros i [k row] Hk. cbn. symmetry. eapply Hel, elem_of_map_to_list, list_elem_of_lookup_2, Hk. }
    by apply sorted_strict.
  - intros row. rewrite Hperm, list_elem_of_fmap. split.
    + intros ([k x] & -> & Hin%elem_of_map_to_list). by apply Hel in Hin as [? _].
    + intros Hin. exists (messageRecord.record_id row, row). split; [done|]. apply elem_of_map_to_list. by apply Hel.
Qed.

(** ** The query's predicate is the request's *)

Definition clamped63 (x : Z) : Z := if MaxInt64 <? x then MaxInt64 else x.

Lemma i64_clamped63 x : 0 <= x < two64 → i64 (clamped63 x) = Z.min x MaxInt64.
Proof.
  intros Hx. unfold clamped63, MaxInt64 in *. destruct (Z.ltb_spec (two63 - 1) x); rewrite i64_small by (unfold two63 in *; lia); lia.
Qed.

Lemma class_selected mask class :
  0 <= class < 32 →
  (mask = 0 ∨ Z.land mask (Z.shiftl 1 class) ≠ 0) ↔ classIncluded mask class = true.
Proof.
  intros Hc. unfold classIncluded. rewrite u32_small.
  2:{ rewrite Z.shiftl_1_l. split; [apply Z.pow_nonneg; lia|]. apply Z.pow_lt_mono_r; lia. }
  destruct (Z.eqb_spec mask 0); [naive_solver|]. rewrite negb_true_iff, Z.eqb_neq. naive_solver.
Qed.

Lemma record_class x : x ∈ memoryGroup.records g → 0 <= Rec.RetentionClass (recordRow.record x) < 32.
Proof.
  intros Hx. pose proof (stored_storable _ _ _ _ Hs) as Hf. rewrite Forall_forall in Hf. destruct (Hf _ Hx) as [ [ [] _ _ _] _].
  apply list_elem_of_lookup in Hx as [n Hn]. pose proof (log_ok_lookup _ _ _ (inv_log _ _ Hi) Hn) as Ha.
  apply adm_valid, validateRecord_class in Ha. unfold ClassMedia, ClassEphBase, ClassEphMax in Ha. lia.
Qed.

Lemma inPage_asked request x :
  0 <= FetchRequest.SinceRecordId request < two64 → 0 <= FetchRequest.ReadEpoch request < two64 →
  x ∈ memoryGroup.records g →
  inPage (i64 (clamped63 (FetchRequest.SinceRecordId request))) (FetchRequest.ClassMask request)
    (i64 (clamped63 (FetchRequest.ReadEpoch request))) (storedRecord_of x) ↔ asked request x.
Proof.
  intros H1 H2 Hx. pose proof (record_class x Hx) as Hc. apply list_elem_of_lookup in Hx as [n Hn].
  unfold inPage, asked. rewrite (records_lookup n x Hn), !i64_clamped63 by done.
  pose proof (stored_row_id self _ _ _ _ Hs Hi n x Hn) as Hid. rewrite Hid. cbn.
  pose proof (stored_length self _ _ _ Hs) as Hl. pose proof (lookup_lt_Some _ _ _ Hn) as Hlt.
  rewrite (log_epoch_exact _ _ _ (inv_log _ _ Hi) (stored_length64 self _ _ _ Hs) Hn).
  pose proof (commits_in_take_bound n (memoryGroup.records g)).
  rewrite i64_small by (unfold two63 in *; lia). rewrite (class_selected _ _ Hc). unfold MaxInt64. 
  split; intros (? & ? & ?); split_and!; try done; lia.
Qed.

Lemma highWater_stored request :
  0 <= FetchRequest.ReadEpoch request < two64 →
  default 0 (highWaterColumn (i64 (clamped63 (FetchRequest.ReadEpoch request))) (storedRecord_of <$> memoryGroup.records g)) =
  highWaterOf (FetchRequest.ReadEpoch request) (memoryGroup.records g).
Proof.
  intros Hr. unfold highWaterColumn, highWaterOf. rewrite i64_clamped63 by done. unfold MaxInt64.
  assert (∀ l, (∀ x, x ∈ l → x ∈ memoryGroup.records g) → ∀ high acc, default 0 high = acc → 0 <= acc →
    default 0 (foldl (λ high r,
      if messageRecord.epoch r <=? Z.min (FetchRequest.ReadEpoch request) (two63 - 1)
      then Some (match high with Some h => Z.max h (messageRecord.record_id r) | None => messageRecord.record_id r end)
      else high) high (storedRecord_of <$> l)) =
    fold_left (λ acc row, if FetchRequest.ReadEpoch request <? Rec.Epoch (recordRow.record row) then acc
                          else Z.max acc (Rec.RecordId (recordRow.record row))) l acc) as H.
  2:{ by apply (H _ (λ x Hx, Hx) None 0). }
  induction l as [|x l IH]; intros Hl high acc Hacc Hpos; [done|]. cbn [fmap list_fmap foldl fold_left].
  assert (x ∈ memoryGroup.records g) as Hx by (apply Hl; by left). apply list_elem_of_lookup in Hx as [n Hn].
  rewrite (records_lookup n x Hn), (stored_row_id self _ _ _ _ Hs Hi n x Hn). cbn [storedRecord_of recordColumns messageRecord.epoch].
  pose proof (stored_length self _ _ _ Hs) as Hlen. pose proof (lookup_lt_Some _ _ _ Hn) as Hlt.
  rewrite (log_epoch_exact _ _ _ (inv_log _ _ Hi) (stored_length64 self _ _ _ Hs) Hn).
  pose proof (commits_in_take_bound n (memoryGroup.records g)).
  rewrite (i64_small (Z.of_nat _)) by (unfold two63 in *; lia).
  destruct (Z.leb_spec (Z.of_nat (commits_in (take n (memoryGroup.records g)))) (Z.min (FetchRequest.ReadEpoch request) (two63 - 1)));
    destruct (Z.ltb_spec (FetchRequest.ReadEpoch request) (Z.of_nat (commits_in (take n (memoryGroup.records g))))); try lia.
  - apply IH; [intros; apply Hl; by right| |lia]. destruct high; cbn in *; lia.
  - apply IH; [intros; apply Hl; by right|done..].
Qed.

(** ** The rows scanned *)

Lemma scanPage_stored headsOnly high l h0 acc :
  (∀ x, x ∈ l → x ∈ memoryGroup.records g) →
  scanPage self id ((λ row, (high, Some (joined r headsOnly row))) <$> (storedRecord_of <$> l)) h0 acc =
  Ok (match l with [] => h0 | _ => default h0 (u64 <$> high) end, acc ++ ((λ x, reissued g (read x headsOnly)) <$> l)).
Proof.
  revert h0 acc. induction l as [|x l IH]; intros h0 acc Hl; cbn; [by rewrite app_nil_r|].
  rewrite recordOf_stored by (apply Hl; by left). cbn. rewrite IH by (intros; apply Hl; by right).
  rewrite <- app_assoc. f_equal. f_equal. destruct l, high; done.
Qed.

Lemma filter_stored request :
  0 <= FetchRequest.SinceRecordId request < two64 → 0 <= FetchRequest.ReadEpoch request < two64 →
  filter (inPage (i64 (clamped63 (FetchRequest.SinceRecordId request))) (FetchRequest.ClassMask request)
            (i64 (clamped63 (FetchRequest.ReadEpoch request)))) (storedRecord_of <$> memoryGroup.records g) =
  storedRecord_of <$> wanted request (memoryGroup.records g).
Proof.
  intros H1 H2. assert (∀ l, (∀ x, x ∈ l → x ∈ memoryGroup.records g) →
    filter (inPage (i64 (clamped63 (FetchRequest.SinceRecordId request))) (FetchRequest.ClassMask request)
              (i64 (clamped63 (FetchRequest.ReadEpoch request)))) (storedRecord_of <$> l) =
    storedRecord_of <$> wanted request l) as H; [|by apply H].
  induction l as [|x l IH]; intros Hl; [done|]. rewrite fmap_cons, filter_cons, wanted_cons, IH by (intros; apply Hl; by right).
  pose proof (inPage_asked request x H1 H2 (Hl x (list_elem_of_here _ _))). repeat case_decide; naive_solver.
Qed.

(** The scanned page as the method answers it. *)
Definition pageAnswer (request : FetchRequest.t) (rows : res PgError (list (option Z * option storedRecord.t))) :
    res PgxError FetchResult.t :=
  match rows with
  | Err e => Err (DriverError e)
  | Ok rows =>
      res_bind (scanPage self (FetchRequest.GroupId request) rows 0 []) (λ page,
      let '(high, records) := page in
      if bool_decide (rows = []) then Err (StoreError ErrGroupUnavailable)
      else
        let truncated := negb (FetchRequest.Limit request =? 0) &&
                         (FetchRequest.Limit request <? u32 (Z.of_nat (length records))) in
        let records := if truncated then take (Z.to_nat (FetchRequest.Limit request)) records else records in
        let next := match last records with Some r => Rec.RecordId r | None => FetchRequest.SinceRecordId request end in
        Ok (FetchResult.mk records next high (negb truncated)))
  end.

(** The rows of an open group's page: one for every record, or one without any. *)
Lemma page_scanned request row :
  id = FetchRequest.GroupId request → Rows.open r = Some row →
  0 <= FetchRequest.SinceRecordId request < two64 → 0 <= FetchRequest.ReadEpoch request < two64 →
  let limit := if FetchRequest.Limit request =? 0 then None else Some (FetchRequest.Limit request + 1) in
  let rows := pageOf (FetchRequest.HeadsOnly request) (i64 (clamped63 (FetchRequest.SinceRecordId request))) limit
                (FetchRequest.ClassMask request) (i64 (clamped63 (FetchRequest.ReadEpoch request))) r in
  let page := match limit with Some n => take (Z.to_nat n) (wanted request (memoryGroup.records g))
                             | None => wanted request (memoryGroup.records g) end in
  rows ≠ [] ∧
  scanPage self id rows 0 [] =
    Ok (highWaterOf (FetchRequest.ReadEpoch request) (memoryGroup.records g),
        (λ x, reissued g (read x (FetchRequest.HeadsOnly request))) <$> page).
Proof.
  intros Hid Hopen H1 H2 limit rows page.
  assert (∀ x, x ∈ page → x ∈ memoryGroup.records g) as Hpage.
  { intros x Hx. assert (x ∈ wanted request (memoryGroup.records g)) as Hw.
    { subst page. destruct limit; [by apply elem_of_take in Hx as (? & Hx & _); eapply list_elem_of_lookup_2|done]. }
    by apply list_elem_of_filter in Hw as [_ ?]. }
  assert (pageOf (FetchRequest.HeadsOnly request) (i64 (clamped63 (FetchRequest.SinceRecordId request))) limit
    (FetchRequest.ClassMask request) (i64 (clamped63 (FetchRequest.ReadEpoch request))) r =
    let high := highWaterColumn (i64 (clamped63 (FetchRequest.ReadEpoch request))) (storedRecord_of <$> memoryGroup.records g) in
    match page with
    | [] => [(high, None)]
    | _ => (λ row, (high, Some (joined r (FetchRequest.HeadsOnly request) row))) <$> (storedRecord_of <$> page)
    end) as E.
  { unfold pageOf. rewrite Hopen, inOrder_stored, filter_stored by done. cbv zeta. subst page.
    destruct limit as [n|]; [rewrite <- fmap_take; destruct (take (Z.to_nat n) _)|destruct (wanted _ _)]; done. }
  subst rows. rewrite E. clear E. cbv zeta.
  pose proof (highWater_stored request H2) as Hh.
  pose proof (highWater_bound (FetchRequest.ReadEpoch request) _ (inv_numbered _ Hi (stored_length64 self _ _ _ Hs))) as Hb.
  pose proof (stored_length64 self _ _ _ Hs) as Hl.
  set (high := highWaterColumn _ _) in *.
  assert (default 0 (u64 <$> high) = highWaterOf (FetchRequest.ReadEpoch request) (memoryGroup.records g)) as Hhigh.
  { destruct high as [h|]; cbn in *; [|done]. rewrite u64_small; lia. }
  clearbody page. destruct page as [|x rest].
  - split; [done|]. cbn. destruct high; cbn in *; by rewrite <- Hhigh.
  - split; [done|]. rewrite (scanPage_stored _ high (x :: rest) 0 []) by done. by rewrite Hhigh.
Qed.

Lemma read_id x headsOnly : Rec.RecordId (read x headsOnly) = Rec.RecordId (recordRow.record x).
Proof. unfold read. rewrite cloneRecord_id. by destruct (recordRow.pruneAfter x), headsOnly. Qed.

(** The page cut at the limit is the one the loop stops at. *)
Lemma pageAnswer_stored request row :
  id = FetchRequest.GroupId request → Rows.open r = Some row →
  0 <= FetchRequest.SinceRecordId request < two64 → 0 <= FetchRequest.ReadEpoch request < two64 →
  0 <= FetchRequest.Limit request < two32 - 1 →
  let limit := if FetchRequest.Limit request =? 0 then None else Some (FetchRequest.Limit request + 1) in
  pageAnswer request (Ok (pageOf (FetchRequest.HeadsOnly request) (i64 (clamped63 (FetchRequest.SinceRecordId request))) limit
      (FetchRequest.ClassMask request) (i64 (clamped63 (FetchRequest.ReadEpoch request))) r)) =
  Ok (reissuedPage g
        (let '(page, next, complete) := fetchLoop request (memoryGroup.records g) [] (FetchRequest.SinceRecordId request) in
         FetchResult.mk page next (highWaterOf (FetchRequest.ReadEpoch request) (memoryGroup.records g)) complete)).
Proof.
  intros Hid Hopen H1 H2 HL limit. subst limit. destruct (page_scanned request row Hid Hopen H1 H2) as [Hne Hscan].
  unfold pageAnswer. rewrite <- Hid, Hscan. cbn [res_bind]. rewrite bool_decide_eq_false_2 by done.
  rewrite fetchLoop_spec by lia. unfold page_spec, cut, reissuedPage, cursor. cbn.
  set (w := wanted request (memoryGroup.records g)).
  rewrite length_fmap. f_equal. destruct (Z.eqb_spec (FetchRequest.Limit request) 0) as [E|E]; cbn.
  - rewrite <- list_fmap_compose, fmap_last. destruct (last w) as [x|]; cbn; [|done]. by rewrite read_id.
  - rewrite length_take, u32_small by (unfold two32 in *; lia).
    destruct (Z.ltb_spec (FetchRequest.Limit request) (Z.of_nat (Z.to_nat (FetchRequest.Limit request + 1) `min` length w)%nat));
      destruct (Z.leb_spec (Z.of_nat (length w)) (FetchRequest.Limit request)); try lia; cbn.
    + rewrite <- fmap_take, take_take, Nat.min_l, <- list_fmap_compose, fmap_last by lia.
      destruct (last _) as [x|]; cbn; [|done]. by rewrite read_id.
    + rewrite !take_ge by lia. rewrite <- list_fmap_compose, fmap_last. destruct (last w) as [x|]; cbn; [|done].
      by rewrite read_id.
Qed.
End Fetch.

(** ** The method *)

Section Method.
Context `{V : Vault} `{VL : !VaultLaws} `{T : Timestamps} `{TL : !TimestampLaws}.
Context (self : PgxStore.t AEAD).
Abbreviation session := (Session.t Groups.t (list Z)).

(** The ranges of a request's Go types; [Limit + 1] is the page it scans. *)
Record fetchable (request : FetchRequest.t) : Prop := Fetchable {
  fetchable_since : 0 <= FetchRequest.SinceRecordId request < two64;
  fetchable_epoch : 0 <= FetchRequest.ReadEpoch request < two64;
  fetchable_limit : 0 <= FetchRequest.Limit request < two32 - 1 }.

Lemma Fetch_carriesOut ctx request s :
  fetchable request → fresh (sane self) false s →
  spec (sane self) (PgxStore.Fetch self ctx request)
    (λ out l (_ : session), carriesOut self (λ s, (s, fetchReissued ctx s request)) out l) s.
Proof.
  intros [H1 H2 H3] Hf. unfold PgxStore.Fetch, fetchReissued, MemoryStore.Fetch.
  destruct (first_error ctx _) as [e|]; [apply carriesOut_refused; intros ?; done|].
  set (c := SelectPage (FetchRequest.GroupId request) (FetchRequest.HeadsOnly request)
    (i64 (clamped63 (FetchRequest.SinceRecordId request)))
    (if FetchRequest.Limit request =? 0 then None else Some (FetchRequest.Limit request + 1))
    (FetchRequest.ClassMask request) (i64 (clamped63 (FetchRequest.ReadEpoch request)))).
  eapply (single_carriesOut self c _ (pageAnswer self request)); [done| |done|].
  { intros [rows|e]; [|done]. unfold pageAnswer, andThen. cbn. destruct (scanPage _ _ rows 0 []) as [ [high records]|e]; [|done].
    cbn. repeat case_bool_decide; done. }
  intros t t' m Hm E1 E2. split; [by apply (reading_represents self c t t' m Hm)|].
  destruct (holds_open self _ _ _ (represents_holds self t m (octets (FetchRequest.GroupId request)) Hm)) as
    [ (row & g & Hr & _ & Hg & Hc & _ & Hs & Hi)|[Hr Hc] ]; unfold open_group, group; cbn [MemoryStore.groups store].
  - cbn [c onRows keyOf snd]. rewrite Hg, Hc.
    rewrite (pageAnswer_stored self (FetchRequest.GroupId request) _ g Hs Hi request row) by done.
    destruct (fetchLoop _ _ _ _) as [ [page next] complete]. done.
  - cbn [c onRows keyOf snd]. unfold pageOf. rewrite Hr. cbn.
    destruct (m !! octets (FetchRequest.GroupId request)) as [g|]; [|done]. rewrite (Hc g) by done. done.
Qed.
End Method.
