(* ===== verification/PgxWrites.v ===== *)
(** * The statements that write, one rule each

    What [post] asks of a method that inserts a row of one of the seven tables: the row as the
    database keeps it, and the tables with it in. *)

From S2P Require Import Prelude Sha256 StoreTypes Retention MemoryStore GroupLog GroupInv Prog Sql OneKey PgxRecord PgxGroups PgxStore PgxStored PgxReads.
#[local] Open Scope sql_scope.

(** ** Ranges *)

(** Limits of their Go types. *)
Record limits_ok (limits : Limits.t) : Prop := LimitsOk {
  lo_media_max : 0 <= Limits.MediaTtlMaxSeconds limits < two32;
  lo_media : 0 <= Limits.MediaTtlDefaultSeconds limits < two32;
  lo_durable_max : 0 <= Limits.DurableTtlMaxSeconds limits < two32;
  lo_durable : 0 <= Limits.DurableTtlDefaultSeconds limits < two32;
  lo_durable_min : 0 <= Limits.DurableRetentionMinSeconds limits < two32 }.

Lemma apply_range limits o media durable applied :
  limits_ok limits → 0 <= epochOpening.MediaTtlSeconds o < two32 → 0 <= epochOpening.DurableTtlSeconds o < two32 →
  apply limits o = (media, durable, applied) →
  0 <= media < two32 ∧ ∀ d, durable = Some d → 0 <= d < two32.
Proof.
  intros [] Hm Hd. unfold apply. destruct (applyMedia _ _) as [m c] eqn:E1. destruct (applyDurable _ _) as [d [ [df fl] cl] ] eqn:E2.
  intros [= <- <- <-]. split.
  - unfold applyMedia in E1. injection E1 as <- _. repeat case_match; lia.
  - intros x ->. unfold applyDurable in E2. repeat case_match; simplify_eq; lia.
Qed.

Lemma openingOf_typed r keys o :
  typed r → openingOf r keys = Some o →
  0 <= epochOpening.AlgId o < two32 ∧ 0 <= epochOpening.MediaTtlSeconds o < two32 ∧
  0 <= epochOpening.DurableTtlSeconds o < two32 ∧ 0 <= epochOpening.ExpectedWrapCount o < two32.
Proof.
  intros [_ _ _ _ _ _ Ht] H. unfold openingOf in H. destruct (Rec.Attachment r) as [a|]; [|done].
  destruct Ht as (H1 & _ & _ & _ & H5). cases_in H; [edestruct H1 as (? & ? & ? & ? & ?)|edestruct H5 as (? & ? & ? & ? & ?)]; done.
Qed.

Section Writes.
Context `{V : Vault} `{VL : !VaultLaws} `{T : Timestamps} `{TL : !TimestampLaws}.
Context (self : PgxStore.t AEAD) (id : slice).
Abbreviation program := (prog (reply scanned)).
Abbreviation post := (post (octets id)).

(** ** Keys *)

Definition nonce_ok (nonce : option (list Z)) : Prop := match nonce with Some n => length n = 12%nat | None => True end.

(** A wrap of a key fits its column and opens to the key, or fails of an internal error. *)
Lemma wrap_cases nonce key label e :
  len key = EpochKeyBytes → nonce_ok nonce →
  match wrap (PgxStore.keys self) nonce key label id e with
  | Ok w => unwrapped (PgxStore.keys self) w label (Some (octets id)) e = Ok key
  | Err e => internal e
  end.
Proof.
  intros Hl Hn. destruct (wrap _ _ _ _ _ _) as [w|err] eqn:Hw.
  - destruct nonce as [nonce|].
    + pose proof (unwrap_wrap _ (PgxStore.keys self) _ _ _ _ _ _ Hw Hn eq_refl) as [Hwl Hu].
      unfold unwrapped. destruct w; [exact Hu|done].
    + unfold wrap in Hw. destruct (checkLength _ _); [done|]. by destruct (KekRing.keys _ !! _).
  - unfold wrap, checkLength in Hw. rewrite Hl in Hw. cbn in Hw. destruct (KekRing.keys _ !! _); [|by injection Hw as <-].
    destruct nonce; [done|]. by injection Hw as <-.
Qed.

Lemma post_wrap {A} nonce key label e (k : slice → program (res PgxError A)) Q r :
  len key = EpochKeyBytes → nonce_ok nonce →
  (∀ w, unwrapped (PgxStore.keys self) w label (Some (octets id)) e = Ok key → post (k w) Q r) →
  post (w ←! lift (wrap (PgxStore.keys self) nonce key label id e); k w) Q r.
Proof.
  intros Hl Hn Hk. apply post_andThen. pose proof (wrap_cases nonce key label e Hl Hn) as H.
  unfold lift. destruct (wrap _ _ _ _ _ _) as [w|err]; cbn; [split; [done|by apply Hk]|done].
Qed.

(** ** Inserts *)

(** An insert of a row that is not there, or that may not be. *)
Ltac inserted H :=
  unfold inserting in H |- *; cbn [fst snd] in H |- *;
  match type of H with context [negb ?b] => destruct b eqn:?Hallowed end; [cbn [negb fst snd] in H |- *|done];
  case_bool_decide; cbn [fst snd] in H |- *; [done|].

Lemma post_insertEpoch {A} e row row' (k : program (res PgxError A)) Q r :
  epochStored row = Some row' →
  (epochAllowed id row' = true → post k Q (Rows.set_epochs (<[e := row']> (Rows.epochs r)) r)) →
  post (_ ←! exec (InsertEpoch id e row); k) Q r.
Proof.
  intros Hrow Hk. apply post_exec_then; [done|]. intros [] H. cbn [stmt_rows groupsKeyed onRows] in *.
  rewrite Hrow in H |- *. inserted H. by apply Hk.
Qed.

Lemma post_insertRecord {A} r now prune policy (k : program (res PgxError A)) Q rows :
  (∀ row, storedColumns (recordColumns r now (default None prune) policy) = Some row →
     Rows.records rows !! messageRecord.record_id row = None ∧
     (recordAllowed id row = true →
      post k Q (Rows.set_records (<[messageRecord.record_id row := row]> (Rows.records rows)) rows))) →
  post (_ ←! insertRecord id r now prune policy; k) Q rows.
Proof.
  intros Hk. unfold insertRecord.
  apply (post_exec_then _ (InsertRecord id (recordColumns r now (default None prune) policy)) (λ _, k)); [done|].
  intros [] H. cbn [stmt_rows groupsKeyed onRows] in *.
  destruct (storedColumns _) as [row|]; [|done]. destruct (Hk row eq_refl) as [Habs Hk']. rewrite Habs in H |- *.
  inserted H. by apply Hk'.
Qed.

Lemma post_insertClaim {A} handle index row row' doNothing (k : program (res PgxError A)) Q r :
  claimStored row = Some row' → Rows.claims r !! (octets handle, index) = None →
  (claimAllowed id handle row' = true →
   post k Q (Rows.set_claims (<[(octets handle, index) := row']> (Rows.claims r)) r)) →
  post (_ ←! exec (InsertClaim id handle index row doNothing); k) Q r.
Proof.
  intros Hrow Habs Hk. apply post_exec_then; [done|]. intros [] H. cbn [stmt_rows groupsKeyed onRows] in *.
  rewrite Hrow, Habs in H |- *. inserted H. by apply Hk.
Qed.

Lemma post_insertCommit {A} e recordId (k : program (res PgxError A)) Q r :
  post k Q (Rows.set_commits (<[e := recordId]> (Rows.commits r)) r) →
  post (_ ←! exec (InsertCommit id e recordId false); k) Q r.
Proof.
  intros Hk. apply post_exec_then; [done|]. intros [] H. cbn [stmt_rows groupsKeyed onRows] in *. by inserted H.
Qed.

(** The sender's row: its first, or one record more. *)
Lemma post_insertSender {A} handle index bytes now upsert (k : program (res PgxError A)) Q r :
  clock_ok now → 
  (let row := match Rows.senders r !! octets handle with
              | Some old => senderRow.mk index (senderRow.recordCount old + 1) (senderRow.byteCount old + bytes) (truncate_micro now)
              | None => senderRow.mk index 1 bytes (truncate_micro now)
              end in
   senderAllowed id handle row = true →
   post k Q (Rows.set_senders (<[octets handle := row]> (Rows.senders r)) r)) →
  post (_ ←! exec (InsertSender id handle index bytes now upsert); k) Q r.
Proof.
  intros Hn Hk. apply post_exec_then; [done|]. intros [] H. cbn [stmt_rows groupsKeyed onRows] in *.
  rewrite clock_kept in H |- * by done. cbn [fst snd] in H |- *.
  destruct (senderAllowed id handle _) eqn:Ha; [|done]. cbn [negb] in H |- *.
  destruct (_ && _); [done|]. by apply Hk.
Qed.

(** The claim of a record, at the time it is kept. *)
Lemma claimColumns_stored r now :
  clock_ok now → 0 <= Rec.RecordId r < two63 → claimStored (claimColumns r now) = Some (claimOf (truncate_micro now) r).
Proof.
  intros Hn Hid. unfold claimStored, claimColumns. cbn. rewrite clock_kept by done. cbn.
  rewrite i64_small by lia. done.
Qed.

(** The row of a record, at the times it is kept. *)
Lemma recordColumns_stored r now media durable policy row :
  clock_ok now → 0 <= media < two32 → (∀ d, durable = Some d → 0 <= d < two32) →
  0 <= Rec.ExpireAtMs r < 9224318016000000 →
  storedColumns (recordColumns r now (default None (pruneAfter now (Rec.RetentionClass r) media durable)) policy) = Some row →
  row = recordColumns r (truncate_micro now)
          (default None (pruneAfter (truncate_micro now) (Rec.RetentionClass r) media durable)) policy.
Proof.
  intros Hn Hm Hd He (c & p & Hc & Hp & ->)%storedColumns_Some; [|done].
  rewrite clock_kept in Hc by done. injection Hc as <-.
  destruct (pruneAfter_kept now (Rec.RetentionClass r) media durable Hm Hd) as [-> Hrange].
  destruct (default None (pruneAfter now _ media durable)) as [t|]; cbn in *; [|by injection Hp as <-].
  destruct Hn as [Hn0 Hn1]. specialize (Hrange t eq_refl). rewrite timestamp_ok in Hp by lia. by injection Hp as <-.
Qed.
End Writes.
