(* ===== verification/PgxCreate.v ===== *)
(** * [CreateGroup] over PostgreSQL

    One transaction that inserts the group's row first, which locks the key against another founder,
    and then every row that hangs off it: the tables hold [newGroup] at its commit, or nothing new. *)

From S2P Require Import Prelude Sha256 StoreTypes Retention MemoryStore GroupLog GroupInv Prog Sql OneKey PgxRecord PgxGroups PgxStore PgxStored PgxReads PgxWrites.
#[local] Open Scope sql_scope.

Lemma validateCreate_Ok ctx request initial :
  validateCreate ctx request = Ok initial →
  CreateGroupRequest.InitialCommit request = Some initial ∧ validateRecord initial = None ∧
  len (CreateGroupRequest.BootstrapWriteKey request) = EpochKeyBytes.
Proof.
  unfold validateCreate, checkLength. intros Hv. destruct (first_error ctx _) eqn:E; [done|].
  apply first_error_None in E as [_ [_ E]%first_error_None].
  destruct (Z.eqb_spec (len (CreateGroupRequest.BootstrapWriteKey request)) EpochKeyBytes); [|done].
  destruct (CreateGroupRequest.InitialCommit request) as [r|]; [|done]. destruct (validateRecord r) eqn:Er; [done|].
  by injection Hv as ->.
Qed.

Section Create.
Context `{V : Vault} `{VL : !VaultLaws} `{T : Timestamps} `{TL : !TimestampLaws}.
Context (self : PgxStore.t AEAD).
Abbreviation session := (Session.t Groups.t (list Z)).
Abbreviation program := (prog (reply scanned)).

(** A founding request of the ranges of its Go types. *)
Record foundable (request : CreateGroupRequest.t) : Prop := Foundable {
  foundable_typed r : CreateGroupRequest.InitialCommit request = Some r → typed r ∧ proper (Rec.Attachment r);
  foundable_expire r : CreateGroupRequest.InitialCommit request = Some r → 0 <= Rec.ExpireAtMs r < 9224318016000000 }.

(** ** The rows of a new group *)

Section Founding.
Context (request : CreateGroupRequest.t) (initial : Rec.t) (opening : epochOpening.t) (now : time).
Context (media : Z) (durable : option Z) (applied : RetentionApplied.t).
Abbreviation id := (CreateGroupRequest.GroupId request).
Abbreviation kept := (truncate_micro now).
Abbreviation record := (Rec.set_PruneAfter None (Rec.set_RecordId firstRecordId (cloneRecord initial))).

Context (Hl : limits_ok (PgxStore.limits self)) (Hn : clock_ok now).
Context (Ht : typed initial) (Hp : proper (Rec.Attachment initial)) (He : 0 <= Rec.ExpireAtMs initial < 9224318016000000).
Context (Hbk : len (CreateGroupRequest.BootstrapWriteKey request) = EpochKeyBytes).
Context (Hval : validateRecord initial = None) (Hcm : Rec.IsCommit initial = true) (Hep : Rec.Epoch initial = 0).
Context (Ho : openingOf initial (CreateGroupRequest.EpochKeys request) = Some opening).
Context (Hwf : wellFormedEpochAttachment initial 1 (CreateGroupRequest.EpochKeys request) = true).
Context (Hap : apply (PgxStore.limits self) opening = (media, durable, applied)).

Lemma founding_ranges : 0 <= media < two32 ∧ ∀ d, durable = Some d → 0 <= d < two32.
Proof.
  destruct (openingOf_typed _ _ _ Ht Ho) as (_ & Hm & Hd & _). by eapply apply_range.
Qed.

Lemma founding_keys :
  len (epochOpening.WriteKey opening) = EpochKeyBytes ∧ len (epochOpening.ReadKey opening) = EpochKeyBytes.
Proof. destruct (wellFormed_opening _ _ _ Hwf) as (o & E & _ & ? & ? & _). rewrite Ho in E. by injection E as <-. Qed.

Lemma founding_untagged : recoveryTagOf record = None.
Proof.
  pose proof (wellFormed_kind _ _ _ Hwf) as Hk. rewrite cloneRecord_id. unfold recoveryTagOf.
  change (attachmentKindOf (Rec.set_PruneAfter None (Rec.set_RecordId firstRecordId initial))) with (attachmentKindOf initial).
  case_decide as E; [|done]. by rewrite E in Hk.
Qed.

(** What the tables hold of it, column by column. *)
Lemma newGroup_stored bootstrap writeKey readKey :
  unwrapped (PgxStore.keys self) bootstrap wrapWriteKey (Some (octets id)) 0 = Ok (CreateGroupRequest.BootstrapWriteKey request) →
  unwrapped (PgxStore.keys self) writeKey wrapWriteKey (Some (octets id)) 1 = Ok (epochOpening.WriteKey opening) →
  unwrapped (PgxStore.keys self) readKey wrapReadKey (Some (octets id)) 1 = Ok (epochOpening.ReadKey opening) →
  0 <= i64 (Rec.StreamIndex initial) →
  stored self (octets id)
    (Rows.mk
       (Some (groupRow.mk kept 1 (firstRecordId + 1) (i32 media) (durableColumn durable)
                (epochOpening.GroupContextHash opening) 1 false false None))
       (<[1 := epochColumns.mk writeKey readKey (Some kept) (i32 (epochOpening.AlgId opening)) (Some (i64 firstRecordId)) kept None
                 (epochOpening.ExpectedWrapCount opening)]>
          {[0 := epochColumns.mk bootstrap None None 0 None kept (Some kept) 0]})
       {[1 := recordColumns record kept (default None (pruneAfter kept (Rec.RetentionClass record) media durable)) 1]}
       {[claimKeyOf record := claimOf kept record]}
       {[0 := firstRecordId]}
       {[octets (Rec.SenderHandle record) := senderRow.mk (Rec.StreamIndex record) 1 (recordBytes record) kept]}
       ∅)
    (newGroup kept request opening media durable record).
Proof.
  intros Hb Hw Hr Hidx. destruct founding_ranges as [Hm Hd]. destruct (openingOf_typed _ _ _ Ht Ho) as (Ha & _ & _ & Hx).
  assert (0 <= kept) as Hk by (destruct Hn; by apply truncate_range).
  pose proof founding_untagged as Htag. rewrite cloneRecord_id in *.
  assert (Rec.StreamIndex initial < two63) as Hsi.
  { destruct (decide (Rec.StreamIndex initial < two63)); [done|]. destruct Ht. pose proof (i64_large (Rec.StreamIndex initial) ltac:(lia)). lia. }
  split; try done.
  - eexists. split; [done|]. split; cbn; try done; unfold two63; try lia.
  - intros e. unfold newGroup. cbn.
    destruct (decide (e = 1)) as [->|H1]; [rewrite !lookup_insert_eq|rewrite !lookup_insert_ne by done].
    + constructor. by split.
    + destruct (decide (e = 0)) as [->|H0]; [rewrite !lookup_singleton_eq|rewrite !lookup_singleton_ne by done; constructor].
      constructor. split; cbn; done.
  - intros n. cbn. destruct n as [|n]; [by rewrite lookup_singleton_eq|].
    by rewrite lookup_singleton_ne by lia.
  - intros i [row Hi']. cbn in Hi'. apply lookup_singleton_Some in Hi' as [<- _]. lia.
  - cbn. constructor; [|constructor]. cbn. split; [|done]. split; cbn; [|done..].
    destruct Ht. by split; cbn.
  - unfold newGroup. cbn [Rows.commits memoryGroup.commits]. rewrite map_fmap_singleton. cbn. by rewrite Hep.
  - cbn. by rewrite Htag.
Qed.
End Founding.

(** ** The transaction *)

(** What it did to the rows [before]: refused for the row that stood there, or founded the group. *)
Definition founded (request : CreateGroupRequest.t) (g : memoryGroup.t) (result : CreateGroupResult.t)
    (before : Rows.t) (b : bool) (x : CreateGroupResult.t) (after : Rows.t) : Prop :=
  if b then x = result ∧ Rows.group before = None ∧ (before = Rows.empty → stored self (octets (CreateGroupRequest.GroupId request)) after g)
  else x = createRejected ∧ is_Some (Rows.group before).

Lemma CreateGroup_settles ctx now nonces request initial opening media durable applied s :
  limits_ok (PgxStore.limits self) → clock_ok now → foundable request →
  nonce_ok nonces.1.1 → nonce_ok nonces.1.2 → nonce_ok nonces.2 →
  validateCreate ctx request = Ok initial → Rec.IsCommit initial = true → Rec.Epoch initial = 0 →
  wellFormedEpochAttachment initial 1 (CreateGroupRequest.EpochKeys request) = true →
  openingOf initial (CreateGroupRequest.EpochKeys request) = Some opening →
  apply (PgxStore.limits self) opening = (media, durable, applied) →
  fresh (sane self) false s →
  spec (sane self) (PgxStore.CreateGroup self ctx now nonces request)
    (λ out l (_ : session), settles (sane self) (octets (CreateGroupRequest.GroupId request))
       (founded request (newGroup (truncate_micro now) request opening media durable
                           (Rec.set_PruneAfter None (Rec.set_RecordId firstRecordId (cloneRecord initial))))
          (CreateGroupResult.mk (acceptanceReason (Some applied)) 1 firstRecordId (Some applied))) out l) s.
Proof.
  intros Hl Hn [Hty Hex] Hn1 Hn2 Hn3 Hv Hcm Hep Hwf Ho Hap Hf.
  destruct (validateCreate_Ok _ _ _ Hv) as (Hini & Hval & Hbk).
  destruct (Hty _ Hini) as [Ht Hp]. specialize (Hex _ Hini).
  unfold PgxStore.CreateGroup. rewrite Hv, Hcm, Hep, Hwf, Ho. cbn [negb orb Z.eqb]. rewrite Hap, cloneRecord_id.
  eapply spec_transaction; [done|done|done|].
  intros t Ht0. cbn [stmt_rows stmt_held groupsKeyed onRows locksRow at_ groupsDatabase].
  set (before := Groups.at_ _ t).
  assert (Rows.group before = None → before = Rows.empty) as Hempty.
  { intros Hnone. destruct Ht0 as [m Hm]. specialize (Hm (octets (CreateGroupRequest.GroupId request))).
    destruct (m !! _) as [g|]; [|done]. destruct Hm as [Hs _]. destruct (stored_group _ _ _ _ Hs) as (row & Hrow & _).
    unfold before in Hnone. congruence. }
  assert (groupStored (groupRow.mk now 1 (i64 firstRecordId + 1) (i32 media) (durableColumn durable)
      (epochOpening.GroupContextHash opening) 1 false false None) =
    Some (groupRow.mk (truncate_micro now) 1 (firstRecordId + 1) (i32 media) (durableColumn durable)
      (epochOpening.GroupContextHash opening) 1 false false None)) as ->.
  { unfold groupStored. cbn. by rewrite clock_kept. }
  unfold inserting. destruct (groupAllowed _ _) eqn:Hga; cbn [negb].
  2:{ case_bool_decide; cbn; [done|]. by exists brokenAnswer. }
  destruct (Rows.group before) as [row0|] eqn:Hgroup.
  { rewrite bool_decide_eq_true_2, bool_decide_eq_false_2 by done. cbn. exists (Ok createRejected). split; [done|]. by split. }
  rewrite bool_decide_eq_false_2, bool_decide_eq_true_2 by done. specialize (Hempty eq_refl). rewrite Hempty. clear Hempty.
  destruct (founding_keys request initial opening Ho Hwf) as [Hwk Hrk].
  destruct (founding_ranges request initial opening media durable applied Hl Ht Ho Hap) as [Hm Hd].
  pose proof (newGroup_stored request initial opening now media durable applied Hl Hn Ht Hp Hex Hep Ho Hwf Hap) as Hst.
  pose proof (founding_untagged request initial Hwf) as Htag.
  rewrite cloneRecord_id in Hst, Htag.
  cbn beta iota.
  eapply post_wrap; [done..|]. intros bootstrap Hb.
  eapply post_insertEpoch; [unfold epochStored; cbn; by rewrite clock_kept by done|]. intros _.
  eapply post_wrap; [done..|]. intros writeKey Hw.
  eapply post_wrap; [done..|]. intros readKey Hr.
  eapply post_insertEpoch; [unfold epochStored; cbn; by rewrite clock_kept by done|]. intros _.
  eapply post_insertRecord. intros row ->%recordColumns_stored; [|done..]. split; [done|]. intros Hra.
  assert (0 <= i64 (Rec.StreamIndex initial)) as Hidx.
  { unfold recordAllowed in Hra. repeat (apply andb_prop in Hra as [Hra ?]). by apply Z.leb_le. }
  assert (i64 (Rec.StreamIndex initial) = Rec.StreamIndex initial) as Esi.
  { apply i64_small. destruct Ht. destruct (decide (Rec.StreamIndex initial < two63)); [unfold two63 in *; lia|].
    pose proof (i64_large (Rec.StreamIndex initial) ltac:(lia)). lia. }
  eapply post_insertClaim; [by apply claimColumns_stored|done|]. intros _.
  apply post_insertCommit.
  eapply post_insertSender; [done|]. intros row _.
  change (recoveryTagOf (Rec.set_RecordId firstRecordId initial)) with (recoveryTagOf (Rec.set_PruneAfter None (Rec.set_RecordId firstRecordId initial))).
  rewrite Htag. apply post_andThen. cbn [OneKey.post]. split; [done|]. apply post_commit.
  split; [done|]. split; [done|]. intros _. specialize (Hst _ _ _ Hb Hw Hr Hidx).
  unfold row. cbn [Rec.StreamIndex Rec.set_RecordId Rec.Epoch Rows.senders Rows.set_commits Rows.set_claims Rows.set_records Rows.set_epochs Rows.set_group Rows.empty].
  rewrite Hep, Esi, lookup_empty. exact Hst.
Qed.

(** ** The method *)

Lemma CreateGroup_carriesOut ctx now nonces request s :
  limits_ok (PgxStore.limits self) → clock_ok now → foundable request →
  nonce_ok nonces.1.1 → nonce_ok nonces.1.2 → nonce_ok nonces.2 →
  fresh (sane self) false s →
  spec (sane self) (PgxStore.CreateGroup self ctx now nonces request)
    (λ out l (_ : session), carriesOut self (λ s, MemoryStore.CreateGroup ctx (truncate_micro now) s request) out l) s.
Proof.
  intros Hl Hn Hr Hn1 Hn2 Hn3 Hf.
  destruct (validateCreate ctx request) as [initial|e] eqn:Hv.
  2:{ unfold PgxStore.CreateGroup. rewrite Hv. apply carriesOut_refused. intros ?. unfold MemoryStore.CreateGroup. by rewrite Hv. }
  destruct (negb (Rec.IsCommit initial) || negb (Rec.Epoch initial =? 0) ||
    negb (wellFormedEpochAttachment initial 1 (CreateGroupRequest.EpochKeys request))) eqn:Hbad.
  { unfold PgxStore.CreateGroup. rewrite Hv, Hbad. apply (carriesOut_answered self _ (Ok createRejected)). intros ?.
    unfold MemoryStore.CreateGroup. by rewrite Hv, Hbad. }
  pose proof Hbad as [ [Hcm%negb_false_iff Hep%negb_false_iff]%orb_false_elim Hwf%negb_false_iff]%orb_false_elim.
  apply Z.eqb_eq in Hep. destruct (wellFormed_opening _ _ _ Hwf) as (opening & Ho & _).
  destruct (apply (PgxStore.limits self) opening) as [ [media durable] applied] eqn:Hap.
  eapply spec_mono; [|by eapply CreateGroup_settles].
  intros out l _ [ (a & -> & before & t & t' & after & -> & H1 & H2 & Ht & Hset)|[Hq (e & He & ->)] ].
  2:{ right. split; [done|]. right. by exists e. }
  left. exists a. split; [done|]. exists before, t, t', after. split; [done|]. split; [done|]. split; [done|]. split; [done|].
  intros m Hm. unfold MemoryStore.CreateGroup. rewrite Hv, Hbad, Ho.
  destruct Hset as (b & x & r' & HQ & Ha & Hat & Hrest). cbn [at_ groupsDatabase] in *.
  pose proof (represents_holds self t m (octets (CreateGroupRequest.GroupId request)) Hm) as Hh.
  destruct b; cbn [founded] in HQ.
  - destruct HQ as (-> & Hnone & Hst). unfold group. cbn [store MemoryStore.groups MemoryStore.limits].
    destruct (m !! octets _) as [g|].
    { destruct Hh as [Hs _]. destruct (stored_group _ _ _ _ Hs) as (row & Hrow & _). congruence. }
    rewrite bool_decide_eq_false_2 by by intros [? ?]. rewrite Hap. cbn [fst snd]. split.
    + apply (represents_put self t); [done| | |done].
      * rewrite Hat. by apply Hst.
      * destruct (validateCreate_Ok _ _ _ Hv) as (_ & Hval & Hbk). by apply newGroup_inv; rewrite ?cloneRecord_id.
    + destruct Ha as [->|[_ ->] ]; done.
  - destruct HQ as (-> & row & Hrow). unfold group. cbn [store MemoryStore.groups MemoryStore.limits].
    destruct (m !! octets _) as [g|] eqn:Hg; [|cbn in Hh; by rewrite Hh in Hrow].
    rewrite bool_decide_eq_true_2 by done. cbn [fst snd]. split.
    + apply (represents_same self t); [|done]. intros key.
      destruct (decide (key = octets (CreateGroupRequest.GroupId request))) as [->|Hne]; [done|by apply Hrest].
    + by destruct Ha as [->|[ [=] _] ].
Qed.
End Create.
