(* ===== verification/PgxGates.v ===== *)
(** * The probe and the gates over PostgreSQL

    Each reads the rows of the group and answers what the in-memory step answers on the group they
    hold: the claims of a batch, its senders' high waters, its pins, the commit of an epoch. *)

From S2P Require Import Prelude Sha256 StoreTypes Retention MemoryStore GroupLog GroupInv Prog Sql OneKey PgxRecord PgxGroups PgxStore PgxStored PgxReads PgxWrites.
#[local] Open Scope sql_scope.

(** Records of the ranges of their Go types. *)
Definition batch_typed (batch : list pending.t) : Prop := Forall (λ p, typed (pending.record p)) batch.

(** No two of the records pin one recovery handle to different keys. *)
Definition consistent (records : list Rec.t) : Prop :=
  ∀ r1 r2 tag1 tag2, r1 ∈ records → r2 ∈ records → recoveryTagOf r1 = Some tag1 → recoveryTagOf r2 = Some tag2 →
    octets (RecoveryTag.Handle tag1) = octets (RecoveryTag.Handle tag2) →
    octets (RecoveryTag.VerifyPub tag1) = octets (RecoveryTag.VerifyPub tag2).

(** ** Rows read by their key *)

Lemma collect_snoc {A} rows (x : slice * A) : collect (rows ++ [x]) = <[octets x.1 := x.2]> (collect rows).
Proof. unfold collect. by rewrite foldl_app. Qed.

Lemma collect_lookup {A} (rows : list (slice * A)) k v :
  NoDup ((λ row, octets row.1) <$> rows) → collect rows !! k = Some v ↔ ∃ s, (s, v) ∈ rows ∧ octets s = k.
Proof.
  induction rows as [|x rows IH] using rev_ind; intros Hn.
  { split; [done|]. by intros (s & H%not_elem_of_nil & _). }
  rewrite fmap_app in Hn. apply NoDup_app in Hn as (Hn & Hni & _). rewrite collect_snoc, lookup_insert_Some, IH by done.
  setoid_rewrite elem_of_app. setoid_rewrite list_elem_of_singleton. split.
  - intros [ [<- <-]|[Hne (s & Hs & <-)] ]; [exists x.1; split; [right; by destruct x|done]|by exists s; split; [left|] ].
  - intros (s & [Hs|<-] & <-); [right|by left]. split; [|by exists s].
    intros E. apply (Hni (octets s)); [by apply (list_elem_of_fmap_2 (λ row, octets row.1) _ (s, v))|].
    apply list_elem_of_singleton. by rewrite E.
Qed.

Lemma collect_named {A} (handles : list slice) (m : gmap (list Z) A) (k : list Z) :
  k ∈ octets <$> handles → collect (named handles m) !! k = m !! k.
Proof.
  intros Hk. apply option_eq. intros v. rewrite collect_lookup.
  - unfold named. split.
    + intros (s & Hin & <-). apply list_elem_of_fmap in Hin as ([h x] & [= -> ->] & Hin%elem_of_map_to_list).
      by apply map_lookup_filter_Some in Hin as [? _].
    + intros Hv. exists (Some k). split; [|done]. apply list_elem_of_fmap. exists (k, v). split; [done|].
      apply elem_of_map_to_list, map_lookup_filter_Some. by split.
  - unfold named. rewrite <- list_fmap_compose. apply NoDup_fst_map_to_list.
Qed.

Section Gates.
Context `{V : Vault} `{VL : !VaultLaws} `{T : Timestamps} `{TL : !TimestampLaws}.
Context (self : PgxStore.t AEAD).
Abbreviation program := (prog (reply scanned)).

(** ** The probe *)

Lemma probed_at before current after row :
  row.1 = Z.of_nat (length before) + 1 →
  probed (before ++ current :: after) row =
  before ++ (match probed [current] (1, row.2) with [p] => p | _ => current end) :: after.
Proof.
  destruct row as [position claim]. cbn. intros ->. replace (Z.to_nat (Z.of_nat (length before) + 1 - 1)) with (length before + 0)%nat by lia.
  rewrite alter_app_r. done.
Qed.

Lemma probe_rows claims batch before g :
  (∀ p, p ∈ batch →
     let r := pending.record p in
     claims !! (octets (Rec.SenderHandle r), i64 (Rec.StreamIndex r)) = memoryGroup.claims g !! claimKeyOf r ∧
     ∀ c, memoryGroup.claims g !! claimKeyOf r = Some c → u64 (claimRow.recordId c) = claimRow.recordId c) →
  foldl probed (before ++ batch)
    (claimsAsked (Z.of_nat (length before) + 1)
       ((λ current, (Rec.SenderHandle (pending.record current), i64 (Rec.StreamIndex (pending.record current)))) <$> batch) claims) =
  before ++ (probeOne g <$> batch).
Proof.
  revert before. induction batch as [|p batch IH]; intros before Hp; [done|]. rewrite !fmap_cons. cbn [claimsAsked].
  destruct (Hp p (list_elem_of_here _ _)) as [Hl Hid]. cbv zeta in Hl, Hid. rewrite Hl.
  assert (∀ q, q ∈ batch → q ∈ p :: batch) as Hin by (intros; by right).
  specialize (IH (before ++ [probeOne g p]) (λ q Hq, Hp q (Hin q Hq))).
  rewrite length_app in IH. cbn [length] in IH.
  replace (Z.of_nat (length before + 1) + 1) with (Z.of_nat (length before) + 1 + 1) in IH by lia.
  rewrite <- !app_assoc in IH. cbn [app] in IH.
  destruct (memoryGroup.claims g !! claimKeyOf (pending.record p)) as [c|] eqn:Hc.
  - cbn [foldl]. rewrite probed_at by done. rewrite <- IH. unfold probeOne at 1. rewrite Hc. cbn. by rewrite (Hid c) by done.
  - rewrite <- IH. unfold probeOne at 1. by rewrite Hc.
Qed.

(** A claim is found under its index as a bigint. *)
Lemma claims_at key r g next x :
  stored self key r g → inv_at next g → typed x →
  Rows.claims r !! (octets (Rec.SenderHandle x), i64 (Rec.StreamIndex x)) = memoryGroup.claims g !! claimKeyOf x ∧
  ∀ c, memoryGroup.claims g !! claimKeyOf x = Some c → u64 (claimRow.recordId c) = claimRow.recordId c.
Proof.
  intros Hs Hi Ht. split.
  - rewrite (stored_claims _ _ _ _ Hs). unfold claimKeyOf. destruct Ht as [_ Hidx _ _ _ _ _].
    destruct (decide (Rec.StreamIndex x < two63)); [by rewrite i64_small by (unfold two63 in *; lia)|].
    assert (∀ j, ¬ 0 <= j < two63 → memoryGroup.claims g !! (octets (Rec.SenderHandle x), j) = None) as Hnone.
    { intros j Hj. destruct (_ !! _) as [c|] eqn:Hc; [|done]. exfalso. apply Hj. by eapply (stored_claim self _ _ _ _ Hs Hi) in Hc as [? _]. }
    rewrite !Hnone; [done|lia|]. pose proof (i64_large (Rec.StreamIndex x) ltac:(lia)). lia.
  - intros c Hc. apply u64_small. eapply (stored_claim self _ _ _ _ Hs Hi) in Hc as [_ ?].
    unfold two63, two64 in *. lia.
Qed.

Lemma probe_stored key r og batch :
  holds self key r og → batch_typed batch →
  foldl probed batch (claimsAsked 1
    ((λ current, (Rec.SenderHandle (pending.record current), i64 (Rec.StreamIndex (pending.record current)))) <$> batch)
    (Rows.claims r)) = MemoryStore.probe og batch.
Proof.
  intros Hh Ht. unfold batch_typed in Ht. rewrite Forall_forall in Ht.
  destruct og as [g|]; cbn [MemoryStore.probe].
  - apply (probe_rows _ batch [] g). intros p Hp. cbv zeta.
    destruct Hh as [Hs Hi]. apply (claims_at _ _ _ _ _ Hs Hi (Ht p Hp)).
  - cbn in Hh. subst. cbn [Rows.claims Rows.empty]. generalize 1. clear Ht. intros n.
    assert (∀ (asked : list (slice * Z)) n, claimsAsked n asked ∅ = []) as ->; [|done].
    induction asked as [|[h j] asked IH]; intros k; [done|]. cbn. by rewrite lookup_empty.
Qed.

(** ** The gates *)

Section Locked.
Context (id : slice) (r : Rows.t) (g : memoryGroup.t).
Context (next : Z) (Hs : stored self (octets id) r g) (Hi : inv_at next g).
Abbreviation post := (post (octets id)).

Lemma commits_at e :
  0 <= e < two64 → Rows.commits r !! i64 e = commitRow.recordId <$> memoryGroup.commits g !! e.
Proof.
  intros He. rewrite (stored_commits _ _ _ _ Hs), lookup_fmap.
  destruct (decide (e < two63)); [by rewrite i64_small by (unfold two63 in *; lia)|].
  assert (∀ j, ¬ 0 <= j < two63 → memoryGroup.commits g !! j = None) as Hnone.
  { intros j Hj. destruct (_ !! _) as [c|] eqn:Hc; [|done]. exfalso. apply Hj. by eapply (stored_commit self _ _ _ _ Hs Hi) in Hc as [? _]. }
  rewrite !Hnone; [done|lia|]. pose proof (i64_large e ltac:(lia)). lia.
Qed.

Lemma post_senderHighWater {A} (batch : list pending.t) (k : gmap (list Z) Z → program (res PgxError A)) Q :
  (∀ highWater, (∀ p, p ∈ batch → highWater !! octets (Rec.SenderHandle (pending.record p)) =
       senderRow.lastStreamIndex <$> memoryGroup.senders g !! octets (Rec.SenderHandle (pending.record p))) →
     post (k highWater) Q r) →
  post (highWater ←! senderHighWater id batch; k highWater) Q r.
Proof.
  intros Hk. apply post_andThen. unfold senderHighWater.
  apply (post_exec_then _ (SelectSenders id _)); [done|]. intros rows [= <-]. cbn. split; [done|]. apply Hk.
  intros p Hp. rewrite lookup_fmap, collect_named.
  - rewrite lookup_fmap, (stored_senders _ _ _ _ Hs). destruct (_ !! _) as [s|] eqn:Hl; [|done]. cbn. f_equal.
    apply u64_small. pose proof (stored_sender self _ _ _ _ Hs Hi _ _ Hl). unfold two63, two64 in *. lia.
  - rewrite <- list_fmap_compose. by apply (list_elem_of_fmap_2 (octets ∘ λ current, Rec.SenderHandle (pending.record current))).
Qed.

Lemma post_pinnedRecoveryKeys {A} (batch : list pending.t) (k : gmap (list Z) slice → program (res PgxError A)) Q :
  (∀ pinned, (∀ p tag, p ∈ batch → recoveryTagOf (pending.record p) = Some tag →
       pinned !! octets (RecoveryTag.Handle tag) = recoveryRow.verifyPub <$> memoryGroup.recovery g !! octets (RecoveryTag.Handle tag)) →
     post (k pinned) Q r) →
  post (pinned ←! pinnedRecoveryKeys id batch; k pinned) Q r.
Proof.
  intros Hk. apply post_andThen. unfold pinnedRecoveryKeys.
  set (handles := omap _ batch).
  assert (∀ p tag, p ∈ batch → recoveryTagOf (pending.record p) = Some tag → RecoveryTag.Handle tag ∈ handles) as Hin.
  { intros p tag Hp Ht. apply list_elem_of_omap. exists p. split; [done|]. by rewrite Ht. }
  case_bool_decide as E.
  - cbn. split; [done|]. apply Hk. intros p tag Hp Ht. specialize (Hin p tag Hp Ht). rewrite E in Hin. by apply not_elem_of_nil in Hin.
  - apply (post_exec_then _ (SelectPins id handles)); [done|]. intros rows [= <-]. cbn. split; [done|]. apply Hk.
    intros p tag Hp Ht. rewrite collect_named by (by eapply (list_elem_of_fmap_2 octets), Hin).
    rewrite lookup_fmap, (stored_recovery _ _ _ _ Hs), lookup_fmap. by destruct (_ !! _).
Qed.

(** What the two loops know: the same high waters; the pins of the table, and of the batch so far,
    which the records to come agree with. *)
Record gating (batch : list pending.t) (hw : gmap (list Z) Z) (pn : gmap (list Z) slice)
    (highWater : gmap (list Z) Z) (pinned : gmap (list Z) slice) : Prop := Gating {
  gating_water p : p ∈ batch → let h := octets (Rec.SenderHandle (pending.record p)) in
    highWater !! h = match hw !! h with Some l => Some l | None => senderRow.lastStreamIndex <$> memoryGroup.senders g !! h end;
  gating_pins p tag : p ∈ batch → recoveryTagOf (pending.record p) = Some tag →
    let h := octets (RecoveryTag.Handle tag) in pinned !! h = recoveryRow.verifyPub <$> memoryGroup.recovery g !! h;
  gating_known h k pin : pn !! h = Some k → memoryGroup.recovery g !! h = Some pin → octets (recoveryRow.verifyPub pin) = octets k;
  gating_seen h k p tag : pn !! h = Some k → p ∈ batch → recoveryTagOf (pending.record p) = Some tag →
    octets (RecoveryTag.Handle tag) = h → pending.settled p = false → octets k = octets (RecoveryTag.VerifyPub tag);
  gating_consistent : consistent (pending.record <$> unsettled batch) }.

Lemma gateRest_same st keys batch hw pn highWater pinned p :
  gating batch hw pn highWater pinned → p ∈ batch → pending.settled p = false →
  Rec.IsCommit (pending.record p) && bool_decide (is_Some (memoryGroup.commits g !! Rec.Epoch (pending.record p))) = false →
  gateRest st (pending.record p) keys highWater pinned = MemoryStore.gate g st (pending.record p) keys hw pn.
Proof.
  intros [Hw Hp Hk Hse _] Hin Hset Hlost. unfold gateRest, MemoryStore.gate. rewrite Hlost. rewrite (Hw p Hin).
  set (record := pending.record p) in *. repeat (case_match; [done|]).
  destruct (recoveryTagOf record) as [tag|] eqn:Ht; [|done].
  rewrite (Hp p tag Hin Ht). set (h := octets (RecoveryTag.Handle tag)).
  destruct (pn !! h) as [k|] eqn:Hpn; [|done].
  assert (octets k = octets (RecoveryTag.VerifyPub tag)) as E by by eapply Hse.
  rewrite (proj2 (bytes_Equal_spec _ _) E). destruct (memoryGroup.recovery g !! h) as [pin|] eqn:Hr; [|done]. cbn.
  rewrite (proj2 (bytes_Equal_spec _ _)); [done|]. by rewrite (Hk h k pin).
Qed.

Lemma post_gate {A} st keys batch hw pn highWater pinned p (k : Reason → program (res PgxError A)) Q :
  gating batch hw pn highWater pinned → p ∈ batch → pending.settled p = false → typed (pending.record p) →
  post (k (MemoryStore.gate g st (pending.record p) keys hw pn)) Q r →
  post (reason ←! gate id st (pending.record p) keys highWater pinned; k reason) Q r.
Proof.
  intros Hg Hin Hset Ht Hk. apply post_andThen. unfold gate.
  destruct (Rec.IsCommit (pending.record p)) eqn:Hc.
  - apply post_query; [done..|]. cbn [stmt_rows groupsKeyed onRows scan fst snd].
    rewrite commits_at by apply Ht. destruct (memoryGroup.commits g !! Rec.Epoch (pending.record p)) as [c|] eqn:Hl; cbn.
    + split; [done|]. unfold MemoryStore.gate in Hk. rewrite Hc, Hl, bool_decide_eq_true_2 in Hk by done. exact Hk.
    + split; [done|]. erewrite gateRest_same; [exact Hk|done..|]. rewrite Hl, bool_decide_eq_false_2 by by intros [? ?].
      apply andb_false_r.
  - cbn. split; [done|]. erewrite gateRest_same; [exact Hk|done..|]. by rewrite Hc.
Qed.

Lemma gating_skip p batch hw pn highWater pinned :
  gating (p :: batch) hw pn highWater pinned → pending.settled p = true → gating batch hw pn highWater pinned.
Proof.
  intros [Hw Hp Hk Hse Hc] Hset. rewrite unsettled_cons, Hset in Hc.
  split; [intros q Hq; apply Hw|intros q tag Hq; apply Hp| |intros h k q tag Hpn Hq; eapply Hse; [done|]|]; try done; by right.
Qed.

(** A record that passed: its index and its pin are the batch's own. *)
Lemma gating_step st keys p batch hw pn highWater pinned :
  gating (p :: batch) hw pn highWater pinned → pending.settled p = false →
  MemoryStore.gate g st (pending.record p) keys hw pn = REASON_OK →
  let h := octets (Rec.SenderHandle (pending.record p)) in
  gating batch (<[h := Rec.StreamIndex (pending.record p)]> hw) (pinBatch (pending.record p) pn)
    (<[h := Rec.StreamIndex (pending.record p)]> highWater) pinned.
Proof.
  intros Hg Hset Hok h. pose proof Hg as [Hw Hp Hk Hse Hc]. rewrite unsettled_cons, Hset in Hc.
  assert (∀ h k, pinBatch (pending.record p) pn !! h = Some k →
    pn !! h = Some k ∨ pn !! h = None ∧ ∃ tag, recoveryTagOf (pending.record p) = Some tag ∧ octets (RecoveryTag.Handle tag) = h ∧
      k = RecoveryTag.VerifyPub tag ∧
      ∀ pin, memoryGroup.recovery g !! h = Some pin → octets (recoveryRow.verifyPub pin) = octets k) as Hpin.
  { intros h' k Hl. unfold pinBatch in Hl. destruct (recoveryTagOf (pending.record p)) as [tag|] eqn:Ht; [|by left].
    destruct (pn !! octets (RecoveryTag.Handle tag)) eqn:Hpn; [by left|].
    apply lookup_insert_Some in Hl as [ [<- <-]|[_ Hl] ]; [right|by left]. split; [done|]. exists tag. split_and!; try done.
    intros pin Hpin. unfold MemoryStore.gate in Hok. rewrite Ht, Hpn, Hpin in Hok. cbn in Hok. apply bytes_Equal_spec.
    by cases_in Hok. }
  split.
  - intros q Hq h'. subst h h'. destruct (decide (octets (Rec.SenderHandle (pending.record q)) = octets (Rec.SenderHandle (pending.record p)))) as [->|Hne].
    + by rewrite !lookup_insert_eq.
    + rewrite !lookup_insert_ne by done. apply (Hw q). by right.
  - intros q tag Hq. apply Hp. by right.
  - intros h' k pin Hl Hr. destruct (Hpin h' k Hl) as [Hpn|(_ & tag & _ & _ & -> & H)]; [by eapply Hk|by apply H].
  - intros h' k q tag Hl Hq Ht Hh Hqs. destruct (Hpin h' k Hl) as [Hpn|(_ & tag' & Ht' & Hh' & -> & _)].
    + eapply Hse; [exact Hpn|by right|done..].
    + eapply (Hc (pending.record p) (pending.record q)); [by left| |done..|congruence].
      rewrite fmap_cons. right. apply list_elem_of_fmap_2. by apply list_elem_of_filter.
  - intros r1 r2 tag1 tag2 H1 H2. apply Hc; rewrite fmap_cons; by right.
Qed.

Lemma post_gates st keys batch index hw pn highWater pinned :
  gating batch hw pn highWater pinned → batch_typed batch →
  post (gates id st keys index batch highWater pinned)
    (λ b refusal r', b = false ∧ r' = r ∧ refusal = MemoryStore.gates g st keys index batch hw pn) r.
Proof.
  revert index hw pn highWater. induction batch as [|p batch IH]; intros index hw pn highWater Hg Ht; [done|].
  apply Forall_cons in Ht as [Hpt Ht]. cbn [gates MemoryStore.gates].
  destruct (pending.settled p) eqn:Hset; [apply IH; [by eapply gating_skip|done]|].
  apply (post_gate st keys (p :: batch) hw pn highWater pinned p); [done|by left|done..|].
  destruct (decide (MemoryStore.gate g st (pending.record p) keys hw pn = REASON_OK)) as [Hok|Hbad]; [|done].
  apply IH; [by eapply gating_step|done].
Qed.
End Locked.
End Gates.
