(* ===== verification/PgxAnswers.v ===== *)
(** * What a batch is answered over PostgreSQL

    [fill], [winningCommit] and [refuse]: the answers of the in-memory store, a winning commit read
    back out of its columns. *)

From S2P Require Import Prelude Sha256 StoreTypes Retention MemoryStore GroupLog GroupInv Prog Sql OneKey PgxRecord PgxGroups PgxStore PgxStored PgxReads PgxFetch PgxWrites PgxGates.
#[local] Open Scope sql_scope.

(** The winning commit as its row is read back. *)
Definition reissuedWinner (g : memoryGroup.t) (r : Rec.t) : Rec.t :=
  match memoryGroup.records g !! Z.to_nat (Rec.RecordId r - 1) with
  | Some x => reissued g (read x false)
  | None => r
  end.

Definition reissuedResult (g : memoryGroup.t) (result : SubmitResult.t) : SubmitResult.t :=
  SubmitResult.set_WinningCommit (reissuedWinner g <$> SubmitResult.WinningCommit result) result.

(** Results no winning commit has been put on. *)
Definition unfilled (batch : list pending.t) : Prop :=
  Forall (λ p, SubmitResult.WinningCommit (pending.result p) = None) batch.

Lemma reissuedResult_none g result : SubmitResult.WinningCommit result = None → reissuedResult g result = result.
Proof. destruct result. cbn. by intros ->. Qed.

(** [fillOne], its winner read back. *)
Definition fillStored (g : memoryGroup.t) (p : pending.t) : pending.t :=
  pending.set_result (reissuedResult g (pending.result (fillOne g p))) p.

Lemma resultsOf_fillStored g batch :
  resultsOf (fillStored g <$> batch) = reissuedResult g <$> resultsOf (fillOne g <$> batch).
Proof.
  unfold resultsOf. rewrite <- !list_fmap_compose. apply list_fmap_ext. intros _ p _. cbn.
  by destruct (accepted _).
Qed.

Section Answers.
Context `{V : Vault} `{VL : !VaultLaws} `{T : Timestamps} `{TL : !TimestampLaws}.
Context (self : PgxStore.t AEAD) (id : slice) (r : Rows.t) (g : memoryGroup.t).
Context (Hs : stored self (octets id) r g) (Hi : group_inv g).
Abbreviation program := (prog (reply scanned)).
Abbreviation post := (post (octets id)).

(** An answer read off the rows, which stay as they are. *)
Definition answering {A} (x : A) : bool → A → Rows.t → Prop := λ b a r', b = false ∧ r' = r ∧ a = x.

Lemma post_answering {A B} (p : program (res PgxError A)) x (k : A → program (res PgxError B)) Q :
  post p (answering x) r → post (k x) Q r → post (a ←! p; k a) Q r.
Proof. intros Hp Hk. apply post_andThen. eapply post_mono; [|exact Hp]. by intros b a r' (-> & -> & ->). Qed.

(** What the row of a winning commit is made into. *)
Definition winnerOf (found : res PgError storedRecord.t) : res PgxError (option Rec.t) :=
  match found with
  | Err ErrNoRows => Ok None
  | Err e => Err (DriverError e)
  | Ok row => res_bind (recordOf (PgxStore.keys self) id row) (λ record, Ok (Some record))
  end.

Lemma winner_stored e :
  0 <= e < two64 →
  winnerOf (onRows (SelectWinner id (i64 e)) r).2 = Ok (reissuedWinner g <$> (commitRow.record <$> memoryGroup.commits g !! e)).
Proof.
  intros He. cbn [onRows scan snd].
  rewrite (commits_at self id r g _ Hs Hi) by done. destruct (memoryGroup.commits g !! e) as [c|] eqn:Hc; [|done].
  destruct (stored_commit self _ _ _ _ Hs Hi e c Hc) as (_ & n & x & Hn & Hx & Hid & _). cbn. rewrite Hid, (stored_records _ _ _ _ Hs), Hn. cbn.
  assert (x ∈ memoryGroup.records g) as Hin by by eapply list_elem_of_lookup_2.
  rewrite (recordOf_stored self id r g Hs Hi x false Hin). cbn.
  unfold reissuedWinner. rewrite <- Hx, (stored_row_id self _ _ _ _ Hs Hi n x Hn).
  replace (Z.to_nat (1 + Z.of_nat n - 1)) with n by lia. by rewrite Hn.
Qed.

Lemma post_winningCommit e :
  0 <= e < two64 →
  post (winningCommit self id e) (answering (reissuedWinner g <$> (commitRow.record <$> memoryGroup.commits g !! e))) r.
Proof.
  intros He. unfold winningCommit. apply post_query; [done..|]. pose proof (winner_stored e He) as Hw.
  cbn [stmt_rows groupsKeyed]. assert ((onRows (SelectWinner id (i64 e)) r).1 = r) as Er by done.
  rewrite Er. destruct (onRows (SelectWinner id (i64 e)) r).2 as [row|[] ]; cbn in Hw |- *; [|by injection Hw as <-|done].
  destruct (recordOf _ _ _); cbn in *; [|done]. by injection Hw as <-.
Qed.

Lemma post_fillLoop batch :
  batch_typed batch → unfilled batch →
  post (fillLoop self id (memoryGroup.currentEpoch g) batch) (answering (fillStored g <$> batch)) r.
Proof.
  induction batch as [|p batch IH]; intros Ht Hu; [done|]. apply Forall_cons in Ht as [Hpt Ht]. apply Forall_cons in Hu as [Hpu Hu].
  cbn [fillLoop]. set (result := if SubmitResult.CurrentEpoch (pending.result p) =? 0 then _ else _).
  assert (SubmitResult.WinningCommit result = None) as Hw by (unfold result; by destruct (_ =? 0)).
  apply (post_answering _ (pending.result (fillStored g p))).
  - unfold fillStored, fillOne. cbn [pending.result pending.set_result pending.record]. fold result.
    destruct (negb (Rec.IsCommit (pending.record p)) || accepted (SubmitResult.reason result)).
    + cbn. unfold answering. by rewrite reissuedResult_none.
    + apply (post_answering _ _ _ _ (post_winningCommit _ (typed_epoch _ Hpt))). cbn. unfold answering. split_and!; [done..|].
      destruct (memoryGroup.commits g !! _) as [c|]; cbn; [by rewrite cloneRecord_id|].
      rewrite reissuedResult_none by done. clear -Hw. clearbody result. destruct result. cbn in *. by subst.
  - apply (post_answering _ _ _ _ (IH Ht Hu)). done.
Qed.

(** A refusal under the lock. *)
Lemma post_refuse batch offender reason :
  memoryGroup.closed g = false → batch_typed batch → unfilled batch →
  post (refuse self id batch offender reason (memoryGroup.currentEpoch g))
    (answering (reissuedResult g <$> refuseBatch (Some g) batch offender reason)) r.
Proof.
  intros Hc Ht Hu. unfold refuse, fill. pose proof (cus_pos _ (stored_custody self _ _ _ _ Hs Hi)) as Hpos.
  rewrite (proj2 (Z.eqb_neq _ 0)) by lia.
  eapply post_answering.
  - apply post_fillLoop.
    + apply Forall_lookup. intros i p Hp. unfold refused in Hp. rewrite list_lookup_imap in Hp. apply fmap_Some in Hp as (q & Hq & ->).
      eapply Forall_lookup in Hq; [|exact Ht]. by case_decide.
    + apply Forall_lookup. intros i p Hp. unfold refused in Hp. rewrite list_lookup_imap in Hp. apply fmap_Some in Hp as (q & Hq & ->).
      eapply Forall_lookup in Hq; [|exact Hu]. by case_decide.
  - cbn. unfold answering. split_and!; [done..|]. rewrite resultsOf_fillStored. unfold refuseBatch. cbn [fillCurrentEpoch]. by rewrite Hc.
Qed.
End Answers.
