(* ===== verification/PgxCommit.v ===== *)
(** * One record written over PostgreSQL

    The statements of one iteration of the write loop leave the tables holding what the in-memory
    iteration leaves of the group they held: behind the gates no insert meets a row that is there,
    and every row is the one the other store keeps. *)

From S2P Require Import Prelude Sha256 StoreTypes Retention MemoryStore GroupLog GroupInv Prog Sql OneKey PgxRecord PgxGroups PgxStore PgxStored PgxReads PgxWrites PgxGates.
#[local] Open Scope sql_scope.

(** A record a request may carry, as far as its Go types and its parser go. *)
Record submittable (r : Rec.t) : Prop := Submittable {
  submittable_typed : typed r;
  submittable_proper : proper (Rec.Attachment r);
  submittable_expire : 0 <= Rec.ExpireAtMs r < 9224318016000000 }.

Lemma submittable_stamp id r :
  submittable r → 0 <= id < two63 → Rec.StreamIndex r < two63 → storable (stamp id r) ∧ Rec.PruneAfter (stamp id r) = None.
Proof.
  intros [ [] Hp He] Hid Hi. split; [|done]. split; [|done..]. split; try done. cbn. unfold two63, two64 in *. lia.
Qed.

(** ** The four rows behind the epoch *)

(** [closeFanOut] aside, what [appended] does to a group. *)
Definition rowsAppended (now : time) (record : Rec.t) (g : memoryGroup.t) : memoryGroup.t :=
  let g := writeClaim now record g in
  let g := writeRow now record (memoryGroup.mediaTtlSeconds g) (memoryGroup.durableTtlSeconds g) g in
  let g := memoryGroup.set_recovery (writePin now record (memoryGroup.recovery g)) g in
  memoryGroup.set_senders (account now record (memoryGroup.senders g)) g.

Section Commit.
Context `{V : Vault} `{VL : !VaultLaws} `{T : Timestamps} `{TL : !TimestampLaws}.
Context (self : PgxStore.t AEAD) (id : slice).
Abbreviation program := (prog (reply scanned)).
Abbreviation post := (post (octets id)).
Abbreviation stored := (stored self (octets id)).

Lemma stored_rows now record r g :
  stored r g → Rec.RecordId record = Z.of_nat (length (memoryGroup.records g)) + 1 →
  Rec.RecordId record < memoryGroup.nextRecordId g →
  storable record → Rec.PruneAfter record = None →
  stored
    (Rows.mk (Rows.group r) (Rows.epochs r)
       (<[Rec.RecordId record :=
            recordColumns record now
              (default None (pruneAfter now (Rec.RetentionClass record) (memoryGroup.mediaTtlSeconds g) (memoryGroup.durableTtlSeconds g)))
              (memoryGroup.policyVersion g)]> (Rows.records r))
       (<[claimKeyOf record := claimOf now record]> (Rows.claims r))
       (Rows.commits r)
       (account now record (Rows.senders r))
       (pinColumns <$> writePin now record (memoryGroup.recovery g)))
    (rowsAppended now record g).
Proof.
  intros [Hid (row & Hrow & Hg) He Hr Hids Hst Hcl Hco Hse Hre] Hrid Hnext Hsb Hpr.
  split; cbn; try done; try congruence.
  - exists row. split; [done|]. destruct Hg. split; try done. cbn. rewrite length_app. cbn. lia.
  - intros n. destruct (decide (n = length (memoryGroup.records g))) as [->|Hne].
    + rewrite Hrid, lookup_insert_eq, lookup_app_r, Nat.sub_diag by done. done.
    + rewrite lookup_insert_ne by lia. rewrite Hr. destruct (decide (n < length (memoryGroup.records g))%nat).
      * by rewrite lookup_app_l.
      * rewrite (lookup_ge_None_2 _ n), (lookup_ge_None_2 (_ ++ _) n); [done|rewrite length_app; cbn; lia|lia].
  - intros k. rewrite lookup_insert_is_Some. intros [<-|[_ Hk] ]; [lia|by apply Hids].
  - apply Forall_app. split; [done|]. by constructor.
Qed.

(** A sender's row under its bounds. *)
Lemma senderAllowed_account handle index bytes now senders record :
  octets handle = octets (Rec.SenderHandle record) → index = Rec.StreamIndex record → bytes = recordBytes record →
  let row := match senders !! octets handle with
             | Some old => senderRow.mk index (senderRow.recordCount old + 1) (senderRow.byteCount old + bytes) now
             | None => senderRow.mk index 1 bytes now
             end in
  senderAllowed id handle row = true → <[octets handle := row]> senders = account now record senders.
Proof.
  intros -> -> -> row Hrow. unfold account. f_equal. unfold senderAllowed, isBigint in Hrow.
  subst row. destruct (senders !! _) as [old|]; cbn in *.
  - repeat (apply andb_prop in Hrow as [Hrow ?]). reflect_bools. by rewrite !i64_small by lia.
  - assert (i64 (0 + recordBytes record) = recordBytes record) as ->; [|done].
    unfold recordBytes. by rewrite Z.add_comm, i64_add_l, Z.add_0_r.
Qed.

(** [pinRecoveryHandle], on a handle that is not pinned to another key. *)
Lemma post_pin {A} now record (k : bool → program (res PgxError A)) recovery Q r :
  clock_ok now → Rows.recovery r = pinColumns <$> recovery →
  (∀ tag pin, recoveryTagOf record = Some tag → recovery !! octets (RecoveryTag.Handle tag) = Some pin →
     octets (recoveryRow.verifyPub pin) = octets (RecoveryTag.VerifyPub tag)) →
  post (k false) Q (Rows.set_recovery (pinColumns <$> writePin (truncate_micro now) record recovery) r) →
  post (rebound ←! (match recoveryTagOf record with
                    | Some tag => pinRecoveryHandle id tag now
                    | None => Return (Ok false)
                    end); k rebound) Q r.
Proof.
  intros Hn Hre Hpin Hk. apply post_andThen. unfold writePin in Hk. destruct (recoveryTagOf record) as [tag|] eqn:Ht.
  2:{ cbn. split; [done|]. rewrite <- Hre in Hk. by destruct r. }
  specialize (Hpin tag). unfold pinRecoveryHandle.
  apply (post_exec_then _ (InsertRecovery id _ _ _ _)); [done|]. intros n H.
  cbn [stmt_rows groupsKeyed onRows] in *. rewrite clock_kept in H |- * by done. cbn [fst snd] in H |- *.
  unfold inserting in H |- *. rewrite Hre, lookup_fmap in H |- *.
  destruct (recoveryAllowed _ _ _); [cbn [negb] in H |- *|done].
  destruct (recovery !! octets (RecoveryTag.Handle tag)) as [pin|] eqn:Hl.
  - rewrite bool_decide_eq_true_2 in H |- * by done. injection H as <-. cbn [negb Z.eqb fst].
    apply (post_exec_then _ (SelectRecovery id _)); [done|]. intros pub Hpub. cbn [stmt_rows groupsKeyed onRows scan fst snd] in *.
    rewrite Hre, lookup_fmap, Hl in Hpub. injection Hpub as <-. cbn [fst].
    rewrite (proj2 (bytes_Equal_spec _ _)) by by eapply Hpin. cbn. split; [done|]. rewrite <- Hre in Hk. by destruct r.
  - rewrite bool_decide_eq_false_2 in H |- * by by intros [? ?]. injection H as <-. cbn. split; [done|].
    rewrite fmap_insert in Hk. exact Hk.
Qed.

(** The marker of a fan-out. *)
Lemma post_closeFanOut {A} record (k : program (res PgxError A)) Q r g :
  stored r g →
  (∀ x, stored (Rows.set_group x r) (MemoryStore.closeFanOut record g) → post k Q (Rows.set_group x r)) →
  post (_ ←! (match epochCompleteTagOf record with
              | Some marker => closeFanOut id (memoryGroup.currentEpoch g) marker
              | None => Return (Ok tt)
              end); k) Q r.
Proof.
  intros Hs Hk. pose proof Hs as [_ (row & Hrow & Hg) He _ _ _ _ _ _ _].
  assert (Rows.set_group (Some row) r = r) as Hsame by (rewrite <- Hrow; by destruct r).
  assert (MemoryStore.closeFanOut record g = g → post k Q r) as Hnone.
  { intros E. rewrite <- Hsame. apply Hk. by rewrite E, Hsame. }
  unfold MemoryStore.closeFanOut in Hk, Hnone. apply post_andThen.
  destruct (epochCompleteTagOf record) as [marker|]; [|by split; [|apply Hnone]].
  unfold closeFanOut. destruct (EpochCompleteTag.Epoch marker =? memoryGroup.currentEpoch g) eqn:Hep; cbn [negb andb] in *.
  2:{ split; [done|]. apply Hnone. by destruct (_ !! _). }
  apply post_query; [done..|]. cbn [stmt_rows groupsKeyed onRows scan fst snd].
  pose proof (sg_epoch_range _ _ Hg) as Hr. rewrite i64_small by (unfold two63 in *; lia).
  specialize (He (memoryGroup.currentEpoch g)). destruct (memoryGroup.epochs g !! _) as [x|]; inversion He as [rx ? Hx|]; subst; cbn.
  2:{ split; [done|by apply Hnone]. }
  rewrite (se_expected _ _ _ _ _ Hx), u64_small by (pose proof (se_expected_range _ _ _ _ _ Hx); unfold two32, two64 in *; lia).
  rewrite (Z.eqb_sym (epochRow.expectedWrapCount x)). destruct (EpochCompleteTag.WrapCount marker =? _); cbn.
  2:{ split; [done|by apply Hnone]. }
  split; [done|]. split; [done|]. unfold updateGroup. rewrite Hrow. destruct (groupAllowed _ _); cbn; [|done]. split; [done|].
  apply Hk. destruct Hs as [Hid _ He' H2 H3 H4 H5 H6 H7 H8]. split; try done. eexists. split; [done|]. by destruct Hg.
Qed.

Lemma closeFanOut_shape record g :
  memoryGroup.claims (MemoryStore.closeFanOut record g) = memoryGroup.claims g ∧
  memoryGroup.records (MemoryStore.closeFanOut record g) = memoryGroup.records g ∧
  memoryGroup.recovery (MemoryStore.closeFanOut record g) = memoryGroup.recovery g ∧
  memoryGroup.senders (MemoryStore.closeFanOut record g) = memoryGroup.senders g ∧
  memoryGroup.mediaTtlSeconds (MemoryStore.closeFanOut record g) = memoryGroup.mediaTtlSeconds g ∧
  memoryGroup.durableTtlSeconds (MemoryStore.closeFanOut record g) = memoryGroup.durableTtlSeconds g ∧
  memoryGroup.policyVersion (MemoryStore.closeFanOut record g) = memoryGroup.policyVersion g ∧
  memoryGroup.nextRecordId (MemoryStore.closeFanOut record g) = memoryGroup.nextRecordId g.
Proof. rewrite closeFanOut_fields. by destruct g. Qed.

(** A record that may be written to a group: the next id, a fresh claim, a pin that agrees. *)
Record writable (record : Rec.t) (r : Rows.t) (g : memoryGroup.t) : Prop := Writable {
  wr_submittable : submittable record;
  wr_prune : Rec.PruneAfter record = None;
  wr_id : Rec.RecordId record = Z.of_nat (length (memoryGroup.records g)) + 1;
  wr_next : Rec.RecordId record < memoryGroup.nextRecordId g;
  wr_claim : Rows.claims r !! (octets (Rec.SenderHandle record), i64 (Rec.StreamIndex record)) = None;
  wr_pin tag pin : recoveryTagOf record = Some tag →
    memoryGroup.recovery g !! octets (RecoveryTag.Handle tag) = Some pin →
    octets (recoveryRow.verifyPub pin) = octets (RecoveryTag.VerifyPub tag) }.

Lemma post_writeRows now record result p r g Q :
  clock_ok now → stored r g → writable record r g →
  (∀ r', stored r' (appended (truncate_micro now) record g) →
     Q false (Wrote (pending.set_result
       (SubmitResult.set_RecordId (Rec.RecordId record)
          (SubmitResult.set_reason (acceptanceReason (SubmitResult.Applied result)) result)) p) (memoryGroup.currentEpoch g)) r') →
  post (writeRows id record now (memoryGroup.mediaTtlSeconds g) (memoryGroup.durableTtlSeconds g)
          (memoryGroup.policyVersion g) (memoryGroup.currentEpoch g) result p) Q r.
Proof.
  intros Hn Hs [Hsb Hpr Hid Hnx Hcl Hpin] HQ. unfold writeRows.
  pose proof (stored_group _ _ _ _ Hs) as (row0 & _ & Hg).
  pose proof (sg_next_range _ _ Hg) as Hnr. 
  apply (post_closeFanOut record _ _ r g Hs). intros x Hs1.
  destruct (closeFanOut_shape record g) as (E1 & E2 & E3 & E4 & E5 & E6 & E7 & E8).
  assert (∀ r', stored r' (rowsAppended (truncate_micro now) record (MemoryStore.closeFanOut record g)) →
    Q false (Wrote (pending.set_result
       (SubmitResult.set_RecordId (Rec.RecordId record)
          (SubmitResult.set_reason (acceptanceReason (SubmitResult.Applied result)) result)) p) (memoryGroup.currentEpoch g)) r') as HQ'.
  { intros r' Hr'. by apply HQ. }
  clear HQ. set (G := MemoryStore.closeFanOut record g) in *. clearbody G. rewrite <- ?E5, <- ?E6, <- ?E7. 
  eapply post_insertClaim; [apply claimColumns_stored; [done|lia]|done|]. intros _.
  eapply post_insertRecord. intros row ->%recordColumns_stored; [|done| | |apply Hsb].
  2-3: destruct (stored_group _ _ _ _ Hs1) as (row1 & _ & Hg1); apply Hg1.
  assert (messageRecord.record_id (recordColumns record (truncate_micro now)
    (default None (pruneAfter (truncate_micro now) (Rec.RetentionClass record) (memoryGroup.mediaTtlSeconds G) (memoryGroup.durableTtlSeconds G)))
    (memoryGroup.policyVersion G)) = Rec.RecordId record) as Erid by (cbn; apply i64_small; lia).
  rewrite Erid. split.
  { cbn. rewrite Hid, (stored_records _ _ _ _ Hs). by rewrite lookup_ge_None_2. }
  intros Hra. assert (0 <= i64 (Rec.StreamIndex record)) as Hidx.
  { unfold recordAllowed in Hra. repeat (apply andb_prop in Hra as [Hra ?]). by apply Z.leb_le. }
  pose proof (submittable_typed _ Hsb) as Hty. pose proof (typed_index _ Hty) as Hity.
  assert (Rec.StreamIndex record < two63) as Hsi.
  { destruct (decide (Rec.StreamIndex record < two63)); [done|]. pose proof (i64_large (Rec.StreamIndex record) ltac:(lia)). lia. }
  rewrite i64_small by (unfold two63 in *; lia).
  apply (post_pin now record _ (memoryGroup.recovery G)); [done|exact (stored_recovery _ _ _ _ Hs1)|by rewrite E3|].
  cbn beta iota. eapply post_insertSender; [done|]. intros srow Hsa.
  cbn [OneKey.post]. apply HQ'.
  assert (<[octets (Rec.SenderHandle record) := srow]> (Rows.senders (Rows.set_group x r)) =
    account (truncate_micro now) record (Rows.senders (Rows.set_group x r))) as Esend by by apply senderAllowed_account.
  assert (storable record) as Hst by (destruct Hsb; by split).
  pose proof (stored_rows (truncate_micro now) record _ G Hs1) as Hfin. rewrite E2 in Hfin. rewrite E8 in Hfin.
  specialize (Hfin Hid Hnx Hst Hpr). rewrite <- Esend in Hfin. exact Hfin.
Qed.

(** ** The epoch a commit opens *)

(** One epoch's row through the retirement of [current] and the forgetting of the older ones. *)
Lemma storedEpoch_superseded now current e row x :
  storedEpoch self (octets id) e row x →
  storedEpoch self (octets id) e
    (let row := if decide (e = current) then
                  if notNull (epochColumns.write_key_wrapped row) then epochColumns.set_retire (Some now) row else row
                else row in
     if (e <? current) && notNull (epochColumns.write_key_wrapped row) then epochColumns.set_write None row else row)
    (if bool_decide (epochRow.writeKey x = None) then x
     else if e <? current then epochRow.set_writeKey None x
     else if e =? current then epochRow.set_retireTime now x
     else x).
Proof.
  intros Hx. pose proof (unwrapped_None _ _ _ _ _ _ (se_write _ _ _ _ _ Hx)) as Hn.
  assert (notNull (epochColumns.write_key_wrapped row) = negb (bool_decide (epochRow.writeKey x = None))) as Eb.
  { destruct (epochColumns.write_key_wrapped row), (epochRow.writeKey x); cbn; naive_solver. }
  cbv zeta. destruct (decide (e = current)) as [->|Hne].
  - rewrite Z.ltb_irrefl, Z.eqb_refl, Eb. cbn [andb]. repeat case_bool_decide; cbn [negb]; try done. by destruct Hx.
  - rewrite Eb, (proj2 (Z.eqb_neq _ _) Hne). repeat case_bool_decide; cbn [negb]; rewrite ?andb_false_r, ?andb_true_r; try done.
    destruct (e <? current); [|done]. by destruct Hx.
Qed.

Lemma stored_openEpoch now st o media durable record r g row w rd :
  stored r g → GroupState.CurrentEpoch st = memoryGroup.currentEpoch g → Rec.Epoch record = memoryGroup.currentEpoch g →
  0 <= Rec.RecordId record < two63 →
  Rows.group r = Some row → storedGroup row g →
  let opens := u64 (memoryGroup.currentEpoch g + 1) in
  let row' := groupRow.set_policy (i64 opens) (i32 media) (durableColumn durable) (epochOpening.GroupContextHash o) row in
  groupAllowed id row' = true →
  0 <= media < two32 → (∀ d, durable = Some d → 0 <= d < two32) →
  0 <= epochOpening.AlgId o < two32 → 0 <= epochOpening.ExpectedWrapCount o < two32 →
  unwrapped (PgxStore.keys self) w wrapWriteKey (Some (octets id)) opens = Ok (epochOpening.WriteKey o) →
  unwrapped (PgxStore.keys self) rd wrapReadKey (Some (octets id)) opens = Ok (epochOpening.ReadKey o) →
  stored
    (Rows.mk (Some row')
       (map_imap (λ e row, Some (if (e <? i64 (memoryGroup.currentEpoch g)) && notNull (epochColumns.write_key_wrapped row)
                                 then epochColumns.set_write None row else row))
          (alter (λ row, if notNull (epochColumns.write_key_wrapped row)
                         then epochColumns.set_retire (Some now) row else row) (i64 (memoryGroup.currentEpoch g))
             (<[i64 opens := epochColumns.mk w rd (Some now) (i32 (epochOpening.AlgId o)) (Some (i64 (Rec.RecordId record))) now None
                               (epochOpening.ExpectedWrapCount o)]> (Rows.epochs r))))
       (Rows.records r) (Rows.claims r) (<[i64 (Rec.Epoch record) := i64 (Rec.RecordId record)]> (Rows.commits r))
       (Rows.senders r) (Rows.recovery r))
    (MemoryStore.openEpoch now st o media durable record g).
Proof.
  intros [Hid _ He Hr Hids Hst Hcl Hco Hse Hre] Hcur Hep Hrid Hrow Hg opens row' Hga Hm Hd Ha Hx Hw Hrd.
  pose proof (sg_epoch_range _ _ Hg) as Hce. assert (opens = memoryGroup.currentEpoch g + 1) as Eo by (apply u64_small; unfold two63, two64 in *; lia).
  unfold groupAllowed in Hga. repeat (apply andb_prop in Hga as [Hga ?]). subst row'. destruct row. cbn in *. reflect_bools.
  assert (opens < two63) as Hop.
  { destruct (decide (opens < two63)); [done|]. pose proof (i64_large opens ltac:(unfold two63, two64 in *; lia)). lia. }
  rewrite (i64_small opens) in * by (unfold two63 in *; lia). rewrite (i64_small (memoryGroup.currentEpoch g)) by (unfold two63 in *; lia).
  split; cbn -[MemoryStore.openEpoch]; try done.
  - eexists. split; [done|]. destruct Hg. cbn in *. split; cbn; try done; rewrite ?Hcur; unfold opens in *; try done; try lia.
    + subst policy_version. rewrite u32_small; [done|]. unfold two32. lia.
    + rewrite u32_small by (unfold two32; lia). lia.
  - intros e. rewrite openEpoch_lookup by (rewrite Hcur; unfold two63, two64 in *; lia). rewrite Hcur. fold opens.
    rewrite map_lookup_imap. case_decide as E.
    + rewrite lookup_alter_ne by lia. rewrite E, lookup_insert_eq. cbn. rewrite (proj2 (Z.ltb_ge _ _)) by lia. cbn.
      constructor. split; cbn; try done. apply u64_i64. unfold two63, two64 in *. lia.
    + specialize (He e).
      assert (alter (λ row : epochColumns.t, if notNull (epochColumns.write_key_wrapped row)
                         then epochColumns.set_retire (Some now) row else row) (memoryGroup.currentEpoch g)
             (<[opens := epochColumns.mk w rd (Some now) (i32 (epochOpening.AlgId o)) (Some (i64 (Rec.RecordId record))) now None
                               (epochOpening.ExpectedWrapCount o)]> (Rows.epochs r)) !! e =
        (λ row, if decide (e = memoryGroup.currentEpoch g) then
                  if notNull (epochColumns.write_key_wrapped row) then epochColumns.set_retire (Some now) row else row
                else row) <$> Rows.epochs r !! e) as ->.
      { destruct (decide (e = memoryGroup.currentEpoch g)) as [Ec|Ec].
        - rewrite Ec, lookup_alter_eq, lookup_insert_ne by lia. done.
        - rewrite lookup_alter_ne, lookup_insert_ne by done. symmetry. apply option_fmap_id. }
      inversion He as [rx x Hrx Erx Ex|]; cbn; constructor. by apply storedEpoch_superseded.
  - unfold MemoryStore.openEpoch. cbn [memoryGroup.commits]. rewrite Hco, fmap_insert. cbn. rewrite Hep, !i64_small by (unfold two63 in *; lia). done.
Qed.

Lemma post_claimEpoch {A} now nonces st keys record (k : claimedEpoch → program (res PgxError A)) Q r g :
  limits_ok (PgxStore.limits self) → clock_ok now → nonce_ok nonces.1 → nonce_ok nonces.2 →
  stored r g → GroupState.CurrentEpoch st = memoryGroup.currentEpoch g →
  typed record → Rec.Epoch record = memoryGroup.currentEpoch g → 0 <= Rec.RecordId record < two63 →
  (Rec.IsCommit record = true →
     memoryGroup.commits g !! Rec.Epoch record = None ∧
     wellFormedEpochAttachment record (u64 (memoryGroup.currentEpoch g + 1)) keys = true) →
  (Rec.IsCommit record = false → post (k NoCommit) Q r) →
  (∀ o media durable applied r', Rec.IsCommit record = true → openingOf record keys = Some o →
     apply (PgxStore.limits self) o = (media, durable, applied) →
     stored r' (MemoryStore.openEpoch (truncate_micro now) st o media durable record g) → Rows.claims r' = Rows.claims r →
     post (k (Opened media durable applied)) Q r') →
  post (claimed ←! claimEpoch self nonces id st record keys now; k claimed) Q r.
Proof.
  intros Hl Hn Hn1 Hn2 Hs Hcur Ht Hep Hrid Hcm Hk1 Hk2. apply post_andThen. unfold claimEpoch.
  destruct (Rec.IsCommit record) eqn:Hic; [|by split; [|apply Hk1]]. destruct (Hcm eq_refl) as [Hnone Hwf]. clear Hcm Hk1.
  destruct (wellFormed_opening _ _ _ Hwf) as (o & Ho & _ & Hwk & Hrk & _).
  destruct (stored_group _ _ _ _ Hs) as (row & Hrow & Hg). pose proof (sg_epoch_range _ _ Hg) as Hce.
  apply post_query; [done..|]. cbn [stmt_rows groupsKeyed onRows].
  assert (Rows.commits r !! i64 (Rec.Epoch record) = None) as ->.
  { rewrite (stored_commits _ _ _ _ Hs), lookup_fmap, i64_small by (unfold two63 in *; lia). by rewrite Hnone. }
  unfold inserting. destruct (ofLength id 32); cbn [negb fst snd]; [|done].
  rewrite bool_decide_eq_false_2 by by intros [? ?]. cbn [fst snd]. unfold openEpoch. rewrite Ho, Hcur.
  destruct (apply (PgxStore.limits self) o) as [ [media durable] applied] eqn:Hap.
  destruct (openingOf_typed _ _ _ Ht Ho) as (Ha & Hm & Hd & Hx). destruct (apply_range _ _ _ _ _ Hl Hm Hd Hap) as [Hmr Hdr].
  eapply post_andThen, post_wrap; [done..|]. intros w Hw. eapply post_wrap; [done..|]. intros rd Hrd.
  eapply post_insertEpoch; [unfold epochStored; cbn; by rewrite clock_kept by done|]. intros _.
  apply (post_exec_then _ (RetireEpoch id _ now)); [done|]. intros [] _. cbn [stmt_rows groupsKeyed onRows]. rewrite clock_kept by done. cbn [fst].
  apply (post_exec_then _ (ForgetWriteKeys id _)); [done|]. intros [] _. cbn [stmt_rows groupsKeyed onRows fst].
  apply (post_exec_then _ (AdvanceGroup id _ _ _ _)); [done|]. intros [] H. cbn [stmt_rows groupsKeyed onRows] in *.
  unfold updateGroup in H |- *. cbn [Rows.group Rows.set_epochs Rows.set_commits] in H |- *. rewrite Hrow in H |- *.
  destruct (groupAllowed id _) eqn:Hga; [|done]. cbn [fst]. split; [done|]. split; [done|]. eapply Hk2; [done..| |done].
  exact (stored_openEpoch (truncate_micro now) st o media durable record r g row w rd Hs Hcur Hep Hrid Hrow Hg Hga Hmr Hdr Ha Hx Hw Hrd).
Qed.

(** ** One record *)

(** The group's row as the transaction read it, and as it still is. *)
Record state_of (st : GroupState.t) (g : memoryGroup.t) : Prop := StateOf {
  so_epoch : GroupState.CurrentEpoch st = memoryGroup.currentEpoch g;
  so_media : GroupState.MediaTtlSeconds st = memoryGroup.mediaTtlSeconds g;
  so_durable : GroupState.DurableTtlSeconds st = memoryGroup.durableTtlSeconds g;
  so_policy : GroupState.PolicyVersion st = memoryGroup.policyVersion g }.

Lemma post_writeOne {A} now nonces st keys rid p (k : written → program (res PgxError A)) Q r g :
  limits_ok (PgxStore.limits self) → clock_ok now → nonce_ok nonces.1 → nonce_ok nonces.2 →
  stored r g → inv_at rid g → state_of st g → submittable (pending.record p) →
  rid = Z.of_nat (length (memoryGroup.records g)) + 1 → rid < memoryGroup.nextRecordId g →
  admissible (view_at rid g) (stamp rid (pending.record p)) →
  (Rec.IsCommit (pending.record p) = true →
     wellFormedEpochAttachment (pending.record p) (u64 (memoryGroup.currentEpoch g + 1)) keys = true) →
  (∀ r', let g' := appended (truncate_micro now) (stamp rid (pending.record p))
                     (opened (PgxStore.limits self) (truncate_micro now) st keys (stamp rid (pending.record p)) g) in
     stored r' g' →
     post (k (Wrote (pending.set_result (GroupInv.written (PgxStore.limits self) st keys rid p) p) (memoryGroup.currentEpoch g'))) Q r') →
  post (one ←! writeOne self nonces id st keys now rid (memoryGroup.currentEpoch g) p; k one) Q r.
Proof.
  intros Hl Hn Hn1 Hn2 Hs Hi [E1 E2 E3 E4] Hsub Hrid Hnx Hadm Hwf Hk.
  destruct (stored_group _ _ _ _ Hs) as (row & Hrow & Hg). pose proof (sg_next_range _ _ Hg) as Hnr.
  apply post_andThen. unfold writeOne. rewrite cloneRecord_id. fold (stamp rid (pending.record p)).
  set (record := stamp rid (pending.record p)) in *.
  assert (submittable record) as Hsub'.
  { destruct Hsub as [ [] Hp He]. split; [|done..]. split; try done. cbn. unfold two63, two64 in *. lia. }
  assert (Rows.claims r !! (octets (Rec.SenderHandle record), i64 (Rec.StreamIndex record)) = None) as Hcl.
  { rewrite (proj1 (claims_at self _ _ _ _ record Hs Hi (submittable_typed _ Hsub'))).
    change (memoryGroup.claims g) with (view.claims (view_at rid g)). rewrite (inv_view _ _ Hi).
    apply admissible_fresh; [apply Hi|]. by rewrite <- (inv_view _ _ Hi). }
  assert (openingOf record keys = openingOf (pending.record p) keys) as Eo by apply openingOf_stamp.
  eapply post_claimEpoch; try done.
  - apply Hsub'.
  - apply (adm_epoch _ _ Hadm).
  - cbn. lia.
  - intros Hc. split; [by apply (adm_commit _ _ Hadm)|]. specialize (Hwf Hc). unfold wellFormedEpochAttachment in *. by rewrite Eo.
  - intros Hc. rewrite E2, E3, E4. apply (post_writeRows now record (pending.result p) p r g); [done..| |].
    + split; try done. intros tag pin. apply (adm_pin _ _ Hadm).
    + intros r' Hs'. split; [done|]. unfold opened in Hk. rewrite Hc in Hk. specialize (Hk r' Hs').
      unfold GroupInv.written in Hk. change (Rec.IsCommit record) with (Rec.IsCommit (pending.record p)) in Hc. rewrite Hc in Hk.
      rewrite appended_current in Hk. exact Hk.
  - intros o media durable applied r' Hc Ho Hap Hs' Ecl. set (g1 := MemoryStore.openEpoch _ st o media durable record g) in *.
    assert (opened (PgxStore.limits self) (truncate_micro now) st keys record g = g1) as Eg.
    { unfold opened. by rewrite Hc, Ho, Hap. }
    assert (memoryGroup.currentEpoch g1 = u64 (GroupState.CurrentEpoch st + 1) ∧ memoryGroup.mediaTtlSeconds g1 = media ∧
      memoryGroup.durableTtlSeconds g1 = durable ∧ memoryGroup.policyVersion g1 = u32 (memoryGroup.policyVersion g + 1) ∧
      memoryGroup.records g1 = memoryGroup.records g ∧ memoryGroup.recovery g1 = memoryGroup.recovery g ∧
      memoryGroup.nextRecordId g1 = memoryGroup.nextRecordId g) as (F1 & F2 & F3 & F4 & F5 & F6 & F7) by done.
    rewrite Eg in Hk. clearbody g1. clear Eg. cbv zeta. rewrite E4, <- F1, <- F4, <- F2, <- F3.
    apply (post_writeRows now record _ p r' g1); [done..| |].
    + split; try done; [by rewrite F5|by rewrite F7|by rewrite Ecl|]. rewrite F6. intros tag pin. apply (adm_pin _ _ Hadm).
    + intros r2 Hs2. split; [done|]. specialize (Hk r2 Hs2).
      unfold GroupInv.written in Hk. change (Rec.IsCommit record) with (Rec.IsCommit (pending.record p)) in Hc.
      rewrite Hc, <- Eo, Ho, Hap, appended_current, <- F1 in Hk. exact Hk.
Qed.
End Commit.
