(* ===== verification/PgxSubmit.v ===== *)
(** * [Submit]'s transaction over PostgreSQL

    Under the row lock the batch meets the gates, the write loop and the commit of the in-memory
    store on the group the rows hold, and leaves rows that hold what that leaves; a refusal leaves
    them as they are. *)

From S2P Require Import Prelude Sha256 StoreTypes Retention MemoryStore GroupLog GroupInv Submission Prog Sql OneKey PgxRecord PgxGroups PgxStore PgxStored PgxReads PgxFetch PgxWrites PgxGates PgxAnswers PgxCommit.
#[local] Open Scope sql_scope.

Lemma snoc_cons {A} (before : list A) p rest : before ++ p :: rest = (before ++ [p]) ++ rest.
Proof. by rewrite <- app_assoc. Qed.

Section Submit.
Context `{V : Vault} `{VL : !VaultLaws} `{T : Timestamps} `{TL : !TimestampLaws}.
Context (self : PgxStore.t AEAD) (id : slice).
Context (now : time) (nonces : option (list Z) * option (list Z)).
Context (Hl : limits_ok (PgxStore.limits self)) (Hn : clock_ok now) (Hn1 : nonce_ok nonces.1) (Hn2 : nonce_ok nonces.2).
Abbreviation program := (prog (reply scanned)).
Abbreviation post := (post (octets id)).
Abbreviation stored := (stored self (octets id)).
Abbreviation kept := (truncate_micro now).
Abbreviation limits := (PgxStore.limits self).

(** ** The write loop *)

Definition batch_submittable (batch : list pending.t) : Prop := Forall (λ p, submittable (pending.record p)) batch.

Lemma post_writeAll st keys g0 first :
  st = state g0 → ∀ batch before i hw pn r g index,
  MemoryStore.gates g0 st keys i batch hw pn = None → grown g0 hw pn g →
  Forall (λ p, validateRecord (pending.record p) = None) batch → batch_shape batch → batch_submittable batch →
  inv_at (u64 (first + index)) g → stored r g → (batch ≠ [] → state_of st g) →
  first + index = Z.of_nat (length (memoryGroup.records g)) + 1 →
  Z.of_nat (length (memoryGroup.records g) + length (unsettled batch)) < memoryGroup.nextRecordId g →
  post (writeAll self nonces id st keys now first index (memoryGroup.currentEpoch g) before batch)
    (λ b a r', b = false ∧
       a = Written (before ++ marked limits st keys first index batch)
             (memoryGroup.currentEpoch (grow limits kept st keys first index g batch)) ∧
       stored r' (grow limits kept st keys first index g batch)) r.
Proof.
  intros Hst batch. induction batch as [|p rest IH]; intros before i hw pn r g index Hg Hgr Hv Hsh Hsub Hinv Hs Hso Hix Hroom.
  { cbn. by rewrite app_nil_r. }
  apply Forall_cons in Hv as [Hp Hv]. apply Forall_cons in Hsub as [Hps Hsub].
  cbn [writeAll marked grow MemoryStore.gates] in *. rewrite unsettled_cons in Hroom.
  assert (batch_shape rest) as Hsh'.
  { destruct Hsh as [Hsh|[q [= -> ->] ] ]; [apply Forall_cons in Hsh as [_ Hsh]|]; left; auto. }
  destruct (pending.settled p) eqn:Hset.
  { rewrite (snoc_cons before p (marked _ _ _ _ _ rest)). eapply IH; try done. intros _. by apply Hso. }
  cbn [length] in Hroom. rewrite u64_add_l. set (x := pending.record p) in *. set (rid := u64 (first + index)) in *.
  destruct (stored_group _ _ _ _ Hs) as (row & _ & Hsg). pose proof (sg_next_range _ _ Hsg) as Hnr.
  assert (rid = first + index) as Erid by (apply u64_small; unfold two63, two64 in *; lia).
  destruct (decide _) as [Hok|]; [|done]. rewrite (gate_grown _ _ _ _ _ _ _ Hgr) in Hok.
  destruct (gate_admissible g st rid x keys) as [Hadm Hwf]; [|by subst st; apply (grown_complete _ _ _ _ Hgr)|apply Hinv|done|done|].
  { by apply so_epoch, Hso. }
  assert (Rec.IsCommit (stamp rid x) = true → is_Some (openingOf (stamp rid x) keys)) as Ho.
  { rewrite openingOf_stamp. intros Hcm. destruct (wellFormed_opening _ _ _ (Hwf Hcm)) as (o & -> & _). eauto. }
  destruct (writeOne_view limits kept st keys rid g (stamp rid x) (so_epoch _ _ (Hso ltac:(done))) (inv_epoch_range _ _ Hinv)
    (inv_epoch _ _ Hinv) Ho) as (row' & Hrow' & Ht & Hrs & _ & _ & _ & Hnx & _ & _).
  assert (inv_at (u64 (first + (index + 1))) (appended kept (stamp rid x) (opened limits kept st keys (stamp rid x) g))) as Hinv'.
  { replace (u64 (first + (index + 1))) with (u64 (rid + 1)); [by apply write_inv; [apply so_epoch, Hso|..]|].
    unfold rid. rewrite u64_add_l. f_equal. lia. }
  eapply post_writeOne; try done; [by apply Hso|lia|lia|]. intros r1 g1 Hs1.
  rewrite (snoc_cons before _ (marked _ _ _ _ _ rest)).
  destruct Hsh as [Hsh|[q [= -> ->] ] ].
  - apply Forall_cons in Hsh as [Hcm _]. fold x in Hcm. eapply IH; try done.
    + apply grown_step; [done|done|]. intros tag pin Ht' Hpin. eapply (adm_pin _ _ Hadm); [by rewrite recoveryTagOf_stamp|done].
    + intros _. destruct (Hso ltac:(done)) as [E1 E2 E3 E4]. unfold g1, opened. change (Rec.IsCommit (stamp rid x)) with (Rec.IsCommit x).
      rewrite Hcm. unfold appended. rewrite closeFanOut_fields. by split.
    + unfold g1. rewrite Hrs, length_app. cbn. lia.
    + unfold g1. rewrite Hrs, Hnx, length_app. cbn. lia.
  - cbn. by rewrite app_nil_r.
Qed.

(** ** Under the lock *)

(** The second phase on an open group. *)
Definition underLockOf (limits : Limits.t) (now : time) (g : memoryGroup.t) (keys : option EpochKeyDelivery.t)
    (batch : list pending.t) : memoryGroup.t * list SubmitResult.t :=
  let batch := told (memoryGroup.currentEpoch g) <$> batch in
  match MemoryStore.gates g (state g) keys 0 batch ∅ ∅ with
  | Some (i, refusal) => (g, refuseBatch (Some g) batch i refusal)
  | None => MemoryStore.commit limits now g (state g) keys batch
  end.

(** A batch as the first phase leaves it, of records a request may carry. *)
Record lockable (batch : list pending.t) : Prop := Lockable {
  lb_valid : Forall (λ p, validateRecord (pending.record p) = None) batch;
  lb_shape : batch_shape batch;
  lb_submittable : batch_submittable batch;
  lb_unfilled : unfilled batch;
  lb_consistent : consistent (pending.record <$> unsettled batch) }.

Lemma lockable_told epoch batch : lockable batch → lockable (told epoch <$> batch).
Proof.
  intros [H1 H2 H3 H4 H5]. split.
  - by apply Forall_fmap.
  - destruct H2 as [H2|[p ->] ]; [left; by apply Forall_fmap|right; by exists (told epoch p)].
  - by apply Forall_fmap.
  - by apply Forall_fmap.
  - replace (pending.record <$> unsettled (told epoch <$> batch)) with (pending.record <$> unsettled batch); [done|].
    clear. induction batch as [|p batch IH]; [done|]. rewrite !fmap_cons, !unsettled_cons. cbn [pending.settled told pending.set_result].
    destruct (pending.settled p); [done|]. rewrite !fmap_cons. by f_equal.
Qed.

Lemma lockable_typed batch : lockable batch → batch_typed batch.
Proof. intros [_ _ H _ _]. eapply Forall_impl; [exact H|]. by intros p []. Qed.

(** The ids of the batch, allocated. *)
Lemma stored_allocated r g row count :
  stored r g → Rows.group r = Some row → storedGroup row g → 0 <= count →
  groupAllowed id (groupRow.set_next (groupRow.next_record_id row + count) row) = true →
  u64 (memoryGroup.nextRecordId g + count) = memoryGroup.nextRecordId g + count ∧
  stored (Rows.set_group (Some (groupRow.set_next (groupRow.next_record_id row + count) row)) r)
    (memoryGroup.set_nextRecordId (memoryGroup.nextRecordId g + count) g).
Proof.
  intros [Hid _ He Hr Hids Hst Hcl Hco Hse Hre] Hrow Hg Hc Hga. unfold groupAllowed in Hga.
  repeat (apply andb_prop in Hga as [Hga ?]). destruct Hg. destruct row. cbn in *. reflect_bools. subst.
  split; [apply u64_small; unfold two63, two64 in *; lia|]. split; cbn; try done.
  eexists. split; [done|]. split; cbn; try done. lia.
Qed.

Lemma resultsOf_unfilled g batch : unfilled batch → reissuedResult g <$> resultsOf batch = resultsOf batch.
Proof.
  intros Hu. unfold resultsOf. rewrite <- list_fmap_compose. apply list_fmap_ext. intros i p Hp.
  eapply Forall_lookup in Hu; [|exact Hp]. cbn. apply reissuedResult_none. by destruct (accepted _).
Qed.

Lemma marked_unfilled st keys first index batch : unfilled batch → unfilled (marked limits st keys first index batch).
Proof.
  intros Hu. revert index. induction Hu as [|p batch Hp _ IH]; intros index; [constructor|]. cbn [marked].
  destruct (pending.settled p).
  - apply Forall_cons. split; [exact Hp|apply IH].
  - apply Forall_cons. split; [|apply IH]. cbn [pending.result pending.set_result]. unfold GroupInv.written. clear IH.
    destruct (Rec.IsCommit (pending.record p)); [destruct (openingOf (pending.record p) keys) as [o|]; [destruct (apply limits o) as [ [? ?] ?]|]|];
      exact Hp.
Qed.

Lemma post_write r g keys batch row :
  stored r g → group_inv g → Rows.group r = Some row → storedGroup row g → lockable batch →
  MemoryStore.gates g (state g) keys 0 batch ∅ ∅ = None →
  post (write self nonces id (state g) keys now batch)
    (λ b x r', let '(g', results) := MemoryStore.commit limits kept g (state g) keys batch in
       b = true ∧ x = results ∧ stored r' g' ∧ group_inv g') r.
Proof.
  intros Hs Hi Hrow Hg [Hv Hsh Hsub Hu _] Hgates. unfold write.
  apply (post_exec_then _ (AllocateIds id _)); [done|]. intros first Hf. cbn [stmt_rows groupsKeyed onRows] in *.
  rewrite Hrow in Hf |- *. destruct (groupAllowed id _) eqn:Hga; [|done]. cbn [fst snd] in *. injection Hf as <-.
  destruct (stored_allocated r g row (Z.of_nat (length (unsettled batch))) Hs Hrow Hg ltac:(lia) Hga) as [Hu64 Hs1].
  rewrite (sg_next _ _ Hg) in Hs1 |- *. set (first := memoryGroup.nextRecordId g) in *.
  pose proof (commit_admits limits kept g keys batch Hgates Hi Hv Hsh) as Hadm.
  unfold MemoryStore.commit in Hadm |- *. rewrite (gates_no_lost _ _ _ _ _ _ _ Hgates) in Hadm |- *. fold first in Hadm |- *.
  rewrite Hu64 in Hadm |- *. set (g1 := memoryGroup.set_nextRecordId _ g) in *.
  pose proof (writeAll_grow limits kept (state g) keys first 0 g1 batch) as E1.
  pose proof (writeAll_marked limits kept (state g) keys first 0 g1 batch) as E2.
  destruct (MemoryStore.writeAll _ _ _ _ _ _ _ _) as [g' batch']. cbn [fst snd] in E1, E2. destruct Hadm as (Hinv & _).
  assert (first = u64 first) as Hfirst by (symmetry; apply u64_small; pose proof (sg_next_range _ _ Hg); unfold first, two63, two64 in *; lia).
  eapply post_andThen, post_mono.
  2:{ apply (post_writeAll (state g) keys g first eq_refl batch [] 0 ∅ ∅ _ g1 0); try done.
      - rewrite Z.add_0_r, <- Hfirst. apply inv_at_set_next, Hi.
      - unfold first. rewrite Z.add_0_r. change (memoryGroup.nextRecordId g) with (view.next (view_at (memoryGroup.nextRecordId g) g)).
        rewrite (inv_view _ _ Hi), replay_next. pose proof (stored_length self _ _ _ Hs). cbn. rewrite u64_small by (unfold two63, two64 in *; lia). lia.
      - cbn. fold first. pose proof (sg_next_range _ _ Hg). unfold first in *. lia. }
  cbn [app]. intros b wrote r' (-> & -> & Hs'). split; [done|]. cbn beta iota. subst g' batch'. apply post_commit.
  split; [done|]. split; [done|]. by split.
Qed.

Lemma post_underLock r g keys batch row :
  stored r g → group_inv g → memoryGroup.closed g = false → Rows.group r = Some row → storedGroup row g → lockable batch →
  post (underLock self nonces id keys now batch row)
    (λ b x r', let '(g', results) := underLockOf limits kept g keys batch in
       x = reissuedResult g <$> results ∧ if b : bool then stored r' g' ∧ group_inv g' else g' = g) r.
Proof.
  intros Hs Hi Hc Hrow Hg Hlb. unfold underLock, underLockOf. rewrite (stateOf_stored row g Hg).
  change (λ current : pending.t, pending.set_result (SubmitResult.set_CurrentEpoch (GroupState.CurrentEpoch (state g)) (pending.result current)) current)
    with (told (memoryGroup.currentEpoch g)).
  apply (lockable_told (memoryGroup.currentEpoch g)) in Hlb. set (told_batch := told _ <$> batch) in *. clearbody told_batch. clear batch. rename told_batch into batch.
  apply (post_senderHighWater self id r g _ Hs Hi). intros highWater Hw.
  apply (post_pinnedRecoveryKeys self id r g Hs). intros pinned Hp.
  eapply post_andThen, post_mono.
  2:{ apply (post_gates self id r g _ Hs Hi (state g) keys batch 0 ∅ ∅); [|by apply lockable_typed].
      split; [intros p Hin; by apply Hw|done|done|done|apply Hlb]. }
  cbn. intros b refusal r' (-> & -> & ->). split; [done|].
  destruct (MemoryStore.gates g (state g) keys 0 batch ∅ ∅) as [ [i reason]|] eqn:Hgates.
  - eapply post_mono; [|apply (post_refuse self id r g Hs Hi); [done|by apply lockable_typed|apply Hlb] ].
    intros b x r' (-> & -> & ->). done.
  - pose proof (commit_admits limits kept g keys batch Hgates Hi (lb_valid _ Hlb) (lb_shape _ Hlb)) as Hadm.
    eapply post_mono; [|by eapply post_write]. intros b x r'.
    destruct (MemoryStore.commit _ _ _ _ _ _) as [g' results]. destruct Hadm as (_ & _ & _ & _ & _ & ->).
    intros (-> & -> & Hs' & Hi'). split; [|done]. symmetry. apply resultsOf_unfilled, Forall_fmap.
    eapply Forall_impl; [exact (marked_unfilled _ keys _ 0 _ (lb_unfilled _ Hlb))|]. intros p Hp0. cbn. by case_match.
Qed.
End Submit.
