(* ===== verification/PgxTransact.v ===== *)
(** * [Submit] over PostgreSQL

    The probe reads the claims at one moment and the transaction works at a later one: between the
    two of the in-memory store's phases lies whatever other sessions did.  A batch the probe settles
    is answered outside any transaction, from the tables of two later moments. *)

From S2P Require Import Prelude Sha256 StoreTypes Retention MemoryStore GroupLog GroupInv Submission Prog Sql OneKey PgxRecord PgxGroups PgxStore PgxStored PgxReads PgxFetch PgxWrites PgxGates PgxAnswers PgxCommit PgxSubmit.
#[local] Open Scope sql_scope.

(** The second phase on a batch the probe left something of. *)
Definition locked (limits : Limits.t) (now : time) (og : option memoryGroup.t) (keys : option EpochKeyDelivery.t)
    (batch : list pending.t) : option memoryGroup.t * list SubmitResult.t :=
  match og with
  | None => (None, refuseUnavailable batch)
  | Some g =>
      if memoryGroup.closed g then (Some g, refuseUnavailable batch)
      else let '(g', results) := underLockOf limits now g keys batch in (Some g', results)
  end.

Lemma submit_finish_locked limits now og request batch :
  list_find (λ p, pending.probe p = probeDiffers) batch = None → unsettled (settle <$> batch) ≠ [] →
  submit_finish limits now og request batch = locked limits now og (SubmitRequest.EpochKeys request) (settle <$> batch).
Proof.
  intros Hd Hu. unfold submit_finish, locked, underLockOf. rewrite Hd, decide_False by done.
  destruct og as [g|]; [|done]. destruct (memoryGroup.closed g); [done|].
  change (λ current, pending.set_result (SubmitResult.set_CurrentEpoch (GroupState.CurrentEpoch (state g)) (pending.result current)) current)
    with (told (memoryGroup.currentEpoch g)).
  destruct (MemoryStore.gates _ _ _ _ _ _ _) as [ [i refusal]|]; [done|]. by destruct (MemoryStore.commit _ _ _ _ _ _).
Qed.

(** Answers whose winning commits are read back out of their columns. *)
Definition reissuedResults (og : option memoryGroup.t) (results : list SubmitResult.t) : list SubmitResult.t :=
  match og with Some g => reissuedResult g <$> results | None => results end.

(** ** Outside a transaction *)

(** The winning commit of an epoch, read back. *)
Definition winnerAt (og : option memoryGroup.t) (e : Z) : option Rec.t :=
  g ← og; reissuedWinner g <$> (commitRow.record <$> memoryGroup.commits g !! e).

(** [fillOne], the epoch and the winner read at two moments. *)
Definition fillApart (epoch : Z) (og2 : option memoryGroup.t) (p : pending.t) : pending.t :=
  let result := pending.result p in
  let result := if SubmitResult.CurrentEpoch result =? 0
                then SubmitResult.set_CurrentEpoch epoch result else result in
  pending.set_result
    (if negb (Rec.IsCommit (pending.record p)) || accepted (SubmitResult.reason result) then result
     else SubmitResult.set_WinningCommit (winnerAt og2 (Rec.Epoch (pending.record p))) result) p.

Definition answeredApart (og1 og2 : option memoryGroup.t) (batch : list pending.t) : list SubmitResult.t :=
  match og1 with
  | Some g1 => if memoryGroup.closed g1 then resultsOf batch else resultsOf (fillApart (memoryGroup.currentEpoch g1) og2 <$> batch)
  | None => resultsOf batch
  end.

(** At one moment it is the in-memory store's answer. *)
Lemma answeredApart_same og batch :
  unfilled batch → answeredApart og og batch = reissuedResults og (resultsOf (fillCurrentEpoch og batch)).
Proof.
  intros Hu. destruct og as [g|]; [|done]. cbn [answeredApart reissuedResults fillCurrentEpoch].
  destruct (memoryGroup.closed g); [by rewrite resultsOf_unfilled|]. rewrite <- resultsOf_fillStored. f_equal.
  apply list_fmap_ext. intros i p Hp. eapply Forall_lookup in Hu; [|exact Hp].
  unfold fillStored, fillOne, fillApart, winnerAt. cbn [mbind option_bind].
  set (result := if SubmitResult.CurrentEpoch _ =? 0 then _ else _).
  assert (SubmitResult.WinningCommit result = None) as Hw by (unfold result; by case_match). clearbody result.
  cbn [pending.result pending.set_result]. f_equal.
  destruct (_ || _); [by rewrite reissuedResult_none|]. destruct (memoryGroup.commits g !! _) as [c|]; cbn.
  - by rewrite cloneRecord_id.
  - rewrite reissuedResult_none by done. destruct result. cbn in *. by subst.
Qed.

Section Transact.
Context `{V : Vault} `{VL : !VaultLaws} `{T : Timestamps} `{TL : !TimestampLaws}.
Context (self : PgxStore.t AEAD) (id : slice).
Context (now : time) (nonces : option (list Z) * option (list Z)).
Context (Hl : limits_ok (PgxStore.limits self)) (Hn : clock_ok now) (Hn1 : nonce_ok nonces.1) (Hn2 : nonce_ok nonces.2).
Abbreviation session := (Session.t Groups.t (list Z)).
Abbreviation kept := (truncate_micro now).
Abbreviation limits := (PgxStore.limits self).
Abbreviation sane := (sane self).
Abbreviation represents := (represents self).
Abbreviation store := (store self).

(** ** The transaction *)

(** What the transaction makes of the rows and answers, on whatever group the rows hold. *)
Definition lockedOn (keys : option EpochKeyDelivery.t) (batch : list pending.t)
    (before : Rows.t) (b : bool) (x : list SubmitResult.t) (after : Rows.t) : Prop :=
  ∀ og, holds self (octets id) before og →
    let '(og', results) := locked limits kept og keys batch in
    x = reissuedResults og results ∧ if b then holds self (octets id) after og' else og' = og.

Lemma refuseUnavailable_unfilled og batch :
  unfilled batch → reissuedResults og (refuseUnavailable batch) = refuseUnavailable batch.
Proof.
  intros Hu. destruct og as [g|]; [|done]. apply resultsOf_unfilled, Forall_fmap. eapply Forall_impl; [exact Hu|].
  intros p Hp. cbn. by case_decide.
Qed.

Lemma transact_settles keys batch s :
  lockable batch → fresh sane false s →
  spec sane (transact self nonces id keys now batch)
    (λ out l (_ : session), settles sane (octets id) (lockedOn keys batch) out l) s.
Proof.
  intros Hlb Hf. unfold transact. eapply spec_transaction; [done|done|done|].
  intros t [m Hm]. pose proof (represents_holds self t m (octets id) Hm) as Hh.
  cbn [stmt_rows stmt_held groupsKeyed onRows locksRow at_ groupsDatabase scan]. set (r := Groups.at_ (octets id) t) in *. clearbody r.
  destruct (holds_open self _ _ _ Hh) as [ (row & g0 & Hopen & Hrow & _)|[Hopen _] ]; rewrite Hopen; cbv beta iota.
  - rewrite bool_decide_eq_true_2 by eauto. eapply post_mono; [|apply (post_forall (octets id) _ (holds self (octets id) r)
      (λ og b x after, let '(og', results) := locked limits kept og keys batch in
        x = reissuedResults og results ∧ if b then holds self (octets id) after og' else og' = og))].
    + intros b x after HQ og. apply HQ.
    + by exists (m !! octets id).
    + intros og Hog. destruct (holds_open self _ _ _ Hog) as [ (row' & g & Hopen' & _ & -> & Hc & Hg & Hs & Hi)|[Hopen' _] ]; [|congruence].
      rewrite Hopen in Hopen'. injection Hopen' as <-. cbn [locked]. rewrite Hc.
      eapply post_mono; [|by eapply (post_underLock self id now nonces Hl Hn Hn1 Hn2 r g keys batch row)].
      intros b x after. destruct (underLockOf _ _ _ _ _) as [g' results]. intros [-> Hb]. split; [done|]. destruct b; [done|by subst].
  - rewrite bool_decide_eq_false_2 by by intros [? ?]. exists (Ok (refuseUnavailable batch)). split; [done|]. intros og Hog.
    assert (locked limits kept og keys batch = (og, refuseUnavailable batch)) as ->.
    { destruct (holds_open self _ _ _ Hog) as [ (? & ? & Hopen' & _)|[_ Hc] ]; [congruence|].
      destruct og as [g|]; [|done]. cbn. by rewrite (Hc g). }
    split; [|done]. symmetry. apply refuseUnavailable_unfilled, lb_unfilled, Hlb.
Qed.

(** ** The answers outside it *)

Definition unlocked (batch : list pending.t) (out : outcome (res PgxError (list SubmitResult.t)))
    (l : list (Groups.t * Groups.t)) : Prop :=
  Forall quiet l ∧
  ((∃ e, internal e ∧ out = Returned (Err e)) ∨
   ∃ t1 t2, t1 ∈ l.*1 ∧ t2 ∈ l.*1 ∧ sane t1 ∧ sane t2 ∧
     ∀ m1 m2, represents t1 m1 → represents t2 m2 →
       out = Returned (Ok (answeredApart (m1 !! octets id) (m2 !! octets id) batch))).

Lemma unlocked_patient batch : patient (λ out l (_ : session), unlocked batch out l).
Proof.
  intros out t t' l _ Hs [Hq H]. split; [by constructor|]. destruct H as [H|(t1 & t2 & H1 & H2 & H)]; [by left|right].
  exists t1, t2. split; [by right|]. by split; [right|].
Qed.

Lemma unlocked_failed batch e s :
  internal e → spec sane (Return (Err e)) (λ out l (_ : session), unlocked batch out l) s.
Proof. intros He. split; [done|]. left. by exists e. Qed.

Lemma sane_kept t t' : same t t' → sane t → sane t'.
Proof. intros Hs [m Hm]. exists m. by apply (represents_same self t). Qed.

(** A batch without a commit is filled with no further statement. *)
Lemma fillLoop_free epoch og2 batch :
  Forall (λ p, Rec.IsCommit (pending.record p) = false) batch →
  fillLoop self id epoch batch = Return (Ok (fillApart epoch og2 <$> batch)).
Proof.
  induction 1 as [|p batch Hp _ IH]; [done|]. cbn [fillLoop]. rewrite Hp, IH. cbn [negb orb]. unfold fillApart. cbn.
  by rewrite Hp.
Qed.

Lemma winner_answer r og e :
  holds self (octets id) r og → 0 <= e < two64 →
  winnerOf self id (onRows (SelectWinner id (i64 e)) r).2 = Ok (winnerAt og e).
Proof.
  intros Hh He. destruct og as [g|]; cbn [winnerAt mbind option_bind].
  - destruct Hh as [Hs Hi]. by apply winner_stored.
  - cbn in Hh. by subst.
Qed.

(** What the statement in front of the loop tells of a group the rows hold. *)
Lemma epoch_answer r og og2 batch :
  holds self (octets id) r og →
  match Rows.open r with
  | Some row => answeredApart og og2 batch = resultsOf (fillApart (u64 (groupRow.current_epoch row)) og2 <$> batch)
  | None => answeredApart og og2 batch = resultsOf batch
  end.
Proof.
  intros Hh. destruct (holds_open self _ _ _ Hh) as [ (row & g & -> & _ & -> & Hc & Hg & _)|[-> Hc] ]; cbn.
  - rewrite Hc, (sg_epoch _ _ Hg), u64_small; [done|]. pose proof (sg_epoch_range _ _ Hg). unfold two63, two64 in *. lia.
  - destruct og as [g|]; [|done]. cbn. by rewrite (Hc g).
Qed.

(** An answer read off the tables of one moment. *)
Lemma unlocked_answered (x : list SubmitResult.t) batch t t' s :
  sane t → same t t' →
  (∀ m1 m2, represents t m1 → represents t m2 → x = answeredApart (m1 !! octets id) (m2 !! octets id) batch) →
  spec sane (Return (Ok x)) (λ out l (_ : session), unlocked batch out ((t, t') :: l)) s.
Proof.
  intros Ht Hs Hx. split; [by repeat constructor|]. right. exists t, t. split; [by left|]. split; [by left|].
  split; [done|]. split; [done|]. intros m1 m2 H1 H2. by rewrite <- Hx.
Qed.

Lemma fill_unlocked batch s :
  fresh sane false s → batch_typed batch →
  (Forall (λ p, Rec.IsCommit (pending.record p) = false) batch ∨ ∃ p, batch = [p]) →
  spec sane (batch ←! fill self id batch 0; Return (Ok (resultsOf batch))) (λ out l (_ : session), unlocked batch out l) s.
Proof.
  intros Hf Ht Hsh. unfold fill. cbn.
  eapply (spec_read sane _ (unlocked_patient batch) sane_kept (SelectCurrentEpoch id));
    [apply group_execute_local| |exact Hf| |intros; by apply unlocked_failed].
  { intros r. cbn. by destruct (groupRow.current_epoch <$> Rows.open r). }
  intros t t' s1 Hok1 Hsame Hf1. cbn [keyOf onRows scan snd at_ groupsDatabase].
  assert (∀ m1 og2, represents t m1 → _) as He by (intros m1 og2 Hm; exact (epoch_answer _ _ og2 batch (represents_holds self t m1 (octets id) Hm))).
  destruct (Rows.open (Groups.at_ (octets id) t)) as [row|]; cbn [fmap option_fmap option_map].
  2:{ apply unlocked_answered; [done..|]. intros m1 m2 H1 _. by rewrite (He m1 _ H1). }
  set (epoch := u64 _) in *.
  assert (Forall (λ p, Rec.IsCommit (pending.record p) = false) batch →
    spec sane (fillLoop self id epoch batch ≫= λ r : res PgxError (list pending.t),
         match r with Ok a => Return (Ok (resultsOf a)) | Err e => Return (Err e) end)
      (λ out l (_ : session), unlocked batch out ((t, t') :: l)) s1) as Hfree.
  { intros Hfree. rewrite (fillLoop_free epoch None) by done. apply unlocked_answered; [done..|]. intros m1 m2 H1 _.
    rewrite (He m1 _ H1). f_equal. apply list_fmap_ext. intros i p Hp. eapply Forall_lookup in Hfree; [|exact Hp].
    unfold fillApart. by rewrite Hfree. }
  destruct Hsh as [Hsh|[p ->] ]; [by apply Hfree|]. destruct (Rec.IsCommit (pending.record p)) eqn:Hcm; [|apply Hfree; by repeat constructor].
  clear Hfree. cbn [fillLoop]. rewrite Hcm. cbn [negb orb]. set (result := if SubmitResult.CurrentEpoch _ =? 0 then _ else _).
  assert (∀ m1 og2, represents t m1 → answeredApart (m1 !! octets id) og2 [p] = resultsOf
    [pending.set_result (if accepted (SubmitResult.reason result) then result
                         else SubmitResult.set_WinningCommit (winnerAt og2 (Rec.Epoch (pending.record p))) result) p]) as He'.
  { intros m1 og2 H1. rewrite (He m1 og2 H1). cbn. unfold fillApart. by rewrite Hcm. }
  clearbody result. clear He. destruct (accepted (SubmitResult.reason result)).
  { apply unlocked_answered; [done..|]. intros m1 m2 H1 _. by rewrite He'. }
  apply Forall_cons in Ht as [Hpt _]. unfold winningCommit. cbn.
  assert (patient (λ out l (_ : session), unlocked [p] out ((t, t') :: l))) as Hpat.
  { intros out u u' l s2 Hsu [Hq H]. apply Forall_cons in Hq as [Hq1 Hq2]. split; [by repeat constructor|].
    destruct H as [H|(t1 & t2 & H1 & H2 & H)]; [by left|right]. exists t1, t2. cbn in *. set_solver. }
  eapply (spec_read sane _ Hpat sane_kept (SelectWinner id (i64 (Rec.Epoch (pending.record p)))));
    [apply group_execute_local|done|exact Hf1| |intros s2; split; [by repeat constructor|left; by exists (DriverError ErrDriver)] ].
  intros t2 t2' s2 Hok2 Hsame2 Hf2. cbn [keyOf at_ groupsDatabase].
  assert (∀ m2, represents t2 m2 → _) as Hw by (intros m2 Hm; exact (winner_answer _ _ _ (represents_holds self t2 m2 (octets id) Hm) (typed_epoch _ Hpt))).
  assert (∀ w, (∀ m2, represents t2 m2 → w = winnerAt (m2 !! octets id) (Rec.Epoch (pending.record p))) →
    spec sane (Return (Ok (resultsOf [pending.set_result (SubmitResult.set_WinningCommit w result) p])))
      (λ out l (_ : session), unlocked [p] out ((t, t') :: (t2, t2') :: l)) s2) as Hans.
  { intros w Hx. split; [by repeat constructor|]. right. exists t, t2. cbn. split; [by left|]. split; [by right; left|].
    split; [done|]. split; [done|]. intros m1 m2 H1 H2. by rewrite (He' m1 _ H1), (Hx m2 H2). }
  destruct (onRows (SelectWinner id _) _).2 as [wrow|[] ].
  - cbn in Hw. destruct (recordOf _ id wrow) as [w|e]; cbn in Hw |- *.
    + apply (Hans (Some w)). intros m2 H2. specialize (Hw m2 H2). by injection Hw.
    + exfalso. destruct Hok2 as [m2 H2]. by specialize (Hw m2 H2).
  - cbn in Hw |- *. apply (Hans None). intros m2 H2. specialize (Hw m2 H2). by injection Hw.
  - exfalso. destruct Hok2 as [m2 H2]. by specialize (Hw m2 H2).
Qed.

(** ** The method *)

(** What the transaction did, told on the store: at one of its calls the second phase, on the group
    as it is there; its winning commits read back out of their columns. *)
Definition finishes (request : SubmitRequest.t) (batch : list pending.t) (a : res PgxError (list SubmitResult.t))
    (t t' : Groups.t) : Prop :=
  sane t ∧ ∀ m, represents t m →
    let '(og', results) := submit_finish limits kept (m !! octets id) request batch in
    represents t' (MemoryStore.groups (put_group (store m) id og')) ∧
    (a = Ok (reissuedResults (m !! octets id) results) ∨ a = brokenAnswer).

(** Behind the probe. *)
Definition resumes (request : SubmitRequest.t) (batch : list pending.t)
    (out : outcome (res PgxError (list SubmitResult.t))) (l : list (Groups.t * Groups.t)) : Prop :=
  match list_find (λ p, pending.probe p = probeDiffers) batch with
  | Some (i, _) => unlocked (refused batch i REASON_STREAM_INDEX_REUSED) out l
  | None =>
      if bool_decide (unsettled (settle <$> batch) = []) then unlocked (settle <$> batch) out l
      else at_once (finishes request batch) out l ∨ Forall quiet l ∧ ∃ e, internal e ∧ out = Returned (Err e)
  end.

(** A submission: nothing changed and an internal error; or a probe of the tables as they were at one
    moment, and what follows it. *)
Definition submits (request : SubmitRequest.t) (out : outcome (res PgxError (list SubmitResult.t)))
    (l : list (Groups.t * Groups.t)) : Prop :=
  Forall quiet l ∧ (∃ e, internal e ∧ out = Returned (Err e)) ∨
  ∃ before t0 t0' after, l = before ++ (t0, t0') :: after ∧ Forall quiet before ∧ same t0 t0' ∧ sane t0 ∧
    ∀ m0, represents t0 m0 → resumes request (submit_probe (m0 !! octets id) request) out after.

Lemma submits_patient request : patient (λ out l (_ : session), submits request out l).
Proof.
  intros out t t' l _ Hs [ [Hq He]|(before & t0 & t0' & after & -> & Hq & H)]; [left; by split; [constructor|]|right].
  exists ((t, t') :: before), t0, t0', after. split; [done|]. by split; [constructor|].
Qed.

Lemma settles_finishes request batch out l :
  list_find (λ p, pending.probe p = probeDiffers) batch = None → unsettled (settle <$> batch) ≠ [] →
  settles sane (octets id) (lockedOn (SubmitRequest.EpochKeys request) (settle <$> batch)) out l →
  at_once (finishes request batch) out l ∨ Forall quiet l ∧ ∃ e, internal e ∧ out = Returned (Err e).
Proof.
  intros Hd Hu [H|H]; [left|by right].
  destruct H as (a & -> & before & t & t' & after & -> & H1 & H2 & Ht & b & x & r' & HQ & Ha & Hat & Hrest).
  exists a. split; [done|]. exists before, t, t', after. split; [done|]. split; [done|]. split; [done|]. split; [done|].
  intros m Hm. rewrite submit_finish_locked by done. specialize (HQ _ (represents_holds self t m (octets id) Hm)).
  destruct (locked _ _ _ _ _) as [og' results] eqn:Hlk. destruct HQ as [-> Hb]. cbn [at_ groupsDatabase] in *.
  split; [|naive_solver]. eapply represents_put_group; [exact Hm| | |exact Hrest].
  - destruct b; [by rewrite Hat|]. subst og'. rewrite Hat. by apply represents_holds.
  - intros ->. unfold locked in Hlk. destruct (m !! octets id) as [g|]; [|done]. destruct (memoryGroup.closed g); [done|].
    by destruct (underLockOf _ _ _ _ _).
Qed.

(** ** The request *)

(** Records a request may carry, no two of them pinning one handle to different keys. *)
Definition submittableRequest (request : SubmitRequest.t) : Prop :=
  Forall submittable (SubmitRequest.Records request) ∧ consistent (SubmitRequest.Records request).

Section Request.
Context (ctx : option Error) (request : SubmitRequest.t).
Context (Hv : validateSubmit ctx request = None) (Hsub : submittableRequest request).

Lemma probed_records og : pending.record <$> submit_probe og request = SubmitRequest.Records request.
Proof. apply submit_probe_records. Qed.

Lemma probed_submittable og : batch_submittable (submit_probe og request).
Proof. destruct Hsub as [H _]. rewrite <- (probed_records og), Forall_fmap in H. exact H. Qed.

Lemma probed_typed og : batch_typed (submit_probe og request).
Proof. eapply Forall_impl; [apply probed_submittable|]. by intros p []. Qed.

Lemma probed_lockable og : lockable (settle <$> submit_probe og request).
Proof.
  destruct (submit_probe_ready ctx og request Hv) as [Hr Hp Hval Hsh _].
  split.
  - apply Forall_fmap. eapply Forall_impl; [exact Hval|]. intros p. cbn. by destruct (settle_fields p) as (-> & _).
  - destruct Hsh as [Hsh|[p ->] ]; [left|right; by exists (settle p)].
    apply Forall_fmap. eapply Forall_impl; [exact Hsh|]. intros p. cbn. by destruct (settle_fields p) as (-> & _).
  - apply Forall_fmap. eapply Forall_impl; [apply probed_submittable|]. intros p. cbn. by destruct (settle_fields p) as (-> & _).
  - apply Forall_fmap. eapply Forall_impl; [exact Hp|]. intros p [_ H]. cbn. destruct (settle_fields p) as (_ & -> & _).
    destruct (pending.probe p); [by rewrite H|destruct H as (c & _ & _ & ->); done|destruct H as [-> _]; done].
  - destruct Hsub as [_ Hc]. intros r1 r2 tag1 tag2 H1 H2. apply Hc; rewrite <- (probed_records og).
    all: assert (∀ r, r ∈ pending.record <$> unsettled (settle <$> submit_probe og request) → r ∈ pending.record <$> submit_probe og request) as Hin;
      [|by apply Hin]; clear; intros r (p & -> & Hp)%list_elem_of_fmap; unfold unsettled in Hp;
      apply list_elem_of_filter in Hp as [_ (q & -> & Hq)%list_elem_of_fmap]; destruct (settle_fields q) as (-> & _);
      by apply list_elem_of_fmap_2.
Qed.

Lemma resumes_run og s :
  fresh sane false s →
  spec sane
    (match list_find (λ p, pending.probe p = probeDiffers) (submit_probe og request) with
     | Some (offender, _) => refuse self id (submit_probe og request) offender REASON_STREAM_INDEX_REUSED 0
     | None =>
         if bool_decide (unsettled (settle <$> submit_probe og request) = [])
         then (batch ←! fill self id (settle <$> submit_probe og request) 0; Return (Ok (resultsOf batch)))
         else transact self nonces id (SubmitRequest.EpochKeys request) now (settle <$> submit_probe og request)
     end)
    (λ out l (_ : session), resumes request (submit_probe og request) out l) s.
Proof.
  intros Hf. unfold resumes. destruct (submit_probe_ready ctx og request Hv) as [_ _ _ Hsh _].
  destruct (list_find _ _) as [ [i p]|] eqn:Hd.
  - apply fill_unlocked; [done|..].
    + apply Forall_lookup. intros j q Hq. unfold refused in Hq. rewrite list_lookup_imap in Hq. apply fmap_Some in Hq as (x & Hx & ->).
      pose proof (probed_typed og) as Ht. eapply Forall_lookup in Ht; [|exact Hx]. by case_decide.
    + destruct Hsh as [Hsh|[x ->] ]; [left|right; unfold refused; cbn; eauto].
      apply Forall_lookup. intros j q Hq. unfold refused in Hq. rewrite list_lookup_imap in Hq. apply fmap_Some in Hq as (x & Hx & ->).
      eapply Forall_lookup in Hsh; [|exact Hx]. by case_decide.
  - case_bool_decide as Hu.
    + apply fill_unlocked; [done|..].
      * apply lockable_typed, probed_lockable.
      * apply (lb_shape _ (probed_lockable og)).
    + eapply spec_mono; [|apply transact_settles; [apply probed_lockable|done] ].
      intros out l s1. by apply settles_finishes.
Qed.

Lemma Submit_submits s :
  id = SubmitRequest.GroupId request → fresh sane false s →
  spec sane (PgxStore.Submit self ctx now nonces request) (λ out l (_ : session), submits request out l) s.
Proof.
  intros Eid Hf. unfold PgxStore.Submit. rewrite Hv, <- Eid. unfold PgxStore.probe.
  set (batch := _ <$> SubmitRequest.Records request). 
  eapply (spec_read sane _ (submits_patient request) sane_kept (SelectClaims id _));
    [apply group_execute_local|done|exact Hf| |].
  2:{ intros s1. left. split; [done|]. by exists (DriverError ErrDriver). }
  intros t0 t0' s1 Hok Hsame Hf1. cbn [keyOf onRows snd at_ groupsDatabase].
  assert (∀ m0, represents t0 m0 → foldl probed batch (claimsAsked 1
    ((λ current, (Rec.SenderHandle (pending.record current), i64 (Rec.StreamIndex (pending.record current)))) <$> batch)
    (Rows.claims (Groups.at_ (octets id) t0))) = submit_probe (m0 !! octets id) request) as Hp.
  { intros m0 H0. apply (probe_stored self (octets id) _ _ batch); [by apply represents_holds|].
    destruct Hsub as [H _]. apply Forall_fmap. eapply Forall_impl; [exact H|]. by intros r []. }
  destruct Hok as [m0 H0]. pose proof (Hp m0 H0) as E0. rewrite E0. eapply spec_mono; [|by apply (resumes_run (m0 !! octets id))].
  intros out l s2 Hr. right. exists [], t0, t0', l. split; [done|]. split; [done|]. split; [done|]. split; [by exists m0|].
  intros m0' H0'. by rewrite <- (Hp m0' H0'), E0.
Qed.
End Request.
End Transact.
