(* ===== verification/PgxGroupProps.v ===== *)
(** * What the groups promise over PostgreSQL

    The theorems of [PgxReads], [PgxFetch], [PgxCreate] and [PgxTransact] about runs: a method's calls
    with the answers they had, and a session that gave those answers, whatever other sessions did
    between two of them. *)

From S2P Require Import Prelude Sha256 StoreTypes Retention MemoryStore GroupLog GroupInv Submission Scenario Prog Sql OneKey PgxRecord PgxGroups PgxStore PgxStored PgxReads PgxFetch PgxWrites PgxCreate PgxGates PgxAnswers PgxCommit PgxSubmit PgxTransact.

Section Groups.
Context `{V : Vault} `{VL : !VaultLaws} `{T : Timestamps} `{TL : !TimestampLaws}.
Context (self : PgxStore.t AEAD).
Abbreviation session := (Session.t Groups.t (list Z)).
Abbreviation sane := (sane self).

(** C14: Over PostgreSQL [CreateGroup], [GroupState], [EpochKeys], [Fetch] and [CloseGroup] do what the
    in-memory store's do.  Take a session that begins with nothing locked, and any run of it, other
    sessions changing between its calls whatever rows it has not locked, and any call failing, with
    or without its effect.  The method then does at one of its calls, to the store the tables held
    there, exactly what the in-memory method does at the clock's microsecond, leaves tables that hold
    what that leaves, answers what that answers, and changes nothing at its other calls; or it
    changes nothing at all and answers the refusal the operation gives on any store, or an error of
    the driver, of the vault or of the random source.  A page is the in-memory page with each record
    as its columns give it back ([fetchReissued]): the prune time and the epoch keys as they are kept
    by then. *)
Theorem pgx_groups_implement (s s' : session) tr l :
  limits_ok (PgxStore.limits self) → fresh sane false s → serves sane s tr l s' →
  (∀ ctx now nonces request out,
     clock_ok now → foundable request → nonce_ok nonces.1.1 → nonce_ok nonces.1.2 → nonce_ok nonces.2 →
     runs (PgxStore.CreateGroup self ctx now nonces request) tr out →
     carriesOut self (λ s, MemoryStore.CreateGroup ctx (truncate_micro now) s request) out l) ∧
  (∀ ctx id out, runs (PgxStore.GroupStateOf ctx id) tr out →
     carriesOut self (λ s, (s, MemoryStore.GroupStateOf ctx s id)) out l) ∧
  (∀ ctx id epoch out, 0 <= epoch < two64 → runs (PgxStore.EpochKeysOf self ctx id epoch) tr out →
     carriesOut self (λ s, (s, MemoryStore.EpochKeysOf ctx s id epoch)) out l) ∧
  (∀ ctx request out, fetchable request → runs (PgxStore.Fetch self ctx request) tr out →
     carriesOut self (λ s, (s, fetchReissued ctx s request)) out l) ∧
  (∀ ctx now id out, clock_ok now → runs (PgxStore.CloseGroup ctx now id) tr out →
     carriesOut self (λ s, let '(s', e) := MemoryStore.CloseGroup ctx (truncate_micro now) s id in
                           (s', match e with Some e => Err e | None => Ok tt end)) out l).
Proof.
  intros Hl Hf Hs. split; [|split; [|split; [|split] ] ].
  - intros ctx now nonces request out Hn Hr H1 H2 H3 Hrun. eapply spec_sound; [by apply CreateGroup_carriesOut|done..].
  - intros ctx id out Hrun. eapply spec_sound; [by apply GroupStateOf_carriesOut|done..].
  - intros ctx id epoch out He Hrun. eapply spec_sound; [by apply EpochKeysOf_carriesOut|done..].
  - intros ctx request out Hr Hrun. eapply spec_sound; [by apply Fetch_carriesOut|done..].
  - intros ctx now id out Hn Hrun. eapply spec_sound; [by apply CloseGroup_carriesOut|done..].
Qed.

(** C13: Over PostgreSQL a submission refused by validation makes no call.  Any other, whatever other
    sessions do between its calls and whichever calls fail, probes the claims as they were committed
    at one moment, exactly as the first phase of the in-memory store does on the group held there.
    If that leaves something to write, the transaction does at one later call, to whatever group the
    tables hold by then, what the second phase does with the probed batch: the same group left behind,
    the same results, a winning commit read back out of its columns; and it changes nothing at its
    other calls, or nothing at all with an internal error.  If the probe settles the batch, or finds
    a stream index reused, nothing is changed and the answer is the in-memory store's, its current
    epoch read at one later moment and its winning commit at another.  A commit that took effect
    without being acknowledged is answered with an error. *)
Theorem pgx_submit (s s' : session) tr l ctx now nonces request out :
  limits_ok (PgxStore.limits self) → clock_ok now → nonce_ok nonces.1 → nonce_ok nonces.2 → submittableRequest request →
  fresh sane false s → serves sane s tr l s' → runs (PgxStore.Submit self ctx now nonces request) tr out →
  match validateSubmit ctx request with
  | Some e => out = Returned (Err (StoreError e)) ∧ l = []
  | None => submits self (SubmitRequest.GroupId request) now request out l
  end.
Proof.
  intros Hl Hn H1 H2 Hr Hf Hs Hrun. destruct (validateSubmit ctx request) as [e|] eqn:Hv.
  - unfold PgxStore.Submit in Hrun. rewrite Hv in Hrun. inversion Hrun. subst. split; [done|]. by apply serves_inv in Hs.
  - eapply spec_sound; [by eapply Submit_submits|done..].
Qed.
End Groups.

(** ** Witnesses *)

(** A vault whose seal is sixteen zeros behind the key. *)
#[local] Instance plainVault : Vault := {
  AEAD := ();
  NewGCM _ := Some tt;
  Seal _ _ key _ := key ++ replicate 16 0;
  Open _ _ ct _ := Some (take (length ct - 16) ct) }.
#[local] Instance plainLaws : VaultLaws.
Proof.
  split; cbn [AEAD Seal Open NewGCM plainVault].
  - intros. by eexists.
  - intros aead nonce k aad _. f_equal. rewrite length_app, length_replicate, Nat.add_sub. by apply take_app_length.
  - intros aead nonce k aad. by rewrite length_app, length_replicate.
Qed.
#[local] Instance exactTimes : Timestamps := {| timestamp t := Some (truncate_micro t) |}.
#[local] Instance exactLaws : TimestampLaws.
Proof. by split. Qed.

Definition ring1 : KekRing.t AEAD := KekRing.mk 9 {[9 := tt]}.
Definition pgx1 : PgxStore.t AEAD := PgxStore.mk DefaultLimits ring1.
Definition nonce1 : option (list Z) := Some (replicate 12 5).
Definition empty1 : Session.t Groups.t (list Z) := Session.mk ∅ ∅ false nothing [].
Definition fineCalls : list (Fault * ()) := repeat (Fine, tt) 30.

Lemma limits1_ok : limits_ok (PgxStore.limits pgx1).
Proof. by split. Qed.
Lemma empty1_fresh : fresh (sane pgx1) false empty1.
Proof. split; try done. exists ∅. intros key. cbn. by rewrite lookup_empty. Qed.

(** The groups' statements leave the database no choice. *)
Lemma groups_permitted {A} (p : prog (reply scanned) A) moves (s : Session.t Groups.t (list Z)) : all_permitted p moves s.
Proof.
  revert moves s. induction p as [a| |c k IH]; intros moves s; [done..|]. destruct moves as [|[fault ch] moves]; [done|].
  split; [by destruct c|]. apply IH.
Qed.

Lemma founding_foundable : foundable founding.
Proof.
  split; intros r [= <-]; [|by cbn]. split; [|by cbn; eauto]. split; try (cbn; done). cbn. split_and!; [|done..].
  by intros e [= <-].
Qed.

Definition applied1 : RetentionApplied.t := RetentionApplied.mk 2592000 86400 false false false false 0 86400.
Definition created1 : CreateGroupResult.t := CreateGroupResult.mk REASON_OK 1 1 (Some applied1).

(** A group founded over PostgreSQL. *)
Lemma pgx_groups_implement_witness :
  ∃ l, carriesOut pgx1 (λ s, MemoryStore.CreateGroup None (truncate_micro (2 * Second)) s founding) (Returned (Ok created1)) l.
Proof.
  destruct (driven (sane pgx1) (PgxStore.CreateGroup pgx1 None (2 * Second) (nonce1, nonce1, nonce1) founding) fineCalls empty1
              (Returned (Ok created1))) as (tr & l & s' & Hr & Hs).
  - vm_compute. reflexivity.
  - apply groups_permitted.
  - exists l. exact (proj1 (pgx_groups_implement pgx1 empty1 s' tr l limits1_ok empty1_fresh Hs)
      None (2 * Second) (nonce1, nonce1, nonce1) founding _ ltac:(done) founding_foundable ltac:(done) ltac:(done) ltac:(done) Hr).
Defined.

(** The group as its founding left it in the tables, its fan-out open. *)
Definition wrapped1 (key : slice) : slice := Some (9 :: replicate 12 5 ++ octets key ++ replicate 16 0).
Definition initial1 : Rec.t := Rec.set_PruneAfter None (Rec.set_RecordId firstRecordId (cloneRecord (Scenario.record alice 0 1 true ClassPermanent (opens 1 1)))).
Definition opening1 : epochOpening.t := epochOpening.mk 1 1 0 86400 None 1 (Scenario.key 1) (Scenario.key 101).
Definition rows1 : Rows.t :=
  Rows.mk (Some (groupRow.mk (2 * Second) 1 2 2592000 (Some 86400) None 1 false false None))
    (<[1 := epochColumns.mk (wrapped1 (Scenario.key 1)) (wrapped1 (Scenario.key 101)) (Some (2 * Second)) 1 (Some 1) (2 * Second) None 1]>
       {[0 := epochColumns.mk (wrapped1 (Scenario.key 50)) None None 0 None (2 * Second) (Some (2 * Second)) 0]})
    {[1 := recordColumns initial1 (2 * Second) None 1]}
    {[claimKeyOf initial1 := claimOf (2 * Second) initial1]}
    {[0 := 1]}
    {[octets alice := senderRow.mk 1 1 (recordBytes initial1) (2 * Second)]}
    ∅.
Definition tables1 : Groups.t := {[octets gid := rows1]}.
Definition session1 : Session.t Groups.t (list Z) := Session.mk tables1 tables1 false nothing [].

Lemma rows1_stored : stored pgx1 (octets gid) rows1 (newGroup (2 * Second) founding opening1 2592000 (Some 86400) initial1).
Proof.
  refine (newGroup_stored pgx1 founding (Scenario.record alice 0 1 true ClassPermanent (opens 1 1)) opening1 (2 * Second) 2592000 (Some 86400) applied1
    limits1_ok _ (proj1 (foundable_typed _ founding_foundable _ eq_refl)) (proj2 (foundable_typed _ founding_foundable _ eq_refl)) _ _ _ _ _ (wrapped1 (Scenario.key 50)) (wrapped1 (Scenario.key 1)) (wrapped1 (Scenario.key 101)) _ _ _ _); try done.
Qed.

Definition group1 : memoryGroup.t := newGroup (2 * Second) founding opening1 2592000 (Some 86400) initial1.
Lemma group_tables_sane : sane pgx1 tables1.
Proof.
  exists {[octets gid := group1]}. apply (represents_put pgx1 ∅ tables1 ∅ (octets gid) group1).
  - intros k. by rewrite lookup_empty.
  - assert (Groups.at_ (octets gid) tables1 = rows1) as -> by (unfold Groups.at_, tables1, Groups.t; by rewrite lookup_singleton_eq).
    apply rows1_stored.
  - by apply newGroup_inv.
  - intros k Hk. unfold Groups.at_, tables1, Groups.t. by rewrite lookup_singleton_ne, lookup_empty.
Qed.

Lemma group_session_fresh : fresh (sane pgx1) false session1.
Proof. split; try done. exact group_tables_sane. Qed.

Lemma marker1_submittable : submittableRequest (batch_of [marker1]).
Proof.
  split.
  - constructor; [|constructor]. split; [|by cbn; eauto|done]. split; try (cbn; done). cbn. split_and!; [done..| |done].
    by intros m [= <-].
  - by intros r1 r2 tag1 tag2 ->%list_elem_of_singleton ->%list_elem_of_singleton.
Qed.

(** The marker that closes its fan-out, submitted. *)
Definition submitted1 : list SubmitResult.t := [SubmitResult.mk REASON_OK 2 1 None None].
Lemma pgx_submit_witness :
  ∃ l, submits pgx1 gid (3 * Second) (batch_of [marker1]) (Returned (Ok submitted1)) l.
Proof.
  destruct (driven (sane pgx1) (PgxStore.Submit pgx1 None (3 * Second) (nonce1, nonce1) (batch_of [marker1])) fineCalls session1
              (Returned (Ok submitted1))) as (tr & l & s' & Hr & Hs).
  - vm_compute. reflexivity.
  - apply groups_permitted.
  - exists l. exact (pgx_submit pgx1 session1 s' tr l None (3 * Second) (nonce1, nonce1) (batch_of [marker1]) _
      limits1_ok ltac:(done) ltac:(done) ltac:(done) marker1_submittable group_session_fresh Hs Hr).
Defined.

(** ** A stream index past the column *)

(** [stream_index] goes into a [bigint]: an index of 2^63 or more is refused by its constraint, with
    the driver's error, where the in-memory store takes the record. *)
Definition wide1 : Rec.t :=
  Rec.mk alice 1 two63 false ClassPermanent 0 1 0 (Scenario.key 2) (Some [2; 1]) (Some [2; 2]) None None (closes_at 1 1) 0 None.
Lemma wide_index_fails :
  (λ x, x.1.2) <$> drive (PgxStore.Submit pgx1 None (3 * Second) (nonce1, nonce1) (batch_of [wide1])) fineCalls session1 =
    Some (Returned brokenAnswer) ∧
  (MemoryStore.Submit None (3 * Second) (store pgx1 {[octets gid := group1]}) (batch_of [wide1])).2 =
    Ok [SubmitResult.mk REASON_OK 2 1 None None].
Proof. split; vm_compute; reflexivity. Qed.
