(* ===== verification/Endpoint.v ===== *)
(** * The server's own door ([endpoint/endpoint.go])

    A listener whose every connection is one goroutine, [serveWebSocket]: it looks whether there is
    room, upgrades, registers the connection under a fresh id, reads frames until the socket fails
    and takes the connection out again.  The endpoint's fields change in critical sections and by
    atomic counters, so a connection is a handler in one of the phases between them, and a step is
    one such section; sends, pings and [Close] interleave.  TLS, the WebSocket library and the
    protobuf runtime are parameters: what they answer is an argument of the step. *)

From S2P Require Import Prelude Sha256.

Abbreviation Id := (list Z).

(** The wire library: a certificate's public key, a frame out of its octets and into them. *)
Class FrameWire := {
  Frame : Type;
  RawSubjectPublicKeyInfo : slice → option slice;
  unmarshalFrame : slice → option Frame;
  marshalFrame : Frame → option slice }.

Definition DefaultPath : string := "/urmessage/v1".
Definition DefaultMaxMessageBytes : Z := 2 ^ 20.
Definition DefaultMaxConnections : Z := 4096.
Definition DefaultPingInterval : Z := 25 * Second.
Definition DefaultHandshakeTimeout : Z := 30 * Second.
Definition DefaultWriteTimeout : Z := 30 * Second.
Definition retiredIdRetention : Z := 600 * Second.

Inductive EndpointError : Type := ErrNoCertificate | ErrCertificateUnreadable.

Module Config.
Record t := mk {
  Certificate : list slice;
  Path : string;
  MaxMessageBytes : Z;
  MaxConnections : Z;
  PingInterval : Z;
  HandshakeTimeout : Z }.
End Config.

Module Stats.
Record t := mk {
  Accepted : Z; Refused : Z; Open : Z; Closed : Z; FramesIn : Z; FramesOut : Z; FramesDropped : Z }.
End Stats.

(** [conn]: its socket is closed once. *)
Module conn.
Record t := mk { closed : bool }.
End conn.

(** The atomic counters. *)
Module counts.
Record t := mk { accepted : Z; refused : Z; closedCount : Z; framesIn : Z; framesOut : Z; framesDropped : Z }.
Definition zero : t := mk 0 0 0 0 0 0.
Definition add_accepted (c : t) : t :=
  mk (u64 (accepted c + 1)) (refused c) (closedCount c) (framesIn c) (framesOut c) (framesDropped c).
Definition add_refused (c : t) : t :=
  mk (accepted c) (u64 (refused c + 1)) (closedCount c) (framesIn c) (framesOut c) (framesDropped c).
Definition add_closed (c : t) : t :=
  mk (accepted c) (refused c) (u64 (closedCount c + 1)) (framesIn c) (framesOut c) (framesDropped c).
Definition add_in (c : t) : t :=
  mk (accepted c) (refused c) (closedCount c) (u64 (framesIn c + 1)) (framesOut c) (framesDropped c).
Definition add_out (c : t) : t :=
  mk (accepted c) (refused c) (closedCount c) (framesIn c) (u64 (framesOut c + 1)) (framesDropped c).
Definition add_dropped (c : t) : t :=
  mk (accepted c) (refused c) (closedCount c) (framesIn c) (framesOut c) (u64 (framesDropped c + 1)).
End counts.

(** [Endpoint]; a callback is known by a number, [cancelled] is its context's end. *)
Module Endpoint.
Record t := mk {
  config : Config.t;
  pin : slice;
  cancelled : bool;
  conns : gmap Id conn.t;
  retired : gmap Id time;
  callbacks : gmap Z Z;
  nextCallback : Z;
  closed : bool;
  counters : counts.t }.
Definition set_cancelled (x : bool) (e : t) : t :=
  mk (config e) (pin e) x (conns e) (retired e) (callbacks e) (nextCallback e) (closed e) (counters e).
Definition set_conns (x : gmap Id conn.t) (e : t) : t :=
  mk (config e) (pin e) (cancelled e) x (retired e) (callbacks e) (nextCallback e) (closed e) (counters e).
Definition set_retired (x : gmap Id time) (e : t) : t :=
  mk (config e) (pin e) (cancelled e) (conns e) x (callbacks e) (nextCallback e) (closed e) (counters e).
Definition set_callbacks (x : gmap Z Z) (next : Z) (e : t) : t :=
  mk (config e) (pin e) (cancelled e) (conns e) (retired e) x next (closed e) (counters e).
Definition set_closed (x : bool) (e : t) : t :=
  mk (config e) (pin e) (cancelled e) (conns e) (retired e) (callbacks e) (nextCallback e) x (counters e).
Definition set_counters (x : counts.t) (e : t) : t :=
  mk (config e) (pin e) (cancelled e) (conns e) (retired e) (callbacks e) (nextCallback e) (closed e) x.
Definition count (f : counts.t → counts.t) (e : t) : t := set_counters (f (counters e)) e.
End Endpoint.

(** ** Joined to the platform *)

(** [Joined]: the endpoint, if there is one, and whether there is a platform client. *)
Module Joined.
Record t := mk { endpoint : option Endpoint.t; platform : bool }.
End Joined.

(** ** The endpoint *)

Section Door.
Context `{W : FrameWire}.

Definition PinOf (certificate : list slice) : res EndpointError slice :=
  match certificate with
  | [] => Err ErrNoCertificate
  | leaf :: _ =>
      match RawSubjectPublicKeyInfo leaf with
      | None => Err ErrCertificateUnreadable
      | Some key => Ok (Some (Sha256.Sum256 (octets key)))
      end
  end.

(** [New]'s defaults. *)
Definition defaulted (config : Config.t) : Config.t :=
  let positive x default := if x <=? 0 then default else x in
  Config.mk (Config.Certificate config)
    (if bool_decide (Config.Path config = "") then DefaultPath else Config.Path config)
    (positive (Config.MaxMessageBytes config) DefaultMaxMessageBytes)
    (positive (Config.MaxConnections config) DefaultMaxConnections)
    (positive (Config.PingInterval config) DefaultPingInterval)
    (positive (Config.HandshakeTimeout config) DefaultHandshakeTimeout).

Definition New (config : Config.t) : res EndpointError Endpoint.t :=
  res_bind (PinOf (Config.Certificate config)) (λ pin,
  Ok (Endpoint.mk (defaulted config) pin false ∅ ∅ ∅ 0 false counts.zero)).

Definition Pin (self : Endpoint.t) : slice := bytes_Clone (Endpoint.pin self).

(** ** One connection *)

(** [conn.close] *)
Definition closeConn (id : Id) (self : Endpoint.t) : Endpoint.t :=
  Endpoint.set_conns (alter (λ _, conn.mk true) id (Endpoint.conns self)) self.

(** What [serveWebSocket] answers before it looks at anything of its own. *)
Definition notFound (path : string) (upgrade : bool) (self : Endpoint.t) : bool :=
  negb (bool_decide (path = Config.Path (Endpoint.config self))) || negb upgrade.

(** The look at the room, in front of the upgrade; [true] to go on. *)
Definition lookForRoom (self : Endpoint.t) : Endpoint.t * bool :=
  let full := Endpoint.closed self ||
              (Config.MaxConnections (Endpoint.config self) <=? Z.of_nat (size (Endpoint.conns self))) in
  if full then (Endpoint.count counts.add_refused self, false) else (self, true).

(** The upgrade failed. *)
Definition notUpgraded (self : Endpoint.t) : Endpoint.t := Endpoint.count counts.add_refused self.

(** The registration; [None] when the endpoint was closed meanwhile. *)
Definition register (id : Id) (self : Endpoint.t) : option Endpoint.t :=
  if Endpoint.closed self then None
  else Some (Endpoint.set_conns (<[id := conn.mk false]> (Endpoint.conns self)) self).

(** The deferred end: the socket first, then the tables. *)
Definition retire (now : time) (id : Id) (self : Endpoint.t) : Endpoint.t :=
  Endpoint.set_retired
    (filter (λ p, ¬ retiredIdRetention < now - p.2) (<[id := now]> (Endpoint.retired self)))
    (Endpoint.set_conns (delete id (Endpoint.conns self)) self).

(** One turn of [readLoop] on a message that arrived: the frame to hand to the callbacks, if any. *)
Definition readMessage (binary : bool) (data : slice) (self : Endpoint.t) : Endpoint.t * option Frame :=
  if negb binary then (Endpoint.count counts.add_dropped self, None)
  else match unmarshalFrame data with
       | None => (Endpoint.count counts.add_dropped self, None)
       | Some frame => (Endpoint.count counts.add_in self, Some frame)
       end.

(** [callbackList], in the order of the numbers; the map is ranged over in any. *)
Definition callbackList (self : Endpoint.t) : list Z := (map_to_list (Endpoint.callbacks self)).*2.

(** [AddReceiveCallback], and the function it answers. *)
Definition AddReceiveCallback (callback : Z) (self : Endpoint.t) : Endpoint.t * Z :=
  let id := Endpoint.nextCallback self in
  (Endpoint.set_callbacks (<[id := callback]> (Endpoint.callbacks self)) (u64 (id + 1)) self, id).
Definition removeCallback (id : Z) (self : Endpoint.t) : Endpoint.t :=
  Endpoint.set_callbacks (delete id (Endpoint.callbacks self)) (Endpoint.nextCallback self) self.

(** ** Sending *)

(** [SendWithTimeout] up to the write: the octets to write. *)
Definition toSend (frame : Frame) (destination : Id) (self : Endpoint.t) : option slice :=
  _ ← Endpoint.conns self !! destination; marshalFrame frame.

(** A negative timeout is no bound. *)
Definition writeTimeout (timeout : Z) : Z := if timeout <? 0 then DefaultWriteTimeout else timeout.

(** The write and what follows it: whether the frame was taken.  A closed socket takes nothing. *)
Definition sent (destination : Id) (wrote : bool) (self : Endpoint.t) : Endpoint.t * bool :=
  let standing := match Endpoint.conns self !! destination with Some c => negb (conn.closed c) | None => false end in
  if wrote && standing then (Endpoint.count counts.add_out self, true) else (closeConn destination self, false).

(** ** Reading the tables *)

Definition Owns (id : Id) (self : Endpoint.t) : bool :=
  bool_decide (is_Some (Endpoint.conns self !! id)) || bool_decide (is_Some (Endpoint.retired self !! id)).

Definition StatsOf (self : Endpoint.t) : Stats.t :=
  let c := Endpoint.counters self in
  Stats.mk (counts.accepted c) (counts.refused c) (Z.of_nat (size (Endpoint.conns self))) (counts.closedCount c)
    (counts.framesIn c) (counts.framesOut c) (counts.framesDropped c).

(** [Close] up to the end of its critical section: the connections it goes on to close, if it is the
    first. *)
Definition closing (self : Endpoint.t) : option (Endpoint.t * list Id) :=
  if Endpoint.closed self then None
  else Some (Endpoint.set_closed true self, (map_to_list (Endpoint.conns self)).*1).

(** ** Which carrier *)

Inductive Carrier : Type := ToEndpoint | ToPlatform | ToNobody.

(** Which client [Joined.SendWithTimeout] hands a frame to. *)
Definition carrierOf (destination : Id) (self : Joined.t) : Carrier :=
  match Joined.endpoint self with
  | Some e => if Owns destination e then ToEndpoint else if Joined.platform self then ToPlatform else ToNobody
  | None => if Joined.platform self then ToPlatform else ToNobody
  end.
End Door.
