(* ===== verification/EndpointProps.v ===== *)
(** * The endpoint's goroutines, what they keep, and what [Close] leaves

    Connections, [Close] and whoever sends, as steps that interleave.

    [tidy] holds at the opening and after every step; with it, the counters add up, a frame for a
    connection of this endpoint is never the platform's, and a closed endpoint drains. *)

From S2P Require Import Prelude Endpoint.

(** ** The system *)

(** A goroutine between two of its critical sections: a connection's, from the upgrade to the last
    counter, or one in [Close]. *)
Inductive handler : Type :=
  | Upgrading | Registering
  | Counting (id : Id) | Reading (id : Id) | Retiring (id : Id) | Left
  | Cancelling (ids : list Id) | Closing (ids : list Id).

(** [used] holds the ids ever given out, [left] when each connection was taken out, [clock] the last
    reading of the clock. *)
Record world : Type := World {
  door : Endpoint.t;
  handlers : list handler;
  used : gset Id;
  left : gmap Id time;
  clock : time }.

Section Steps.
Context `{W : FrameWire}.

(** A goroutine's own next step, which waits for nobody but the upgrade and a socket that failed. *)
Inductive own_step : world → world → Prop :=
  | own_not_upgraded e h1 h2 u l c :
      own_step (World e (h1 ++ Upgrading :: h2) u l c) (World (notUpgraded e) (h1 ++ h2) u l c)
  | own_upgraded e h1 h2 u l c :
      own_step (World e (h1 ++ Upgrading :: h2) u l c) (World e (h1 ++ Registering :: h2) u l c)
  | own_turned_away e h1 h2 u l c id :
      register id e = None →
      own_step (World e (h1 ++ Registering :: h2) u l c) (World e (h1 ++ h2) u l c)
  | own_registered e e' h1 h2 u l c id :
      id ∉ u → register id e = Some e' →
      own_step (World e (h1 ++ Registering :: h2) u l c) (World e' (h1 ++ Counting id :: h2) ({[id]} ∪ u) l c)
  | own_counted e h1 h2 u l c id :
      own_step (World e (h1 ++ Counting id :: h2) u l c)
               (World (Endpoint.count counts.add_accepted e) (h1 ++ Reading id :: h2) u l c)
  | own_ended e h1 h2 u l c id :
      Endpoint.conns e !! id = Some (conn.mk true) →
      own_step (World e (h1 ++ Reading id :: h2) u l c) (World (closeConn id e) (h1 ++ Retiring id :: h2) u l c)
  | own_retired e h1 h2 u l c now id :
      c <= now →
      own_step (World e (h1 ++ Retiring id :: h2) u l c) (World (retire now id e) (h1 ++ Left :: h2) u (<[id := now]> l) now)
  | own_left e h1 h2 u l c :
      own_step (World e (h1 ++ Left :: h2) u l c) (World (Endpoint.count counts.add_closed e) (h1 ++ h2) u l c)
  | own_cancelled e h1 h2 u l c ids :
      own_step (World e (h1 ++ Cancelling ids :: h2) u l c)
               (World (Endpoint.set_cancelled true e) (h1 ++ Closing ids :: h2) u l c)
  | own_closes e h1 h2 u l c id ids :
      own_step (World e (h1 ++ Closing (id :: ids) :: h2) u l c) (World (closeConn id e) (h1 ++ Closing ids :: h2) u l c)
  | own_closed e h1 h2 u l c :
      own_step (World e (h1 ++ Closing [] :: h2) u l c) (World e (h1 ++ h2) u l c).

(** What comes from outside: a request, a message, a socket that fails, a ping that does, a send, a
    callback, [Close]. *)
Inductive step : world → world → Prop :=
  | step_own w w' : own_step w w' → step w w'
  | step_request e h u l c :
      step (World e h u l c)
           (let '(e', room) := lookForRoom e in World e' (if room : bool then Upgrading :: h else h) u l c)
  | step_message e h u l c id binary data :
      Reading id ∈ h →
      step (World e h u l c) (World (readMessage binary data e).1 h u l c)
  | step_failed e h1 h2 u l c id :
      step (World e (h1 ++ Reading id :: h2) u l c) (World (closeConn id e) (h1 ++ Retiring id :: h2) u l c)
  | step_ping e h u l c id : step (World e h u l c) (World (closeConn id e) h u l c)
  | step_send e h u l c destination wrote :
      step (World e h u l c) (World (sent destination wrote e).1 h u l c)
  | step_callback e h u l c callback : step (World e h u l c) (World (AddReceiveCallback callback e).1 h u l c)
  | step_uncallback e h u l c id : step (World e h u l c) (World (removeCallback id e) h u l c)
  | step_close e e' h u l c ids :
      closing e = Some (e', ids) → step (World e h u l c) (World e' (Cancelling ids :: h) u l c).

Definition opening (e : Endpoint.t) (now : time) : world := World e [] ∅ ∅ now.
Definition reachable (config : Config.t) (w : world) : Prop :=
  ∃ e now, New config = Ok e ∧ rtc step (opening e now) w.

(** ** What always holds *)

Definition idOf (h : handler) : option Id :=
  match h with Counting id | Reading id | Retiring id => Some id | _ => None end.
Definition uncounted (h : handler) : Prop := match h with Counting _ => True | _ => False end.
Definition unleft (h : handler) : Prop := h = Left.
Definition toClose (h : handler) : list Id := match h with Cancelling ids | Closing ids => ids | _ => [] end.
#[global] Instance uncounted_dec h : Decision (uncounted h).
Proof. destruct h; apply _. Defined.
#[global] Instance handler_eq : EqDecision handler.
Proof. solve_decision. Defined.
#[global] Instance unleft_dec h : Decision (unleft h).
Proof. unfold unleft. apply _. Defined.

Definition waiting (P : handler → Prop) `{∀ h, Decision (P h)} (hs : list handler) : Z := Z.of_nat (length (filter P hs)).

Record tidy (w : world) : Prop := Tidy {
  tidy_ids : NoDup (omap idOf (handlers w));
  tidy_conns id : is_Some (Endpoint.conns (door w) !! id) ↔ id ∈ omap idOf (handlers w);
  tidy_used id : id ∈ used w ↔ is_Some (Endpoint.conns (door w) !! id) ∨ is_Some (left w !! id);
  tidy_apart id : is_Some (Endpoint.conns (door w) !! id) → left w !! id = None;
  tidy_left id at_ : left w !! id = Some at_ →
    at_ <= clock w ∧ (Endpoint.retired (door w) !! id = Some at_ ∨ retiredIdRetention < clock w - at_);
  tidy_retired id at_ : Endpoint.retired (door w) !! id = Some at_ → left w !! id = Some at_;
  tidy_counts :
    u64 (counts.accepted (Endpoint.counters (door w)) + waiting uncounted (handlers w)) =
    u64 (counts.closedCount (Endpoint.counters (door w)) + Z.of_nat (size (Endpoint.conns (door w))) +
         waiting unleft (handlers w));
  tidy_closing id : Endpoint.closed (door w) = true → Endpoint.conns (door w) !! id = Some (conn.mk false) →
    ∃ h, h ∈ handlers w ∧ id ∈ toClose h;
  tidy_cancelled : Endpoint.closed (door w) = true →
    Endpoint.cancelled (door w) = true ∨ ∃ ids, Cancelling ids ∈ handlers w }.

Lemma waiting_cons P `{∀ h, Decision (P h)} h hs :
  waiting P (h :: hs) = waiting P hs + (if decide (P h) then 1 else 0).
Proof. unfold waiting. rewrite filter_cons. case_decide; cbn; lia. Qed.

Lemma waiting_perm P `{∀ h, Decision (P h)} hs hs' : hs ≡ₚ hs' → waiting P hs = waiting P hs'.
Proof. intros E. unfold waiting. f_equal. apply Permutation_length. by apply filter_Permutation. Qed.

(** The order of the goroutines is nobody's. *)
Lemma tidy_perm e hs hs' u l c : hs ≡ₚ hs' → tidy (World e hs u l c) → tidy (World e hs' u l c).
Proof.
  intros E [H1 H2 H3 H4 H5 H6 H7 H8 H9]. cbn in *. split; cbn; try done.
  - by rewrite <- E.
  - intros id. by rewrite <- E.
  - by rewrite <- !(waiting_perm _ _ _ E).
  - intros id Hc Hid. destruct (H8 id Hc Hid) as (h & Hin & Hh). exists h. by rewrite <- E.
  - intros Hc. destruct (H9 Hc) as [?|[ids Hids] ]; [by left|right]. exists ids. by rewrite <- E.
Qed.

Lemma middle (h1 h2 : list handler) h : h1 ++ h :: h2 ≡ₚ h :: (h1 ++ h2).
Proof. symmetry. apply Permutation_middle. Qed.

(** Goroutines that count for the same do not matter. *)
Lemma tidy_alike e hs hs' u l c :
  omap idOf hs = omap idOf hs' → waiting uncounted hs = waiting uncounted hs' → waiting unleft hs = waiting unleft hs' →
  (∀ h id, h ∈ hs → id ∈ toClose h → ∃ h', h' ∈ hs' ∧ id ∈ toClose h') →
  (∀ ids, Cancelling ids ∈ hs → ∃ ids', Cancelling ids' ∈ hs') →
  tidy (World e hs u l c) → tidy (World e hs' u l c).
Proof.
  intros E1 E2 E3 E4 E5 [H1 H2 H3 H4 H5 H6 H7 H8 H9]. cbn in *. split; cbn; rewrite <- ?E1, <- ?E2, <- ?E3; try done.
  - intros id Hc Hid. destruct (H8 id Hc Hid) as (h & Hin & Hh). by eapply E4.
  - intros Hc. destruct (H9 Hc) as [?|[ids Hids] ]; [by left|right]. by eapply E5.
Qed.

(** One with no connection and nothing to close comes and goes. *)
Definition plain (h : handler) : Prop := match h with Upgrading | Registering => True | _ => False end.

Lemma tidy_quit e h hs u l c : plain h → tidy (World e (h :: hs) u l c) → tidy (World e hs u l c).
Proof.
  intros Hp. apply tidy_alike.
  - by destruct h.
  - rewrite waiting_cons. destruct h; cbn in *; try done; case_decide; try done; lia.
  - rewrite waiting_cons. destruct h; cbn in *; try done; case_decide; try done; lia.
  - intros x id [->|Hx]%elem_of_cons Hin; [|by exists x]. destruct h; try done; by apply not_elem_of_nil in Hin.
  - intros ids [<-|Hx]%elem_of_cons; [done|by exists ids].
Qed.

Lemma tidy_join e h hs u l c : plain h → tidy (World e hs u l c) → tidy (World e (h :: hs) u l c).
Proof.
  intros Hp. apply tidy_alike.
  - by destruct h.
  - rewrite waiting_cons. destruct h; cbn in *; try done; case_decide; try done; lia.
  - rewrite waiting_cons. destruct h; cbn in *; try done; case_decide; try done; lia.
  - intros x id Hx Hin. exists x. split; [by right|done].
  - intros ids Hx. exists ids. by right.
Qed.

(** A counter that is neither of the two does not matter; nor does anything but the tables. *)
Lemma tidy_tables e e' hs u l c :
  Endpoint.conns e' = Endpoint.conns e → Endpoint.retired e' = Endpoint.retired e →
  Endpoint.closed e' = Endpoint.closed e → Endpoint.cancelled e' = Endpoint.cancelled e →
  counts.accepted (Endpoint.counters e') = counts.accepted (Endpoint.counters e) →
  counts.closedCount (Endpoint.counters e') = counts.closedCount (Endpoint.counters e) →
  tidy (World e hs u l c) → tidy (World e' hs u l c).
Proof. intros E1 E2 E3 E4 E5 E6 []. split; cbn in *; by rewrite ?E1, ?E2, ?E3, ?E4, ?E5, ?E6. Qed.

Lemma closeConn_some id id' e : is_Some (Endpoint.conns (closeConn id e) !! id') ↔ is_Some (Endpoint.conns e !! id').
Proof. cbn. apply lookup_alter_is_Some. Qed.

Lemma closeConn_open id id' e :
  Endpoint.conns (closeConn id e) !! id' = Some (conn.mk false) ↔ id' ≠ id ∧ Endpoint.conns e !! id' = Some (conn.mk false).
Proof.
  cbn. destruct (decide (id' = id)) as [->|Hne].
  - rewrite lookup_alter_eq, fmap_Some. split; [by intros (? & _ & [=])|by intros [? _] ].
  - rewrite lookup_alter_ne by done. naive_solver.
Qed.

Lemma tidy_closeConn id e hs u l c : tidy (World e hs u l c) → tidy (World (closeConn id e) hs u l c).
Proof.
  intros [H1 H2 H3 H4 H5 H6 H7 H8 H9]. cbn in *. split; cbn -[closeConn]; try done.
  - intros id'. by rewrite closeConn_some.
  - intros id'. by rewrite closeConn_some.
  - intros id'. rewrite closeConn_some. apply H4.
  - replace (size (Endpoint.conns (closeConn id e))) with (size (Endpoint.conns e)); [done|]. cbn.
    by rewrite <- !size_dom, dom_alter_L.
  - intros id' Hc [_ Hid]%closeConn_open. by apply H8.
Qed.
End Steps.

Section Keeps.
Context `{W : FrameWire}.

(** ** Each critical section keeps it *)

Lemma u64_plus k a b : u64 a = u64 b → u64 (a + k) = u64 (b + k).
Proof. intros E. by rewrite <- (u64_add_l a), <- (u64_add_l b), E. Qed.

(** An equation between counters, up to the order of the sums. *)
Ltac u64_same H :=
  lazymatch type of H with u64 ?a = u64 ?b =>
    lazymatch goal with |- u64 ?x = u64 ?y =>
      replace x with a by lia; replace y with b by lia; exact H end end.

Ltac recount :=
  rewrite ?waiting_cons in *; unfold uncounted, unleft in *; cbn in *; repeat case_decide; try done.

Ltac tidied := intros [H1 H2 H3 H4 H5 H6 H7 H8 H9]; cbn in *.

Lemma tidy_swap e h h' hs u l c :
  idOf h = idOf h' → (uncounted h ↔ uncounted h') → (unleft h ↔ unleft h') → toClose h = toClose h' →
  (∀ ids, h ≠ Cancelling ids) → tidy (World e (h :: hs) u l c) → tidy (World e (h' :: hs) u l c).
Proof.
  intros E1 E2 E3 E4 E5. apply tidy_alike.
  - cbn. by rewrite E1.
  - rewrite !waiting_cons. by do 2 case_decide; naive_solver.
  - rewrite !waiting_cons. by do 2 case_decide; naive_solver.
  - intros x id [->|Hx]%elem_of_cons Hin.
    + exists h'. rewrite <- E4. split; [by left|done].
    + exists x. split; [by right|done].
  - intros ids [<-|Hx]%elem_of_cons; [by destruct (E5 ids)|exists ids; by right].
Qed.

Lemma tidy_register e e' hs u l c id :
  id ∉ u → register id e = Some e' → tidy (World e hs u l c) → tidy (World e' (Counting id :: hs) ({[id]} ∪ u) l c).
Proof.
  unfold register. intros Hu E. destruct (Endpoint.closed e) eqn:Hopen; [done|]. injection E as <-. tidied.
  assert (Hno : Endpoint.conns e !! id = None).
  { destruct (Endpoint.conns e !! id) eqn:Hc; [|done]. destruct Hu. apply H3. left. by rewrite Hc. }
  assert (Hl : l !! id = None).
  { destruct (l !! id) eqn:Hc; [|done]. destruct Hu. apply H3. right. by rewrite Hc. }
  split; cbn; try done.
  - constructor; [|done]. rewrite <- H2, Hno. by intros [? [=] ].
  - intros id'. rewrite lookup_insert_is_Some', elem_of_cons, H2. naive_solver.
  - intros id'. rewrite elem_of_union, elem_of_singleton, lookup_insert_is_Some', H3. naive_solver.
  - intros id' [<-|?]%lookup_insert_is_Some'; auto.
  - rewrite !waiting_cons. cbn. rewrite map_size_insert_None by done.
    rewrite !decide_True, decide_False by done. apply (u64_plus 1) in H7. u64_same H7.
  - rewrite Hopen. done.
  - rewrite Hopen. done.
Qed.

Lemma tidy_counted e hs u l c id :
  tidy (World e (Counting id :: hs) u l c) →
  tidy (World (Endpoint.count counts.add_accepted e) (Reading id :: hs) u l c).
Proof.
  tidied. split; cbn; try done.
  - recount. rewrite u64_add_l. u64_same H7.
  - intros id' Hc Hid. destruct (H8 id' Hc Hid) as (h & Hin & Hh). apply elem_of_cons in Hin as [->|Hin].
    + by apply not_elem_of_nil in Hh.
    + exists h. split; [by right|done].
  - intros Hc. destruct (H9 Hc) as [?|[ids Hin] ]; [by left|right]. apply elem_of_cons in Hin as [?|Hin]; [done|].
    exists ids. by right.
Qed.

Lemma tidy_retire e hs u l c now id :
  c <= now → tidy (World e (Retiring id :: hs) u l c) →
  tidy (World (retire now id e) (Left :: hs) u (<[id := now]> l) now).
Proof.
  intros Hnow. tidied. apply NoDup_cons in H1 as [Hnot H1].
  assert (Hin : is_Some (Endpoint.conns e !! id)) by (apply H2; left).
  split; cbn; try done.
  - intros id'. rewrite lookup_delete_is_Some, H2, elem_of_cons. split; [naive_solver|].
    intros Hid. split; [by intros ->|by right].
  - intros id'. rewrite H3, lookup_delete_is_Some, lookup_insert_is_Some'.
    destruct (decide (id = id')) as [->|]; naive_solver.
  - intros id' [Hne Hid]%lookup_delete_is_Some. rewrite lookup_insert_ne by done. by apply H4.
  - intros id' at_ [ [<- <-]|[Hne Hid] ]%lookup_insert_Some.
    + split; [lia|left]. rewrite map_lookup_filter_Some, lookup_insert_eq. split; [done|]. cbn. rewrite Z.sub_diag. vm_compute. by intros [=].
    + destruct (H5 _ _ Hid) as [Hle [Hr|Hold] ]; (split; [lia|]).
      * destruct (decide (retiredIdRetention < now - at_)); [by right|left].
        rewrite map_lookup_filter_Some, lookup_insert_ne by done. done.
      * right. lia.
  - intros id' at_ [ [ [<- <-]|[Hne Hid] ]%lookup_insert_Some _]%map_lookup_filter_Some; [by rewrite lookup_insert_eq|].
    rewrite lookup_insert_ne by done. by apply H6.
  - recount. destruct Hin as [x Hx].
    rewrite <- (insert_delete_id _ _ _ Hx), map_size_insert_None in H7 by apply lookup_delete_eq.
    u64_same H7.
  - intros id' Hc [Hne Hid]%lookup_delete_Some. destruct (H8 id' Hc Hid) as (h & Hh & Hmem).
    apply elem_of_cons in Hh as [->|Hh]; [by apply not_elem_of_nil in Hmem|]. exists h. split; [by right|done].
  - intros Hc. destruct (H9 Hc) as [?|[ids Hids] ]; [by left|right]. apply elem_of_cons in Hids as [?|Hids]; [done|].
    exists ids. by right.
Qed.

Lemma tidy_left_gone e hs u l c :
  tidy (World e (Left :: hs) u l c) → tidy (World (Endpoint.count counts.add_closed e) hs u l c).
Proof.
  tidied. split; cbn; try done.
  - recount. rewrite <- Z.add_assoc, u64_add_l. u64_same H7.
  - intros id' Hc Hid. destruct (H8 id' Hc Hid) as (h & Hin & Hh). apply elem_of_cons in Hin as [->|Hin].
    + by apply not_elem_of_nil in Hh.
    + by exists h.
  - intros Hc. destruct (H9 Hc) as [?|[ids Hin] ]; [by left|right]. apply elem_of_cons in Hin as [?|Hin]; [done|].
    by exists ids.
Qed.

Lemma tidy_close_cancelled e hs u l c ids :
  tidy (World e (Cancelling ids :: hs) u l c) →
  tidy (World (Endpoint.set_cancelled true e) (Closing ids :: hs) u l c).
Proof.
  tidied. split; cbn; try done.
  - intros id' Hc Hid. destruct (H8 id' Hc Hid) as (h & Hin & Hh). apply elem_of_cons in Hin as [->|Hin].
    + exists (Closing ids). split; [by left|done].
    + exists h. split; [by right|done].
  - by left.
Qed.

Lemma tidy_closes e hs u l c id ids :
  tidy (World e (Closing (id :: ids) :: hs) u l c) → tidy (World (closeConn id e) (Closing ids :: hs) u l c).
Proof.
  intros H%(tidy_closeConn id). revert H. tidied. split; cbn; try done.
  - intros id' Hc Hid. destruct (H8 id' Hc Hid) as (h & Hin & Hh).
    apply (closeConn_open id id' e) in Hid as [Hne _]. apply elem_of_cons in Hin as [->|Hin].
    + exists (Closing ids). split; [by left|]. cbn in Hh. by apply elem_of_cons in Hh as [?|?].
    + exists h. split; [by right|done].
  - intros Hc. destruct (H9 Hc) as [?|[ids' Hin] ]; [by left|right]. apply elem_of_cons in Hin as [?|Hin]; [done|].
    exists ids'. by right.
Qed.

Lemma tidy_close_done e hs u l c : tidy (World e (Closing [] :: hs) u l c) → tidy (World e hs u l c).
Proof.
  apply tidy_alike; rewrite ?waiting_cons; cbn; try done.
  - case_decide; [done|]. lia.
  - case_decide; [done|]. lia.
  - intros h id [->|Hin]%elem_of_cons Hid; [by apply not_elem_of_nil in Hid|by exists h].
  - intros ids [?|Hin]%elem_of_cons; [done|by exists ids].
Qed.

Lemma tidy_closing_started e e' hs u l c ids :
  closing e = Some (e', ids) → tidy (World e hs u l c) → tidy (World e' (Cancelling ids :: hs) u l c).
Proof.
  unfold closing. destruct (Endpoint.closed e) eqn:Hopen; [done|]. intros [= <- <-]. tidied. split; cbn; try done.
  - intros id _ Hid. exists (Cancelling (map_to_list (Endpoint.conns e)).*1). split; [by left|]. cbn.
    apply list_elem_of_fmap. exists (id, conn.mk false). split; [done|]. by apply elem_of_map_to_list.
  - intros _. right. eexists. by left.
Qed.

(** ** So every step does *)

Lemma tidy_turn e e' h h' h1 h2 u u' l l' c c' :
  (tidy (World e (h :: h1 ++ h2) u l c) → tidy (World e' (h' :: h1 ++ h2) u' l' c')) →
  tidy (World e (h1 ++ h :: h2) u l c) → tidy (World e' (h1 ++ h' :: h2) u' l' c').
Proof.
  intros Hturn Ht. eapply tidy_perm; [symmetry; apply middle|]. apply Hturn. eapply tidy_perm; [apply middle|]. done.
Qed.

Lemma tidy_end e e' h h1 h2 u l c :
  (tidy (World e (h :: h1 ++ h2) u l c) → tidy (World e' (h1 ++ h2) u l c)) →
  tidy (World e (h1 ++ h :: h2) u l c) → tidy (World e' (h1 ++ h2) u l c).
Proof. intros Hend Ht. apply Hend. eapply tidy_perm; [apply middle|]. done. Qed.

Lemma tidy_own w w' : own_step w w' → tidy w → tidy w'.
Proof.
  destruct 1; (apply tidy_turn || apply tidy_end); intros Ht.
  - apply tidy_quit in Ht; [|done]. by apply (tidy_tables e).
  - apply tidy_join; [done|]. by apply tidy_quit in Ht.
  - by apply tidy_quit in Ht.
  - apply tidy_quit in Ht; [|done]. by eapply tidy_register.
  - by eapply tidy_counted.
  - apply tidy_closeConn. apply (tidy_swap e (Reading id)); try done.
  - by apply (tidy_retire e _ _ _ c).
  - by apply tidy_left_gone.
  - by apply tidy_close_cancelled.
  - by apply tidy_closes.
  - by apply tidy_close_done.
Qed.

Lemma tidy_step w w' : step w w' → tidy w → tidy w'.
Proof.
  destruct 1; intros Ht.
  - by eapply tidy_own.
  - unfold lookForRoom. destruct (_ || _); [by apply (tidy_tables e)|by apply tidy_join].
  - unfold readMessage. repeat case_match; by apply (tidy_tables e).
  - revert Ht. apply tidy_turn. intros Ht. apply tidy_closeConn. apply (tidy_swap e (Reading id)); try done.
  - by apply tidy_closeConn.
  - unfold sent. repeat case_match; try (by apply (tidy_tables e)); by apply tidy_closeConn.
  - by apply (tidy_tables e).
  - by apply (tidy_tables e).
  - by eapply tidy_closing_started.
Qed.

Lemma tidy_opening config e now : New config = Ok e → tidy (opening e now).
Proof.
  unfold New, res_bind. destruct (PinOf _) as [pin|]; [|by intros [=] ]. intros [= <-]. split; cbn; try done.
  - constructor.
  - intros id. rewrite lookup_empty. split; [by intros [? [=] ]|by intros ?%not_elem_of_nil].
  - intros id. rewrite !lookup_empty. split; [by intros ?%elem_of_empty|by intros [ [? [=] ]|[? [=] ] ] ].
Qed.

Lemma reachable_tidy config w : reachable config w → tidy w.
Proof.
  intros (e & now & Hnew & Hrun). apply tidy_opening with (now := now) in Hnew. induction Hrun; [done|].
  apply IHHrun. by eapply tidy_step.
Qed.

(** ** Ends *)

(** The steps a goroutine has left. *)
Definition left_of (h : handler) : nat :=
  match h with
  | Upgrading => 6
  | Registering => 5
  | Counting _ => 4
  | Reading _ => 3
  | Retiring _ => 2
  | Left => 1
  | Cancelling ids => 2 + length ids
  | Closing ids => 1 + length ids
  end.
Definition work (w : world) : nat := sum_list_with left_of (handlers w).

Lemma work_step w w' : own_step w w' → (work w' < work w)%nat.
Proof.
  assert (Hsum : ∀ h1 h2, sum_list_with left_of (h1 ++ h2) = (sum_list_with left_of h1 + sum_list_with left_of h2)%nat)
    by (intros h1 h2; apply sum_list_with_app).
  destruct 1; unfold work; cbn; rewrite !Hsum; cbn; lia.
Qed.

Lemma own_closed_stays w w' : own_step w w' → Endpoint.closed (door w) = true → Endpoint.closed (door w') = true.
Proof.
  destruct 1 as [| | |e e' h1 h2 u l c id Hu E| | | | | | |]; try done. cbn. intros Hc. unfold register in E. by rewrite Hc in E.
Qed.

(** Of a closed endpoint, somebody has a step to take. *)
Lemma closed_goes_on w : tidy w → Endpoint.closed (door w) = true → handlers w ≠ [] → ∃ w', own_step w w'.
Proof.
  intros Ht Hc Hne. destruct w as [e hs u l c]. cbn in *. destruct hs as [|h hs]; [done|].
  change (h :: hs) with ([] ++ h :: hs) in *.
  destruct h as [| |id|id|id| |ids|ids].
  - eexists. apply own_not_upgraded.
  - eexists. apply (own_turned_away e [] hs u l c []). unfold register. by rewrite Hc.
  - eexists. apply own_counted.
  - assert (Hin : is_Some (Endpoint.conns e !! id)) by (apply (tidy_conns _ Ht); cbn; by left).
    destruct Hin as [ [ []] Hx].
    + eexists. by apply own_ended.
    + destruct (tidy_closing _ Ht id Hc Hx) as (h & Hh & Hid). cbn [handlers] in Hh.
      apply list_elem_of_split in Hh as (h1 & h2 & E). rewrite E.
      destruct h as [| |?|?|?| |ids|[|id' ids] ]; try (by apply not_elem_of_nil in Hid).
      * eexists. apply own_cancelled.
      * eexists. apply own_closes.
  - eexists. apply (own_retired e [] hs u l c c). lia.
  - eexists. apply own_left.
  - eexists. apply own_cancelled.
  - destruct ids as [|id ids]; eexists; [apply own_closed|apply own_closes].
Qed.

Lemma closed_runs_out w : tidy w → Endpoint.closed (door w) = true →
  ∃ w', rtc own_step w w' ∧ handlers w' = [].
Proof.
  remember (work w) as n eqn:En. revert w En. induction (lt_wf n) as [n _ IH]. intros w -> Ht Hc.
  destruct (decide (handlers w = [])) as [|Hne]; [by exists w|].
  destruct (closed_goes_on w Ht Hc Hne) as [w1 Hstep].
  destruct (IH (work w1) (work_step _ _ Hstep) w1 eq_refl (tidy_own _ _ Hstep Ht)) as (w' & Hrun & Hend);
    [by eapply own_closed_stays|].
  exists w'. split; [by eapply rtc_l|done].
Qed.

Lemma tidy_drained w : tidy w → Endpoint.closed (door w) = true → handlers w = [] →
  Endpoint.conns (door w) = ∅ ∧ Endpoint.cancelled (door w) = true ∧
  u64 (counts.accepted (Endpoint.counters (door w))) = u64 (counts.closedCount (Endpoint.counters (door w))).
Proof.
  intros Ht Hc Hend.
  assert (Hempty : Endpoint.conns (door w) = ∅).
  { apply map_eq. intros id. rewrite lookup_empty. destruct (Endpoint.conns (door w) !! id) eqn:E; [|done].
    assert (Hin : id ∈ omap idOf (handlers w)) by (apply (tidy_conns _ Ht); by rewrite E).
    rewrite Hend in Hin. by apply not_elem_of_nil in Hin. }
  split; [done|]. split.
  - destruct (tidy_cancelled _ Ht Hc) as [?|[ids Hin] ]; [done|]. rewrite Hend in Hin. by apply not_elem_of_nil in Hin.
  - pose proof (tidy_counts _ Ht) as E. rewrite Hempty, Hend, map_size_empty in E. change (waiting _ []) with 0 in E.
    u64_same E.
Qed.

(** ** The cap *)

Lemma ids_fresh (u : gset Id) : ∃ id, id ∉ u.
Proof. exists (fresh u). apply is_fresh. Qed.

(** Any number of requests that look before any of them registers. *)
Lemma requests_admitted e now n :
  lookForRoom e = (e, true) → rtc step (opening e now) (World e (repeat Upgrading n) ∅ ∅ now).
Proof.
  intros Hroom. induction n as [|n IH]; [done|]. eapply rtc_r; [done|].
  pose proof (step_request e (repeat Upgrading n) ∅ ∅ now) as Hstep. by rewrite Hroom in Hstep.
Qed.

Lemma repeat_last {A} (x : A) n l : repeat x (S n) ++ l = repeat x n ++ x :: l.
Proof. induction n as [|n IH]; [done|]. cbn in *. by rewrite IH. Qed.

Lemma upgrades_register n : ∀ e hs u l c,
  Endpoint.closed e = false → (∀ id, is_Some (Endpoint.conns e !! id) → id ∈ u) →
  ∃ e' hs' u', rtc step (World e (repeat Upgrading n ++ hs) u l c) (World e' hs' u' l c) ∧
    size (Endpoint.conns e') = (n + size (Endpoint.conns e))%nat.
Proof.
  induction n as [|n IH]; intros e hs u l c Hopen Hused; [by exists e, hs, u|].
  destruct (ids_fresh u) as [id Hid].
  set (e1 := Endpoint.set_conns (<[id := conn.mk false]> (Endpoint.conns e)) e).
  assert (Hnone : Endpoint.conns e !! id = None).
  { destruct (Endpoint.conns e !! id) eqn:E; [|done]. destruct Hid. apply Hused. by rewrite E. }
  destruct (IH e1 (Counting id :: hs) ({[id]} ∪ u) l c) as (e' & hs' & u' & Hrun & Hsize); [done| |].
  { intros id'. cbn. rewrite lookup_insert_is_Some', elem_of_union, elem_of_singleton. naive_solver. }
  exists e', hs', u'. split.
  - rewrite repeat_last. eapply rtc_l; [apply step_own, own_upgraded|].
    eapply rtc_l; [|exact Hrun]. apply step_own, own_registered; [done|]. unfold register. by rewrite Hopen.
  - rewrite Hsize. cbn. rewrite map_size_insert_None by done. lia.
Qed.

(** C40: [MaxConnections] is looked at before the upgrade and not when the connection registers, so
    requests that upgrade at the same time pass it together: any number of connections is reachable,
    whatever the configuration. *)
Theorem cap_exceeded config e now n :
  New config = Ok e → ∃ w, rtc step (opening e now) w ∧ size (Endpoint.conns (door w)) = n.
Proof.
  intros Hnew.
  assert (Hroom : lookForRoom e = (e, true) ∧ Endpoint.closed e = false ∧ Endpoint.conns e = ∅).
  { revert Hnew. unfold New, res_bind. destruct (PinOf _) as [pin|]; [|by intros [=] ]. intros [= <-].
    split; [|done]. unfold lookForRoom. cbn. rewrite map_size_empty. case_match; [|done]. exfalso.
    apply Z.leb_le in H. revert H. case_match; unfold DefaultMaxConnections; lia. }
  destruct Hroom as (Hroom & Hopen & Hempty).
  destruct (upgrades_register n e [] ∅ ∅ now Hopen) as (e' & hs' & u' & Hrun & Hsize).
  { intros id. rewrite Hempty, lookup_empty. by intros [? [=] ]. }
  exists (World e' hs' u' ∅ now). split.
  - rewrite app_nil_r in Hrun. etrans; [by apply requests_admitted|exact Hrun].
  - cbn. rewrite Hsize, Hempty, map_size_empty. lia.
Qed.

(** The counters an operator reads add up: the connections accepted are the ones closed and the ones
    open, give or take the goroutines between a table and its counter, and each open connection is
    one goroutine's. *)
Lemma connections_accounted config w :
  reachable config w →
  let s := StatsOf (door w) in
  NoDup (omap idOf (handlers w)) ∧
  (∀ id, is_Some (Endpoint.conns (door w) !! id) ↔ id ∈ omap idOf (handlers w)) ∧
  u64 (Stats.Accepted s + waiting uncounted (handlers w)) =
  u64 (Stats.Closed s + Stats.Open s + waiting unleft (handlers w)).
Proof. intros Ht%reachable_tidy. split; [apply Ht|]. split; [apply Ht|]. apply (tidy_counts _ Ht). Qed.

(** C28: A frame for a connection of this endpoint is never handed to the platform: an id that is open
    goes to the endpoint; one that has gone goes there too, where nothing is sent, until it has been
    gone for longer than [retiredIdRetention]; and the endpoint claims no id it did not mint. *)
Theorem frames_keep_their_carrier config w platform id frame :
  reachable config w →
  let carrier := carrierOf id (Joined.mk (Some (door w)) platform) in
  (is_Some (Endpoint.conns (door w) !! id) → carrier = ToEndpoint) ∧
  (∀ at_, left w !! id = Some at_ →
     toSend frame id (door w) = None ∧ (carrier = ToEndpoint ∨ retiredIdRetention < clock w - at_)) ∧
  (carrier = ToEndpoint → id ∈ used w) ∧
  (id ∈ used w → is_Some (Endpoint.conns (door w) !! id) ∨ is_Some (left w !! id)).
Proof.
  intros Ht%reachable_tidy. cbn. unfold Owns.
  split; [intros Hin; by rewrite bool_decide_eq_true_2|]. split; [|split; [|by apply (tidy_used _ Ht)] ].
  - intros at_ Hid. split.
    + unfold toSend. destruct (Endpoint.conns (door w) !! id) eqn:E; [|done].
      rewrite (tidy_apart _ Ht) in Hid; [done|by rewrite E].
    + destruct (tidy_left _ Ht _ _ Hid) as [_ [Hr|?] ]; [|by right]. left.
      rewrite (bool_decide_eq_true_2 (is_Some (Endpoint.retired _ !! _))) by by rewrite Hr.
      by rewrite orb_true_r.
  - intros E. apply (tidy_used _ Ht).
    destruct (decide (is_Some (Endpoint.conns (door w) !! id))) as [|Hno]; [by left|right].
    rewrite (bool_decide_eq_false_2 _ Hno) in E. cbn in E.
    destruct (Endpoint.retired (door w) !! id) eqn:Hr; [by rewrite (tidy_retired _ Ht _ _ Hr)|].
    rewrite bool_decide_eq_false_2 in E by by intros [? [=] ]. by destruct platform.
Qed.

(** C29: [Close] drains: once it has begun, the goroutines the endpoint has can only take so many steps of
    their own, and when none is left the endpoint's context has ended, no connection is open and as
    many have been counted out as in. *)
Theorem close_drains config w :
  reachable config w → Endpoint.closed (door w) = true →
  (∀ n w', nsteps own_step n w w' → (n <= work w)%nat) ∧
  (∃ w', rtc own_step w w' ∧ nf own_step w') ∧
  (∀ w', rtc own_step w w' → nf own_step w' →
     handlers w' = [] ∧ Endpoint.conns (door w') = ∅ ∧ Endpoint.cancelled (door w') = true ∧
     u64 (Stats.Accepted (StatsOf (door w'))) = u64 (Stats.Closed (StatsOf (door w')))).
Proof.
  intros Ht%reachable_tidy Hc.
  assert (Hkept : ∀ w', rtc own_step w w' → tidy w' ∧ Endpoint.closed (door w') = true).
  { intros w' Hrun. induction Hrun as [|w w1 w' Hstep _ IH]; [done|].
    apply IH; [by eapply tidy_own|by eapply own_closed_stays]. }
  split; [|split].
  - intros n w' Hrun%(nsteps_measure own_step work work_step). lia.
  - destruct (closed_runs_out w Ht Hc) as (w' & Hrun & Hend). exists w'. split; [done|].
    intros [w'' Hstep%work_step]. unfold work in Hstep. rewrite Hend in Hstep. cbn in Hstep. lia.
  - intros w' Hrun Hnf. destruct (Hkept w' Hrun) as [Ht' Hc'].
    assert (Hend : handlers w' = []).
    { destruct (decide (handlers w' = [])) as [|Hne]; [done|]. destruct Hnf. by apply closed_goes_on. }
    split; [done|]. by apply tidy_drained.
Qed.
End Keeps.

(** ** One connection, and [Close] *)

Definition plainWire : FrameWire := {|
  Frame := slice;
  RawSubjectPublicKeyInfo := λ certificate, Some certificate;
  unmarshalFrame := λ data, Some data;
  marshalFrame := λ frame, Some frame |}.

Definition someConfig : Config.t := Config.mk [Some [48; 1]] "" 0 0 0 0.
Definition someEndpoint : Endpoint.t :=
  match New (W := plainWire) someConfig with
  | Ok e => e
  | Err _ => Endpoint.mk someConfig None true ∅ ∅ ∅ 0 true counts.zero
  end.
Definition oneOpen : Endpoint.t := Endpoint.set_conns {[ [7] := conn.mk false ]} someEndpoint.
Definition twoClosing : world :=
  World (Endpoint.set_closed true (Endpoint.count counts.add_accepted oneOpen))
    [Cancelling [ [7] ]; Reading [7]] {[ [7] ]} ∅ 0.

Lemma twoClosing_reachable : reachable (W := plainWire) someConfig twoClosing.
Proof.
  exists someEndpoint, 0. split; [vm_compute; reflexivity|].
  eapply rtc_l; [apply (step_request someEndpoint [] ∅ ∅ 0)|].
  eapply rtc_l; [apply step_own, (own_upgraded someEndpoint [] [] ∅ ∅ 0)|].
  eapply rtc_l; [apply step_own, (own_registered someEndpoint oneOpen [] [] ∅ ∅ 0 [7]); [set_solver|reflexivity]|].
  eapply rtc_l; [apply step_own, (own_counted oneOpen [] [] _ ∅ 0 [7])|].
  eapply rtc_l; [apply step_close; reflexivity|].
  apply (eq_rect _ (λ w, rtc (step (W := plainWire)) _ w) (rtc_refl _ _)). reflexivity.
Qed.

Lemma connections_accounted_witness :
  let s := StatsOf (door twoClosing) in
  NoDup (omap idOf (handlers twoClosing)) ∧
  (∀ id, is_Some (Endpoint.conns (door twoClosing) !! id) ↔ id ∈ omap idOf (handlers twoClosing)) ∧
  u64 (Stats.Accepted s + waiting uncounted (handlers twoClosing)) =
  u64 (Stats.Closed s + Stats.Open s + waiting unleft (handlers twoClosing)).
Proof. exact (connections_accounted (W := plainWire) someConfig twoClosing twoClosing_reachable). Defined.

Lemma frames_keep_their_carrier_witness :
  carrierOf [7] (Joined.mk (Some (door twoClosing)) true) = ToEndpoint ∧
  carrierOf [8] (Joined.mk (Some (door twoClosing)) true) = ToPlatform.
Proof.
  pose proof (frames_keep_their_carrier (W := plainWire) someConfig twoClosing true [7] None twoClosing_reachable) as [H _].
  split; [|vm_compute; reflexivity]. apply H. vm_compute. eauto.
Defined.

Lemma close_drains_witness :
  ∃ w', rtc own_step twoClosing w' ∧ nf own_step w' ∧ handlers w' = [] ∧ Endpoint.conns (door w') = ∅.
Proof.
  destruct (close_drains (W := plainWire) someConfig twoClosing twoClosing_reachable eq_refl)
    as (_ & (w' & Hrun & Hnf) & Hall).
  exists w'. destruct (Hall w' Hrun Hnf) as (Hend & Hempty & _). done.
Defined.

Lemma cap_exceeded_witness :
  Config.MaxConnections (Endpoint.config someEndpoint) = 4096 ∧
  ∃ w, rtc (step (W := plainWire)) (opening someEndpoint 0) w ∧ size (Endpoint.conns (door w)) = 5000%nat.
Proof.
  split; [vm_compute; reflexivity|]. apply (cap_exceeded (W := plainWire) someConfig someEndpoint 0 5000). vm_compute. reflexivity.
Defined.
