(* ===== verification/Migrations.v ===== *)
(** * The migration runner ([store/migrations.go])

    [Migrate] brings a database to head and [MigrationsAtHead] asks whether it is there.  Each is a
    program of one connection; the statements act on the database, which many connections share, and
    any of them may fail, or be lost with the connection before or behind its effect.  What the DDL
    of a migration does to the schema is the database's, and a parameter. *)

From stdpp Require Import pretty.
From S2P Require Import Prelude Prog.

(** The database's own part: the text of a migration, the schema, and what running one on the other
    comes to, [None] when the server refuses it. *)
Class Ddl := {
  Sql : Type;
  Schema : Type;
  execute : Sql → Schema → option Schema }.

Module migration.
Record t `{D : Ddl} := mk { name : string; sql : Sql }.
Arguments mk {D} name sql.
End migration.

Definition newSqlMigration `{D : Ddl} (name : string) (sql : Sql) : migration.t := migration.mk name sql.

(** The ordered list, by the names that [migration_audit] holds it to; the texts are arguments. *)
Definition migrations `{D : Ddl} (text : string → Sql) : list migration.t :=
  (λ name, newSqlMigration name (text name)) <$>
  ["001 message_group"; "002 message_epoch"; "003 message_record"; "003b message_stream_claim";
   "004 message_record indexes"; "004b message_commit"; "005 message_sender";
   "005b message_epoch expected_wrap_count"; "005c message_record attachment projection";
   "009 message_recovery"; "010 message_record eph_window"; "011 message_record epoch ceiling";
   "012 message_record epoch digest"; "013 message_rendezvous"; "014 message_rendezvous_deposit"].

Definition MigrationCount `{D : Ddl} (text : string → Sql) : Z := Z.of_nat (length (migrations text)).

Definition recordPartitions : nat := 64.

(** A number as two digits at least. *)
Definition twoDigits (n : nat) : string :=
  String (Ascii.ascii_of_nat (48 + n / 10)) (String (Ascii.ascii_of_nat (48 + n mod 10)) EmptyString).
Definition newline : string := String (Ascii.ascii_of_nat 10) EmptyString.

(** The statement that makes one partition of a table; its numbers are below a hundred. *)
Definition partitionOf (table : string) (remainder : nat) : string :=
  ("CREATE TABLE " ++ table ++ "_p" ++ twoDigits remainder ++ " PARTITION OF " ++ table ++ newline ++
   "    FOR VALUES WITH (MODULUS " ++ pretty recordPartitions ++ ", REMAINDER " ++ pretty remainder ++
   ") WITH (fillfactor = 100);" ++ newline)%string.
Definition partitionsOf (table : string) : string :=
  foldr String.append EmptyString (partitionOf table <$> seq 0 recordPartitions).

(** What there is: [migration_audit], if it has been made, and everything else. *)
Module Db.
Record t `{D : Ddl} := mk { audit : option (gmap Z string); schema : Schema }.
Arguments mk {D} audit schema.
End Db.

(** A transaction: what it sees, or that a statement of it failed. *)
Inductive tx `{D : Ddl} : Type := Seeing (view : Db.t) | Aborted.

Module connection.
Record t `{D : Ddl} := mk { live : bool; holds : bool; transaction : option tx }.
Arguments mk {D} live holds transaction.
Definition idle `{D : Ddl} : t := mk true false None.
Definition lost `{D : Ddl} : t := mk false false None.
Definition in_tx `{D : Ddl} (x : option tx) (c : t) : t := mk (live c) (holds c) x.
Definition lock `{D : Ddl} (x : bool) (c : t) : t := mk (live c) x (transaction c).
End connection.

Inductive DbError : Type := ErrDb.

Inductive MigrateError : Type :=
  | Database (e : DbError)
  | Failing (version : Z) (name : string) (e : DbError)
  | errMigrationRewritten (version : Z) (ran listed : string).

(** ** The statements *)

Section Runner.
Context `{D : Ddl}.
Abbreviation db := Db.t.

Inductive op : Type :=
  | Acquire | Release
  | AdvisoryLock | AdvisoryUnlock
  | CreateAudit | AuditExists | SelectAudit
  | Begin | Exec (sql : Sql) | InsertAudit (version : Z) (name : string) | Commit | Rollback.

Definition answer (c : op) : Type :=
  match c with
  | AuditExists => res DbError bool
  | SelectAudit => res DbError (list (Z * string))
  | _ => res DbError ()
  end.

(** ** The programs *)

Abbreviation program := (prog answer).

(** [if err != nil { return err }] *)
Definition attempt {A B} (r : res DbError A) (k : A → program (res MigrateError B)) : program (res MigrateError B) :=
  match r with Ok a => k a | Err e => Return (Err (Database e)) end.

(** [defer f()], the body behind it. *)
Definition deferred {A} (c : op) (body : program A) : program A :=
  out ← body; _ ← call (answer := answer) c; Return out.

Definition appliedMigrations : program (res MigrateError (gmap Z string)) :=
  rows ← call (answer := answer) SelectAudit;
  attempt (A := list (Z * string)) rows (λ rows, Return (Ok (foldl (λ found row, <[row.1 := row.2]> found) ∅ rows))).

(** One migration in its transaction with its audit row. *)
Definition apply (version : Z) (current : migration.t) (next : program (res MigrateError ())) : program (res MigrateError ()) :=
  began ← call (answer := answer) Begin;
  attempt (A := ()) began (λ _,
  ran ← call (answer := answer) (Exec (migration.sql current));
  match ran : res DbError () with
  | Err e =>
      _ ← call (answer := answer) Rollback;
      Return (Err (Failing version (migration.name current) e))
  | Ok _ =>
      noted ← call (answer := answer) (InsertAudit version (migration.name current));
      match noted : res DbError () with
      | Err e => _ ← call (answer := answer) Rollback; Return (Err (Database e))
      | Ok _ =>
          committed ← call (answer := answer) Commit;
          attempt (A := ()) committed (λ _, next)
      end
  end).

Fixpoint migrateFrom (index : nat) (applied : gmap Z string) (rest : list migration.t) : program (res MigrateError ()) :=
  match rest with
  | [] => Return (Ok tt)
  | current :: rest =>
      let version := Z.of_nat index + 1 in
      match applied !! version with
      | Some name =>
          if bool_decide (name = migration.name current) then migrateFrom (S index) applied rest
          else Return (Err (errMigrationRewritten version name (migration.name current)))
      | None => apply version current (migrateFrom (S index) applied rest)
      end
  end.

Definition Migrate (migrations : list migration.t) : program (res MigrateError ()) :=
  acquired ← call (answer := answer) Acquire;
  attempt (A := ()) acquired (λ _, deferred Release (
  locked ← call (answer := answer) AdvisoryLock;
  attempt (A := ()) locked (λ _, deferred AdvisoryUnlock (
  made ← call (answer := answer) CreateAudit;
  attempt (A := ()) made (λ _,
  applied ← appliedMigrations;
  match applied with
  | Err e => Return (Err e)
  | Ok applied => migrateFrom 0 applied migrations
  end))))).

(** The versions in order against what has run. *)
Fixpoint compare (index : nat) (applied : gmap Z string) (rest : list migration.t) : bool * Z * option MigrateError :=
  match rest with
  | [] => (true, 0, None)
  | current :: rest =>
      let version := Z.of_nat index + 1 in
      match applied !! version with
      | None => (false, version, None)
      | Some name =>
          if bool_decide (name = migration.name current) then compare (S index) applied rest
          else (false, version, Some (errMigrationRewritten version name (migration.name current)))
      end
  end.

Definition MigrationsAtHead (migrations : list migration.t) : program (bool * Z * option MigrateError) :=
  acquired ← call (answer := answer) Acquire;
  match acquired : res DbError () with
  | Err e => Return (false, 0, Some (Database e))
  | Ok _ => deferred Release (
      present ← call (answer := answer) AuditExists;
      match present : res DbError bool with
      | Err e => Return (false, 0, Some (Database e))
      | Ok false => Return (false, 1, None)
      | Ok true =>
          applied ← appliedMigrations;
          match applied with
          | Err e => Return (false, 0, Some e)
          | Ok applied => Return (compare 0 applied migrations)
          end
      end)
  end.

(** ** Connections *)

Definition failure (c : op) : answer c :=
  match c with AuditExists => Err ErrDb | SelectAudit => Err ErrDb | _ => Err ErrDb end.

(** Outside a transaction a statement works on the database, inside one on what it sees. *)
Definition on_view {A} (f : db → option (db * A)) (c : connection.t) (d : db) : connection.t * db * res DbError A :=
  match connection.transaction c with
  | None => match f d with Some (d', a) => (c, d', Ok a) | None => (c, d, Err ErrDb) end
  | Some (Seeing v) =>
      match f v with
      | Some (v', a) => (connection.in_tx (Some (Seeing v')) c, d, Ok a)
      | None => (connection.in_tx (Some Aborted) c, d, Err ErrDb)
      end
  | Some Aborted => (c, d, Err ErrDb)
  end.

Definition created (d : db) : db := Db.mk (Some (default ∅ (Db.audit d))) (Db.schema d).

Definition inserted (version : Z) (name : string) (d : db) : option db :=
  audit ← Db.audit d;
  match audit !! version with
  | Some _ => None
  | None => Some (Db.mk (Some (<[version := name]> audit)) (Db.schema d))
  end.

Definition executed (sql : Sql) (d : db) : option db :=
  schema ← execute sql (Db.schema d); Some (Db.mk (Db.audit d) schema).

(** A statement that reaches the server on a live connection.  A connection that goes back to the
    pool inside a transaction is closed. *)
Definition perform (op : op) (c : connection.t) (d : db) : connection.t * db * answer op :=
  match op return connection.t * db * answer op with
  | Acquire => (c, d, Ok tt)
  | Release => (match connection.transaction c with Some _ => connection.lost | None => c end, d, Ok tt)
  | AdvisoryLock =>
      match connection.transaction c with
      | Some Aborted => (c, d, Err ErrDb)
      | _ => (connection.lock true c, d, Ok tt)
      end
  | AdvisoryUnlock =>
      match connection.transaction c with
      | Some Aborted => (c, d, Err ErrDb)
      | _ => (connection.lock false c, d, Ok tt)
      end
  | CreateAudit => on_view (λ d, Some (created d, tt)) c d
  | AuditExists => on_view (λ d, Some (d, bool_decide (is_Some (Db.audit d)))) c d
  | SelectAudit => on_view (λ d, audit ← Db.audit d; Some (d, map_to_list audit)) c d
  | Begin => (connection.in_tx (Some (Seeing d)) c, d, Ok tt)
  | Exec sql => on_view (λ d, d' ← executed sql d; Some (d', tt)) c d
  | InsertAudit version name => on_view (λ d, d' ← inserted version name d; Some (d', tt)) c d
  | Commit =>
      match connection.transaction c with
      | Some (Seeing v) => (connection.in_tx None c, v, Ok tt)
      | _ => (connection.in_tx None c, d, Err ErrDb)
      end
  | Rollback => (connection.in_tx None c, d, Ok tt)
  end.

(** How a call ends: as the server answers; with an error and no effect, which aborts a transaction;
    or with the connection lost, its effect done or not. *)
Inductive fault : Type := Fine | Failed | Lost (behind : bool).

Definition serve (op : op) (f : fault) (c : connection.t) (d : db) : connection.t * db * answer op :=
  if negb (connection.live c) then (c, d, failure op)
  else match f with
       | Fine => perform op c d
       | Failed => (match connection.transaction c with Some _ => connection.in_tx (Some Aborted) c | None => c end,
                    d, failure op)
       | Lost behind => (connection.lost, if behind then (perform op c d).1.2 else d, failure op)
       end.

(** ** Many of them at once *)

Inductive job : Type := Migrated (r : res MigrateError ()) | Looked (r : bool * Z * option MigrateError).

Definition jobOf (migrate : bool) (ms : list migration.t) : program job :=
  if migrate then r ← Migrate ms; Return (Migrated r) else r ← MigrationsAtHead ms; Return (Looked r).

Record session : Type := Session { conn : connection.t; rest : program job }.
Record world : Type := World { database : db; sessions : gmap nat session }.

(** The server grants the lock to one session at a time. *)
Definition grantable (op : op) (f : fault) (i : nat) (w : world) : Prop :=
  op = AdvisoryLock → f = Fine → ∀ j s, j ≠ i → sessions w !! j = Some s → connection.holds (conn s) = false.

Inductive wstep (ms : list migration.t) : world → world → Prop :=
  | wstep_start w i migrate :
      sessions w !! i = None →
      wstep ms w (World (database w) (<[i := Session connection.idle (jobOf migrate ms)]> (sessions w)))
  | wstep_call w i c op k f c' d' r :
      sessions w !! i = Some (Session c (Do op k)) →
      grantable op f i w →
      serve op f c (database w) = (c', d', r) →
      wstep ms w (World d' (<[i := Session c' (k r)]> (sessions w)))
  | wstep_lost w i c p :
      sessions w !! i = Some (Session c p) →
      wstep ms w (World (database w) (<[i := Session connection.lost p]> (sessions w))).

Definition serving (d : db) : world := World d ∅.

(** ** The reference *)

(** The migrations in order on a database that has the audit table. *)
Fixpoint walk (index : nat) (rest : list migration.t) (d : db) : db * option MigrateError :=
  match rest with
  | [] => (d, None)
  | current :: rest =>
      let version := Z.of_nat index + 1 in
      match Db.audit d ≫= lookup version with
      | Some name =>
          if bool_decide (name = migration.name current) then walk (S index) rest d
          else (d, Some (errMigrationRewritten version name (migration.name current)))
      | None =>
          match executed (migration.sql current) d with
          | None => (d, Some (Failing version (migration.name current) ErrDb))
          | Some d' =>
              match inserted version (migration.name current) d' with
              | None => (d, Some (Database ErrDb))
              | Some d'' => walk (S index) rest d''
              end
          end
      end
  end.
End Runner.
