(* ===== verification/MigrationsProps.v ===== *)
(** * What the migration runner keeps

    Any number of runners and readers on one database, under any faults: a logic of programs that
    share it ([holds_over]), the positions a database takes on its way to head ([at_]), and what each
    runner and reader may answer.  Then one runner by itself, against the reference. *)

From S2P Require Import Prelude Prog Migrations.

(** ** Positions *)

Section Positions.
Context `{D : Ddl}.
Context (ms : list migration.t) (d0 : Db.t).

(** The first [n] migrations are in, on what was there at the start. *)
Definition at_ (n : nat) (d : Db.t) : Prop :=
  (n <= length ms)%nat ∧ walk 0 (take n ms) (created d0) = (d, None).

(** What the database may be, and how it may change. *)
Definition sane (d : Db.t) : Prop := d = d0 ∨ ∃ n, at_ n d.
Definition grows (d d' : Db.t) : Prop := ∀ n, at_ n d → ∃ m, (n <= m)%nat ∧ at_ m d'.

#[global] Instance grows_preorder : PreOrder grows.
Proof.
  split; [by intros d n Hn; exists n|]. intros a b c E1 E2 n Hn. destruct (E1 n Hn) as (m & Hm & Ha).
  destruct (E2 m Ha) as (k & Hk & Hb). exists k. split; [lia|done].
Qed.

Lemma walk_app l1 : ∀ i l2 d,
  walk i (l1 ++ l2) d = match walk i l1 d with (d', None) => walk (i + length l1) l2 d' | out => out end.
Proof.
  induction l1 as [|m l1 IH]; intros i l2 d; cbn; [by rewrite Nat.add_0_r|].
  replace (i + S (length l1))%nat with (S i + length l1)%nat by lia.
  repeat (case_match; try done); by apply IH.
Qed.

(** The next position: the database walks on by one migration. *)
Lemma at_next n m d : ms !! n = Some m → at_ n d → ∀ d', walk n [m] d = (d', None) → at_ (S n) d'.
Proof.
  intros Hm [Hn Hw] d' Hd. split; [by apply lookup_lt_Some in Hm|].
  rewrite (take_S_r _ _ _ Hm), walk_app, Hw, length_take_le by lia. done.
Qed.

Lemma at_zero : at_ 0 (created d0).
Proof. split; [lia|done]. Qed.

(** From a position the full walk is the walk of the rest. *)
Lemma at_walk n d : at_ n d → walk 0 ms (created d0) = walk n (drop n ms) d.
Proof.
  intros [Hn Hw]. rewrite <- (take_drop n ms) at 1. by rewrite walk_app, Hw, length_take_le by lia.
Qed.

Lemma at_head_walk d : at_ (length ms) d → walk 0 ms (created d0) = (d, None).
Proof. intros Ha. by rewrite (at_walk _ _ Ha), drop_all. Qed.

Lemma at_head_stays d d' : at_ (length ms) d → grows d d' → at_ (length ms) d'.
Proof. intros Ha Hg. destruct (Hg _ Ha) as (m & Hm & Hb). pose proof (proj1 Hb). by replace (length ms) with m by lia. Qed.

(** The walk writes the rows of the versions it passes, and no other. *)
Lemma walk_audit l : ∀ i d d',
  walk i l d = (d', None) → is_Some (Db.audit d) →
  is_Some (Db.audit d') ∧
  (∀ k m, l !! k = Some m → Db.audit d' ≫= lookup (Z.of_nat (i + k) + 1) = Some (migration.name m)) ∧
  (∀ v, (v <= Z.of_nat i ∨ Z.of_nat (i + length l) < v) → Db.audit d' ≫= lookup v = Db.audit d ≫= lookup v).
Proof.
  induction l as [|m l IH]; intros i d d'; cbn; [by intros [= <-]|].
  assert (Hput : ∀ d1, walk (S i) l d1 = (d', None) → is_Some (Db.audit d1) →
    Db.audit d1 ≫= lookup (Z.of_nat i + 1) = Some (migration.name m) →
    (∀ v, v ≠ Z.of_nat i + 1 → Db.audit d1 ≫= lookup v = Db.audit d ≫= lookup v) →
    is_Some (Db.audit d') ∧
    (∀ k m', (m :: l) !! k = Some m' → Db.audit d' ≫= lookup (Z.of_nat (i + k) + 1) = Some (migration.name m')) ∧
    (∀ v, (v <= Z.of_nat i ∨ Z.of_nat (i + S (length l)) < v) → Db.audit d' ≫= lookup v = Db.audit d ≫= lookup v)).
  { intros d1 Hw Hs Hv Hrest. destruct (IH _ _ _ Hw Hs) as (H1 & H2 & H3). split; [done|]. split.
    - intros [|k] m' Hm; cbn in Hm.
      + injection Hm as <-. rewrite Nat.add_0_r, H3 by lia. done.
      + replace (i + S k)%nat with (S i + k)%nat by lia. by apply H2.
    - intros v Hv'. rewrite H3 by lia. apply Hrest. lia. }
  destruct (Db.audit d ≫= lookup (Z.of_nat i + 1)) as [name|] eqn:Ha.
  - case_bool_decide as En; [|done]. subst name. intros Hw Hs. by apply (Hput d).
  - destruct (executed _ d) as [d1|] eqn:He; [|done]. destruct (inserted _ _ d1) as [d2|] eqn:Hi; [|done].
    intros Hw Hs. unfold executed in He. destruct (execute _ _) as [sch|]; [|done]. injection He as <-.
    unfold inserted in Hi. cbn in Hi. destruct (Db.audit d) as [a|]; [|done]. cbn in *. rewrite Ha in Hi. injection Hi as <-.
    apply (Hput _ Hw); cbn; [done|by rewrite lookup_insert_eq|]. intros v Hv. by rewrite lookup_insert_ne by done.
Qed.

(** At a position, the rows of the versions passed are there. *)
Lemma at_row n d k m : at_ n d → (k < n)%nat → ms !! k = Some m →
  Db.audit d ≫= lookup (Z.of_nat k + 1) = Some (migration.name m).
Proof.
  intros [Hn Hw] Hk Hm. destruct (walk_audit _ _ _ _ Hw) as (_ & Hrow & _); [done|].
  apply (Hrow k). by rewrite lookup_take_lt.
Qed.

Lemma at_table n d : at_ n d → is_Some (Db.audit d).
Proof. intros [_ Hw]. by destruct (walk_audit _ _ _ _ Hw). Qed.
End Positions.

(** ** A logic of programs that share the database *)

Section Shared.
Context `{D : Ddl}.
Context (ms : list migration.t) (d0 : Db.t).
Abbreviation sane := (sane ms d0).
Abbreviation grows := (grows ms d0).
Abbreviation at_ := (at_ ms d0).

(** What a session finds changed between two of its calls: its connection may be lost; and while it
    holds the lock nothing else is. *)
Definition shifts (c : connection.t) (d : Db.t) (c' : connection.t) (d' : Db.t) : Prop :=
  (c' = c ∨ c' = connection.lost) ∧ sane d' ∧ grows d d' ∧ (c' = c → connection.holds c = true → d' = d).

Lemma shifts_refl c d : sane d → shifts c d c d.
Proof. intros Hs. split; [by left|]. split; [done|]. by split. Qed.

Lemma shifts_trans c1 d1 c2 d2 c3 d3 : shifts c1 d1 c2 d2 → shifts c2 d2 c3 d3 → shifts c1 d1 c3 d3.
Proof.
  intros (H1 & H2 & H3 & H4) (H5 & H6 & H7 & H8). split; [|split; [done|split; [by etrans|] ] ].
  - destruct H5 as [->| ->]; [done|by right].
  - intros -> Hh. destruct H1 as [->| ->].
    + by rewrite H8, H4.
    + destruct H5 as [->| ->]; done.
Qed.

(** Whatever the others do, and however its calls end, the program changes the database only with the
    lock and only to grow it, and ends in [Q]. *)
Fixpoint holds_over {A} (p : prog answer A) (Q : A → connection.t → Db.t → Prop) (c : connection.t) (d : Db.t) : Prop :=
  match p with
  | Return a => Q a c d
  | Panic => False
  | Do op k => ∀ c1 d1 f c2 d2 r, shifts c d c1 d1 → serve op f c1 d1 = (c2, d2, r) →
      (d2 = d1 ∨ connection.holds c1 = true ∧ sane d2 ∧ grows d1 d2) ∧ holds_over (k r) Q c2 d2
  end.

Lemma holds_bind {A B} (p : prog answer A) (f : A → prog answer B) Q : ∀ c d,
  holds_over p (λ a c d, holds_over (f a) Q c d) c d → holds_over (p ≫= f) Q c d.
Proof.
  induction p as [a| |op k IH]; intros c d; cbn; [done..|]. intros H c1 d1 fa c2 d2 r Hs He.
  destruct (H c1 d1 fa c2 d2 r Hs He) as [Hd Hk]. split; [done|by apply IH].
Qed.

Lemma holds_mono {A} (p : prog answer A) (Q Q' : A → connection.t → Db.t → Prop) : ∀ c d,
  (∀ a c d, Q a c d → Q' a c d) → holds_over p Q c d → holds_over p Q' c d.
Proof.
  induction p as [a| |op k IH]; intros c d HQ; cbn; [auto|done|]. intros H c1 d1 fa c2 d2 r Hs He.
  destruct (H c1 d1 fa c2 d2 r Hs He) as [Hd Hk]. split; [done|by apply IH].
Qed.

Lemma holds_shift {A} (p : prog answer A) (Q : A → connection.t → Db.t → Prop) c d c' d' :
  (∀ a c d c' d', shifts c d c' d' → Q a c d → Q a c' d') →
  shifts c d c' d' → holds_over p Q c d → holds_over p Q c' d'.
Proof.
  intros HQ Hs. destruct p as [a| |op k]; cbn; [by apply HQ|done|]. intros H c1 d1 fa c2 d2 r Hs' He.
  apply (H c1 d1 fa c2 d2 r); [by eapply shifts_trans|done].
Qed.

(** A call of a session that holds the lock. *)
Lemma holds_locked {A} op (k : answer op → prog answer A) Q c d :
  connection.live c = true → connection.holds c = true → sane d →
  (∀ c2 d2, sane d2 → holds_over (k (failure op)) Q c2 d2) →
  (∀ c2 d2 r, perform op c d = (c2, d2, r) → (d2 = d ∨ sane d2 ∧ grows d d2) ∧ holds_over (k r) Q c2 d2) →
  holds_over (Do op k) Q c d.
Proof.
  intros Hl Hh Hsane Hfail Hfine c1 d1 f c2 d2 r (Hc & Hs1 & _ & Hsame). unfold serve. destruct Hc as [->| ->].
  - rewrite Hl, (Hsame eq_refl Hh). cbn. destruct f as [| |[] ].
    + intros He. destruct (Hfine _ _ _ He) as [Hd Hk]. split; [naive_solver|done].
    + intros [= <- <- <-]. split; [by left|by apply Hfail].
    + intros [= <- <- <-]. destruct (perform op c d) as [ [c3 d3] r3] eqn:He. destruct (Hfine _ _ _ eq_refl) as [Hd _].
      cbn. split; [naive_solver|]. apply Hfail. by destruct Hd as [->|[? _] ].
    + intros [= <- <- <-]. split; [by left|by apply Hfail].
  - cbn. intros [= <- <- <-]. split; [by left|by apply Hfail].
Qed.

(** A call that changes nothing, of any session. *)
Lemma holds_reading {A} op (k : answer op → prog answer A) Q c d :
  (∀ c d, (perform op c d).1.2 = d) →
  (∀ c2 d2, sane d2 → holds_over (k (failure op)) Q c2 d2) →
  (∀ c1 d1, shifts c d c1 d1 → connection.live c1 = true →
     holds_over (k (perform op c1 d1).2) Q (perform op c1 d1).1.1 d1) →
  holds_over (Do op k) Q c d.
Proof.
  intros Hquiet Hfail Hfine c1 d1 f c2 d2 r Hs. pose proof Hs as (_ & Hs1 & _). unfold serve.
  destruct (connection.live c1) eqn:Hl; cbn.
  - pose proof (Hquiet c1 d1) as Hq. destruct f as [| |[] ].
    + specialize (Hfine c1 d1 Hs Hl). destruct (perform op c1 d1) as [ [c3 d3] r3]. cbn in *. subst d3.
      intros [= <- <- <-]. split; [by left|done].
    + intros [= <- <- <-]. split; [by left|by apply Hfail].
    + rewrite Hq. intros [= <- <- <-]. split; [by left|by apply Hfail].
    + intros [= <- <- <-]. split; [by left|by apply Hfail].
  - intros [= <- <- <-]. split; [by left|by apply Hfail].
Qed.

(** A deferred call that changes nothing, behind which the answer still stands. *)
Lemma holds_deferred {A} op (p : prog answer A) (Q : A → Db.t → Prop) c d :
  (∀ c d, (perform op c d).1.2 = d) → (∀ a d d', sane d' → grows d d' → Q a d → Q a d') →
  holds_over p (λ a _ d, Q a d) c d → holds_over (deferred op p) (λ a _ d, Q a d) c d.
Proof.
  intros Hquiet Hstay Hp. apply holds_bind. eapply holds_mono; [|exact Hp]. clear c d Hp.
  intros a c d Ha c1 d1 f c2 d2 r (_ & Hs & Hg & _) He.
  assert (d2 = d1) as ->.
  { revert He. unfold serve. pose proof (Hquiet c1 d1) as Hq. destruct (negb _); [by intros [= _ <- _]|].
    destruct f as [| |[] ]; [|by intros [= _ <- _]| |by intros [= _ <- _] ].
    - intros He. by rewrite He in Hq.
    - rewrite Hq. by intros [= _ <- _]. }
  split; [by left|]. cbn. by eapply Hstay.
Qed.

(** ** The runner *)

(** What a runner's answer says of the database, then and ever after. *)
Definition migrated (r : res MigrateError ()) (d : Db.t) : Prop :=
  match r with
  | Ok _ => at_ (length ms) d
  | Err (errMigrationRewritten v ran listed) =>
      (walk 0 ms (created d0)).2 = Some (errMigrationRewritten v ran listed)
  | Err _ => True
  end.

Lemma migrated_stays r d d' : sane d' → grows d d' → migrated r d → migrated r d'.
Proof. intros _ Hg. destruct r as [|[] ]; cbn; [by intros Ha; eapply at_head_stays|done..]. Qed.

Lemma sane_created d : sane d → (∃ n, at_ n (created d)) ∧ grows d (created d).
Proof.
  intros Hs.
  assert (Hsome : ∀ n, at_ n d → created d = d).
  { intros n Ha. destruct (at_table _ _ _ _ Ha) as [a E]. destruct d as [au sch]. cbn in *. by subst au. }
  split.
  - destruct Hs as [-> |[n Ha] ]; [exists 0%nat; apply at_zero|]. exists n. by rewrite (Hsome n Ha).
  - intros n Ha. exists n. by rewrite (Hsome n Ha).
Qed.

Lemma rows_read (a : gmap Z string) :
  foldl (λ found row, <[row.1 := row.2]> found) ∅ (map_to_list a) = a.
Proof.
  assert (Hgen : ∀ (l : list (Z * string)) (m : gmap Z string), NoDup l.*1 → (∀ i, i ∈ l.*1 → m !! i = None) →
    foldl (λ found row, <[row.1 := row.2]> found) m l = list_to_map l ∪ m).
  { induction l as [|[i x] l IH]; intros m Hnd Hfree; cbn; [by rewrite (left_id_L ∅ _)|].
    cbn in Hnd. apply NoDup_cons in Hnd as [Hi Hnd]. rewrite IH; [|done|].
    - rewrite <- insert_union_l. rewrite insert_union_r; [done|]. by apply not_elem_of_list_to_map_1.
    - intros j Hj. rewrite lookup_insert_ne; [apply Hfree; cbn; by right|]. by intros ->. }
  rewrite Hgen; [by rewrite list_to_map_to_list, (right_id_L ∅ _)|apply NoDup_fst_map_to_list|].
  intros i _. apply lookup_empty.
Qed.

Definition running : connection.t := connection.mk true true None.

(** One migration, on the position in front of it. *)
Lemma holds_apply n m next d :
  ms !! n = Some m → at_ n d → Db.audit d ≫= lookup (Z.of_nat n + 1) = None →
  (∀ d', at_ (S n) d' → (∀ v, v ≠ Z.of_nat n + 1 → Db.audit d' ≫= lookup v = Db.audit d ≫= lookup v) →
     holds_over next (λ r _ d, migrated r d) running d') →
  holds_over (apply (Z.of_nat n + 1) m next) (λ r _ d, migrated r d) running d.
Proof.
  intros Hm Ha Hnone Hnext. assert (Hs : sane d) by (right; by exists n).
  assert (Hback : ∀ e, match e with errMigrationRewritten _ _ _ => False | _ => True end →
    ∀ c2 d2, sane d2 → holds_over (Do Rollback (λ _, Return (Err e))) (λ r _ d, migrated r d) c2 d2).
  { intros e He c2 d2 _. apply holds_reading; [done|by intros; destruct e|by intros; destruct e]. }
  unfold apply. cbn -[holds_over]. apply holds_locked; [done..|by intros|].
  intros c2 d2 r [= <- <- <-]. split; [by left|]. cbn -[holds_over].
  apply holds_locked; [done..|by intros; apply Hback|].
  intros c2 d2 r. cbn -[holds_over]. destruct (executed (migration.sql m) d) as [d1|] eqn:He; cbn -[holds_over];
    intros [= <- <- <-]; (split; [by left|]); [|by apply Hback].
  apply holds_locked; [done..|by intros; apply Hback|].
  intros c2 d2 r. cbn -[holds_over]. destruct (inserted _ _ d1) as [d3|] eqn:Hi; cbn -[holds_over];
    intros [= <- <- <-]; (split; [by left|]); [|by apply Hback].
  assert (Ha' : at_ (S n) d3).
  { eapply at_next; [done|exact Ha|]. cbn. by rewrite Hnone, He, Hi. }
  assert (Hg : grows d d3).
  { intros k Hk. destruct (decide (k <= n)%nat) as [|Hgt]; [by exists (S n); split; [lia|]|].
    exfalso. assert (Hrow := at_row _ _ _ _ n _ Hk ltac:(lia) Hm). by rewrite Hnone in Hrow. }
  apply holds_locked; [done..|by intros|].
  intros c2 d2 r [= <- <- <-]. split; [right; split; [right; by exists (S n)|done]|]. cbn -[holds_over].
  apply Hnext; [done|]. intros v Hv.
  unfold executed in He. destruct (execute _ _) as [sch|]; [|done]. injection He as <-.
  unfold inserted in Hi. cbn in Hi. destruct (Db.audit d) as [a|]; [|done]. cbn in *. rewrite Hnone in Hi.
  injection Hi as <-. cbn. by rewrite lookup_insert_ne.
Qed.

Lemma holds_migrateFrom applied l : ∀ i d n,
  drop i ms = l → (i <= n)%nat → at_ n d →
  (∀ v, Z.of_nat i < v → Db.audit d ≫= lookup v = applied !! v) →
  holds_over (migrateFrom i applied l) (λ r _ d, migrated r d) running d.
Proof.
  induction l as [|m l IH]; intros i d n Hl Hin Ha Hread; cbn -[holds_over].
  - assert (length ms <= i)%nat by (apply (f_equal length) in Hl; rewrite length_drop in Hl; cbn in Hl; lia).
    pose proof (proj1 Ha). change (at_ (length ms) d). by replace (length ms) with n by lia.
  - assert (Hm : ms !! i = Some m) by (rewrite <- (Nat.add_0_r i), <- lookup_drop, Hl; done).
    assert (Hl' : drop (S i) ms = l) by (by rewrite <- Nat.add_1_r, <- drop_drop, Hl).
    assert (Hv := Hread (Z.of_nat i + 1) ltac:(lia)).
    destruct (decide (i < n)%nat) as [Hlt|Hge].
    + rewrite (at_row _ _ _ _ i m Ha Hlt Hm) in Hv. rewrite <- Hv, bool_decide_eq_true_2 by done.
      apply (IH _ d n); [done|lia|done|]. intros v ?. apply Hread. lia.
    + assert (n = i) as -> by lia. destruct (applied !! (Z.of_nat i + 1)) as [name|] eqn:Happ.
      * case_bool_decide as En.
        -- apply (IH _ d (S i)); [done|lia| |intros v ?; apply Hread; lia].
           eapply at_next; [done|exact Ha|]. cbn. by rewrite Hv, bool_decide_eq_true_2.
        -- cbn. rewrite (at_walk _ _ _ _ Ha), Hl. cbn. by rewrite Hv, bool_decide_eq_false_2.
      * apply holds_apply; [done..|]. intros d' Ha' Hsame. apply (IH _ d' (S i)); [done|lia|done|].
        intros v ?. rewrite Hsame by lia. apply Hread. lia.
Qed.

Lemma holds_Migrate d : sane d → holds_over (Migrate ms) (λ r _ d, migrated r d) connection.idle d.
Proof.
  intros Hs. unfold Migrate. cbn -[holds_over deferred]. apply holds_reading; [done|by intros|]. intros c1 d1 (Hc1 & Hs1 & _) Hl1.
  assert (c1 = connection.idle) as -> by (destruct Hc1 as [-> | ->]; [done|by cbn in Hl1]). cbn -[holds_over deferred].
  apply holds_deferred; [done|exact migrated_stays|]. cbn -[holds_over deferred].
  apply holds_reading; [by intros []; cbn; repeat case_match|by intros|]. intros c2 d2 (Hc2 & Hs2 & _) Hl2.
  assert (c2 = connection.idle) as -> by (destruct Hc2 as [-> | ->]; [done|by cbn in Hl2]). cbn -[holds_over deferred].
  change (connection.lock true connection.idle) with running.
  apply holds_deferred; [by intros []; cbn; repeat case_match|exact migrated_stays|]. cbn -[holds_over deferred].
  apply holds_locked; [done..|by intros|]. intros c3 d3 r [= <- <- <-].
  destruct (sane_created _ Hs2) as [ [n Ha] Hg]. split; [right; split; [right; by exists n|done]|].
  apply holds_locked; [done..|right; by exists n|by intros|].
  intros c3 d3 r. cbn -[holds_over deferred]. intros [= <- <- <-]. split; [by left|]. cbn -[holds_over deferred]. rewrite rows_read.
  apply (holds_migrateFrom _ _ 0 _ n); [done|lia|done|done].
Qed.

(** ** The reader *)

(** What a reader's answer says: at head, the database is there; short of it, the version named is
    the next to apply, or was when it looked; and a rewritten one is what a runner stops at. *)
Definition looked (r : bool * Z * option MigrateError) (d : Db.t) : Prop :=
  match r with
  | (true, v, e) => v = 0 ∧ e = None ∧ at_ (length ms) d
  | (false, v, None) =>
      (v = 1 ∧ Db.audit d0 = None) ∨
      ∃ n d', v = Z.of_nat n + 1 ∧ (n < length ms)%nat ∧ at_ n d' ∧ grows d' d ∧ Db.audit d' ≫= lookup v = None
  | (false, v, Some (errMigrationRewritten v' ran listed)) =>
      v = v' ∧ (walk 0 ms (created d0)).2 = Some (errMigrationRewritten v' ran listed)
  | (false, _, Some _) => True
  end.

Lemma looked_stays r d d' : sane d' → grows d d' → looked r d → looked r d'.
Proof.
  intros _ Hg. destruct r as [ [ [] v] e]; cbn.
  - intros (? & ? & Ha). split_and!; [done..|]. by eapply at_head_stays.
  - destruct e as [ [] |]; try done.
    intros [?|(n & d1 & ? & ? & ? & ? & ?)]; [by left|right]. exists n, d1. split_and!; try done. by etrans.
Qed.

Lemma compare_looked l : ∀ i d n applied,
  drop i ms = l → (i <= n)%nat → at_ n d → Db.audit d = Some applied → looked (compare i applied l) d.
Proof.
  induction l as [|m l IH]; intros i d n applied Hl Hin Ha Hd; cbn.
  - assert (length ms <= i)%nat by (apply (f_equal length) in Hl; rewrite length_drop in Hl; cbn in Hl; lia).
    pose proof (proj1 Ha). by replace (length ms) with n by lia.
  - assert (Hm : ms !! i = Some m) by (rewrite <- (Nat.add_0_r i), <- lookup_drop, Hl; done).
    assert (Hl' : drop (S i) ms = l) by (by rewrite <- Nat.add_1_r, <- drop_drop, Hl).
    assert (Hv : Db.audit d ≫= lookup (Z.of_nat i + 1) = applied !! (Z.of_nat i + 1)) by (by rewrite Hd).
    destruct (decide (i < n)%nat) as [Hlt|Hge].
    + rewrite (at_row _ _ _ _ i m Ha Hlt Hm) in Hv. rewrite <- Hv, bool_decide_eq_true_2 by done.
      by apply (IH _ d n).
    + assert (n = i) as -> by lia. destruct (applied !! (Z.of_nat i + 1)) as [name|].
      * case_bool_decide as En.
        -- apply (IH _ d (S i)); [done|lia| |done].
           eapply at_next; [done|exact Ha|]. cbn. by rewrite Hv, bool_decide_eq_true_2.
        -- cbn. split; [done|]. rewrite (at_walk _ _ _ _ Ha), Hl. cbn. by rewrite Hv, bool_decide_eq_false_2.
      * right. exists i, d. split_and!; try done. by apply lookup_lt_Some in Hm.
Qed.

Lemma sane_read d applied : sane d → Db.audit d = Some applied → ∃ n, at_ n d.
Proof.
  intros [-> |?] Hd; [|done]. exists 0%nat. split; [lia|]. cbn. unfold created. rewrite Hd. cbn. rewrite <- Hd. by destruct d0.
Qed.

(** Without a table nothing has happened yet. *)
Lemma sane_absent d : sane d → Db.audit d = None → Db.audit d0 = None.
Proof. intros [-> |[n Ha] ] E; [done|]. destruct (at_table _ _ _ _ Ha). by rewrite E in *. Qed.

Lemma perform_quiet op c d :
  match op with AuditExists | SelectAudit => (perform op c d).1.2 = d | _ => True end.
Proof. destruct op; try done; cbn; unfold on_view; destruct (connection.transaction c) as [ []|]; try done; by destruct (Db.audit _). Qed.

Lemma holds_MigrationsAtHead d :
  sane d → holds_over (MigrationsAtHead ms) (λ r _ d, looked r d) connection.idle d.
Proof.
  intros Hs. unfold MigrationsAtHead. cbn -[holds_over deferred].
  apply holds_reading; [done|by intros|]. intros c1 d1 (Hc1 & Hs1 & _) Hl1.
  assert (c1 = connection.idle) as -> by (destruct Hc1 as [-> | ->]; [done|by cbn in Hl1]). cbn -[holds_over deferred].
  apply holds_deferred; [done|exact looked_stays|]. cbn -[holds_over deferred].
  apply holds_reading; [apply (perform_quiet AuditExists)|by intros|]. intros c2 d2 (Hc2 & Hs2 & _) Hl2.
  assert (c2 = connection.idle) as -> by (destruct Hc2 as [-> | ->]; [done|by cbn in Hl2]). cbn -[holds_over].
  case_bool_decide as Ht.
  - cbn -[holds_over]. apply holds_reading; [apply (perform_quiet SelectAudit)|by intros|]. intros c3 d3 (Hc3 & Hs3 & _) Hl3.
    assert (c3 = connection.idle) as -> by (destruct Hc3 as [-> | ->]; [done|by cbn in Hl3]). cbn -[holds_over].
    destruct (Db.audit d3) as [applied|] eqn:Hd; cbn -[holds_over]; [|done]. rewrite rows_read.
    destruct (sane_read _ _ Hs3 Hd) as [n Ha]. cbn. apply (compare_looked _ 0 _ n); [done|lia|done|done].
  - cbn. left. split; [done|]. apply (sane_absent d2); [done|]. destruct (Db.audit d2); [|done]. destruct Ht. by eexists.
Qed.

(** ** Every run of many *)

Definition final (j : job) (d : Db.t) : Prop :=
  match j with Migrated r => migrated r d | Looked r => looked r d end.

Lemma final_stays j d d' : sane d' → grows d d' → final j d → final j d'.
Proof. destruct j; [apply migrated_stays|apply looked_stays]. Qed.

Lemma holds_job b d : sane d → holds_over (jobOf b ms) (λ j _ d, final j d) connection.idle d.
Proof.
  intros Hs. destruct b; apply holds_bind.
  - eapply holds_mono; [|by apply holds_Migrate]. done.
  - eapply holds_mono; [|by apply holds_MigrationsAtHead]. done.
Qed.

Record kept (w : world) : Prop := Kept {
  kept_sane : sane (database w);
  kept_sessions i s : sessions w !! i = Some s →
    holds_over (rest s) (λ j _ d, final j d) (conn s) (database w);
  kept_lock i j s s' : sessions w !! i = Some s → sessions w !! j = Some s' →
    connection.holds (conn s) = true → connection.holds (conn s') = true → i = j }.

Lemma perform_lock op c d c' d' r :
  perform op c d = (c', d', r) → connection.holds c' = true → connection.holds c = true ∨ op = AdvisoryLock.
Proof.
  intros He Hh. destruct op; try (by right); left; revert He; cbn; unfold on_view;
    repeat case_match; intros [= <- <- <-]; done.
Qed.

Lemma serve_lock op f c d c' d' r :
  serve op f c d = (c', d', r) → connection.holds c' = true →
  connection.holds c = true ∨ op = AdvisoryLock ∧ f = Fine.
Proof.
  unfold serve. destruct (negb _); [intros [= <- <- <-]; by left|]. destruct f.
  - intros He Hh. destruct (perform_lock _ _ _ _ _ _ He Hh); [by left|by right].
  - intros [= <- <- <-]. case_match; by left.
  - by intros [= <- <- <-].
Qed.

(** One session goes on; the others find what they may. *)
Lemma kept_turn w i c p c' p' d' :
  sessions w !! i = Some (Session c p) → sane d' → grows (database w) d' →
  (d' = database w ∨ connection.holds c = true) →
  holds_over p' (λ j _ d, final j d) c' d' →
  (connection.holds c' = true → connection.holds c = true ∨
     ∀ j s, j ≠ i → sessions w !! j = Some s → connection.holds (conn s) = false) →
  kept w → kept (World d' (<[i := Session c' p']> (sessions w))).
Proof.
  intros Hi Hs' Hg Hown Hp' Hlock [Hs Hall Hex]. split; cbn; [done| |].
  - intros j s [ [<- <-]|[Hne Hj] ]%lookup_insert_Some; [done|].
    apply (holds_shift _ _ (conn s) (database w)); [|split; [by left|]; split; [done|]; split; [done|]|by apply (Hall j)].
    + intros a c1 d1 c2 d2 (_ & ? & ? & _). by apply final_stays.
    + intros _ Hh. destruct Hown as [|Hc]; [done|]. destruct Hne. by apply (Hex i j (Session c p) s).
  - assert (Hone : ∀ j s, i ≠ j → sessions w !! j = Some s → connection.holds c' = true →
      connection.holds (conn s) = true → False).
    { intros j s Hne Hj Hc' Hh. destruct (Hlock Hc') as [Hc|Hno].
      - destruct Hne. by apply (Hex i j (Session c p) s).
      - by rewrite (Hno j s) in Hh. }
    intros j k s s' [ [<- <-]|[Hne Hj] ]%lookup_insert_Some [ [<- <-]|[Hne' Hk] ]%lookup_insert_Some; cbn.
    + done.
    + intros ? ?. by destruct (Hone k s').
    + intros ? ?. by destruct (Hone j s).
    + by apply (Hex j k).
Qed.

Lemma kept_step w w' : wstep ms w w' → kept w → kept w'.
Proof.
  destruct 1 as [w i b Hi|w i c op k f c' d' r Hi Hgrant He|w i c p Hi]; intros Hk; pose proof Hk as [Hs Hall Hex].
  - split; cbn; [done| |].
    + intros j s [ [<- <-]|[Hne Hj] ]%lookup_insert_Some; [by apply holds_job|by apply (Hall j)].
    + intros j l s s' [ [<- <-]|[Hne Hj] ]%lookup_insert_Some [ [<- <-]|[Hne' Hl] ]%lookup_insert_Some; cbn; try done.
      by apply (Hex j l).
  - destruct (Hall i _ Hi c (database w) f c' d' r (shifts_refl _ _ Hs) He) as [Heff Hp].
    apply (kept_turn w i c (Do op k)); try done.
    + by destruct Heff as [-> |(_ & ? & _)].
    + by destruct Heff as [-> |(_ & _ & ?)].
    + destruct Heff as [-> |(? & _)]; [by left|by right].
    + intros Hh. destruct (serve_lock _ _ _ _ _ _ _ He Hh) as [?|[-> ->] ]; [by left|right].
      by apply Hgrant.
  - apply (kept_turn w i c p); try done; [by left|].
    apply (holds_shift _ _ c (database w)); [|split; [by right|]; split; [done|]; split; [done|]; intros <- [=]|exact (Hall i _ Hi)].
    intros a c1 d1 c2 d2 (_ & ? & ? & _). by apply final_stays.
Qed.

Lemma kept_reachable w : rtc (wstep ms) (serving d0) w → kept w.
Proof.
  intros Hrun. assert (Hk : kept (serving d0)).
  { split; cbn; [by left| |]; intros; by rewrite lookup_empty in *. }
  induction Hrun; [done|]. apply IHHrun. by eapply kept_step.
Qed.
End Shared.

(** ** One runner by itself *)

Section Alone.
Context `{D : Ddl}.

(** Every call answered by a server nobody else uses. *)
Definition alone (op : op) (s : connection.t * Db.t) : connection.t * Db.t * answer op := perform op s.1 s.2.
Definition left_by {A} (p : prog answer A) (s : connection.t * Db.t) : connection.t * Db.t * outcome A :=
  ((exec alone p s).1.1, (exec alone p s).2).

Lemma left_by_do {A} op (k : answer op → prog answer A) s :
  left_by (Do op k) s = left_by (k (alone op s).2) (alone op s).1.
Proof. unfold left_by. cbn. destruct (alone op s) as [s1 r]. cbn. by destruct (exec alone (k r) s1) as [ [s2 tr] out]. Qed.

Lemma left_by_bind {A B} (p : prog answer A) (f : A → prog answer B) : ∀ s s1 a,
  left_by p s = (s1, Returned a) → left_by (p ≫= f) s = left_by (f a) s1.
Proof.
  induction p as [a'| |op k IH]; intros s s1 a.
  - by intros [= <- <-].
  - by intros [=].
  - rewrite left_by_do. intros E. cbn. rewrite left_by_do. by apply IH.
Qed.

Lemma left_by_deferred {A} op (p : prog answer A) s s1 a :
  left_by p s = (s1, Returned a) → left_by (deferred op p) s = ((alone op s1).1, Returned a).
Proof. intros E. unfold deferred. rewrite (left_by_bind _ _ _ _ _ E). exact (left_by_do op (λ _, Return a) s1). Qed.

Definition answered_as (out : Db.t * option MigrateError) : connection.t * Db.t * outcome (res MigrateError ()) :=
  (connection.mk true true None, out.1, Returned (match out.2 with None => Ok tt | Some e => Err e end)).

Lemma inserted_audit v name d d' : inserted v name d = Some d' →
  Db.audit d' = <[v := name]> <$> Db.audit d ∧ is_Some (Db.audit d').
Proof.
  unfold inserted. destruct (Db.audit d) as [a|]; [|done]. cbn. destruct (a !! v); [done|]. intros [= <-]. by split.
Qed.

Lemma executed_audit sql d d' : executed sql d = Some d' → Db.audit d' = Db.audit d.
Proof. unfold executed. destruct (execute _ _); [|done]. by intros [= <-]. Qed.

Lemma alone_migrateFrom l : ∀ i applied d,
  is_Some (Db.audit d) → (∀ v, Z.of_nat i < v → Db.audit d ≫= lookup v = applied !! v) →
  left_by (migrateFrom i applied l) (connection.mk true true None, d) = answered_as (walk i l d).
Proof.
  induction l as [|m l IH]; intros i applied d Ht Hread; cbn; [done|].
  rewrite <- (Hread (Z.of_nat i + 1)) by lia. destruct (Db.audit d ≫= lookup (Z.of_nat i + 1)) as [name|] eqn:Hv.
  - case_bool_decide; [|done]. apply IH; [done|]. intros v ?. apply Hread. lia.
  - unfold apply. cbn. rewrite left_by_do. cbn. rewrite left_by_do. cbn.
    destruct (executed (migration.sql m) d) as [d1|] eqn:He; cbn; [|by rewrite left_by_do].
    rewrite left_by_do. cbn. destruct (inserted _ _ d1) as [d2|] eqn:Hi; cbn; [|by rewrite left_by_do].
    rewrite left_by_do. cbn. apply inserted_audit in Hi as [Hi Hsome]. apply executed_audit in He.
    apply IH; [done|]. intros v ?. rewrite <- Hread by lia. rewrite Hi, He. destruct (Db.audit d) as [a|]; [|done].
    cbn. rewrite lookup_insert_ne by lia. done.
Qed.

Lemma walk_fixpoint l : ∀ i d d', walk i l d = (d', None) → is_Some (Db.audit d) → walk i l d' = (d', None).
Proof.
  intros i d d' Hw Ht. destruct (walk_audit l i d d' Hw Ht) as (_ & Hrow & _). clear d Hw Ht.
  revert i Hrow. induction l as [|m l IH]; intros i Hrow; cbn; [done|].
  assert (Hv := Hrow 0%nat m eq_refl). rewrite Nat.add_0_r in Hv. rewrite Hv, bool_decide_eq_true_2 by done.
  apply IH. intros k m' Hm. replace (S i + k)%nat with (i + S k)%nat by lia. by apply (Hrow (S k)).
Qed.

Lemma alone_looks ms d applied : Db.audit d = Some applied →
  left_by (MigrationsAtHead ms) (connection.idle, d) = (connection.idle, d, Returned (compare 0 applied ms)).
Proof.
  intros Ha. unfold left_by. cbn. rewrite bool_decide_eq_true_2 by by rewrite Ha. cbn. rewrite Ha. cbn.
  by rewrite rows_read.
Qed.

(** A walk that changes nothing has passed every migration over. *)
Lemma compare_head l : ∀ i d applied,
  Db.audit d = Some applied → walk i l d = (d, None) → compare i applied l = (true, 0, None).
Proof.
  intros i d applied Ha Hw. assert (Hrow : ∀ k m, l !! k = Some m → applied !! (Z.of_nat (i + k) + 1) = Some (migration.name m)).
  { intros k m Hm. destruct (walk_audit _ _ _ _ Hw) as (_ & Hrow & _); [by rewrite Ha|].
    specialize (Hrow k m Hm). by rewrite Ha in Hrow. }
  clear Ha Hw. revert i Hrow. induction l as [|m l IH]; intros i Hrow; cbn; [done|].
  assert (Hv := Hrow 0%nat m eq_refl). rewrite Nat.add_0_r in Hv. rewrite Hv, bool_decide_eq_true_2 by done.
  apply IH. intros k m' Hm. replace (S i + k)%nat with (i + S k)%nat by lia. by apply (Hrow (S k)).
Qed.

Lemma created_table (d : Db.t) : is_Some (Db.audit d) → created d = d.
Proof. intros [a Ha]. destruct d as [au sch]. cbn in *. by subst au. Qed.
End Alone.

(** ** What the runner promises *)

Section Promises.
Context `{D : Ddl}.

(** C15: Any number of runners and readers share a database, calls fail and connections are lost
    anywhere: the schema is always some first migrations of the list, each run once and in order on
    what was there at the start, and recorded; one session holds the lock at most; a runner that
    answers no error leaves the list complete, one that refuses a rewritten list refuses what the
    walk refuses, and a reader says head only of a complete list and otherwise names a version that
    was the next to run. *)
Theorem migrations_serialised ms d0 w :
  rtc (wstep ms) (serving d0) w →
  (database w = d0 ∨
   ∃ n, (n <= length ms)%nat ∧ walk 0 (take n ms) (created d0) = (database w, None)) ∧
  (∀ i j s s', sessions w !! i = Some s → sessions w !! j = Some s' →
     connection.holds (conn s) = true → connection.holds (conn s') = true → i = j) ∧
  (∀ i s j, sessions w !! i = Some s → rest s = Return j →
     match j with
     | Migrated (Ok _) | Looked (true, _, _) => walk 0 ms (created d0) = (database w, None)
     | Migrated (Err (errMigrationRewritten v ran listed))
     | Looked (false, _, Some (errMigrationRewritten v ran listed)) =>
         (walk 0 ms (created d0)).2 = Some (errMigrationRewritten v ran listed)
     | Looked (false, v, None) =>
         v = 1 ∧ Db.audit d0 = None ∨
         ∃ n d, v = Z.of_nat n + 1 ∧ (n < length ms)%nat ∧
           walk 0 (take n ms) (created d0) = (d, None) ∧ Db.audit d ≫= lookup v = None
     | _ => True
     end).
Proof.
  intros [Hs Hall Hex]%kept_reachable. split; [exact Hs|]. split; [exact Hex|].
  intros i s j Hi Hj. specialize (Hall i s Hi). rewrite Hj in Hall. cbn in Hall.
  destruct j as [ [ []|[] ]|[ [ [] v] e] ]; cbn in *; try done.
  - by apply at_head_walk.
  - destruct Hall as (_ & _ & Ha). by apply at_head_walk.
  - destruct e as [ [] |]; try done; [by destruct Hall|].
    destruct Hall as [?|(n & d & ? & ? & [_ ?] & _ & ?)]; [by left|right]. by exists n, d.
Qed.

(** C35: A runner by itself computes the reference: the migrations in order, the ones recorded under
    their own names passed over, up to the first that fails or was rewritten; it gives the lock back;
    and on the database it completed it does nothing more, while a reader says head. *)
Theorem migrate_exact ms d :
  let out := walk 0 ms (created d) in
  left_by (Migrate ms) (connection.idle, d) =
    (connection.idle, out.1, Returned (match out.2 with None => Ok tt | Some e => Err e end)) ∧
  (out.2 = None →
   left_by (Migrate ms) (connection.idle, out.1) = (connection.idle, out.1, Returned (Ok tt)) ∧
   left_by (MigrationsAtHead ms) (connection.idle, out.1) = (connection.idle, out.1, Returned (true, 0, None))).
Proof.
  assert (Hrun : ∀ d, left_by (Migrate ms) (connection.idle, d) =
    (connection.idle, (walk 0 ms (created d)).1,
     Returned (match (walk 0 ms (created d)).2 with None => Ok tt | Some e => Err e end))).
  { clear d. intros d. unfold Migrate. cbn -[deferred]. rewrite left_by_do. cbn -[deferred].
    eapply (left_by_deferred Release _ _ (connection.idle, _)).
    cbn -[deferred]. rewrite left_by_do. cbn -[deferred]. eapply (left_by_deferred AdvisoryUnlock _ _ (connection.mk true true None, _)).
    cbn. rewrite left_by_do. cbn. rewrite left_by_do. cbn. rewrite rows_read.
    change (connection.lock true connection.idle) with (connection.mk true true None).
    rewrite alone_migrateFrom; [done|by eexists|done]. }
  intros out. split; [apply Hrun|]. intros Hout.
  destruct out as [d' e] eqn:Eo. cbn in Hout. subst e. cbn [fst snd].
  destruct (walk_audit _ _ _ _ Eo) as (Ht & _); [by eexists|].
  assert (Hfix := walk_fixpoint _ _ _ _ Eo ltac:(by eexists)). split.
  - by rewrite Hrun, created_table, Hfix.
  - destruct Ht as [applied Ha]. by rewrite (alone_looks _ _ _ Ha), (compare_head _ _ _ _ Ha Hfix).
Qed.
End Promises.

(** A call that goes well, while nobody else holds the lock. *)
Lemma turn_alone `{D : Ddl} ms (others : gmap nat session) i op (k : answer op → prog answer job) c d c1 d1 r w' :
  (∀ j s, others !! j = Some s → connection.holds (conn s) = false) →
  connection.live c = true → perform op c d = (c1, d1, r) →
  rtc (wstep ms) (World d1 (<[i := Session c1 (k r)]> others)) w' →
  rtc (wstep ms) (World d (<[i := Session c (Do op k)]> others)) w'.
Proof.
  intros Hothers Hl He Hrun. eapply rtc_l.
  - apply (wstep_call _ _ i c op k Fine c1 d1 r); cbn.
    + apply lookup_insert_eq.
    + intros _ _ j s Hne Hj. cbn in Hj. rewrite lookup_insert_ne in Hj by done. by apply (Hothers j).
    + unfold serve. by rewrite Hl.
  - cbn. by rewrite insert_insert_eq.
Qed.

(** ** Two runners on an empty database *)

Definition listing : Ddl := {|
  Sql := string;
  Schema := list string;
  execute := λ sql schema, Some (schema ++ [sql]) |}.

Definition oneMigration : list (migration.t (D := listing)) := [newSqlMigration (D := listing) "001 message_group" "CREATE TABLE message_group"].
Definition emptyDb : Db.t (D := listing) := Db.mk (D := listing) None [].
Definition headDb : Db.t (D := listing) :=
  Db.mk (D := listing) (Some {[1 := "001 message_group"]}) ["CREATE TABLE message_group"].

(** The second has finished, the first has not begun. *)
Definition oneDone : world (D := listing) :=
  World (D := listing) headDb
    (<[1%nat := Session connection.idle (Return (Migrated (Ok tt)))]>
      {[0%nat := Session connection.idle (jobOf true oneMigration)]}).

Lemma oneDone_reachable : rtc (wstep oneMigration) (serving emptyDb) oneDone.
Proof.
  eapply rtc_l; [by apply (wstep_start _ _ 0%nat true)|]. eapply rtc_l; [by apply (wstep_start _ _ 1%nat true)|].
  unfold oneDone, jobOf. cbn [database sessions serving]. rewrite insert_empty.
  do 10 (eapply turn_alone; [by intros j s [<- <-]%lookup_singleton_Some|reflexivity|reflexivity|]; cbn [attempt prog_bind mbind prog_mbind deferred call appliedMigrations apply]).
  apply rtc_refl.
Qed.

Lemma migrations_serialised_witness : walk 0 oneMigration (created emptyDb) = (database oneDone, None).
Proof.
  destruct (migrations_serialised oneMigration emptyDb oneDone oneDone_reachable) as (_ & _ & Hall).
  apply (Hall 1%nat (Session connection.idle (Return (Migrated (Ok tt)))) (Migrated (Ok tt))); reflexivity.
Defined.

Lemma migrate_exact_witness :
  left_by (Migrate oneMigration) (connection.idle, emptyDb) = (connection.idle, headDb, Returned (Ok tt)) ∧
  left_by (Migrate oneMigration) (connection.idle, headDb) = (connection.idle, headDb, Returned (Ok tt)).
Proof. destruct (migrate_exact oneMigration emptyDb) as [H1 H2]. split; [exact H1|exact (proj1 (H2 eq_refl))]. Defined.
