(* ===== verification/Deployment.v ===== *)
(** * What a process is deployed with ([cmd/message-server/deployment.go], and what of [transport.go]
    and [endpoint.go] is read out of it)

    The resources a process reads and the environment, in the order it reads them, each value from
    the environment if it is there and from its file otherwise; what is printed about them; and the
    service addresses an operator's host name gives.  The parser of a credential is the platform
    library's, and a parameter: it may answer, refuse or panic. *)

From S2P Require Import Resource Prelude Settings.

(** ** The standard library's parts *)

Definition slash : ascii := "/".

(** A path cut at its slashes. *)
Fixpoint splitSlash (s held : text) : list text :=
  match s with
  | [] => [held]
  | a :: rest => if bool_decide (a = slash) then held :: splitSlash rest [] else splitSlash rest (held ++ [a])
  end.

(** One component after those kept, the last of them first. *)
Definition cleanStep (rooted : bool) (kept : list text) (part : text) : list text :=
  if bool_decide (part = []) || bool_decide (part = str ".") then kept
  else if bool_decide (part = str "..") then
    match kept with
    | last :: rest => if bool_decide (last = str "..") then part :: kept else rest
    | [] => if rooted then [] else [part]
    end
  else part :: kept.

Fixpoint joinSlash (parts : list text) : text :=
  match parts with
  | [] => []
  | [part] => part
  | part :: rest => part ++ slash :: joinSlash rest
  end.

(** [filepath.Clean] and [filepath.Join], where a path is separated by slashes. *)
Definition Clean (path : text) : text :=
  let rooted := HasPrefix path slash in
  let parts := rev (foldl (cleanStep rooted) [] (splitSlash path [])) in
  if rooted then slash :: joinSlash parts
  else if bool_decide (parts = []) then str "." else joinSlash parts.
Definition Join (parts : list text) : text :=
  match filter (λ part, part ≠ []) parts with [] => [] | parts => Clean (joinSlash parts) end.

Definition IsAbs (path : text) : bool := HasPrefix path slash.

Definition hexDigit (a : ascii) : option Z :=
  if (48 <=? code a) && (code a <=? 57) then Some (code a - 48)
  else if (97 <=? code a) && (code a <=? 102) then Some (code a - 87)
  else if (65 <=? code a) && (code a <=? 70) then Some (code a - 55)
  else None.

(** [hex.DecodeString] *)
Fixpoint decodeHex (s : text) : option (list Z) :=
  match s with
  | [] => Some []
  | [_] => None
  | a :: b :: rest => high ← hexDigit a; low ← hexDigit b; octets ← decodeHex rest; Some (16 * high + low :: octets)
  end.

(** [strconv.ParseUint] to base 10 and 8 bits. *)
Definition ParseUint8 (s : text) : option Z :=
  if bool_decide (s = []) then None
  else n ← readDigits s 0; if 256 <=? n then None else Some n.

(** [strings.EqualFold] against a text of digits, letters up to f and hyphens. *)
Definition lower (a : ascii) : ascii :=
  if (65 <=? code a) && (code a <=? 90) then ascii_of_N (Z.to_N (code a + 32)) else a.
Definition EqualFold (s t : text) : bool := bool_decide (lower <$> s = lower <$> t).

(** [fmt]'s [%-22s] of a text in ASCII. *)
Definition padRight (width : nat) (s : text) : text := s ++ repeat " "%char (width - length s)%nat.

Fixpoint contains (s part : text) : bool :=
  bool_decide (part `prefix_of` s) || match s with [] => false | _ :: rest => contains rest part end.

(** ** The platform's credentials *)

Inductive parsed : Type := ParsedId (clientId : list Z) | Unparsed | Panics.

Class Credentials := {
  ParseByJwtUnverified : text → parsed;
  IdString : list Z → text }.

(** [connect.Id{}] *)
Definition zeroId : list Z := repeat 0 16.

(** ** The deployment *)

Inductive source : Type := sourceAbsent | sourceFile | sourceEnvironment.
#[global] Instance source_eq : EqDecision source.
Proof. solve_decision. Defined.

Definition sourceString (self : source) : text :=
  match self with
  | sourceFile => str "present (file)"
  | sourceEnvironment => str "present (environment)"
  | sourceAbsent => str "ABSENT"
  end.

Module deployment.
Record t := mk {
  resourceDir : text;
  ordinal : text;
  healthAddress : text;
  dsn : text;
  kekId : Z;
  kek : slice;
  serverId : slice;
  byJwt : text;
  clientId : list Z;
  dsnSource : source;
  kekSource : source;
  serverIdSource : source;
  byJwtSource : source }.
Definition set_dsn (x : text) (s : source) (d : t) : t :=
  mk (resourceDir d) (ordinal d) (healthAddress d) x (kekId d) (kek d) (serverId d) (byJwt d) (clientId d)
    s (kekSource d) (serverIdSource d) (byJwtSource d).
Definition set_kek (x : slice) (s : source) (d : t) : t :=
  mk (resourceDir d) (ordinal d) (healthAddress d) (dsn d) (kekId d) x (serverId d) (byJwt d) (clientId d)
    (dsnSource d) s (serverIdSource d) (byJwtSource d).
Definition set_kekId (x : Z) (d : t) : t :=
  mk (resourceDir d) (ordinal d) (healthAddress d) (dsn d) x (kek d) (serverId d) (byJwt d) (clientId d)
    (dsnSource d) (kekSource d) (serverIdSource d) (byJwtSource d).
Definition set_serverId (x : slice) (s : source) (d : t) : t :=
  mk (resourceDir d) (ordinal d) (healthAddress d) (dsn d) (kekId d) (kek d) x (byJwt d) (clientId d)
    (dsnSource d) (kekSource d) s (byJwtSource d).
Definition set_byJwt (x : text) (s : source) (d : t) : t :=
  mk (resourceDir d) (ordinal d) (healthAddress d) (dsn d) (kekId d) (kek d) (serverId d) x (clientId d)
    (dsnSource d) (kekSource d) (serverIdSource d) s.
Definition set_clientId (x : list Z) (d : t) : t :=
  mk (resourceDir d) (ordinal d) (healthAddress d) (dsn d) (kekId d) (kek d) (serverId d) (byJwt d) x
    (dsnSource d) (kekSource d) (serverIdSource d) (byJwtSource d).
End deployment.

Definition messageResource : text := str "message.yml".
Definition pgResource : text := str "pg.yml".
Definition fleetResource : text := str "message_fleet.yml".
Definition messageServerResource : text := str "message_server.yml".
Definition serverIdBytes : nat := 16.
Definition kekBytes : nat := 32.
Definition ordinalVariable : text := str "MESSAGE_SERVER_ORDINAL".
Definition defaultOrdinal : text := str "0".
Definition defaultHealthAddress : text := str "127.0.0.1:9099".
Definition resourceDirVariable : text := str "URMESSAGE_RESOURCE_DIR".
Definition dsnVariable : text := str "URMESSAGE_PG_DSN".
Definition kekVariable : text := str "URMESSAGE_WRITE_KEY_KEK".
Definition kekIdVariable : text := str "URMESSAGE_WRITE_KEY_KEK_ID".
Definition serverIdVariable : text := str "URMESSAGE_SERVER_ID".
Definition byJwtVariable : text := str "URMESSAGE_BY_JWT".
Definition healthAddressVariable : text := str "URMESSAGE_HEALTH_ADDRESS".

(** Why a deployment is not loaded; no error carries a value. *)
Inductive DeploymentError : Type :=
  | BadOrdinal
  | BadResource (e : ResourceError)
  | errResourceMissing (path : text)
  | errNotHex (name : text)
  | errWrongLength (name : text) (octets : nat) (want : nat)
  | BadKekId
  | errJwtClaimType (ordinal : text)
  | JwtUnparsed (ordinal : text)
  | errJwtNoClientId (ordinal : text)
  | ClientIdDiffers (ordinal : text).

Section Loading.
Context `{C : Credentials}.
Context (lookupEnvironment : text → option text) (files : text → opened).

(** [if value, found := lookupEnvironment(variable); found && value != ""] *)
Definition given (variable : text) : option text :=
  value ← lookupEnvironment variable; if bool_decide (value = []) then None else Some value.

Definition pick (file : resource.t) (key variable : text) : text * source :=
  match given variable with
  | Some value => (value, sourceEnvironment)
  | None =>
      let value := default [] (Resource.lookup file key) in
      if bool_decide (value = []) then ([], sourceAbsent) else (value, sourceFile)
  end.

Definition fixedHex (value : text) (width : nat) (name : text) : res DeploymentError slice :=
  match decodeHex (TrimSpace value) with
  | None => Err (errNotHex name)
  | Some decoded => if bool_decide (length decoded = width) then Ok (Some decoded)
                    else Err (errWrongLength name (length decoded) width)
  end.

(** A panic of the library becomes a named refusal. *)
Definition parseCredential (byJwt : text) : res bool (list Z) :=
  match ParseByJwtUnverified byJwt with
  | ParsedId id => Ok id
  | Unparsed => Err false
  | Panics => Err true
  end.

(** What [loadDeployment] answers: the deployment so far, the [message.yml] so far, the error. *)
Abbreviation loading := (deployment.t * option resource.t * option DeploymentError)%type.

(** Reading one file, the rest behind it; a reader without an error has a resource. *)
Definition reading (d : deployment.t) (m : option resource.t) (name : text) (k : resource.t → loading) : loading :=
  match readResource (Join [deployment.resourceDir d; name]) (files (Join [deployment.resourceDir d; name])) with
  | (_, _, Some e) => (d, m, Some (BadResource e))
  | (Some file, _, None) => k file
  | (None, _, None) => (d, m, None)
  end.

Definition initial : deployment.t :=
  deployment.mk
    (default (str ".") (given resourceDirVariable))
    (default defaultOrdinal (given ordinalVariable))
    (default defaultHealthAddress (given healthAddressVariable))
    [] 0 None None [] zeroId sourceAbsent sourceAbsent sourceAbsent sourceAbsent.

(** A value of a fixed width, if there is one. *)
Definition takeHex (d : deployment.t) (m : option resource.t) (file : resource.t) (key variable : text) (width : nat)
    (set : slice → source → deployment.t → deployment.t) (k : deployment.t → loading) : loading :=
  let '(value, from) := pick file key variable in
  if bool_decide (value = []) then k d
  else match fixedHex value width key with
       | Err e => (d, m, Some e)
       | Ok octets => k (set octets from d)
       end.

(** The credential of this ordinal, against the id written beside it. *)
Definition takeCredential (d : deployment.t) (m : option resource.t) (credentials : resource.t)
    (k : deployment.t → loading) : loading :=
  let ordinal := deployment.ordinal d in
  let '(byJwt, from) := pick credentials (ordinal ++ str ".by_jwt") byJwtVariable in
  let d := deployment.set_byJwt byJwt from d in
  if bool_decide (byJwt = []) then k d
  else match parseCredential byJwt with
       | Err true => (d, m, Some (errJwtClaimType ordinal))
       | Err false => (d, m, Some (JwtUnparsed ordinal))
       | Ok clientId =>
           if bool_decide (clientId = zeroId) then (d, m, Some (errJwtNoClientId ordinal))
           else
             let d := deployment.set_clientId clientId d in
             let declared := default [] (Resource.lookup credentials (ordinal ++ str ".client_id")) in
             if negb (bool_decide (declared = [])) && negb (EqualFold declared (IdString clientId))
             then (d, m, Some (ClientIdDiffers ordinal))
             else k d
       end.

(** The id of the key-encryption key, if there is one. *)
Definition takeKekId (d : deployment.t) (m : option resource.t) (fleet : resource.t) (k : deployment.t → loading) : loading :=
  let '(value, _) := pick fleet (str "write_key_kek_id") kekIdVariable in
  if bool_decide (value = []) then k d
  else match ParseUint8 value with
       | None => (d, m, Some BadKekId)
       | Some parsed => k (deployment.set_kekId parsed d)
       end.

(** A missing DSN is refused at the end, when everything else is loaded. *)
Definition loadDeployment : loading :=
  let d := initial in
  if negb (simpleKey (deployment.ordinal d)) then (d, None, Some BadOrdinal)
  else
    reading d None messageResource (λ message,
    let m := Some message in
    reading d m pgResource (λ postgres,
    let '(dsn, from) := pick postgres (str "dsn") dsnVariable in
    let d := deployment.set_dsn dsn from d in
    let missingDsn := if bool_decide (dsn = []) then Some (errResourceMissing (Join [deployment.resourceDir d; pgResource])) else None in
    reading d m fleetResource (λ fleet,
    takeHex d m fleet (str "write_key_kek") kekVariable kekBytes deployment.set_kek (λ d,
    takeKekId d m fleet (λ d,
    takeHex d m fleet (str "server_id") serverIdVariable serverIdBytes deployment.set_serverId (λ d,
    reading d m messageServerResource (λ credentials,
    takeCredential d m credentials (λ d, (d, m, missingDsn))))))))).
End Loading.

(** ** What is printed *)

Definition resourceLine (name : text) (presence rest : text) : text :=
  padRight 22 name ++ str " " ++ padRight 22 presence ++ str " " ++ rest.

Definition ordinalCredentialWarning (self : deployment.t) : text :=
  if bool_decide (deployment.byJwtSource self = sourceEnvironment) then
    resourceLine messageServerResource (str "WARNING")
      (str "this ordinal's credential came from " ++ byJwtVariable ++
       str ", which is ONE value for the whole process: §9.1 requires one network_client per ordinal, and N replicas sharing this variable share a client_id")
  else [].

Definition deploymentLines (self : deployment.t) : list text :=
  let lines := [
    resourceLine (str "resource directory") [] (deployment.resourceDir self);
    resourceLine messageServerResource (sourceString (deployment.byJwtSource self))
      (str "ordinal " ++ deployment.ordinal self ++ str " (" ++ ordinalVariable ++ str ")");
    resourceLine pgResource (sourceString (deployment.dsnSource self))
      (str "postgres connection, message-server cluster (decision B10: not the operator's)");
    resourceLine fleetResource (sourceString (deployment.kekSource self)) (str "write_key_kek (§5.5)");
    resourceLine fleetResource (sourceString (deployment.serverIdSource self))
      (str "server_id, 16 octets, stable per fleet (§4.3.1)");
    resourceLine messageResource [] (str "the §10.2 values below")] in
  let warning := ordinalCredentialWarning self in
  if bool_decide (warning = []) then lines else lines ++ [warning].

(** ** Service addresses *)

Inductive HostError : Type := errNoOperatorHost | errBadOperatorHost.

Definition serviceUrls (operatorHost : text) : res HostError (text * text) :=
  let host := TrimSpace operatorHost in
  if bool_decide (host = []) then Err errNoOperatorHost
  else if existsb (λ a, bool_decide (a ∈ ["/"; ":"; "?"; " "]%char)) host then Err errBadOperatorHost
  else Ok (str "https://api." ++ host, str "wss://connect." ++ host).

(** Where a certificate's file is, in [openEndpoint]. *)
Definition resolve (deploy : deployment.t) (path : text) : text :=
  if bool_decide (path = []) || IsAbs path then path else Join [deployment.resourceDir deploy; path].

(** ** What a deployment that loads holds *)

Section Loaded.
Context `{C : Credentials}.
Context (lookupEnvironment : text → option text) (files : text → opened).
Abbreviation given := (given lookupEnvironment).
Abbreviation pick := (pick lookupEnvironment).

(** The errors a configuration is printed in spite of. *)
Definition printable (err : option DeploymentError) : Prop :=
  match err with None | Some (errResourceMissing _) => True | _ => False end.

(** A file read whole. *)
Definition read (d : deployment.t) (name : text) (file : resource.t) : Prop :=
  ∃ there, readResource (Join [deployment.resourceDir d; name]) (files (Join [deployment.resourceDir d; name])) = (Some file, there, None).

Lemma readResource_answers path file : ∀ there, readResource path file ≠ (None, there, None).
Proof.
  intros there. unfold readResource. destruct file as [| |content failed]; [done..|].
  destruct (scanLines _ _ _) as [lines tooLong]. repeat (case_match; try done).
Qed.

Lemma reading_ok d m name k d' m' err :
  reading files d m name k = (d', m', err) → printable err → ∃ file, read d name file ∧ k file = (d', m', err).
Proof.
  unfold reading, read. destruct (readResource _ _) as [ [ [file|] there] [e|] ] eqn:E.
  - by intros [= <- <- <-] [].
  - intros Hk _. exists file. split; [by exists there|done].
  - by intros [= <- <- <-] [].
  - by destruct (readResource_answers _ _ _ E).
Qed.

(** A value in hexadecimal as it is held: none of it if it was not given, and of its width if it was. *)
Definition hex_held (file : resource.t) (key variable : text) (width : nat) (held : slice) (from : source) : Prop :=
  let '(value, picked) := pick file key variable in
  if bool_decide (value = []) then held = None ∧ from = sourceAbsent
  else from = picked ∧ ∃ decoded, decodeHex (TrimSpace value) = Some decoded ∧ length decoded = width ∧ held = Some decoded.

Lemma takeHex_ok d m file key variable width set k d' m' err :
  set None sourceAbsent d = d →
  takeHex lookupEnvironment d m file key variable width set k = (d', m', err) → printable err →
  ∃ octets from, k (set octets from d) = (d', m', err) ∧ hex_held file key variable width octets from.
Proof.
  intros Hset. unfold takeHex, hex_held. destruct (pick file key variable) as [value picked]. case_bool_decide as Hv.
  - intros Hk _. exists None, sourceAbsent. by rewrite Hset.
  - unfold fixedHex. destruct (decodeHex _) as [decoded|] eqn:Hd; [|by intros [= <- <- <-] [] ].
    case_bool_decide as Hl; [|by intros [= <- <- <-] [] ].
    intros Hk _. exists (Some decoded), picked. split; [exact Hk|]. split; [done|]. by exists decoded.
Qed.

(** The credential as it is held. *)
Definition credential_held (d : deployment.t) (credentials : resource.t) : Prop :=
  let ordinal := deployment.ordinal d in
  (deployment.byJwt d, deployment.byJwtSource d) = pick credentials (ordinal ++ str ".by_jwt") byJwtVariable ∧
  if bool_decide (deployment.byJwt d = []) then deployment.clientId d = zeroId
  else ParseByJwtUnverified (deployment.byJwt d) = ParsedId (deployment.clientId d) ∧ deployment.clientId d ≠ zeroId ∧
       ∀ declared, Resource.lookup credentials (ordinal ++ str ".client_id") = Some declared → declared ≠ [] →
         EqualFold declared (IdString (deployment.clientId d)) = true.

Lemma takeCredential_ok d m credentials k d' m' err :
  deployment.clientId d = zeroId →
  takeCredential lookupEnvironment d m credentials k = (d', m', err) → printable err →
  ∃ d1, k d1 = (d', m', err) ∧ credential_held d1 credentials ∧
    ∃ byJwt from id, d1 = deployment.set_clientId id (deployment.set_byJwt byJwt from d).
Proof.
  intros Hz. unfold takeCredential, credential_held.
  destruct (pick credentials _ _) as [byJwt from] eqn:Hp. case_bool_decide as Hj.
  - intros Hk _. eexists. split; [exact Hk|]. cbn -[str Deployment.pick Resource.lookup]. rewrite Hp. rewrite bool_decide_eq_true_2 by done.
    split; [done|]. exists byJwt, from, zeroId. unfold deployment.set_clientId, deployment.set_byJwt. cbn. by rewrite Hz.
  - unfold parseCredential. destruct (ParseByJwtUnverified byJwt) as [id| |] eqn:Hparse; [|by intros [= <- <- <-] []..].
    case_bool_decide as Hid; [by intros [= <- <- <-] []|]. cbn [deployment.ordinal deployment.set_byJwt].
    destruct (_ && _) eqn:Hdec; [by intros [= <- <- <-] []|].
    intros Hk _. eexists. split; [exact Hk|]. cbn -[str Deployment.pick Resource.lookup]. rewrite Hp, bool_decide_eq_false_2 by done.
    split; [|by exists byJwt, from, id]. split; [done|]. split; [done|]. split; [done|].
    intros declared Hl Hne. rewrite Hl in Hdec. change (default [] (Some declared)) with declared in Hdec.
    rewrite bool_decide_eq_false_2 in Hdec by done. cbn -[EqualFold] in Hdec. by apply negb_false_iff.
Qed.

Lemma takeKekId_ok d m fleet k d' m' err :
  takeKekId lookupEnvironment d m fleet k = (d', m', err) → printable err →
  ∃ n, k (deployment.set_kekId n d) = (d', m', err) ∧
    let '(value, _) := pick fleet (str "write_key_kek_id") kekIdVariable in
    if bool_decide (value = []) then n = deployment.kekId d else ParseUint8 value = Some n.
Proof.
  unfold takeKekId. destruct (pick fleet _ _) as [value from]. case_bool_decide as Hv.
  - intros Hk _. exists (deployment.kekId d). split; [by destruct d|done].
  - destruct (ParseUint8 value) as [n|]; [|by intros [= <- <- <-] []]. intros Hk _. by exists n.
Qed.

(** A deployment, the files it was read from, and what it lacks. *)
Definition holds_what_it_read (d : deployment.t) (m : option resource.t) (err : option DeploymentError) : Prop :=
  simpleKey (deployment.ordinal d) = true ∧
  deployment.resourceDir d = default (str ".") (given resourceDirVariable) ∧
  deployment.ordinal d = default defaultOrdinal (given ordinalVariable) ∧
  deployment.healthAddress d = default defaultHealthAddress (given healthAddressVariable) ∧
  ∃ message postgres fleet credentials,
    m = Some message ∧
    read d messageResource message ∧ read d pgResource postgres ∧ read d fleetResource fleet ∧
    read d messageServerResource credentials ∧
    (deployment.dsn d, deployment.dsnSource d) = pick postgres (str "dsn") dsnVariable ∧
    (err = None ↔ deployment.dsn d ≠ []) ∧
    hex_held fleet (str "write_key_kek") kekVariable kekBytes (deployment.kek d) (deployment.kekSource d) ∧
    (let '(value, _) := pick fleet (str "write_key_kek_id") kekIdVariable in
     if bool_decide (value = []) then deployment.kekId d = 0 else ParseUint8 value = Some (deployment.kekId d)) ∧
    hex_held fleet (str "server_id") serverIdVariable serverIdBytes (deployment.serverId d) (deployment.serverIdSource d) ∧
    credential_held d credentials.

Lemma loads d m err :
  loadDeployment lookupEnvironment files = (d, m, err) → printable err → holds_what_it_read d m err.
Proof.
  unfold loadDeployment. intros Hload Hp. set (d0 := initial lookupEnvironment) in *.
  destruct (simpleKey (deployment.ordinal d0)) eqn:Hk; cbn [negb] in Hload; [|by injection Hload as <- <- <-].
  apply reading_ok in Hload as (message & Hmessage & Hload); [|done].
  apply reading_ok in Hload as (postgres & Hpostgres & Hload); [|done].
  destruct (pick postgres (str "dsn") dsnVariable) as [dsn from] eqn:Hdsn.
  apply reading_ok in Hload as (fleet & Hfleet & Hload); [|done].
  apply takeHex_ok in Hload as (kek & kekFrom & Hload & Hkek); [|done..].
  apply takeKekId_ok in Hload as (n & Hload & Hn); [|done].
  apply takeHex_ok in Hload as (serverId & serverIdFrom & Hload & HserverId); [|done..].
  apply reading_ok in Hload as (credentials & Hcredentials & Hload); [|done].
  apply takeCredential_ok in Hload as (d3 & Hload & Hheld & byJwt & byJwtFrom & id & E); [|done..].
  injection Hload as <- <- <-. split; [by subst d3|]. split; [by subst d3|]. split; [by subst d3|]. split; [by subst d3|].
  exists message, postgres, fleet, credentials. split; [done|].
  split; [by subst d3|]. split; [by subst d3|]. split; [by subst d3|]. split; [by subst d3|].
  split; [by subst d3|]. split; [subst d3; by case_bool_decide|].
  split; [by subst d3|]. split; [by subst d3|]. split; [by subst d3|]. done.
Qed.
End Loaded.


(** ** One value in the environment *)

Definition someIds : Credentials := {|
  ParseByJwtUnverified := λ token, if bool_decide (token = str "token") then ParsedId (repeat 5 16) else Unparsed;
  IdString := λ _, str "05050505" |}.
Definition someEnvironment (name : text) : option text :=
  if bool_decide (name = dsnVariable) then Some (str "postgres://") else
  if bool_decide (name = byJwtVariable) then Some (str "token") else None.
Definition someLoad : deployment.t * option resource.t * option DeploymentError :=
  loadDeployment (C := someIds) someEnvironment (λ _, Missing).

