(* ===== verification/Wiring.v ===== *)
(** * Starting, readiness and stopping ([cmd/message-server/server.go], [endpoint.go], [health.go])

    [buildServer] makes the process's collaborators in order; each step may fail, and is a call of a
    program, so what a failed start has opened and closed is in its trace.  Then the preconditions
    of [/readyz] and its answers, what a failed bind may say, and the order of [Close]. *)

From S2P Require Import Resource Prelude StoreTypes Retention Settings Prog Api ApiRendezvous Reassembly Dispatch Deployment.

(** ** Addresses *)

Definition colon : ascii := ":".
Definition openBracket : ascii := "[".
Definition closeBracket : ascii := "]".
Definition holdsOctet (s : text) (a : ascii) : bool := bool_decide (a ∈ s).

(** [net.SplitHostPort]; [None] for its errors. *)
Definition SplitHostPort (address : text) : option (text * text) :=
  '(backPort, backHost) ← Cut colon (rev address);
  let port := rev backPort in
  let before := rev backHost in
  match address with
  | a :: rest =>
      if bool_decide (a = openBracket) then
        '(host, behind) ← Cut closeBracket rest;
        if negb (bool_decide (behind = colon :: port)) then None
        else if holdsOctet host openBracket || holdsOctet port openBracket || holdsOctet port closeBracket then None
        else Some (host, port)
      else if holdsOctet before colon then None
      else if holdsOctet address openBracket || holdsOctet address closeBracket then None
      else Some (before, port)
  | [] => None
  end.

(** An address that will not split is treated as named. *)
Definition namesTheAddress (message address : text) : bool :=
  if bool_decide (address = []) then false
  else if contains message address then true
  else match SplitHostPort address with
       | None => true
       | Some (host, port) =>
           (negb (bool_decide (host = [])) && contains message host) ||
           (negb (bool_decide (port = [])) && contains message port)
       end.

(** A failure to listen: its text, and its cause's when it is the network's own error. *)
Module bindError.
Record t := mk { message : text; cause : option text }.
Definition said (e : t) : text := default (message e) (cause e).
End bindError.

Inductive BindFailure : Type := errNotBound | Bound (said : text).
Definition bindFailure (err : bindError.t) (address : text) : BindFailure :=
  if namesTheAddress (bindError.said err) address then errNotBound else Bound (bindError.said err).

(** ** The start *)

(** What a start may fail with. *)
Inductive StartError : Type :=
  | errNoCarrier
  | NoPool
  | BadKek
  | Unbuilt
  | errEndpointNoCertificate | CertificateUnloaded | EndpointUnbuilt
  | EndpointUnbound (why : BindFailure)
  | errNoCredential
  | NoServiceUrl (e : HostError).

(** What [buildServer] makes and undoes.  The constructors that open nothing are one call. *)
Inductive wiring : Type :=
  | NewPgxPool (dsn : text) | ClosePool
  | NewKekRing (id : Z) (kek : slice)
  | Construct (what : string)
  | LoadX509KeyPair (certificate key : text) | NewEndpoint | Listen (address : text) | CloseEndpoint | CloseListener
  | NewClient (clientId : list Z) (byJwt apiUrl platformUrl : text) | CloseAttachment
  | NewPeer (serverId : slice) | SetPusher | GoServe
  | StartSweep.

Definition made (c : wiring) : Type :=
  match c with
  | NewPgxPool _ | NewKekRing _ _ | Construct _ | LoadX509KeyPair _ _ | NewEndpoint | NewPeer _ => bool
  | Listen _ => option bindError.t
  | _ => ()
  end.

(** The collaborators [server] is left with. *)
Module server.
Record t := mk {
  config : configuration.t;
  deploy : deployment.t;
  endpoint : bool;
  attachment : option (text * text);
  dispatch : bool }.
End server.

Section Start.
Context (deploy : deployment.t) (loaded : configuration.t).
Abbreviation program := (prog made).
Abbreviation starting := (program (res StartError server.t)).

Definition openEndpoint : program (option StartError) :=
  if bool_decide (configuration.endpointCertificateFile loaded = []) ||
     bool_decide (configuration.endpointPrivateKeyFile loaded = [])
  then Return (Some errEndpointNoCertificate)
  else
    certificate ← call (answer := made) (LoadX509KeyPair (resolve deploy (configuration.endpointCertificateFile loaded))
                                                          (resolve deploy (configuration.endpointPrivateKeyFile loaded)));
    if negb (certificate : bool) then Return (Some CertificateUnloaded)
    else
      served ← call (answer := made) NewEndpoint;
      if negb (served : bool) then Return (Some EndpointUnbuilt)
      else
        listened ← call (answer := made) (Listen (configuration.endpointListenAddress loaded));
        match listened : option bindError.t with
        | Some err =>
            _ ← call (answer := made) CloseEndpoint;
            Return (Some (EndpointUnbound (bindFailure err (configuration.endpointListenAddress loaded))))
        | None => Return None
        end.

(** The three inputs an attachment needs. *)
Definition canAttach : bool :=
  if bool_decide (deployment.byJwt deploy = []) ||
     negb (bool_decide (length (octets (deployment.serverId deploy)) = serverIdBytes)) then false
  else match serviceUrls (configuration.operatorHost loaded) with Ok _ => true | Err _ => false end.
Definition wantsAttachment : bool := attachesToPlatform loaded && canAttach.

Definition attachToPlatform : program (res StartError (text * text)) :=
  if bool_decide (deployment.byJwt deploy = []) then Return (Err errNoCredential)
  else match serviceUrls (configuration.operatorHost loaded) with
       | Err e => Return (Err (NoServiceUrl e))
       | Ok (apiUrl, platformUrl) =>
           _ ← call (answer := made) (NewClient (deployment.clientId deploy) (deployment.byJwt deploy) apiUrl platformUrl);
           Return (Ok (apiUrl, platformUrl))
       end.

Definition closeEndpoint (endpoint : bool) : program () :=
  if endpoint then
    _ ← call (answer := made) CloseEndpoint; _ ← call (answer := made) CloseListener; Return tt
  else Return tt.

Definition closeAttachment (attachment : option (text * text)) : program () :=
  match attachment with Some _ => _ ← call (answer := made) CloseAttachment; Return tt | None => Return tt end.

(** A failure behind the pool closes it. *)
Definition fail (e : StartError) : starting :=
  _ ← call (answer := made) ClosePool; Return (Err e).

Definition construct (what : string) (next : starting) : starting :=
  built ← call (answer := made) (Construct what);
  if negb (built : bool) then fail Unbuilt else next.

(** The peer in front of whichever carriers there are, and the sweep last. *)
Definition serveWith (endpoint : bool) (attachment : option (text * text)) : starting :=
  let carrier := endpoint || bool_decide (is_Some attachment) in
  let started :=
    _ ← call (answer := made) StartSweep;
    Return (Ok (server.mk loaded deploy endpoint attachment carrier)) in
  if carrier then
    dispatch ← call (answer := made) (NewPeer (deployment.serverId deploy));
    if negb (dispatch : bool) then
      _ ← closeAttachment attachment;
      _ ← closeEndpoint endpoint;
      fail Unbuilt
    else
      _ ← call (answer := made) SetPusher;
      if endpoint then _ ← call (answer := made) GoServe; started else started
  else started.

Definition carriers : starting :=
  opened ← (if bool_decide (configuration.endpointListenAddress loaded = []) then Return None else openEndpoint);
  match opened with
  | Some e => fail e
  | None =>
      let endpoint := negb (bool_decide (configuration.endpointListenAddress loaded = [])) in
      if wantsAttachment then
        attached ← attachToPlatform;
        match attached with
        | Err e => _ ← closeEndpoint endpoint; fail e
        | Ok urls => serveWith endpoint (Some urls)
        end
      else serveWith endpoint None
  end.

Definition buildServer : starting :=
  if negb (attachesToPlatform loaded) && bool_decide (configuration.endpointListenAddress loaded = [])
  then Return (Err errNoCarrier)
  else
    pool ← call (answer := made) (NewPgxPool (deployment.dsn deploy));
    if negb (pool : bool) then Return (Err NoPool)
    else
      ring ← (match deployment.kek deploy with
              | None => Return true
              | Some _ => call (answer := made) (NewKekRing (deployment.kekId deploy) (deployment.kek deploy))
              end);
      if negb (ring : bool) then fail BadKek
      else construct "sweep.New" (construct "peer.NewConnections" (construct "peer.NewChecks" (construct "api.New" carriers))).
End Start.

(** ** What is advertised *)

(** A ladder of the record layer, walked until a rung that is none. *)
Fixpoint walkLadder (rung : Z → Z) (bucket : Z) (fuel : nat) : list Z :=
  match fuel with
  | O => []
  | S fuel => if rung bucket <? 0 then [] else u32 (rung bucket) :: walkLadder rung (bucket + 1) fuel
  end.

Module Capabilities.
Record t := mk {
  MaxRequestBytes : Z;
  MaxResponseBytes : Z;
  MaxRecordsPerSubmit : Z;
  MaxRecordsPerFetch : Z;
  MediaTtlDefaultSeconds : Z;
  MediaTtlMaxSeconds : Z;
  DurableRetentionMinSeconds : Z;
  DurableTtlDefaultSeconds : Z;
  DurableTtlMaxSeconds : Z;
  OperatorHost : text;
  HostingJurisdiction : text;
  ReadKeyWindowSeconds : Z;
  EphBucketSeconds : list Z;
  SizeBucketBytes : list Z;
  RendezvousDepositSizes : list Z;
  RendezvousKinds : Z }.
End Capabilities.

Section Advertised.
Context (SizeBucketBytes EphBucketSeconds : Z → Z).

Definition sizeBucketLadder : list Z := walkLadder SizeBucketBytes 0 256.
Definition ephBucketLadder : list Z := walkLadder EphBucketSeconds 0 256.

(** [handler] is the API's, which says what it serves. *)
Definition capabilities (config : configuration.t) (handler : option Handler.t) : Capabilities.t :=
  let limits := configuredLimits config in
  Capabilities.mk DefaultMaxRequestBytes DefaultMaxResponseBytes DefaultMaxRecordsPerSubmit DefaultMaxRecordsPerFetch
    (Limits.MediaTtlDefaultSeconds limits) (Limits.MediaTtlMaxSeconds limits) (Limits.DurableRetentionMinSeconds limits)
    (Limits.DurableTtlDefaultSeconds limits) (Limits.DurableTtlMaxSeconds limits)
    (configuration.operatorHost config) (configuration.hostingJurisdiction config)
    (u32 (configuration.readKeyWindowSeconds config)) ephBucketLadder sizeBucketLadder
    (match handler with None => [] | Some handler => RendezvousDepositSizes handler end)
    (match handler with None => 0 | Some handler => RendezvousKinds handler end).
End Advertised.

(** ** Stopping *)

Inductive closing : Type :=
  | Draining | DispatchClosed | SubscriptionsClosed | EndpointClosed | ListenerClosed | AttachmentClosed
  | SweepClosed | PoolClosed | HealthShutdown.

(** [server.Close] in order; [health] whether the private port was bound. *)
Definition Close (self : server.t) (health : bool) : list closing :=
  [Draining] ++
  (if server.dispatch self then [DispatchClosed] else []) ++
  [SubscriptionsClosed] ++
  (if server.endpoint self then [EndpointClosed; ListenerClosed] else []) ++
  (match server.attachment self with Some _ => [AttachmentClosed] | None => [] end) ++
  [SweepClosed; PoolClosed] ++
  (if health then [HealthShutdown] else []).

(** ** Readiness *)

(** What the collaborators answer at the moment of a probe: the store's checks, whether the transport
    holds a connection, whether the endpoint is accepting. *)
Module probed.
Record t := mk {
  Ping : bool;
  MigrationsAtHead : bool * Z * bool;
  CheckClusterTimezone : bool;
  CheckClockSkew : bool;
  IsConnected : bool;
  endpointServing : bool }.
End probed.

Module precondition.
Record t := mk { name : text; why : text; needsDatabase : bool; met : probed.t → bool }.
End precondition.

Section Ready.
Context (self : server.t).

Definition specPreconditions : list precondition.t :=
  let deploy := server.deploy self in
  let config := server.config self in
  [precondition.mk (str "database_reachable")
     (str "the message-server Postgres cluster did not answer; check pg.yml's DSN and the cluster (§2.3, decision B10)")
     true probed.Ping;
   precondition.mk (str "migrations_at_head")
     (str "run `messagectl migrate` against this database; §10.3 forbids a replica migrating at startup, so this refuses until the job has run")
     true (λ now, let '(head, _, failed) := probed.MigrationsAtHead now in negb failed && head);
   precondition.mk (str "clock_utc")
     (str "the cluster's own timezone is not UTC; §3.1 makes `timezone = UTC` normative on the primary, every replica and every restore target, and §7.4 prunes against it")
     true probed.CheckClusterTimezone;
   precondition.mk (str "clock_skew")
     (str "the database's wall clock and this process's disagree by more than the allowed slack; §7.1 computes prune_after from this process's clock and §7.4 sweeps against the database's")
     true probed.CheckClockSkew;
   precondition.mk (str "kek_loaded")
     (str "message_fleet.yml has no write_key_kek; §5.5 cannot wrap an epoch key without one and no group could be created")
     false (λ _, bool_decide (is_Some (deployment.kek deploy)));
   precondition.mk (str "server_id_set")
     (str "message_fleet.yml has no server_id; §4.3.1 advertises 16 octets stable per fleet, and a fleet that advertised zeroes would be indistinguishable from any other")
     false (λ _, bool_decide (length (octets (deployment.serverId deploy)) = serverIdBytes));
   precondition.mk (str "ordinal_credential")
     (str "message_server.yml has no entry for this ordinal; §9.1 requires one network_client per ordinal, created by an admin of the operator named in operator_host")
     false (λ _, negb (bool_decide (deployment.byJwt deploy = [])));
   precondition.mk (str "connect_client_attached")
     (str "no connection to the operator's platform holds a route, so no client that reaches this server through the platform can (§9.1); a server that should not attach sets platform_attachment: off (Revision 23)")
     false (λ now, bool_decide (is_Some (server.attachment self)) && probed.IsConnected now);
   precondition.mk (str "operator_host")
     (str "message.yml's operator_host is unset, or is not a bare host name such as `ur.network`; §9.1 makes it the operator this server holds its account on, §4.3.1 advertises it whether or not this server attaches, and an attaching server derives both service URLs from it")
     false (λ _, match serviceUrls (configuration.operatorHost config) with Ok _ => true | Err _ => false end);
   precondition.mk (str "hosting_jurisdiction")
     (str "message.yml's hosting_jurisdiction is unset; §4.3.1 advertises it to every client and §10.1 refuses readiness rather than advertise nothing")
     false (λ _, negb (bool_decide (configuration.hostingJurisdiction config = [])))].

Definition platformOnlyPreconditions : list text := [str "ordinal_credential"; str "connect_client_attached"].

Definition endpointListening : precondition.t :=
  precondition.mk (str "endpoint_listening")
    (str "the server's own TLS endpoint is configured and is not accepting connections; check endpoint_listen_address and the certificate (ledger 268)")
    false probed.endpointServing.

Definition preconditions : list precondition.t :=
  filter (λ item, attachesToPlatform (server.config self) = true ∨ precondition.name item ∉ platformOnlyPreconditions)
    specPreconditions ++
  (if server.endpoint self || negb (attachesToPlatform (server.config self)) then [endpointListening] else []).
End Ready.

Definition unmet (now : probed.t) (items : list precondition.t) : list precondition.t :=
  filter (λ item, precondition.met item now = false) items.

Definition lineEnd : text := [newline].

Definition healthz : Z * text := (200, str "alive" ++ lineEnd).

(** [readyzHandler]: the status and the body; [notBuilt] the lines of what the build lacks. *)
Definition readyz (draining : bool) (items : list precondition.t) (notBuilt : list text) (now : probed.t) : Z * text :=
  if draining then
    (503, str "not ready" ++ lineEnd ++
          str "not-ready draining: this replica received a shutdown signal and is closing (§2.3)" ++ lineEnd)
  else
    let failed := unmet now items in
    let unbuilt := concat ((λ item, str "not-built " ++ item ++ lineEnd) <$> notBuilt) in
    if bool_decide (failed = []) then (200, str "ready" ++ lineEnd ++ unbuilt)
    else (503, str "not ready" ++ lineEnd ++
               concat ((λ item, str "not-ready " ++ precondition.name item ++ str ": " ++ precondition.why item ++ lineEnd) <$> failed) ++
               unbuilt).

(** [summarise]: the names, with a space between them. *)
Fixpoint summarise (failed : list precondition.t) : text :=
  match failed with
  | [] => []
  | [item] => precondition.name item
  | item :: rest => precondition.name item ++ str " " ++ summarise rest
  end.

(** ** Error classes ([store/errorclass.go]) *)

(** What can be found in the tree of an error: the server's answer with its code, a failure to
    connect, the end of a context. *)
Module failure.
Record t := mk { PgError : option text; ConnectError : bool; ended : bool }.
End failure.

(** A SQLSTATE: five characters, each a digit or an upper-case letter. *)
Definition isSqlState (state : text) : bool :=
  (length state =? 5)%nat &&
  forallb (λ a, ((48 <=? code a) && (code a <=? 57)) || ((65 <=? code a) && (code a <=? 90))) state.

Definition ErrorClass (err : option failure.t) : text :=
  match err with
  | None => []
  | Some err =>
      match failure.PgError err with
      | Some state => if isSqlState state then state else str "server"
      | None =>
          if failure.ConnectError err then str "connect"
          else if failure.ended err then str "canceled" else str "other"
      end
  end.

(** The same for an error that ended the health listener: closed beneath it, timed out, the operation
    of a network error. *)
Module listenerError.
Record t := mk { Closed : bool; Timeout : bool; Op : text }.
End listenerError.

Definition listenerErrorClass (err : option listenerError.t) : text :=
  match err with
  | None => []
  | Some err =>
      if listenerError.Closed err then str "closed"
      else if listenerError.Timeout err then str "timeout"
      else if bool_decide (listenerError.Op err = []) then str "other" else listenerError.Op err
  end.
