(* ===== verification/WiringProps.v ===== *)
(** * What a start leaves and what readiness means

    A start is all or nothing over every run of [buildServer]; [/readyz] answers 200 exactly when the
    process can serve, and its answers are made of names and sentences and of no value. *)

From S2P Require Import Resource Prelude Settings Prog Deployment Wiring.

(** ** What is open *)

Inductive thing : Type := Pool | EndpointOpen | ListenerOpen | Client | Peer | Serving | Sweeping.
#[global] Instance thing_eq : EqDecision thing.
Proof. solve_decision. Defined.

Definition without (x : thing) (l : list thing) : list thing := filter (λ y, y ≠ x) l.

(** What a call opened or closed. *)
Definition effect (c : wiring) : made c → list thing → list thing :=
  match c return made c → list thing → list thing with
  | NewPgxPool _ => λ ok l, if ok then l ++ [Pool] else l
  | ClosePool => λ _, without Pool
  | NewEndpoint => λ ok l, if ok then l ++ [EndpointOpen] else l
  | Listen _ => λ failed l, match failed with None => l ++ [ListenerOpen] | Some _ => l end
  | CloseEndpoint => λ _, without EndpointOpen
  | CloseListener => λ _, without ListenerOpen
  | NewClient _ _ _ _ => λ _ l, l ++ [Client]
  | CloseAttachment => λ _, without Client
  | NewPeer _ => λ ok l, if ok then l ++ [Peer] else l
  | GoServe => λ _ l, l ++ [Serving]
  | StartSweep => λ _ l, l ++ [Sweeping]
  | _ => λ _ l, l
  end.
Definition held (tr : list (event made)) : list thing := foldl (λ l e, effect (did e) (answered e) l) [] tr.

Definition serving (s : server.t) : list thing :=
  [Pool] ++ (if server.endpoint s then [EndpointOpen; ListenerOpen] else []) ++
  (match server.attachment s with Some _ => [Client] | None => [] end) ++
  (if server.dispatch s then [Peer] else []) ++ (if server.endpoint s then [Serving] else []) ++ [Sweeping].

(** What a start may end in. *)
Definition started (deploy : deployment.t) (loaded : configuration.t) (tr : list (event made)) (r : res StartError server.t) : Prop :=
  match r with
  | Err e => held tr = [] ∧ e ≠ errNoCredential ∧ (∀ why, e ≠ NoServiceUrl why)
  | Ok s =>
      held tr = serving s ∧ server.deploy s = deploy ∧ server.config s = loaded ∧
      server.endpoint s = negb (bool_decide (configuration.endpointListenAddress loaded = [])) ∧
      (match server.attachment s with
       | Some urls => wantsAttachment deploy loaded = true ∧ serviceUrls (configuration.operatorHost loaded) = Ok urls
       | None => wantsAttachment deploy loaded = false
       end) ∧
      server.dispatch s = server.endpoint s || bool_decide (is_Some (server.attachment s)) ∧
      (attachesToPlatform loaded = false → server.dispatch s = true)
  end.

Section Starts.
Context (deploy : deployment.t) (loaded : configuration.t).
Abbreviation goes p Q tr := (wp (λ _, True) (λ _ _, True) p Q tr).

Lemma held_snoc tr e : held (tr ++ [e]) = effect (did e) (answered e) (held tr).
Proof. unfold held. by rewrite foldl_snoc. Qed.

Lemma goes_fail e Q tr :
  (∀ tr', held tr' = without Pool (held tr) → Q tr' (Err e)) → goes (fail e) Q tr.
Proof. intros HQ. split; [done|]. intros r _. apply HQ. by rewrite held_snoc. Qed.

Lemma goes_construct what next (Q : list (event made) → res StartError server.t → Prop) l tr :
  held tr = l →
  (∀ tr', held tr' = without Pool l → Q tr' (Err Unbuilt)) →
  (∀ tr', held tr' = l → goes next Q tr') →
  goes (construct what next) Q tr.
Proof.
  intros Hl HQ Hnext. split; [done|]. intros r _. cbn. destruct r; cbn.
  - apply Hnext. by rewrite held_snoc.
  - apply goes_fail. intros tr' H. apply HQ. by rewrite H, held_snoc, <- Hl.
Qed.

Lemma goes_openEndpoint Q l tr :
  held tr = l → without EndpointOpen (l ++ [EndpointOpen]) = l →
  (∀ tr' e, held tr' = l → e ≠ errNoCredential → (∀ why, e ≠ NoServiceUrl why) → Q tr' (Some e)) →
  (∀ tr', held tr' = l ++ [EndpointOpen; ListenerOpen] → Q tr' None) →
  goes (openEndpoint deploy loaded) Q tr.
Proof.
  intros Hl Hw HQ HN. unfold openEndpoint. destruct (_ || _); [by apply HQ|].
  split; [done|]. intros certificate _. cbn. destruct certificate; cbn; [|apply HQ; [by rewrite held_snoc|done..] ].
  split; [done|]. intros served _. cbn. destruct served; cbn; [|apply HQ; [by rewrite !held_snoc|done..] ].
  split; [done|]. intros [err|] _; cbn.
  - split; [done|]. intros r _. apply HQ; [|done..]. rewrite !held_snoc. cbn. by rewrite Hl.
  - apply HN. rewrite !held_snoc. cbn. by rewrite Hl, <- app_assoc.
Qed.

(** One call more, whose answer is of no consequence but for what it opens. *)
Ltac call_made := split; [done|]; let r := fresh in intros r _; cbn -[started].
Ltac count_held := rewrite ?held_snoc; cbn.

Lemma goes_serveWith (endpoint : bool) (attachment : option (text * text)) tr :
  held tr = [Pool] ++ (if endpoint then [EndpointOpen; ListenerOpen] else []) ++
            (match attachment with Some _ => [Client] | None => [] end) →
  endpoint = negb (bool_decide (configuration.endpointListenAddress loaded = [])) →
  (match attachment with
   | Some urls => wantsAttachment deploy loaded = true ∧ serviceUrls (configuration.operatorHost loaded) = Ok urls
   | None => wantsAttachment deploy loaded = false
   end) →
  (attachesToPlatform loaded = false → endpoint = true) →
  goes (serveWith deploy loaded endpoint attachment) (started deploy loaded) tr.
Proof.
  intros Hl He Ha Hp.
  assert (Hfail : ∀ tr', held tr' = [] → started deploy loaded tr' (Err Unbuilt)) by (by intros tr0 Hl0; cbn; rewrite Hl0).
  assert (Hok : ∀ tr' dispatch, held tr' = serving (server.mk loaded deploy endpoint attachment dispatch) →
    dispatch = endpoint || bool_decide (is_Some attachment) →
    started deploy loaded tr' (Ok (server.mk loaded deploy endpoint attachment dispatch))).
  { intros tr' dispatch H ->. cbn. split_and!; try done. intros Hoff. by rewrite (Hp Hoff). }
  destruct endpoint, attachment as [urls|]; cbn in Hl; cbn -[started].
  - split; [done|]. intros built _. destruct built; cbn -[started]; repeat call_made; [apply Hok|apply Hfail]; count_held; by rewrite ?Hl.
  - split; [done|]. intros built _. destruct built; cbn -[started]; repeat call_made; [apply Hok|apply Hfail]; count_held; by rewrite ?Hl.
  - split; [done|]. intros built _. destruct built; cbn -[started]; repeat call_made; [apply Hok|apply Hfail]; count_held; by rewrite ?Hl.
  - call_made. apply Hok; count_held; by rewrite ?Hl.
Qed.

Lemma goes_carriers tr :
  held tr = [Pool] →
  (attachesToPlatform loaded = false → configuration.endpointListenAddress loaded ≠ []) →
  goes (carriers deploy loaded) (started deploy loaded) tr.
Proof.
  intros Hl Hp. unfold carriers. apply wp_bind.
  set (endpoint := negb (bool_decide (configuration.endpointListenAddress loaded = []))).
  assert (Hcarry : ∀ tr', held tr' = [Pool] ++ (if endpoint then [EndpointOpen; ListenerOpen] else []) →
    goes (if wantsAttachment deploy loaded then
        attached ← attachToPlatform deploy loaded;
        match attached with
        | Err e => _ ← closeEndpoint endpoint; fail e
        | Ok urls => serveWith deploy loaded endpoint (Some urls)
        end
      else serveWith deploy loaded endpoint None) (started deploy loaded) tr').
  { intros tr' Hl'.
    assert (Hoff : attachesToPlatform loaded = false → endpoint = true).
    { intros Hoff. unfold endpoint. rewrite bool_decide_eq_false_2; [done|by apply Hp]. }
    destruct (wantsAttachment deploy loaded) eqn:Hw; [|apply goes_serveWith; [by rewrite Hl', app_nil_r|done..] ].
    unfold attachToPlatform. pose proof Hw as Hcan. unfold wantsAttachment, canAttach in Hcan.
    destruct (bool_decide (deployment.byJwt deploy = [])); cbn in Hcan; [by rewrite andb_false_r in Hcan|].
    destruct (bool_decide (length _ = _)); cbn in Hcan; [|by rewrite andb_false_r in Hcan].
    destruct (serviceUrls _) as [ [apiUrl platformUrl]|] eqn:Hu; [|by rewrite andb_false_r in Hcan].
    cbn -[serveWith wp]. split; [done|]. intros r _. apply goes_serveWith; try done.
    rewrite held_snoc. cbn. by rewrite Hl', <- app_assoc. }
  unfold endpoint in *. destruct (bool_decide _); [by apply Hcarry|].
  apply (goes_openEndpoint _ [Pool]); [done..| |].
  - intros tr' e Hl' H1 H2. apply goes_fail. intros tr2 H. cbn. by rewrite H, Hl'.
  - intros tr' Hl'. by apply Hcarry.
Qed.
End Starts.

(** C32: A start is all or nothing: over every run of [buildServer], whatever its steps answer, a failure
    leaves nothing open and is never one of the attachment's own refusals; and a server that starts
    holds the pool, the endpoint exactly if an address for it is configured, the platform client
    exactly if it is wanted, the peer in front of them exactly if there is either (and there is one
    if the platform is off), and the sweep, which is started last. *)
Theorem start_all_or_nothing deploy loaded tr out :
  runs (buildServer deploy loaded) tr out → ∃ r, out = Returned r ∧ started deploy loaded tr r.
Proof.
  intros Hr. apply (wp_runs (λ _, True) (λ _ _, True) _ (started deploy loaded) []) in Hr;
    [done| |by apply Forall_forall].
  assert (Hfail : ∀ e tr', e ≠ errNoCredential → (∀ why, e ≠ NoServiceUrl why) →
    held tr' = without Pool [Pool] → started deploy loaded tr' (Err e)) by (intros e tr0 ? ? Hl0; cbn; by rewrite Hl0).
  unfold buildServer.
  destruct (attachesToPlatform loaded) eqn:Ha, (bool_decide (configuration.endpointListenAddress loaded = [])) eqn:He; try done.
  all: cbn -[held construct carriers].
  all: assert (Hp : attachesToPlatform loaded = false → configuration.endpointListenAddress loaded ≠ [])
    by (first [by rewrite Ha | intros _; by apply bool_decide_eq_false_1 in He]).
  all: split; [done|]; intros pool _; destruct pool; [|done].
  all: assert (Hrest : ∀ tr', held tr' = [Pool] →
    wp (λ _, True) (λ _ _, True) (construct "sweep.New" (construct "peer.NewConnections" (construct "peer.NewChecks" (construct "api.New" (carriers deploy loaded)))))
      (started deploy loaded) tr')
    by (intros tr' Hl; do 4 (apply (goes_construct _ _ _ [Pool]); [done|by intros; apply Hfail|clear tr' Hl; intros tr' Hl]); by apply goes_carriers).
  all: destruct (deployment.kek deploy); [|by apply Hrest].
  all: split; [done|]; intros ring _; destruct ring; [by apply Hrest|].
  all: apply goes_fail; intros tr' H; by apply Hfail.
Qed.

(** ** Readiness *)

Lemma unmet_nil now items : unmet now items = [] ↔ Forall (λ item, precondition.met item now = true) items.
Proof.
  unfold unmet. induction items as [|item items IH]; [done|]. rewrite filter_cons, Forall_cons.
  destruct (decide _) as [Hm|Hm]; destruct (precondition.met item now); naive_solver.
Qed.

Lemma readyz_ok draining items notBuilt now :
  (readyz draining items notBuilt now).1 = 200 ↔ draining = false ∧ unmet now items = [].
Proof. unfold readyz. destruct draining; [naive_solver|]. case_bool_decide; cbn; naive_solver. Qed.

(** What every server is asked, what one that attaches is, and the endpoint's. *)
Definition ready_always (s : server.t) (now : probed.t) : Prop :=
  probed.Ping now = true ∧ (∃ v, probed.MigrationsAtHead now = (true, v, false)) ∧
  probed.CheckClusterTimezone now = true ∧ probed.CheckClockSkew now = true ∧
  is_Some (deployment.kek (server.deploy s)) ∧
  length (octets (deployment.serverId (server.deploy s))) = serverIdBytes ∧
  (∃ urls, serviceUrls (configuration.operatorHost (server.config s)) = Ok urls) ∧
  configuration.hostingJurisdiction (server.config s) ≠ [].

Lemma head_met now :
  (let '(head, _, failed) := probed.MigrationsAtHead now in negb failed && head) = true ↔
  ∃ v, probed.MigrationsAtHead now = (true, v, false).
Proof. destruct (probed.MigrationsAtHead now) as [ [ [] v] []]; naive_solver. Qed.

Lemma urls_met (host : text) :
  (match serviceUrls host with Ok _ => true | Err _ => false end) = true ↔ ∃ urls, serviceUrls host = Ok urls.
Proof. destruct (serviceUrls host); naive_solver. Qed.

Lemma Forall_filter_iff {A} (P Q : A → Prop) `{∀ x, Decision (P x)} (l : list A) :
  Forall Q (filter P l) ↔ Forall (λ x, P x → Q x) l.
Proof. rewrite !Forall_forall. setoid_rewrite list_elem_of_filter. naive_solver. Qed.

Lemma ready_iff s now :
  unmet now (preconditions s) = [] ↔
  ready_always s now ∧
  (attachesToPlatform (server.config s) = true →
     deployment.byJwt (server.deploy s) ≠ [] ∧ is_Some (server.attachment s) ∧ probed.IsConnected now = true) ∧
  (server.endpoint s || negb (attachesToPlatform (server.config s)) = true → probed.endpointServing now = true).
Proof.
  rewrite unmet_nil. unfold preconditions, ready_always. rewrite Forall_app.
  assert (Hend : Forall (λ item, precondition.met item now = true)
      (if server.endpoint s || negb (attachesToPlatform (server.config s)) then [endpointListening] else []) ↔
    (server.endpoint s || negb (attachesToPlatform (server.config s)) = true → probed.endpointServing now = true)).
  { destruct (_ || _); rewrite ?Forall_singleton, ?Forall_nil; cbn; naive_solver. }
  rewrite Hend, <- head_met, <- urls_met. clear Hend.
  rewrite Forall_filter_iff. unfold specPreconditions. repeat rewrite Forall_cons. rewrite Forall_nil. cbn [precondition.met precondition.name].
  assert (Hno : ∀ name, bool_decide (name ∉ platformOnlyPreconditions) = true →
    attachesToPlatform (server.config s) = true ∨ name ∉ platformOnlyPreconditions)
    by (intros name Hn; right; by apply bool_decide_eq_true_1 in Hn).
  assert (Honly : ∀ name, bool_decide (name ∈ platformOnlyPreconditions) = true →
    attachesToPlatform (server.config s) = true ∨ name ∉ platformOnlyPreconditions → attachesToPlatform (server.config s) = true).
  { intros name Hn%bool_decide_eq_true_1. naive_solver. }
  rewrite !andb_true_iff, !negb_true_iff, !bool_decide_eq_true, !bool_decide_eq_false.
  generalize (probed.endpointServing now = true). intros Hserving. split.
  - intros [(H1 & H2 & H3 & H4 & H5 & H6 & H7 & H8 & H9 & H10 & _) H11].
    split; [split_and!|split; [|done] ].
    + by apply H1, Hno.
    + by apply H2, Hno.
    + by apply H3, Hno.
    + by apply H4, Hno.
    + by apply H5, Hno.
    + by apply H6, Hno.
    + by apply H9, Hno.
    + by apply H10, Hno.
    + intros Hat. destruct H8 as [? ?]; [by left|]. split_and!; try done. apply H7. by left.
  - intros [(H1 & H2 & H3 & H4 & H5 & H6 & H7 & H8) [H9 H10] ]. split; [|done].
    split_and!; try (by intros _); try exact I.
    + intros Hat%Honly; [|done]. by destruct (H9 Hat).
    + intros Hat%Honly; [|done]. by destruct (H9 Hat) as (_ & ? & ?).
Qed.

(** The names and the sentences that go with them, the same of every server. *)
Definition nobody : server.t :=
  server.mk defaultConfiguration
    (deployment.mk [] [] [] [] 0 None None [] [] sourceAbsent sourceAbsent sourceAbsent sourceAbsent) false None false.
Definition sentence (item : precondition.t) : text * text := (precondition.name item, precondition.why item).
Definition sentences : list (text * text) := sentence <$> (endpointListening :: specPreconditions nobody).

Lemma sentences_all s : sentence <$> (endpointListening :: specPreconditions s) = sentences.
Proof. reflexivity. Qed.

Lemma sentences_named : NoDup sentences.*1.
Proof. apply (bool_decide_unpack _). vm_compute. exact I. Qed.

Lemma sentence_in s item : item ∈ preconditions s → sentence item ∈ sentences.
Proof.
  intros Hin. rewrite <- (sentences_all s). apply list_elem_of_fmap_2.
  apply elem_of_app in Hin as [Hin|Hin]; [apply list_elem_of_filter in Hin as [_ Hin]; by right|].
  destruct (_ || _); [apply list_elem_of_singleton in Hin as ->; by left|by apply not_elem_of_nil in Hin].
Qed.

Lemma why_same s s' item item' :
  item ∈ preconditions s → item' ∈ preconditions s' → precondition.name item = precondition.name item' →
  precondition.why item = precondition.why item'.
Proof.
  intros H1%sentence_in H2%sentence_in E. unfold sentence in H1, H2. rewrite E in H1.
  apply (elem_of_list_to_map (M := gmap text) _ _ _ sentences_named) in H1, H2. congruence.
Qed.

Definition refusal (item : precondition.t) : text :=
  str "not-ready " ++ precondition.name item ++ str ": " ++ precondition.why item ++ lineEnd.

Lemma refusals_named (l l' : list precondition.t) :
  (∀ item item', item ∈ l → item' ∈ l' → precondition.name item = precondition.name item' →
     precondition.why item = precondition.why item') →
  precondition.name <$> l = precondition.name <$> l' → refusal <$> l = refusal <$> l'.
Proof.
  revert l'. induction l as [|item l IH]; intros [|item' l'] Hwhy E; [done|discriminate E|discriminate E|].
  rewrite !fmap_cons in *. injection E as En E. f_equal.
  - unfold refusal. rewrite En. rewrite (Hwhy item item'); [done|by left|by left|done].
  - apply IH; [|done]. intros x x' Hx Hx'. apply Hwhy; by right.
Qed.

Lemma unmet_in now items item : item ∈ unmet now items → item ∈ items.
Proof. unfold unmet. by intros [_ ?]%list_elem_of_filter. Qed.

(** A body is made of names. *)
Lemma readyz_named s s' now now' draining notBuilt :
  precondition.name <$> unmet now (preconditions s) = precondition.name <$> unmet now' (preconditions s') →
  readyz draining (preconditions s) notBuilt now = readyz draining (preconditions s') notBuilt now'.
Proof.
  intros E. unfold readyz. destruct draining; [done|].
  assert (Hr := refusals_named (unmet now (preconditions s)) (unmet now' (preconditions s'))).
  revert E Hr. generalize (unmet_in now (preconditions s)) (unmet_in now' (preconditions s')).
  generalize (unmet now (preconditions s)) (unmet now' (preconditions s')). intros l l' Hl Hl' E Hr.
  destruct l as [|item l], l' as [|item' l']; [done|discriminate E|discriminate E|].
  rewrite !bool_decide_eq_false_2 by discriminate. f_equal. do 3 f_equal.
  change (concat (refusal <$> item :: l) = concat (refusal <$> item' :: l')). f_equal. apply Hr; [|done].
  intros x x' Hx Hx'. apply (why_same s s'); auto.
Qed.

Lemma started_endpoint deploy loaded tr s :
  runs (buildServer deploy loaded) tr (Returned (Ok s)) →
  (server.endpoint s || negb (attachesToPlatform loaded) = true ↔ configuration.endpointListenAddress loaded ≠ []).
Proof.
  intros Hr. destruct (start_all_or_nothing _ _ _ _ Hr) as (r & [= <-] & _ & _ & _ & He & _).
  rewrite He. destruct (decide (configuration.endpointListenAddress loaded = [])) as [E|E].
  - rewrite bool_decide_eq_true_2 by done. cbn. split; [|done]. intros Hoff%negb_true_iff. exfalso.
    unfold buildServer in Hr. rewrite Hoff, bool_decide_eq_true_2 in Hr by done. cbn in Hr. inversion Hr.
  - by rewrite bool_decide_eq_false_2.
Qed.

(** C33: [/readyz] answers 200 exactly when the process can serve: it is not draining, the database answers
    at head in UTC and on time, there is a key to wrap under, a server id, an operator's host and a
    jurisdiction, and its carriers work, the platform's if it attaches and its own endpoint's if one
    is configured; then there is a peer behind a carrier.  And its answer is made of the names of
    what is unmet: two servers with the same names unmet answer alike, whatever they are configured
    with. *)
Theorem ready_exact deploy loaded tr s draining notBuilt now :
  runs (buildServer deploy loaded) tr (Returned (Ok s)) →
  let answer := readyz draining (preconditions s) notBuilt now in
  (answer.1 = 200 ↔
   draining = false ∧ ready_always s now ∧
   (attachesToPlatform loaded = true → canAttach deploy loaded = true ∧ probed.IsConnected now = true) ∧
   (configuration.endpointListenAddress loaded ≠ [] → probed.endpointServing now = true)) ∧
  (answer.1 = 200 → server.dispatch s = true) ∧
  (∀ s' now', precondition.name <$> unmet now (preconditions s) = precondition.name <$> unmet now' (preconditions s') →
     answer = readyz draining (preconditions s') notBuilt now').
Proof.
  intros Hr answer. subst answer. assert (Hend := started_endpoint _ _ _ _ Hr).
  destruct (start_all_or_nothing _ _ _ _ Hr) as (r & [= <-] & _ & Hd & Hc & He & Ha & Hp & Hoff).
  assert (Hatt : attachesToPlatform loaded = true →
    (deployment.byJwt (server.deploy s) ≠ [] ∧ is_Some (server.attachment s) ↔ canAttach deploy loaded = true)).
  { intros Hat. unfold wantsAttachment in Ha. rewrite Hat in Ha. cbn in Ha. rewrite Hd.
    destruct (server.attachment s) as [urls|].
    - destruct Ha as [Hcan _]. split; [done|]. intros _. split; [|done]. intros E. unfold canAttach in Hcan.
      by rewrite bool_decide_eq_true_2 in Hcan.
    - rewrite Ha. split; [by intros [_ [? [=] ] ]|done]. }
  rewrite readyz_ok, ready_iff, Hc, Hend. split_and!.
  - split.
    + intros (Hdr & Hal & Hpl & Hse). split_and!; try done. intros Hat. destruct (Hpl Hat) as (H1 & H2 & H3).
      split; [by apply Hatt|done].
    + intros (Hdr & Hal & Hpl & Hse). split_and!; try done. intros Hat. destruct (Hpl Hat) as [H1 H2].
      apply Hatt in H1 as [? ?]; [|done]. done.
  - intros (_ & _ & Hpl & _). destruct (attachesToPlatform loaded) eqn:Hat; [|by apply Hoff].
    destruct (Hpl eq_refl) as (_ & [urls Hu] & _). rewrite Hp, Hu. by rewrite bool_decide_eq_true_2, orb_true_r by eauto.
  - intros s' now'. apply readyz_named.
Qed.

(** ** A server with its own endpoint, and one that does not start *)

Definition endpointOnly : configuration.t :=
  configuration.set_platformAttachment (str "off")
    (configuration.set_endpointListenAddress (str ":443")
      (configuration.set_endpointCertificateFile (str "tls.crt")
        (configuration.set_endpointPrivateKeyFile (str "tls.key")
          (configuration.set_operatorHost (str "ur.network")
            (configuration.set_hostingJurisdiction (str "CH") defaultConfiguration))))).
Definition someDeployment : deployment.t :=
  deployment.mk (str "/etc/urmessage") (str "0") defaultHealthAddress (str "postgres://") 1
    (Some (repeat 7 32)) (Some (repeat 9 16)) [] zeroId sourceFile sourceFile sourceFile sourceAbsent.

(** Every step goes well. *)
Definition well (c : wiring) (_ : ()) : () * made c :=
  match c return () * made c with
  | NewPgxPool _ => (tt, true) | NewKekRing _ _ => (tt, true) | Construct _ => (tt, true)
  | LoadX509KeyPair _ _ => (tt, true) | NewEndpoint => (tt, true) | NewPeer _ => (tt, true)
  | Listen _ => (tt, None)
  | _ => (tt, tt)
  end.
Definition someStart : list (event made) := (exec well (buildServer someDeployment endpointOnly) tt).1.2.
Definition someServer : server.t := server.mk endpointOnly someDeployment true None true.

Lemma someStart_runs : runs (buildServer someDeployment endpointOnly) someStart (Returned (Ok someServer)).
Proof. exact (exec_runs well (buildServer someDeployment endpointOnly) tt). Qed.

Lemma start_all_or_nothing_witness :
  held someStart = [Pool; EndpointOpen; ListenerOpen; Peer; Serving; Sweeping] ∧
  server.endpoint someServer = true ∧ server.dispatch someServer = true.
Proof.
  destruct (start_all_or_nothing _ _ _ _ someStart_runs) as (r & E & Hs).
  assert (r = Ok someServer) as -> by congruence.
  destruct Hs as (Hh & _ & _ & He & _ & Hd & _). split; [exact Hh|]. split; reflexivity.
Defined.

Definition allWell : probed.t := probed.mk true (true, 0, false) true true false true.

Lemma ready_exact_witness :
  (readyz false (preconditions someServer) [] allWell).1 = 200 ∧ server.dispatch someServer = true.
Proof.
  destruct (ready_exact _ _ _ _ false [] allWell someStart_runs) as (H & Hserves & _).
  assert (Hready : (readyz false (preconditions someServer) [] allWell).1 = 200).
  { apply H. split; [reflexivity|]. split; [|split; [intros E; discriminate E|reflexivity] ].
    split_and!; try reflexivity; [by exists 0|by eexists|vm_compute; by eexists|discriminate]. }
  split; [exact Hready|by apply Hserves].
Defined.
