(* ===== verification/SweepJob.v ===== *)
(** * The sweep's goroutine ([Start] and [Close] of [sweep/sweep.go])

    One goroutine that runs a pass on every tick, any number of callers of [Start] and [Close], and
    the two once guards between them, as steps that interleave.  A pass is its batches, each behind a
    look at the context; what a batch does is [Sweep]'s. *)

From S2P Require Import Prelude.

(** Where the goroutine is: at its select, between two batches of a pass, in a batch. *)
Inductive loop : Type := Selecting | Passing | Batching.

(** A caller of [Close], in front of each of its steps: inside the guard, or waiting at it. *)
Inductive closer : Type := Entering | Stopping | Cancelling | Guarding | Waiting.

Inductive once : Type := Unused | Running | Used.

(** [Job]'s channels and guards; [done] counts the closings of its channel, of which a second would
    panic, and [batches] the batches begun. *)
Module Job.
Record t := mk {
  startOnce : bool;
  closeOnce : once;
  stop : bool;
  cancelled : bool;
  done : nat;
  goroutine : option loop;
  closers : list closer;
  batches : nat }.
Definition set_goroutine (x : option loop) (j : t) : t :=
  mk (startOnce j) (closeOnce j) (stop j) (cancelled j) (done j) x (closers j) (batches j).
Definition set_closers (x : list closer) (j : t) : t :=
  mk (startOnce j) (closeOnce j) (stop j) (cancelled j) (done j) (goroutine j) x (batches j).
Definition finish (j : t) : t :=
  mk (startOnce j) (closeOnce j) (stop j) (cancelled j) (S (done j)) None (closers j) (batches j).
End Job.

Definition initial : Job.t := Job.mk false Unused false false 0 None [] 0.

(** [Start] *)
Definition start (j : Job.t) : Job.t :=
  if Job.startOnce j then j
  else Job.mk true (Job.closeOnce j) (Job.stop j) (Job.cancelled j) (Job.done j) (Some Selecting) (Job.closers j) (Job.batches j).

(** A closer's next step; [None] while it waits. *)
Definition close_step (c : closer) (j : Job.t) : option (Job.t * option closer) :=
  match c with
  | Entering =>
      match Job.closeOnce j with
      | Unused => Some (Job.mk (Job.startOnce j) Running (Job.stop j) (Job.cancelled j) (Job.done j) (Job.goroutine j) (Job.closers j) (Job.batches j),
                        Some Stopping)
      | Running => None
      | Used => Some (j, None)
      end
  | Stopping => Some (Job.mk (Job.startOnce j) (Job.closeOnce j) true (Job.cancelled j) (Job.done j) (Job.goroutine j) (Job.closers j) (Job.batches j), Some Cancelling)
  | Cancelling => Some (Job.mk (Job.startOnce j) (Job.closeOnce j) (Job.stop j) true (Job.done j) (Job.goroutine j) (Job.closers j) (Job.batches j), Some Guarding)
  | Guarding =>
      Some (if Job.startOnce j then j
            else Job.mk true (Job.closeOnce j) (Job.stop j) (Job.cancelled j) (S (Job.done j)) (Job.goroutine j) (Job.closers j) (Job.batches j),
            Some Waiting)
  | Waiting =>
      match Job.done j with
      | O => None
      | S _ => Some (Job.mk (Job.startOnce j) Used (Job.stop j) (Job.cancelled j) (Job.done j) (Job.goroutine j) (Job.closers j) (Job.batches j), None)
      end
  end.

(** The goroutine's next step but for a tick; [None] at a select with nothing to receive. *)
Definition loop_step (l : loop) (j : Job.t) : option Job.t :=
  match l with
  | Selecting => if Job.stop j then Some (Job.finish j) else None
  | Passing =>
      if Job.cancelled j then Some (Job.set_goroutine (Some Selecting) j)
      else Some (Job.mk (Job.startOnce j) (Job.closeOnce j) (Job.stop j) (Job.cancelled j) (Job.done j) (Some Batching) (Job.closers j) (S (Job.batches j)))
  | Batching => Some (Job.set_goroutine (Some Passing) j)
  end.

(** What needs nobody else: the goroutine's steps and the closers'. *)
Inductive own_step : Job.t → Job.t → Prop :=
  | own_loop j j' l : Job.goroutine j = Some l → loop_step l j = Some j' → own_step j j'
  | own_close j j' c c' h1 h2 :
      Job.closers j = h1 ++ c :: h2 → close_step c j = Some (j', c') →
      own_step j (Job.set_closers (h1 ++ option_list c' ++ h2) j').

(** And a tick, the end of a pass, which what its batches answer decides, and new callers. *)
Inductive step : Job.t → Job.t → Prop :=
  | step_own j j' : own_step j j' → step j j'
  | step_tick j : Job.goroutine j = Some Selecting → step j (Job.set_goroutine (Some Passing) j)
  | step_pass_ends j : Job.goroutine j = Some Passing → step j (Job.set_goroutine (Some Selecting) j)
  | step_start j : step j (start j)
  | step_close j : step j (Job.set_closers (Entering :: Job.closers j) j).

(** ** What always holds *)

Definition inside (c : closer) : Prop := c ≠ Entering.
#[global] Instance closer_eq : EqDecision closer.
Proof. solve_decision. Defined.
#[global] Instance inside_dec c : Decision (inside c).
Proof. unfold inside. apply _. Defined.

(** The guard of [Close] has one caller inside while it runs, and none before or after. *)
Definition guarded (j : Job.t) : Prop :=
  match Job.closeOnce j with
  | Unused => filter inside (Job.closers j) = [] ∧ Job.stop j = false ∧ Job.cancelled j = false
  | Running =>
      ∃ c, filter inside (Job.closers j) = [c] ∧
        match c with
        | Entering => False
        | Stopping => Job.stop j = false ∧ Job.cancelled j = false
        | Cancelling => Job.stop j = true ∧ Job.cancelled j = false
        | Guarding => Job.stop j = true ∧ Job.cancelled j = true
        | Waiting => Job.stop j = true ∧ Job.cancelled j = true ∧ Job.startOnce j = true
        end
  | Used => filter inside (Job.closers j) = [] ∧ Job.stop j = true ∧ Job.cancelled j = true ∧ Job.done j = 1%nat
  end.

(** [done] is closed once, by the goroutine or in its place. *)
Definition counted (j : Job.t) : Prop :=
  match Job.goroutine j with
  | Some _ => Job.startOnce j = true ∧ Job.done j = 0%nat
  | None => Job.done j = if Job.startOnce j then 1%nat else 0%nat
  end.

Lemma filter_middle c h1 h2 :
  filter inside (h1 ++ c :: h2) = filter inside h1 ++ (if decide (inside c) then [c] else []) ++ filter inside h2.
Proof. rewrite filter_app, filter_cons. by case_decide. Qed.

Lemma alone_inside (c c' : closer) (l1 l2 : list closer) : l1 ++ c :: l2 = [c'] → l1 = [] ∧ l2 = [] ∧ c = c'.
Proof. destruct l1 as [|x [|y l1] ]; cbn; intros [=]; subst; done. Qed.

Lemma kept_close j j' c c' h1 h2 :
  Job.closers j = h1 ++ c :: h2 → close_step c j = Some (j', c') → guarded j → counted j →
  guarded (Job.set_closers (h1 ++ option_list c' ++ h2) j') ∧ counted (Job.set_closers (h1 ++ option_list c' ++ h2) j').
Proof.
  intros Hc Hs Hg Hn. unfold guarded in Hg. rewrite Hc, filter_middle in Hg.
  destruct c; cbn in Hs.
  - (* entering *)
    destruct (Job.closeOnce j) eqn:Ho; [|done|]; injection Hs as <- <-.
    + rewrite decide_False in Hg by (by intros []). destruct Hg as (Hf & Hst & Hca).
      split; [|exact Hn]. unfold guarded. cbn. exists Stopping. rewrite filter_middle. cbn in Hf.
      apply app_nil in Hf as [-> ->]. by split.
    + rewrite decide_False in Hg by (by intros []). destruct Hg as (Hf & Hrest).
      split; [|exact Hn]. unfold guarded. cbn. rewrite ?Ho. split; [|done]. by rewrite filter_app.
  - destruct (Job.closeOnce j) eqn:Ho; rewrite decide_True in Hg by done; cbn in Hg.
    + by destruct Hg as [ [? [=] ]%app_nil _].
    + destruct Hg as (x & (Ha & Hb & <-)%alone_inside & Hst & Hca). injection Hs as <- <-.
      split; [|exact Hn]. unfold guarded. cbn. rewrite ?Ho. exists Cancelling. rewrite filter_middle, Ha, Hb. by split.
    + by destruct Hg as [ [? [=] ]%app_nil _].
  - destruct (Job.closeOnce j) eqn:Ho; rewrite decide_True in Hg by done; cbn in Hg.
    + by destruct Hg as [ [? [=] ]%app_nil _].
    + destruct Hg as (x & (Ha & Hb & <-)%alone_inside & Hst & Hca). injection Hs as <- <-.
      split; [|exact Hn]. unfold guarded. cbn. rewrite ?Ho. exists Guarding. rewrite filter_middle, Ha, Hb. by split.
    + by destruct Hg as [ [? [=] ]%app_nil _].
  - destruct (Job.closeOnce j) eqn:Ho; rewrite decide_True in Hg by done; cbn in Hg.
    + by destruct Hg as [ [? [=] ]%app_nil _].
    + destruct Hg as (x & (Ha & Hb & <-)%alone_inside & Hst & Hca). injection Hs as <- <-.
      unfold guarded, counted in *. destruct (Job.startOnce j) eqn:Hso; cbn; rewrite ?Ho, ?Hso.
      * split; [|exact Hn]. exists Waiting. rewrite filter_middle, Ha, Hb. by split.
      * destruct (Job.goroutine j) eqn:Hgo; [by destruct Hn|]. split; [|by rewrite Hn].
        exists Waiting. rewrite filter_middle, Ha, Hb. by split.
    + by destruct Hg as [ [? [=] ]%app_nil _].
  - destruct (Job.closeOnce j) eqn:Ho; rewrite decide_True in Hg by done; cbn in Hg.
    + by destruct Hg as [ [? [=] ]%app_nil _].
    + destruct Hg as (x & (Ha & Hb & <-)%alone_inside & Hst & Hca & Hso). destruct (Job.done j) as [|n] eqn:Hd; [done|].
      injection Hs as <- <-. split; [|unfold counted in *; cbn in *; by rewrite ?Hd in Hn].
      unfold guarded. cbn. rewrite filter_app, Ha, Hb. split_and!; try done. unfold counted in Hn. rewrite Hd, Hso in Hn.
      destruct (Job.goroutine j); [by destruct Hn as [_ [=] ]|done].
    + by destruct Hg as [ [? [=] ]%app_nil _].
Qed.

Lemma kept_loop j j' l :
  Job.goroutine j = Some l → loop_step l j = Some j' → guarded j → counted j → guarded j' ∧ counted j'.
Proof.
  intros Hl Hs Hg Hn. unfold counted in Hn. rewrite Hl in Hn. destruct Hn as [Hso Hd].
  assert (Hquiet : Job.closeOnce j ≠ Used).
  { intros Ho. unfold guarded in Hg. rewrite Ho in Hg. destruct Hg as (_ & _ & _ & Hone). by rewrite Hd in Hone. }
  assert (Hsame : ∀ g b, guarded (Job.mk (Job.startOnce j) (Job.closeOnce j) (Job.stop j) (Job.cancelled j) (Job.done j) g (Job.closers j) b))
    by (intros g b; exact Hg).
  destruct l; cbn in Hs.
  - destruct (Job.stop j) eqn:Hst; [|done]. injection Hs as <-. split.
    + unfold guarded in *. cbn. by destruct (Job.closeOnce j).
    + unfold counted. cbn. by rewrite Hso, Hd.
  - destruct (Job.cancelled j) eqn:Hca; injection Hs as <-; (split; [|done]); [|apply Hsame].
    unfold guarded in *. cbn. by rewrite Hca in *.
  - injection Hs as <-. split; [apply Hsame|done].
Qed.

Lemma kept j j' : step j j' → guarded j → counted j → guarded j' ∧ counted j'.
Proof.
  destruct 1 as [j j' [j1 j2 l Hl Hs|j1 j2 c c' h1 h2 Hc Hs] |j Hl|j Hl|j|j]; intros Hg Hn.
  - by eapply kept_loop.
  - by eapply kept_close.
  - split; [exact Hg|]. unfold counted in *. by rewrite Hl in Hn.
  - split; [exact Hg|]. unfold counted in *. by rewrite Hl in Hn.
  - unfold start. destruct (Job.startOnce j) eqn:Hso; [done|]. unfold counted in Hn.
    destruct (Job.goroutine j) eqn:Hgo; [by rewrite Hso in Hn; destruct Hn|]. rewrite Hso in Hn.
    split; [|by split]. unfold guarded in *. cbn. destruct (Job.closeOnce j); [done| |].
    + destruct Hg as (c & Hf & Hrest). exists c. split; [done|]. destruct c; try done. by rewrite Hso in Hrest; destruct Hrest as (_ & _ & [=]).
    + destruct Hg as (_ & _ & _ & Hone). by rewrite Hn in Hone.
  - split; [|exact Hn]. unfold guarded in *. cbn [Job.set_closers Job.closeOnce Job.closers Job.stop Job.cancelled Job.done Job.startOnce].
    by rewrite filter_cons_False by (by intros []).
Qed.

Definition reachable (j : Job.t) : Prop := rtc step initial j.

Lemma job_kept j : reachable j → guarded j ∧ counted j.
Proof.
  intros Hrun. assert (Hk : guarded initial ∧ counted initial) by done.
  unfold reachable in Hrun. revert Hk. induction Hrun as [|j j1 j2 Hstep _ IH]; [done|]. intros [Hg Hn].
  apply IH. by eapply kept.
Qed.

(** ** The steps left once [Close] is inside *)

Definition loop_left (l : option loop) : nat :=
  match l with Some Selecting => 1 | Some Passing => 2 | Some Batching => 3 | None => 0 end.
Definition closer_left (c : closer) : nat :=
  match c with Entering => 5 | Stopping => 4 | Cancelling => 3 | Guarding => 2 | Waiting => 1 end.
Definition work (j : Job.t) : nat := loop_left (Job.goroutine j) + sum_list_with closer_left (Job.closers j).

Lemma job_work j j' : own_step j j' → Job.cancelled j = true → (work j' < work j)%nat ∧ Job.cancelled j' = true.
Proof.
  destruct 1 as [j j' l Hl Hs|j j' c c' h1 h2 Hc Hs]; intros Hca; unfold work.
  - rewrite Hl. destruct l; cbn in Hs.
    + destruct (Job.stop j); [|done]. injection Hs as <-. cbn. split; [lia|done].
    + rewrite Hca in Hs. injection Hs as <-. cbn. split; [lia|done].
    + injection Hs as <-. cbn. split; [lia|done].
  - rewrite Hc. cbn [Job.set_closers Job.goroutine Job.closers Job.cancelled]. rewrite !sum_list_with_app. cbn.
    assert (Job.goroutine j' = Job.goroutine j ∧ Job.cancelled j' = true ∧
      (sum_list_with closer_left (option_list c') < closer_left c)%nat) as (-> & -> & Hlt); [|split; [lia|done] ].
    destruct c; cbn in Hs.
    + destruct (Job.closeOnce j); [|done|]; injection Hs as <- <-; cbn; (split; [done|split; [done|lia] ]).
    + injection Hs as <- <-. cbn. split; [done|split; [done|lia] ].
    + injection Hs as <- <-. cbn. split; [done|split; [done|lia] ].
    + injection Hs as <- <-. destruct (Job.startOnce j); cbn; (split; [done|split; [done|lia] ]).
    + destruct (Job.done j); [done|]. injection Hs as <- <-. cbn. split; [done|split; [done|lia] ].
Qed.

(** A job whose context has ended and that has no step left is finished, and nobody waits for it. *)
Lemma stuck_done j :
  guarded j → counted j → Job.cancelled j = true → nf own_step j → Job.closers j = [] ∧ Job.goroutine j = None.
Proof.
  intros Hg Hn Hca Hnf.
  assert (Hcl : ∀ c h1 h2, Job.closers j = h1 ++ c :: h2 → close_step c j = None).
  { intros c h1 h2 Hc. destruct (close_step c j) as [ [j' c']|] eqn:Hs; [|done]. destruct Hnf. eexists. by eapply own_close. }
  assert (Hlo : ∀ l, Job.goroutine j = Some l → loop_step l j = None).
  { intros l Hl. destruct (loop_step l j) eqn:Hs; [|done]. destruct Hnf. eexists. by eapply own_loop. }
  unfold guarded in Hg. destruct (Job.closeOnce j) eqn:Ho.
  - destruct Hg as (_ & _ & H). by rewrite H in Hca.
  - exfalso. destruct Hg as (c & Hf & Hc).
    assert (Hin : c ∈ Job.closers j) by (apply (list_elem_of_filter inside); rewrite Hf; by left).
    apply list_elem_of_split in Hin as (h1 & h2 & E). specialize (Hcl c h1 h2 E). destruct c; cbn in Hcl; try done.
    destruct Hc as (Hst & _ & Hso). destruct (Job.done j) eqn:Hd; [|done]. unfold counted in Hn.
    destruct (Job.goroutine j) as [l|]; [|by rewrite Hso, Hd in Hn].
    specialize (Hlo l eq_refl). destruct l; cbn in Hlo; [by rewrite Hst in Hlo|by rewrite Hca in Hlo|done].
  - destruct Hg as (Hf & _ & _ & Hone). unfold counted in Hn. destruct (Job.goroutine j); [by rewrite Hone in Hn; destruct Hn|].
    split; [|done]. destruct (Job.closers j) as [|c cs] eqn:E; [done|]. specialize (Hcl c [] cs eq_refl).
    rewrite filter_cons in Hf. case_decide as Hi; [done|]. destruct c; try (by destruct Hi). cbn in Hcl. by rewrite Ho in Hcl.
Qed.

(** Once [Close] has returned nothing is left of the goroutine, and nothing ever starts one. *)
Lemma closed_stays j j' : step j j' → guarded j → counted j → Job.closeOnce j = Used →
  Job.closeOnce j' = Used ∧ Job.batches j' = Job.batches j.
Proof.
  intros Hstep Hg Hn Ho.
  assert (Hgone : Job.goroutine j = None ∧ Job.startOnce j = true).
  { unfold guarded in Hg. rewrite Ho in Hg. destruct Hg as (_ & _ & _ & Hone). unfold counted in Hn.
    destruct (Job.goroutine j); [by rewrite Hone in Hn; destruct Hn|]. rewrite Hone in Hn. by destruct (Job.startOnce j). }
  destruct Hgone as [Hgo Hso].
  destruct Hstep as [j j' [j1 j2 l Hl Hs|j1 j2 c c' h1 h2 Hc Hs] |j Hl|j Hl|j|j]; try congruence.
  - destruct c; cbn in Hs.
    + rewrite Ho in Hs. by injection Hs as <- <-.
    + by injection Hs as <- <-.
    + by injection Hs as <- <-.
    + rewrite Hso in Hs. by injection Hs as <- <-.
    + destruct (Job.done j1); [done|]. by injection Hs as <- <-.
  - unfold start. by rewrite Hso.
  - done.
Qed.

(** [Close] waits for the goroutine: its channel is closed once however [Start] and [Close] are
    called; once a call of [Close] has ended the context, the goroutine and all callers finish in a
    bounded number of their own steps, and are finished when none is left; and when a call has
    returned no batch is ever begun again. *)
Lemma close_waits j :
  reachable j →
  (Job.done j <= 1)%nat ∧
  (Job.cancelled j = true →
     (∀ n j', nsteps own_step n j j' → (n <= work j)%nat) ∧
     (∀ j', rtc own_step j j' → nf own_step j' → Job.closers j' = [] ∧ Job.goroutine j' = None)) ∧
  (Job.closeOnce j = Used → ∀ j', rtc step j j' → Job.batches j' = Job.batches j).
Proof.
  intros [Hg Hn]%job_kept. split; [|split].
  - unfold counted in Hn. destruct (Job.goroutine j); [lia|]. destruct (Job.startOnce j); lia.
  - intros Hca. split.
    + intros n j' Hrun. revert Hca. clear Hg Hn. induction Hrun as [j|n j j1 j2 Hstep _ IH]; [lia|]. intros Hca.
      destruct (job_work _ _ Hstep Hca) as [? Hca']. specialize (IH Hca'). lia.
    + intros j' Hrun. revert Hca Hg Hn. induction Hrun as [j|j j1 j2 Hstep _ IH]; intros Hca Hg Hn; [by apply stuck_done|].
      destruct (kept _ _ (step_own _ _ Hstep) Hg Hn). apply IH; [|done..]. by apply (job_work _ _ Hstep).
  - intros Ho j' Hrun. revert Hg Hn Ho. induction Hrun as [j|j j1 j2 Hstep _ IH]; intros Hg Hn Ho; [done|].
    destruct (closed_stays _ _ Hstep Hg Hn Ho) as [Ho' Hb]. destruct (kept _ _ Hstep Hg Hn). by rewrite IH.
Qed.
