(* ===== verification/PeerClose.v ===== *)
(** * The peer's goroutines and their end ([work], [refuseLoop], [sweepLoop], [answerLater] and [Close]
      of [peer/peer.go])

    The workers, the one consumer of refusals, the sweep, the answers that wait out their floor, the
    receive callback that waits for room in the queue and the callers of [Close], as steps that
    interleave, over what they share: the wait group, the lengths of the two queues, the two
    semaphores and the context.  What a job is answered is [Dispatch]'s, and what a frame is decided
    [Receive]'s; here a job is only something to be answered now or later. *)

From S2P Require Import Prelude.

(** A goroutine between two of its waits.  A size is that of an answer's encoding. *)
Inductive goroutine : Type :=
  | Work | Answering | Sending | WantSlot (size : Z) | WantBytes (held : Z)
  | Later (held : Z) | SendingLater (held : Z)
  | RefuseLoop | Refusing | SweepLoop | Sweeping.

(** How far the body of [Close]'s guard has come. *)
Inductive once : Type := Unused | Unsubscribing | Cancelling | Used.

(** What they share: [workers], the wait group's count; [jobs] and [refusals], the lengths of the
    queues; [deferred] and [deferredBytes], what the semaphores have given out. *)
Module Shared.
Record t := mk {
  workers : Z;
  jobs : nat;
  refusals : nat;
  deferred : nat;
  deferredBytes : Z;
  cancelled : bool }.
Definition leave (s : t) : t := mk (workers s - 1) (jobs s) (refusals s) (deferred s) (deferredBytes s) (cancelled s).
Definition takeJob (s : t) : t := mk (workers s) (jobs s - 1) (refusals s) (deferred s) (deferredBytes s) (cancelled s).
Definition putJob (s : t) : t := mk (workers s) (S (jobs s)) (refusals s) (deferred s) (deferredBytes s) (cancelled s).
Definition takeRefusal (s : t) : t := mk (workers s) (jobs s) (refusals s - 1) (deferred s) (deferredBytes s) (cancelled s).
Definition putRefusal (s : t) : t := mk (workers s) (jobs s) (S (refusals s)) (deferred s) (deferredBytes s) (cancelled s).
Definition takeSlot (s : t) : t := mk (workers s) (jobs s) (refusals s) (S (deferred s)) (deferredBytes s) (cancelled s).
Definition giveSlot (s : t) : t := mk (workers s) (jobs s) (refusals s) (deferred s - 1) (deferredBytes s) (cancelled s).
Definition takeBytes (held : Z) (s : t) : t := mk (workers s) (jobs s) (refusals s) (deferred s) (deferredBytes s + held) (cancelled s).
Definition giveBytes (held : Z) (s : t) : t := mk (workers s) (jobs s) (refusals s) (deferred s) (deferredBytes s - held) (cancelled s).
Definition join (s : t) : t := mk (workers s + 1) (jobs s) (refusals s) (deferred s) (deferredBytes s) (cancelled s).
Definition cancel (s : t) : t := mk (workers s) (jobs s) (refusals s) (deferred s) (deferredBytes s) true.
End Shared.

(** [parked] receive callbacks wait in [enqueue]; [entering] callers of [Close] are in front of the
    guard and [waiting] ones at the wait group. *)
Record peer : Type := Peer {
  goroutines : list goroutine;
  shared : Shared.t;
  parked : nat;
  closeOnce : once;
  unsubscribed : bool;
  entering : nat;
  waiting : nat }.

Section Running.
Context (queueDepth maxDeferred : nat) (maxDeferredBytes : Z).

(** [New]: the workers, the consumer of refusals, the sweep. *)
Definition opened (workers : nat) : peer :=
  Peer (repeat Work workers ++ [RefuseLoop; SweepLoop])
    (Shared.mk (Z.of_nat workers + 2) 0 0 0 0 false) 0 Unused false 0 0.

(** The end of a deferred answer: its bytes, its slot, its place in the wait group. *)
Definition release (held : Z) (s : Shared.t) : Shared.t := Shared.leave (Shared.giveSlot (Shared.giveBytes held s)).

(** A step of a goroutine, and the goroutines it leaves.  Handling, sending and sweeping end; a select
    whose context has ended may still take what is in its queue. *)
Inductive moves : goroutine → Shared.t → list goroutine → Shared.t → Prop :=
  | work_ends s : Shared.cancelled s = true → moves Work s [] (Shared.leave s)
  | work_takes s : (0 < Shared.jobs s)%nat → moves Work s [Answering] (Shared.takeJob s)
  | work_answers s : moves Answering s [Sending] s
  | work_defers s size : 0 <= size → moves Answering s [WantSlot size] s
  | work_sent s : moves Sending s [Work] s
  | slot_taken s size :
      (Shared.deferred s < maxDeferred)%nat → moves (WantSlot size) s [WantBytes (size `min` maxDeferredBytes)] (Shared.takeSlot s)
  | slot_cancelled s size : Shared.cancelled s = true → moves (WantSlot size) s [Work] s
  | bytes_taken s held :
      Shared.deferredBytes s + held <= maxDeferredBytes →
      moves (WantBytes held) s [Work; Later held] (Shared.join (Shared.takeBytes held s))
  | bytes_cancelled s held : Shared.cancelled s = true → moves (WantBytes held) s [Work] (Shared.giveSlot s)
  | later_due s held : moves (Later held) s [SendingLater held] s
  | later_cancelled s held : Shared.cancelled s = true → moves (Later held) s [] (release held s)
  | later_sent s held : moves (SendingLater held) s [] (release held s)
  | refuse_ends s : Shared.cancelled s = true → moves RefuseLoop s [] (Shared.leave s)
  | refuse_takes s : (0 < Shared.refusals s)%nat → moves RefuseLoop s [Refusing] (Shared.takeRefusal s)
  | refused s : moves Refusing s [RefuseLoop] s
  | sweep_ends s : Shared.cancelled s = true → moves SweepLoop s [] (Shared.leave s)
  | swept s : moves Sweeping s [SweepLoop] s.

Definition with_shared (s : Shared.t) (parked : nat) (p : peer) : peer :=
  Peer (goroutines p) s parked (closeOnce p) (unsubscribed p) (entering p) (waiting p).

(** What needs nobody from outside. *)
Inductive own_step : peer → peer → Prop :=
  | own_move gs1 gs2 g gs s s' k o u e w :
      moves g s gs s' →
      own_step (Peer (gs1 ++ g :: gs2) s k o u e w) (Peer (gs1 ++ gs ++ gs2) s' k o u e w)
  | own_enqueued p k :
      parked p = S k → (Shared.jobs (shared p) < queueDepth)%nat →
      own_step p (with_shared (Shared.putJob (shared p)) k p)
  | own_abandoned p k :
      parked p = S k → Shared.cancelled (shared p) = true → own_step p (with_shared (shared p) k p)
  | own_enters gs s k u e w : own_step (Peer gs s k Unused u (S e) w) (Peer gs s k Unsubscribing u e w)
  | own_unsubscribes gs s k u e w : own_step (Peer gs s k Unsubscribing u e w) (Peer gs s k Cancelling true e w)
  | own_cancels gs s k u e w : own_step (Peer gs s k Cancelling u e w) (Peer gs (Shared.cancel s) k Used u e (S w))
  | own_passes gs s k u e w : own_step (Peer gs s k Used u (S e) w) (Peer gs s k Used u e (S w))
  | own_waited gs s k o u e w : Shared.workers s = 0 → own_step (Peer gs s k o u e (S w)) (Peer gs s k o u e w).

(** And frames, ticks, the end of the client's context, callers of [Close]. *)
Inductive step : peer → peer → Prop :=
  | step_own p p' : own_step p p' → step p p'
  | step_job p : unsubscribed p = false → step p (with_shared (shared p) (S (parked p)) p)
  | step_refusal p :
      unsubscribed p = false → (Shared.refusals (shared p) < queueDepth)%nat →
      step p (with_shared (Shared.putRefusal (shared p)) (parked p) p)
  | step_tick gs1 gs2 s k o u e w :
      step (Peer (gs1 ++ SweepLoop :: gs2) s k o u e w) (Peer (gs1 ++ Sweeping :: gs2) s k o u e w)
  | step_client_ends p : step p (with_shared (Shared.cancel (shared p)) (parked p) p)
  | step_close gs s k o u e w : step (Peer gs s k o u e w) (Peer gs s k o u (S e) w).

Definition reachable (workers : nat) (p : peer) : Prop := rtc step (opened workers) p.

(** ** What always holds *)

Definition slots_of (g : goroutine) : nat :=
  match g with WantBytes _ | Later _ | SendingLater _ => 1 | _ => 0 end.
Definition bytes_of (g : goroutine) : Z := match g with Later held | SendingLater held => held | _ => 0 end.
Definition wanted (g : goroutine) : Prop :=
  match g with WantSlot size => 0 <= size | WantBytes held | Later held | SendingLater held => 0 <= held | _ => True end.
Definition sum_bytes (gs : list goroutine) : Z := foldr (λ g n, bytes_of g + n) 0 gs.

(** The wait group counts the goroutines, and the semaphores what they hold, within their bounds. *)
Record held (p : peer) : Prop := Held {
  held_workers : Shared.workers (shared p) = Z.of_nat (length (goroutines p));
  held_slots : Shared.deferred (shared p) = sum_list_with slots_of (goroutines p);
  held_bytes : Shared.deferredBytes (shared p) = sum_bytes (goroutines p);
  held_wanted : Forall wanted (goroutines p);
  held_bounds : (Shared.deferred (shared p) <= maxDeferred)%nat ∧ Shared.deferredBytes (shared p) <= maxDeferredBytes;
  held_once : closeOnce p = Used → Shared.cancelled (shared p) = true;
  held_waiting : (0 < waiting p)%nat → closeOnce p = Used }.

Lemma sum_bytes_app gs1 gs2 : sum_bytes (gs1 ++ gs2) = sum_bytes gs1 + sum_bytes gs2.
Proof. induction gs1 as [|g gs1 IH]; cbn; [done|]. fold (sum_bytes (gs1 ++ gs2)). fold (sum_bytes gs1). lia. Qed.

Lemma sum_bytes_nonneg gs : Forall wanted gs → 0 <= sum_bytes gs.
Proof. induction 1 as [|g gs Hg _ IH]; cbn; [done|]. fold (sum_bytes gs). destruct g; cbn in *; lia. Qed.

Hypothesis budget_positive : 0 <= maxDeferredBytes.

(** What a step of one goroutine does to the counts. *)
Lemma moves_counts g s gs s' :
  moves g s gs s' → wanted g → (slots_of g <= Shared.deferred s)%nat →
  Shared.workers s' = Shared.workers s + Z.of_nat (length gs) - 1 ∧
  (Shared.deferred s' + slots_of g)%nat = (Shared.deferred s + sum_list_with slots_of gs)%nat ∧
  Shared.deferredBytes s' + bytes_of g = Shared.deferredBytes s + sum_bytes gs ∧
  Forall wanted gs ∧ Shared.cancelled s' = Shared.cancelled s ∧
  ((Shared.deferred s <= maxDeferred)%nat → (Shared.deferred s' <= maxDeferred)%nat) ∧
  (Shared.deferredBytes s <= maxDeferredBytes → Shared.deferredBytes s' <= maxDeferredBytes).
Proof.
  destruct 1; cbn; intros Hw Hs; split_and!; try done; try lia.
  all: repeat (constructor; cbn; try lia).
Qed.

Lemma held_own p p' : own_step p p' → held p → held p'.
Proof.
  destruct 1 as [gs1 gs2 g gs s s' k o u e w Hm|p k|p k| | | | |]; intros [H1 H2 H3 H4 H5 H6 H7]; cbn in *.
  - apply Forall_app in H4 as [W1 [Wg W2]%Forall_cons].
    rewrite length_app in H1. rewrite sum_list_with_app in H2. rewrite sum_bytes_app in H3. cbn in *. fold (sum_bytes gs2) in H3.
    destruct (moves_counts _ _ _ _ Hm Wg) as (C1 & C2 & C3 & C4 & C5 & C6 & C7); [lia|].
    split; cbn; try done.
    + rewrite C1, H1, !length_app. lia.
    + rewrite !sum_list_with_app. lia.
    + rewrite !sum_bytes_app. lia.
    + apply Forall_app. split; [done|]. by apply Forall_app.
    + destruct H5. auto.
    + by rewrite C5.
  - by split.
  - by split.
  - split; cbn; try done. intros Hw. by specialize (H7 Hw).
  - split; cbn; try done. intros Hw. by specialize (H7 Hw).
  - by split.
  - by split.
  - split; cbn; try done. intros Hw. apply H7. lia.
Qed.

Lemma held_step p p' : step p p' → held p → held p'.
Proof.
  destruct 1 as [p p' Hs|p Hu|p Hu Hr|gs1 gs2 s k o u e w|p|gs s k o u e w].
  - by apply held_own.
  - intros []. by split.
  - intros []. by split.
  - intros [H1 H2 H3 H4 H5 H6 H7]. cbn in *. rewrite length_app in H1. rewrite sum_list_with_app in H2. rewrite sum_bytes_app in H3.
    apply Forall_app in H4 as [W1 [_ W2]%Forall_cons].
    split; cbn; try done; rewrite ?length_app, ?sum_list_with_app, ?sum_bytes_app; try done.
    apply Forall_app. split; [done|]. by constructor.
  - intros []. by split.
  - intros []. by split.
Qed.

Lemma held_opened workers : held (opened workers).
Proof.
  assert (Hall : ∀ n, sum_list_with slots_of (repeat Work n ++ [RefuseLoop; SweepLoop]) = 0%nat ∧
    sum_bytes (repeat Work n ++ [RefuseLoop; SweepLoop]) = 0 ∧ Forall wanted (repeat Work n ++ [RefuseLoop; SweepLoop])).
  { induction n as [|n (I1 & I2 & I3)]; cbn in *; [by repeat constructor|]. fold (sum_bytes (repeat Work n ++ [RefuseLoop; SweepLoop])).
    split_and!; [done|lia|by constructor]. }
  destruct (Hall workers) as (I1 & I2 & I3).
  split; cbn; try done.
  - rewrite length_app, repeat_length. cbn. lia.
  - split; [lia|done].
  - lia.
Qed.

Lemma held_reachable workers p : reachable workers p → held p.
Proof.
  intros Hrun. assert (Hk := held_opened workers). unfold reachable in Hrun. revert Hk.
  induction Hrun as [|p p1 p2 Hstep _ IH]; [done|]. intros Hk. apply IH. by eapply held_step.
Qed.

(** ** The steps left *)

Definition move_left (g : goroutine) : nat :=
  match g with
  | Work => 1 | Sending => 2 | Later _ => 3 | SendingLater _ => 2 | WantBytes _ => 5 | WantSlot _ => 6 | Answering => 7
  | RefuseLoop => 1 | Refusing => 2 | SweepLoop => 1 | Sweeping => 2
  end.
Definition once_left (o : once) : nat := match o with Unsubscribing => 3 | Cancelling => 2 | _ => 0 end.
Definition work (p : peer) : nat :=
  sum_list_with move_left (goroutines p) + 8 * Shared.jobs (shared p) + 4 * Shared.refusals (shared p) +
  9 * parked p + 5 * entering p + once_left (closeOnce p) + waiting p.

Lemma moves_work g s gs s' : moves g s gs s' →
  (sum_list_with move_left gs + 8 * Shared.jobs s' + 4 * Shared.refusals s' < move_left g + 8 * Shared.jobs s + 4 * Shared.refusals s)%nat.
Proof. destruct 1; cbn; lia. Qed.

Lemma goroutine_work p p' : own_step p p' → (work p' < work p)%nat.
Proof.
  destruct 1 as [gs1 gs2 g gs s s' k o u e w Hm|p k Hk Hj|p k Hk Hc| | | | |]; unfold work; cbn; try lia.
  apply moves_work in Hm. rewrite !sum_list_with_app. cbn. lia.
Qed.

(** With the context ended every goroutine can go on. *)
Lemma cancelled_moves g s : Shared.cancelled s = true → ∃ gs s', moves g s gs s'.
Proof.
  intros Hc. destruct g; eauto using moves.
Qed.

Lemma nothing_left p : held p → closeOnce p ≠ Unused → nf own_step p →
  goroutines p = [] ∧ parked p = 0%nat ∧ entering p = 0%nat ∧ waiting p = 0%nat ∧
  Shared.workers (shared p) = 0 ∧ Shared.deferred (shared p) = 0%nat ∧ Shared.deferredBytes (shared p) = 0.
Proof.
  intros Hh Ho Hnf. destruct p as [gs s k o u e w]. cbn in *.
  destruct o; [done| | |].
  { destruct Hnf. eexists. apply own_unsubscribes. }
  { destruct Hnf. eexists. apply own_cancels. }
  assert (Hc := held_once _ Hh eq_refl). cbn in Hc.
  destruct gs as [|g gs].
  2:{ destruct Hnf. destruct (cancelled_moves g s Hc) as (gs' & s' & Hm). eexists. by apply (own_move [] gs g gs' s s'). }
  destruct k as [|k]; [|destruct Hnf; eexists; by eapply own_abandoned].
  destruct e as [|e]; [|destruct Hnf; eexists; apply own_passes].
  assert (Hw := held_workers _ Hh). cbn in Hw.
  destruct w as [|w]; [|destruct Hnf; eexists; by apply own_waited].
  split_and!; try done; [apply (held_slots _ Hh)|apply (held_bytes _ Hh)].
Qed.

Lemma once_stays p p' : own_step p p' → closeOnce p ≠ Unused → closeOnce p' ≠ Unused.
Proof. by destruct 1. Qed.

(** However frames, ticks, deferred answers and callers of [Close] interleave, the wait group counts the
    goroutines, no semaphore gives out more than it has, and what a deferred answer holds is given
    back with its end.  Once [Close] is inside its guard, the goroutines, the parked callbacks and all
    callers of [Close] finish in a bounded number of their own steps; and when no step is left there
    is none of them, and everything the semaphores gave out is back. *)
Lemma close_ends_everything workers p :
  reachable workers p →
  held p ∧
  (closeOnce p ≠ Unused →
     (∀ n p', nsteps own_step n p p' → (n <= work p)%nat) ∧
     (∀ p', rtc own_step p p' → nf own_step p' →
        goroutines p' = [] ∧ parked p' = 0%nat ∧ entering p' = 0%nat ∧ waiting p' = 0%nat ∧
        Shared.workers (shared p') = 0 ∧ Shared.deferred (shared p') = 0%nat ∧ Shared.deferredBytes (shared p') = 0)).
Proof.
  intros Hh%held_reachable. split; [done|]. intros Ho. split.
  - intros n p' Hrun%(nsteps_measure own_step work goroutine_work). lia.
  - intros p' Hrun. revert Hh Ho. induction Hrun as [p|p p1 p2 Hstep _ IH]; intros Hh Ho; [by apply nothing_left|].
    apply IH; [by eapply held_own|by eapply once_stays].
Qed.
End Running.
